(** * BatonCore: the plan-then-execute engine of [ctl.ts] and the result
    synthesizer of [web-automation.ts]

    A shallow embedding of the TypeScript sources.  JavaScript strings are
    modelled as [string], read as sequences of code units below 256
    (Latin-1); the string primitives of the platform ([toLowerCase], [trim],
    [includes], regular expressions, [JSON.parse], [JSON.stringify]) are
    written out for that alphabet.  Promises, [await] and [throw] become a
    state-and-exception monad over the state of the outside world.

    The capability provider, the reading of the page and the task runner of
    [web-automation.ts], and the handler of the server, are embedded over
    the same monad; the calls they make on the browser are kept in a log
    beside the state of the outside world. *)

From Stdlib Require Import Ascii NArith DecimalString DecimalNat.
From stdpp Require Import base option list strings gmap.

Set Default Proof Using "Type".

(** ** Code units and character classes *)

Module Js.

Definition code (c : ascii) : N := N_of_ascii c.

Definition between (lo hi : N) (c : ascii) : bool :=
  ((lo <=? code c) && (code c <=? hi))%N.

Definition is_lower_az (c : ascii) : bool := between 97 122 c.
Definition is_digit (c : ascii) : bool := between 48 57 c.

(** [WhiteSpace] and [LineTerminator] code units below 256: TAB, LF, VT, FF,
    CR, SP and NBSP.  This is the class of [\s] and of [trim]. *)
Definition is_space (c : ascii) : bool :=
  between 9 13 c || (code c =? 32)%N || (code c =? 160)%N.

(** [String.prototype.toLowerCase], one code unit at a time: A-Z, and the
    Latin-1 capitals U+00C0..U+00DE except the multiplication sign. *)
Definition lower_char (c : ascii) : ascii :=
  if between 65 90 c || (between 192 222 c && negb (code c =? 215)%N)
  then ascii_of_N (code c + 32)
  else c.

Fixpoint toLowerCase (s : string) : string :=
  match s with
  | EmptyString => EmptyString
  | String c s' => String (lower_char c) (toLowerCase s')
  end.

(** ** Elementary string operations *)

Fixpoint str_all (p : ascii -> bool) (s : string) : bool :=
  match s with
  | EmptyString => true
  | String c s' => p c && str_all p s'
  end.

Fixpoint str_rev_onto (s acc : string) : string :=
  match s with
  | EmptyString => acc
  | String c s' => str_rev_onto s' (String c acc)
  end.

Definition str_rev (s : string) : string := str_rev_onto s EmptyString.

Fixpoint trimStart (s : string) : string :=
  match s with
  | EmptyString => EmptyString
  | String c s' => if is_space c then trimStart s' else s
  end.

Definition trimEnd (s : string) : string := str_rev (trimStart (str_rev s)).

(** [String.prototype.trim] *)
Definition trim (s : string) : string := trimEnd (trimStart s).

(** [s.startsWith(p)] *)
Fixpoint startsWith (p s : string) : bool :=
  match p, s with
  | EmptyString, _ => true
  | String a p', String b s' => if Ascii.eqb a b then startsWith p' s' else false
  | String _ _, EmptyString => false
  end.

(** [s.includes(sub)] *)
Fixpoint includes (sub s : string) : bool :=
  if startsWith sub s then true
  else match s with
       | EmptyString => false
       | String _ s' => includes sub s'
       end.

(** [s.slice(0, n)] for [0 <= n] *)
Fixpoint slice0 (n : nat) (s : string) : string :=
  match n, s with
  | S n', String c s' => String c (slice0 n' s')
  | _, _ => EmptyString
  end.

Fixpoint drop (n : nat) (s : string) : string :=
  match n, s with
  | S n', String _ s' => drop n' s'
  | _, _ => s
  end.

Fixpoint repeat_char (c : ascii) (n : nat) : string :=
  match n with
  | O => EmptyString
  | S n' => String c (repeat_char c n')
  end.

(** [s.padStart(width, "0")] *)
Definition padStart0 (width : nat) (s : string) : string :=
  repeat_char "0" (width - String.length s) +:+ s.

(** [n.toString()] for a non-negative integer *)
Definition Number_toString (n : nat) : string :=
  NilEmpty.string_of_uint (Nat.to_uint n).

End Js.

(** ** Regular expressions

    A backtracking matcher in the order ECMAScript prescribes: alternatives
    left to right, a greedy star tries one more iteration before it tries
    the continuation, a lazy star the other way round, and an iteration of a
    star that consumes nothing is rejected. *)

Module Regex.

Inductive regex : Type :=
| REps
| RChar (p : ascii -> bool)
| RSeq (a b : regex)
| RAlt (a b : regex)
| RStar (greedy : bool) (a : regex)
| RBol
| REol
| RGroup (i : nat) (a : regex).

Definition captures : Type := list (nat * string).

(** end index, rest of the input after the match, captures *)
Definition mres : Type := nat * string * captures.

Definition cont : Type := nat -> string -> captures -> option mres.

(** The iterations of a star whose body is matched by [body].  An
    iteration that is kept has consumed a character, so the length of the
    input left, which [rmatch] passes as [fuel], bounds their number. *)
Fixpoint star_match (body : nat -> string -> captures -> cont -> option mres)
    (greedy : bool) (k : cont) (fuel : nat) (pos : nat) (s : string)
    (cs : captures) {struct fuel} : option mres :=
  match fuel with
  | O => k pos s cs
  | S fuel' =>
      let again pos' s' cs' :=
        if Nat.eqb pos' pos then None
        else star_match body greedy k fuel' pos' s' cs' in
      if greedy then
        match body pos s cs again with
        | Some m => Some m
        | None => k pos s cs
        end
      else
        match k pos s cs with
        | Some m => Some m
        | None => body pos s cs again
        end
  end.

(** [pos] is the index reached, [s] the input from there on and [k] what is
    left to match after [r]. *)
Fixpoint rmatch (r : regex) (pos : nat) (s : string) (cs : captures)
    (k : cont) {struct r} : option mres :=
  match r with
  | REps => k pos s cs
  | RChar p =>
      match s with
      | String c s' => if p c then k (S pos) s' cs else None
      | EmptyString => None
      end
  | RSeq a b => rmatch a pos s cs (fun pos' s' cs' => rmatch b pos' s' cs' k)
  | RAlt a b =>
      match rmatch a pos s cs k with
      | Some m => Some m
      | None => rmatch b pos s cs k
      end
  | RStar greedy a => star_match (rmatch a) greedy k (String.length s) pos s cs
  | RBol => if Nat.eqb pos 0 then k pos s cs else None
  | REol => match s with EmptyString => k pos s cs | String _ _ => None end
  | RGroup i a =>
      rmatch a pos s cs
        (fun pos' s' cs' => k pos' s' ((i, Js.slice0 (pos' - pos) s) :: cs'))
  end.

Definition accept : cont := fun pos s cs => Some (pos, s, cs).

(** One attempt at index [pos], where [s] is the input from [pos] on. *)
Definition match_at (r : regex) (pos : nat) (s : string) : option mres :=
  rmatch r pos s [] accept.

(** The leftmost match at or after [pos]: its start index and the match. *)
Fixpoint search_from (r : regex) (pos : nat) (s : string)
    : option (nat * mres) :=
  match match_at r pos s with
  | Some m => Some (pos, m)
  | None =>
      match s with
      | EmptyString => None
      | String _ s' => search_from r (S pos) s'
      end
  end.

(** [re.test(s)] *)
Definition test (r : regex) (s : string) : bool :=
  match search_from r 0 s with
  | Some _ => true
  | None => false
  end.

Fixpoint capture (i : nat) (cs : captures) : option string :=
  match cs with
  | [] => None
  | (j, w) :: cs' => if Nat.eqb i j then Some w else capture i cs'
  end.

(** [s.match(re)?.[i]] for a regex without the [g] flag *)
Definition match_group (r : regex) (i : nat) (s : string) : option string :=
  match search_from r 0 s with
  | Some (_, (_, _, cs)) => capture i cs
  | None => None
  end.

(** [s.replace(re, rep)] for a regex without the [g] flag and a replacement
    text without [$]. *)
Fixpoint replace_from (r : regex) (rep : string) (pos : nat) (s : string)
    : string :=
  match match_at r pos s with
  | Some (_, rest, _) => rep +:+ rest
  | None =>
      match s with
      | EmptyString => EmptyString
      | String c s' => String c (replace_from r rep (S pos) s')
      end
  end.

Definition replace (r : regex) (rep : string) (s : string) : string :=
  replace_from r rep 0 s.

(** [s.replace(re, rep)] for a regex with the [g] flag.  [skip] counts the
    code units still covered by the previous match; after an empty match the
    next attempt is one code unit further. *)
Fixpoint replace_all_from (r : regex) (rep : string) (skip pos : nat)
    (s : string) : string :=
  match skip with
  | S skip' =>
      match s with
      | EmptyString => EmptyString
      | String _ s' => replace_all_from r rep skip' (S pos) s'
      end
  | O =>
      match match_at r pos s with
      | Some (e, _, _) =>
          match s with
          | EmptyString => rep
          | String c s' =>
              if Nat.eqb e pos
              then rep +:+ String c (replace_all_from r rep 0 (S pos) s')
              else rep +:+ replace_all_from r rep (e - pos - 1) (S pos) s'
          end
      | None =>
          match s with
          | EmptyString => EmptyString
          | String c s' => String c (replace_all_from r rep 0 (S pos) s')
          end
      end
  end.

Definition replace_all (r : regex) (rep : string) (s : string) : string :=
  replace_all_from r rep 0 0 s.

(** *** Pattern syntax *)

Definition chr (c : ascii) : regex := RChar (Ascii.eqb c).

(** a literal letter under the [i] flag *)
Definition chr_i (c : ascii) : regex :=
  RChar (fun x => Ascii.eqb (Js.lower_char x) c).

Fixpoint lit (w : string) : regex :=
  match w with
  | EmptyString => REps
  | String c w' => RSeq (chr c) (lit w')
  end.

Fixpoint lit_i (w : string) : regex :=
  match w with
  | EmptyString => REps
  | String c w' => RSeq (chr_i c) (lit_i w')
  end.

Definition plus (a : regex) : regex := RSeq a (RStar true a).
Definition opt (a : regex) : regex := RAlt a REps.

Fixpoint alts (rs : list regex) : regex :=
  match rs with
  | [] => RChar (fun _ => false)
  | [r] => r
  | r :: rs' => RAlt r (alts rs')
  end.

Definition words (ws : list string) : regex := alts (lit <$> ws).

Definition spaces : regex := RStar true (RChar Js.is_space).

End Regex.

Import Js Regex.

(** ** [ctl.ts]: names and slugs *)

Inductive CommandName : Type := observe | extract | act.

Global Instance CommandName_eq_dec : EqDecision CommandName.
Proof. solve_decision. Defined.

Definition CommandName_str (n : CommandName) : string :=
  match n with
  | observe => "observe"
  | extract => "extract"
  | act => "act"
  end.

Record PageFunction : Type := { name : CommandName; query : string }.

(** [/^wait/] *)
Definition re_wait : regex := RSeq RBol (lit "wait").
(** [/(ensure|verify|check|confirm)/] *)
Definition observe_words : list string := ["ensure"; "verify"; "check"; "confirm"].
Definition re_observe : regex := RGroup 1 (words observe_words).
(** [/(click|type|press|navigate|open|select|submit|scroll|hover)/] *)
Definition act_words : list string :=
  ["click"; "type"; "press"; "navigate"; "open"; "select"; "submit"; "scroll";
   "hover"].
Definition re_act : regex := RGroup 1 (words act_words).
(** [/(read|get|scrape|capture|grab|copy|extract)/] *)
Definition extract_words : list string :=
  ["read"; "get"; "scrape"; "capture"; "grab"; "copy"; "extract"].
Definition re_extract : regex := RGroup 1 (words extract_words).

Definition normalizeCommandName (name : string) : option CommandName :=
  let n := trim (toLowerCase name) in
  if String.eqb n "observe" then Some observe
  else if String.eqb n "extract" then Some extract
  else if String.eqb n "act" then Some act
  else if test re_wait n || test re_observe n then Some observe
  else if test re_act n then Some act
  else if test re_extract n then Some extract
  else None.

(** [/https?:\/\//g] *)
Definition re_protocol : regex :=
  RSeq (lit "http") (RSeq (opt (chr "s")) (lit "://")).
(** [/[^a-z0-9]+/g] *)
Definition slug_char (c : ascii) : bool := is_lower_az c || is_digit c.
Definition re_non_slug : regex := plus (RChar (fun c => negb (slug_char c))).
(** [/^-+|-+$/g] *)
Definition re_edge_dashes : regex :=
  RAlt (RSeq RBol (plus (chr "-"))) (RSeq (plus (chr "-")) REol).

Definition slugify_len (input : string) (maxLen : nat) : string :=
  slice0 maxLen
    (replace_all re_edge_dashes ""
       (replace_all re_non_slug "-"
          (replace_all re_protocol "" (toLowerCase input)))).

(** the default [maxLen = 60] *)
Definition slugify (input : string) : string := slugify_len input 60.

(** [z(n, width = 2)] *)
Definition z (n : nat) : string := padStart0 2 (Number_toString n).

(** ** JavaScript values *)

(** The values [JSON.parse] produces, and [undefined].  A number is kept as
    the decimal [m * 10^e]; only whether it is zero is ever looked at. *)
#[warnings="-register-all"]
Inductive JsValue : Type :=
| JUndefined
| JNull
| JBool (b : bool)
| JNum (m e : Z)
| JStr (s : string)
| JArr (items : list JsValue)
| JObj (props : list (string * JsValue)).

Inductive JsType : Type := TUndefined | TObject | TBoolean | TNumber | TString.

Global Instance JsType_eq_dec : EqDecision JsType.
Proof. solve_decision. Defined.

Definition typeof (v : JsValue) : JsType :=
  match v with
  | JUndefined => TUndefined
  | JNull | JArr _ | JObj _ => TObject
  | JBool _ => TBoolean
  | JNum _ _ => TNumber
  | JStr _ => TString
  end.

(** [ToBoolean] *)
Definition truthy (v : JsValue) : bool :=
  match v with
  | JUndefined | JNull => false
  | JBool b => b
  | JNum m _ => negb (m =? 0)%Z
  | JStr s => negb (String.eqb s "")
  | JArr _ | JObj _ => true
  end.

Definition Array_isArray (v : JsValue) : bool :=
  match v with JArr _ => true | _ => false end.

Fixpoint obj_get (k : string) (props : list (string * JsValue)) : JsValue :=
  match props with
  | [] => JUndefined
  | (k', v) :: props' => if String.eqb k k' then v else obj_get k props'
  end.

(** [CreateDataProperty]: a repeated key keeps its place, the value is
    replaced. *)
Fixpoint obj_set (k : string) (v : JsValue) (props : list (string * JsValue))
    : list (string * JsValue) :=
  match props with
  | [] => [(k, v)]
  | (k', v') :: props' =>
      if String.eqb k k' then (k, v) :: props' else (k', v') :: obj_set k v props'
  end.

(** [v.k] for one of the keys [plan], [name], [query], none of which an
    array, a string, a number or a boolean has; [None] is the [TypeError] of
    reading a property of [null] or [undefined]. *)
Definition get_prop (v : JsValue) (k : string) : option JsValue :=
  match v with
  | JUndefined | JNull => None
  | JObj props => Some (obj_get k props)
  | _ => Some JUndefined
  end.

(** the same where the value is known not to be [null] or [undefined] *)
Definition prop (v : JsValue) (k : string) : JsValue :=
  default JUndefined (get_prop v k).

Definition items_of (v : JsValue) : list JsValue :=
  match v with JArr items => items | _ => [] end.

Definition str_of (v : JsValue) : string :=
  match v with JStr s => s | _ => "" end.

(** Whether [String(v)], and so a template literal around [v], gives a
    text.  An object takes [toString] from its prototype unless it has a
    property of that name itself, which in a value of [JSON.parse] is never
    a function: the conversion then throws a [TypeError].  An array joins
    the texts of its elements, with nothing for [null] and [undefined]. *)
Fixpoint has_text (v : JsValue) : bool :=
  match v with
  | JArr items => forallb has_text items
  | JObj props => negb (existsb (fun p => String.eqb p.1 "toString") props)
  | _ => true
  end.

(** ** Exceptions *)

(** An [Error] object raised by a collaborator. *)
Record JsError : Type := { err_name : string; err_message : string }.

Inductive Exn : Type :=
| SyntaxError
    (* JSON.parse on a text that is not JSON *)
| TypeError
    (* a property read on null or undefined *)
| NoCodeFence
    (* Error("No JSON code fence found.") *)
| InvalidPlanShape
    (* Error("Model did not return an object with a 'plan' array.") *)
| StepNotObject (idx : nat)
    (* Error(`Plan step ${idx} is not an object.`) *)
| StepNoQuery (idx : nat)
    (* Error(`Plan step ${idx} must include a string 'query'.`) *)
| StepInvalidName (idx : nat) (name : JsValue)
    (* Error(`Plan step ${idx} has invalid name '${name}'. ...`) *)
| NoCompletion
    (* Error("No completion message returned.") *)
| PlanningExhausted
    (* Error("Planning loop exceeded iteration limit without a final plan.") *)
| Rejected (e : JsError)
    (* a rejection of a collaborator's promise *)
| OutsideAlphabet.
    (* no exception of the program: a text that is parsed is JSON and holds
       an escape above U+00FF, so that its value has no place among the
       modelled strings; nothing is said of the program from there on *)

Inductive Outcome (A : Type) : Type :=
| Ok (a : A)
| Throw (e : Exn).
Global Arguments Ok {A} a.
Global Arguments Throw {A} e.

(** ** [JSON.parse] and [JSON.stringify] *)

Module Json.

Definition dquote : ascii := "034".
Definition backslash : ascii := "\".

(** JSON white space: SP, TAB, LF, CR *)
Definition is_ws (c : ascii) : bool :=
  (code c =? 32)%N || (code c =? 9)%N || (code c =? 10)%N || (code c =? 13)%N.

Fixpoint skip_ws (s : string) : string :=
  match s with
  | String c s' => if is_ws c then skip_ws s' else s
  | EmptyString => s
  end.

Definition hex_val (c : ascii) : option N :=
  if is_digit c then Some (code c - 48)%N
  else if between 97 102 c then Some (code c - 87)%N
  else if between 65 70 c then Some (code c - 55)%N
  else None.

(** The characters of a string literal after its opening quote.  An escape
    [\uXXXX] above U+00FF denotes a code unit outside the modelled alphabet.
    With [wide] unset such a literal has no value here; with [wide] set the
    escape is read and a question mark stands in its place, which serves to
    tell whether the text is JSON at all. *)
Fixpoint parse_chars (wide : bool) (s : string) : option (string * string) :=
  match s with
  | EmptyString => None
  | String c s' =>
      if Ascii.eqb c dquote then Some (EmptyString, s')
      else if Ascii.eqb c backslash then
        match s' with
        | String e s'' =>
            let simple (x : ascii) :=
              '(w, rest) ← parse_chars wide s''; Some (String x w, rest) in
            if Ascii.eqb e dquote then simple dquote
            else if Ascii.eqb e backslash then simple backslash
            else if Ascii.eqb e "/" then simple "/"%char
            else if Ascii.eqb e "b" then simple "008"%char
            else if Ascii.eqb e "f" then simple "012"%char
            else if Ascii.eqb e "n" then simple "010"%char
            else if Ascii.eqb e "r" then simple "013"%char
            else if Ascii.eqb e "t" then simple "009"%char
            else if Ascii.eqb e "u" then
              match s'' with
              | String h1 (String h2 (String h3 (String h4 s4))) =>
                  a ← hex_val h1; b ← hex_val h2; c3 ← hex_val h3; d ← hex_val h4;
                  if ((a =? 0) && (b =? 0))%N then
                    '(w, rest) ← parse_chars wide s4;
                    Some (String (ascii_of_N (c3 * 16 + d)) w, rest)
                  else if wide then
                    '(w, rest) ← parse_chars wide s4; Some (String "?" w, rest)
                  else None
              | _ => None
              end
            else None
        | EmptyString => None
        end
      else if (code c <? 32)%N then None
      else '(w, rest) ← parse_chars wide s'; Some (String c w, rest)
  end.

Fixpoint take_digits (s : string) : string * string :=
  match s with
  | String c s' =>
      if is_digit c then let '(d, rest) := take_digits s' in (String c d, rest)
      else (EmptyString, s)
  | EmptyString => (EmptyString, EmptyString)
  end.

Fixpoint digits_val (acc : Z) (d : string) : Z :=
  match d with
  | String c d' => digits_val (acc * 10 + Z.of_N (code c - 48))%Z d'
  | EmptyString => acc
  end.

(** an optional minus sign; [0] or a non-zero digit and more digits; an
    optional fraction, a dot and digits; an optional exponent, [e] or [E],
    a sign and digits *)
Definition parse_number (s : string) : option (JsValue * string) :=
  let '(neg, s1) :=
    match s with
    | String "-" s' => (true, s')
    | _ => (false, s)
    end in
  let '(int, s2) := take_digits s1 in
  match int with
  | EmptyString => None
  | String "0" (String _ _) => None
  | _ =>
      '(frac, s3) ←
        match s2 with
        | String "." s' =>
            let '(f, rest) := take_digits s' in
            match f with EmptyString => None | _ => Some (f, rest) end
        | _ => Some (EmptyString, s2)
        end;
      '(ex, s4) ←
        match s3 with
        | String c s' =>
            if Ascii.eqb c "e" || Ascii.eqb c "E" then
              let '(eneg, s'') :=
                match s' with
                | String "-" t => (true, t)
                | String "+" t => (false, t)
                | _ => (false, s')
                end in
              let '(d, rest) := take_digits s'' in
              match d with
              | EmptyString => None
              | _ => Some (if eneg : bool then (- digits_val 0 d)%Z
                           else digits_val 0 d, rest)
              end
            else Some (0%Z, s3)
        | EmptyString => Some (0%Z, s3)
        end;
      let m := digits_val 0 (int +:+ frac) in
      Some (JNum (if neg : bool then (- m)%Z else m)
                 (ex - Z.of_nat (String.length frac))%Z, s4)
  end.

Definition expect (w : string) (v : JsValue) (s : string)
    : option (JsValue * string) :=
  if startsWith w s then Some (v, drop (String.length w) s) else None.

(** Recursive descent.  Of two calls in a row one has read a character
    before it passes [fuel] on, so [2 * length + 2] is enough for any
    text. *)
Fixpoint parse_value (wide : bool) (fuel : nat) (s : string)
    : option (JsValue * string) :=
  match fuel with
  | O => None
  | S fuel' =>
      match skip_ws s with
      | EmptyString => None
      | String c s' as s0 =>
          if Ascii.eqb c "{" then
            match skip_ws s' with
            | String "}" rest => Some (JObj [], rest)
            | s1 => parse_members wide fuel' s1 []
            end
          else if Ascii.eqb c "[" then
            match skip_ws s' with
            | String "]" rest => Some (JArr [], rest)
            | s1 => parse_elements wide fuel' s1 []
            end
          else if Ascii.eqb c dquote then
            '(w, rest) ← parse_chars wide s'; Some (JStr w, rest)
          else if Ascii.eqb c "t" then expect "true" (JBool true) s0
          else if Ascii.eqb c "f" then expect "false" (JBool false) s0
          else if Ascii.eqb c "n" then expect "null" JNull s0
          else parse_number s0
      end
  end
with parse_elements (wide : bool) (fuel : nat) (s : string) (acc : list JsValue)
    : option (JsValue * string) :=
  match fuel with
  | O => None
  | S fuel' =>
      '(v, rest) ← parse_value wide fuel' s;
      match skip_ws rest with
      | String "," rest' => parse_elements wide fuel' rest' (acc ++ [v])
      | String "]" rest' => Some (JArr (acc ++ [v]), rest')
      | _ => None
      end
  end
with parse_members (wide : bool) (fuel : nat) (s : string)
    (acc : list (string * JsValue)) : option (JsValue * string) :=
  match fuel with
  | O => None
  | S fuel' =>
      match skip_ws s with
      | String c s' =>
          if Ascii.eqb c dquote then
            '(k, rest) ← parse_chars wide s';
            match skip_ws rest with
            | String ":" rest1 =>
                '(v, rest2) ← parse_value wide fuel' rest1;
                match skip_ws rest2 with
                | String "," rest3 => parse_members wide fuel' rest3 (obj_set k v acc)
                | String "}" rest3 => Some (JObj (obj_set k v acc), rest3)
                | _ => None
                end
            | _ => None
            end
          else None
      | EmptyString => None
      end
  end.

(** One JSON value and nothing but white space after it. *)
Definition parse_text (wide : bool) (text : string) : option JsValue :=
  '(v, rest) ← parse_value wide (2 * String.length text + 2) text;
  match skip_ws rest with
  | EmptyString => Some v
  | String _ _ => None
  end.

(** The value of [JSON.parse(text)], for a text that is JSON and holds no
    escape above U+00FF. *)
Definition parse (text : string) : option JsValue := parse_text false text.

(** The text is JSON: [JSON.parse(text)] does not throw. *)
Definition is_json (text : string) : bool :=
  match parse_text true text with Some _ => true | None => false end.

Definition hex_digit (n : N) : ascii :=
  if (n <? 10)%N then ascii_of_N (48 + n) else ascii_of_N (87 + n).

(** [QuoteJSONString] without its enclosing quotes *)
Fixpoint escape (s : string) : string :=
  match s with
  | EmptyString => EmptyString
  | String c s' =>
      let rest := escape s' in
      if Ascii.eqb c dquote then String backslash (String dquote rest)
      else if Ascii.eqb c backslash then String backslash (String backslash rest)
      else if (code c =? 8)%N then String backslash (String "b" rest)
      else if (code c =? 12)%N then String backslash (String "f" rest)
      else if (code c =? 10)%N then String backslash (String "n" rest)
      else if (code c =? 13)%N then String backslash (String "r" rest)
      else if (code c =? 9)%N then String backslash (String "t" rest)
      else if (code c <? 32)%N then
        String backslash (String "u" (String "0" (String "0"
          (String (hex_digit (code c / 16)) (String (hex_digit (code c mod 16)) rest)))))
      else String c rest
  end.

Definition quote (s : string) : string :=
  String dquote (escape s +:+ String dquote EmptyString).

(** [JSON.stringify({ k: v })] for a string [v] and a key without escapes *)
Definition stringify_field (k v : string) : string :=
  "{" +:+ quote k +:+ ":" +:+ quote v +:+ "}".

End Json.

(** ** [ctl.ts]: parsing and validating a plan *)

Definition any_char : regex := RChar (fun _ => true).

(** The fence pattern, with a lazily matched group between optional white
    space and under the [i] flag: three backquotes, an optional [json], the
    group, three backquotes. *)
Definition re_fence : regex :=
  RSeq (lit "```")
    (RSeq (opt (lit_i "json"))
       (RSeq spaces
          (RSeq (RGroup 1 (RStar false any_char))
             (RSeq spaces (lit "```"))))).

(** [JSON.parse(text)]: the value, the [SyntaxError] for a text that is not
    JSON, or the mark that the value lies outside the alphabet. *)
Definition JSON_parse (text : string) : Outcome JsValue :=
  match Json.parse text with
  | Some v => Ok v
  | None => if Json.is_json text then Throw OutsideAlphabet else Throw SyntaxError
  end.

Definition tryFence (content : string) : Outcome JsValue :=
  match match_group re_fence 1 content with
  | Some inner =>
      if negb (String.eqb inner "") then JSON_parse inner else Throw NoCodeFence
  | None => Throw NoCodeFence
  end.

(** [try { return tryDirect(); } catch { return tryFence(); }]; the mark
    [OutsideAlphabet] is no exception and is not caught. *)
Definition safeParsePlan (content : string) : Outcome JsValue :=
  match JSON_parse content with
  | Ok v => Ok v
  | Throw OutsideAlphabet => Throw OutsideAlphabet
  | Throw _ => tryFence content
  end.

Definition is_canonical (v : JsValue) : option CommandName :=
  match v with
  | JStr s =>
      if String.eqb s "observe" then Some observe
      else if String.eqb s "extract" then Some extract
      else if String.eqb s "act" then Some act
      else None
  | _ => None
  end.

(** the callback of [plan.map] *)
Definition validateStep (idx : nat) (step : JsValue) : Outcome PageFunction :=
  if negb (truthy step) || negb (bool_decide (typeof step = TObject))
  then Throw (StepNotObject idx)
  else
    let name := prop step "name" in
    let query := prop step "query" in
    if negb (truthy query) || negb (bool_decide (typeof query = TString))
    then Throw (StepNoQuery idx)
    else
      match is_canonical name with
      | Some n => Ok {| name := n; query := str_of query |}
      | None =>
          let norm :=
            if bool_decide (typeof name = TString)
            then normalizeCommandName (str_of name) else None in
          match norm with
          | Some n => Ok {| name := n; query := str_of query |}
          | None => Throw (StepInvalidName idx name)
          end
      end.

(** [Array.prototype.map] with a callback that may throw *)
Fixpoint map_steps (idx : nat) (steps : list JsValue)
    : Outcome (list PageFunction) :=
  match steps with
  | [] => Ok []
  | step :: rest =>
      match validateStep idx step with
      | Throw e => Throw e
      | Ok pf =>
          match map_steps (S idx) rest with
          | Throw e => Throw e
          | Ok pfs => Ok (pf :: pfs)
          end
      end
  end.

Definition validatePlan (raw : JsValue) : Outcome (list PageFunction) :=
  if negb (truthy raw) || negb (bool_decide (typeof raw = TObject))
     || negb (Array_isArray (prop raw "plan"))
  then Throw InvalidPlanShape
  else map_steps 0 (items_of (prop raw "plan")).

(** ** [web-automation.ts]: the result synthesizer *)

Definition re_strip_extracted : regex :=
  RSeq RBol (RSeq (lit "EXTRACTED(")
    (RSeq (plus (RChar (fun c => negb (Ascii.eqb c ")"))))
       (RSeq (chr ")") (RSeq spaces (RSeq (lit "=>") spaces))))).
Definition re_strip_label (label : string) : regex :=
  RSeq RBol (RSeq (lit label) spaces).

(** the chain of [replace] calls and the final [trim] *)
Definition clean (output : string) : string :=
  trim
    (replace (re_strip_label "High/Low temperatures:") ""
       (replace (re_strip_label "Current temperature:") ""
          (replace (re_strip_label "Headline:") ""
             (replace (re_strip_label "Found text content:") ""
                (replace re_strip_extracted "" output))))).

Definition fallback_sentence : string :=
  "Task completed successfully - no specific content extracted".

Definition is_meaningful (output : string) : bool :=
  includes "NAVIGATED(" output
  || ((20 <? String.length output)%nat
      && negb (includes "ACTION_OK" output)
      && negb (includes "Observed:" output)).

(** [plan.map((step, index) => ({ step, index, output: outputs[index] }))];
    [None] is the [undefined] read past the end of [outputs]. *)
Fixpoint zip_outputs (idx : nat) (plan : list PageFunction)
    (outputs : list string) : list (PageFunction * nat * option string) :=
  match plan with
  | [] => []
  | step :: plan' => (step, idx, outputs !! idx) :: zip_outputs (S idx) plan' outputs
  end.

Definition extractFinalOutput (plan : list PageFunction) (outputs : list string)
    : Outcome string :=
  let extractSteps :=
    reverse
      (filter (fun item => name item.1.1 = extract) (zip_outputs 0 plan outputs)) in
  let fallback :=
    let meaningfulOutputs := filter (fun o => is_meaningful o = true) outputs in
    match last meaningfulOutputs with
    | Some o => o
    | None => fallback_sentence
    end in
  match extractSteps with
  | lastExtract :: _ =>
      match lastExtract.2 with
      | None => Throw TypeError
      | Some output =>
          let cleanOutput := clean output in
          if negb (String.eqb cleanOutput "") && (10 <? String.length cleanOutput)%nat
             && negb (includes "(not found" cleanOutput)
          then Ok cleanOutput
          else Ok fallback
      end
  | [] => Ok fallback
  end.

(** ** The transcript and the collaborators *)

(** An element of [msg.tool_calls]. *)
Record ToolCall : Type :=
  { tc_id : string; fn_name : option string; fn_arguments : option string }.

(** [completion.choices[0]?.message] *)
Record ChatMessage : Type :=
  { content : option string; tool_calls : option (list ToolCall) }.

(** The entries of [messages]. *)
Inductive Message : Type :=
| SystemMsg (content : string)
| UserMsg (content : string)
| AssistantCalls (calls : list ToolCall)
| AssistantText (content : string)
| ToolMsg (tool_call_id name content : string).

(** What the engine did to the outside world, in order, each call with the
    answer it got ([inl] is a rejection). *)
Inductive Event : Type :=
| EvCompletion (messages : list Message) (reply : JsError + option ChatMessage)
| EvInvoke (name : CommandName) (query : string) (reply : JsError + string)
| EvInvokeValue (name : CommandName) (query : JsValue) (reply : JsError + string)
| EvMkdir (path : string) (reply : JsError + unit)
| EvScreenshot (path : string) (reply : JsError + unit).

(** The collaborators over a state [W] of the outside world (the model
    behind the completion API, the browser page, the file system).  The
    capability provider is one object in the source; its answers to a query
    that is a string, [stagehand], and to a query that is another value,
    [stagehand_value], are kept apart here, and so are their events,
    [EvInvoke] and [EvInvokeValue].  [text_of] is [String(v)] for a value
    that is no string and has a text, as a template literal inserts it. *)
Record Collaborators (W : Type) : Type :=
  { chat_completions_create : list Message -> W -> (JsError + option ChatMessage) * W;
    stagehand : CommandName -> string -> W -> (JsError + string) * W;
    stagehand_value : CommandName -> JsValue -> W -> (JsError + string) * W;
    text_of : JsValue -> string;
    fs_mkdir : string -> W -> (JsError + unit) * W;
    page_screenshot : string -> W -> (JsError + unit) * W }.
Global Arguments chat_completions_create {W} _ _ _.
Global Arguments stagehand {W} _ _ _ _.
Global Arguments stagehand_value {W} _ _ _ _.
Global Arguments text_of {W} _ _.
Global Arguments fs_mkdir {W} _ _ _.
Global Arguments page_screenshot {W} _ _ _.

Record State (W : Type) : Type := { world : W; trace : list Event }.
Global Arguments world {W} _.
Global Arguments trace {W} _.
Global Arguments Build_State {W} _ _.

(** Computations that await collaborators and may throw. *)
Definition M (W A : Type) : Type := State W -> Outcome A * State W.

Definition ret {W A} (a : A) : M W A := fun st => (Ok a, st).
Definition throw {W A} (e : Exn) : M W A := fun st => (Throw e, st).
Definition bind {W A B} (m : M W A) (f : A -> M W B) : M W B :=
  fun st =>
    match m st with
    | (Ok a, st') => f a st'
    | (Throw e, st') => (Throw e, st')
    end.
Definition lift {W A} (o : Outcome A) : M W A := fun st => (o, st).

Notation "'let*' x ':=' m 'in' k" := (bind m (fun x => k))
  (at level 10, x name, m at level 100, k at level 200).

(** One call of a collaborator, with its answer recorded. *)
Definition await {W R} (call : W -> (JsError + R) * W)
    (ev : JsError + R -> Event) : M W (JsError + R) :=
  fun st =>
    let '(r, w') := call (world st) in
    (Ok r, {| world := w'; trace := trace st ++ [ev r] |}).

(** [(err as Error).message || String(err)]: the message, or for an empty
    message what [Error.prototype.toString] gives, the name. *)
Definition error_text (err : JsError) : string :=
  if negb (String.eqb (err_message err) "") then err_message err
  else err_name err.

(** The local variables of [plan]. *)
Record PlanVars : Type :=
  { messages : list Message;
    cache : gmap string string;
    clearCacheBeforeNextRead : bool }.

Definition push (m : Message) (v : PlanVars) : PlanVars :=
  {| messages := messages v ++ [m];
     cache := cache v;
     clearCacheBeforeNextRead := clearCacheBeforeNextRead v |}.

Inductive CallResult : Type :=
| Finalized (plan : list PageFunction) (v : PlanVars)
| Continue (v : PlanVars).

(** [tc.function?.arguments ? JSON.parse(tc.function.arguments) : {}] *)
Definition parse_arguments (tc : ToolCall) : Outcome JsValue :=
  match fn_arguments tc with
  | Some a => if negb (String.eqb a "") then JSON_parse a else Ok (JObj [])
  | None => Ok (JObj [])
  end.

(** [const query: string = args.query ?? ""]: nothing checks the
    annotation, a value that is no string is passed on as it is. *)
Definition args_query (args : JsValue) : Outcome JsValue :=
  match get_prop args "query" with
  | None => Throw TypeError
  | Some JUndefined | Some JNull => Ok (JStr "")
  | Some query => Ok query
  end.

(** [["observe", "extract", "act"].includes(validName)] *)
Definition command_of (validName : string) : option CommandName :=
  if String.eqb validName "observe" then Some observe
  else if String.eqb validName "extract" then Some extract
  else if String.eqb validName "act" then Some act
  else None.

Definition is_read (c : CommandName) : bool :=
  match c with observe | extract => true | act => false end.

Definition cache_key (validName query : string) : string :=
  validName +:+ "::" +:+ query.

Definition unknown_tool_payload (fnName : option string) : string :=
  "{" +:+ Json.quote "error" +:+ ":" +:+ String Json.dquote "Unknown tool '"
  +:+ default "undefined" fnName +:+ "'." +:+ String Json.dquote "}".

Section Navigator.

Context {W : Type}.
Variable collab : Collaborators W.
(** [this.screenshotDir] and [join] of [node:path] *)
Variable screenshotDir : string.
Variable join : string -> string -> string.
(** the texts of [plannerSystemPrompt()] and [plannerUserPrompt(task)] *)
Variable plannerSystemPrompt : string.
Variable plannerUserPrompt : string -> string.

(** [`${query}`] *)
Definition query_text (query : JsValue) : string :=
  match query with
  | JStr q => q
  | _ => text_of collab query
  end.

Definition invokeStagehand (name : CommandName) (query : JsValue) : M W string :=
  let* r :=
    match query with
    | JStr q => await (stagehand collab name q) (EvInvoke name q)
    | _ => await (stagehand_value collab name query) (EvInvokeValue name query)
    end in
  match r with
  | inr result => ret result
  | inl err => ret (Json.stringify_field "error" (error_text err))
  end.

(** The body of [for (const tc of toolCalls)]. *)
Definition handleToolCall (tc : ToolCall) (v : PlanVars) : M W CallResult :=
  let fnName := fn_name tc in
  let* args := lift (parse_arguments tc) in
  if bool_decide (fnName = Some "finalize_plan") then
    let* plan := lift (validatePlan args) in
    ret (Finalized plan
           (push (ToolMsg (tc_id tc) "finalize_plan"
                    (Json.stringify_field "status" "received")) v))
  else
    let validName := toLowerCase (default "" fnName) in
    match command_of validName with
    | None =>
        ret (Continue
               (push (ToolMsg (tc_id tc) (default "unknown" fnName)
                        (unknown_tool_payload fnName)) v))
    | Some cmd =>
        let* query := lift (args_query args) in
        (* the template literal of the key takes the text of the query *)
        let* _ := lift (if has_text query then Ok tt else Throw TypeError) in
        let key := cache_key validName (query_text query) in
        let v1 :=
          if is_read cmd && clearCacheBeforeNextRead v
          then {| messages := messages v; cache := ∅;
                  clearCacheBeforeNextRead := false |}
          else v in
        match (if is_read cmd then cache v1 !! key else None) with
        | Some payload =>
            ret (Continue (push (ToolMsg (tc_id tc) validName payload) v1))
        | None =>
            let* result := invokeStagehand cmd query in
            let v2 :=
              if bool_decide (cmd = act)
              then {| messages := messages v1; cache := cache v1;
                      clearCacheBeforeNextRead := true |}
              else {| messages := messages v1;
                      cache := <[key := result]> (cache v1);
                      clearCacheBeforeNextRead := clearCacheBeforeNextRead v1 |} in
            ret (Continue (push (ToolMsg (tc_id tc) validName result) v2))
        end
    end.

(** [for (const tc of toolCalls) { ... }] *)
Fixpoint handleToolCalls (tcs : list ToolCall) (v : PlanVars) : M W CallResult :=
  match tcs with
  | [] => ret (Continue v)
  | tc :: tcs' =>
      let* r := handleToolCall tc v in
      match r with
      | Finalized plan v' => ret (Finalized plan v')
      | Continue v' => handleToolCalls tcs' v'
      end
  end.

(** One iteration of [for (let iter = 0; iter < 16; iter++)]. *)
Definition plan_round (v : PlanVars) : M W CallResult :=
  let* reply :=
    await (chat_completions_create collab (messages v)) (EvCompletion (messages v)) in
  match reply with
  | inl err => throw (Rejected err)
  | inr None => throw NoCompletion
  | inr (Some msg) =>
      let toolCalls := default [] (tool_calls msg) in
      if (0 <? length toolCalls)%nat then
        handleToolCalls toolCalls (push (AssistantCalls toolCalls) v)
      else
        match content msg with
        | Some text =>
            if (0 <? String.length (trim text))%nat then
              let* parsed := lift (safeParsePlan text) in
              let* plan := lift (validatePlan parsed) in
              ret (Finalized plan v)
            else ret (Continue (push (AssistantText text) v))
        | None => ret (Continue (push (AssistantText "") v))
        end
  end.

Fixpoint plan_rounds (rounds : nat) (v : PlanVars) : M W (list PageFunction) :=
  match rounds with
  | O => throw PlanningExhausted
  | S rounds' =>
      let* r := plan_round v in
      match r with
      | Finalized plan _ => ret plan
      | Continue v' => plan_rounds rounds' v'
      end
  end.

Definition initial_vars (task : string) : PlanVars :=
  {| messages := [SystemMsg plannerSystemPrompt; UserMsg (plannerUserPrompt task)];
     cache := ∅;
     clearCacheBeforeNextRead := false |}.

Definition plan (task : string) : M W (list PageFunction) :=
  plan_rounds 16 (initial_vars task).

Definition screenshot_name (stepIndex : nat) (step : PageFunction) : string :=
  z stepIndex +:+ "-" +:+ CommandName_str (name step) +:+ "-"
  +:+ slugify (query step) +:+ ".jpg".

(** Everything here is inside [try]; a rejection gives [null]. *)
Definition captureStepScreenshot (stepIndex : nat) (step : PageFunction)
    : M W (option string) :=
  let fpath := join screenshotDir (screenshot_name stepIndex step) in
  let* r := await (page_screenshot collab fpath) (EvScreenshot fpath) in
  match r with
  | inr _ => ret (Some fpath)
  | inl _ => ret None
  end.

(** [for (let i = 0; i < plan.length; i++)] from index [i] on *)
Fixpoint execute_from (i : nat) (steps : list PageFunction)
    (outputs : list string) : M W (list string) :=
  match steps with
  | [] => ret outputs
  | step :: steps' =>
      let* res := invokeStagehand (name step) (JStr (query step)) in
      let* _ := captureStepScreenshot (i + 1) step in
      execute_from (S i) steps' (outputs ++ [res])
  end.

Definition execute (plan : list PageFunction) : M W (list string) :=
  let* r := await (fs_mkdir collab screenshotDir) (EvMkdir screenshotDir) in
  match r with
  | inl err => throw (Rejected err)
  | inr _ => execute_from 0 plan []
  end.

Definition navigate (task : string) : M W (list PageFunction * list string) :=
  let* p := plan task in
  let* outputs := execute p in
  ret (p, outputs).

End Navigator.

(** ** The normalization rules as the specification words them *)

Definition starts_any (ws : list string) (s : string) : bool :=
  existsb (fun w => startsWith w s) ws.

(** some word of [ws] occurs in [s] *)
Definition includes_any (ws : list string) (s : string) : bool :=
  existsb (fun w => includes w s) ws.

(** Rules 1 to 5, the first that applies wins. *)
Definition normalizeName_rules (name : string) : option CommandName :=
  let n := trim (toLowerCase name) in
  match command_of n with
  | Some kind => Some kind
  | None =>
      if startsWith "wait" n
         || includes_any ["ensure"; "verify"; "check"; "confirm"] n
      then Some observe
      else if includes_any
                ["click"; "type"; "press"; "navigate"; "open"; "select";
                 "submit"; "scroll"; "hover"] n
      then Some act
      else if includes_any
                ["read"; "get"; "scrape"; "capture"; "grab"; "copy"; "extract"] n
      then Some extract
      else None
  end.

(** the characters of a slug, and of a screenshot file name *)
Definition slug_or_dash (c : ascii) : bool := slug_char c || Ascii.eqb c "-".
Definition file_char (c : ascii) : bool := slug_or_dash c || Ascii.eqb c ".".

Definition total (k : cont) : Prop := forall pos s cs, is_Some (k pos s cs).

(** ** What the specification asks of a plan *)

(** The value is an object with an array-valued [plan] field. *)
Definition plan_items (raw : JsValue) : option (list JsValue) :=
  match raw with
  | JObj props =>
      match obj_get "plan" props with
      | JArr items => Some items
      | _ => None
      end
  | _ => None
  end.

(** The kind a step's [name] stands for: one of the three names itself, or
    what [normalizeCommandName] makes of it. *)
Definition step_kind (step : JsValue) : option CommandName :=
  match prop step "name" with
  | JStr s =>
      match command_of s with
      | Some kind => Some kind
      | None => normalizeCommandName s
      end
  | _ => None
  end.

Definition is_object (v : JsValue) : Prop := v <> JNull /\ typeof v = TObject.

Definition has_query (step : JsValue) : Prop :=
  exists q, prop step "query" = JStr q /\ q <> "".

Definition step_ok (step : JsValue) : Prop :=
  is_object step /\ has_query step /\ is_Some (step_kind step).

(** the index an [InvalidPlanStep] error carries *)
Definition step_error_index (e : Exn) : option nat :=
  match e with
  | StepNotObject idx | StepNoQuery idx | StepInvalidName idx _ => Some idx
  | _ => None
  end.

(** [step] validates to [pf]. *)
Definition validates_to (step : JsValue) (pf : PageFunction) : Prop :=
  is_object step /\ prop step "query" = JStr (query pf) /\ query pf <> ""
  /\ step_kind step = Some (name pf).

(** ** What the specification asks of the synthesizer *)

(** A cleaned output is kept when it is longer than ten characters and
    does not say that nothing was found. *)
Definition qualifies (cleaned : string) : bool :=
  (10 <? String.length cleaned)%nat && negb (includes "(not found" cleaned).

(** The second scan: the last output that shows a navigation or is longer
    than twenty characters and no echo of an action or observation; if
    there is none, the fixed sentence. *)
Definition fallback_scan (outputs : list string) : string :=
  default fallback_sentence (last (filter (fun o => is_meaningful o = true) outputs)).

(** The scan the specification describes: the Extract steps from the most
    recent one back, the first whose cleaned output qualifies. *)
Fixpoint first_qualifying (candidates : list string) : option string :=
  match candidates with
  | [] => None
  | output :: rest =>
      if qualifies (clean output) then Some (clean output)
      else first_qualifying rest
  end.

Definition extract_outputs (plan : list PageFunction) (outputs : list string)
    : list string :=
  omap (fun item => item.2)
    (filter (fun item => name item.1.1 = extract) (zip_outputs 0 plan outputs)).

Definition synthesize_described (plan : list PageFunction) (outputs : list string)
    : string :=
  default (fallback_scan outputs)
    (first_qualifying (reverse (extract_outputs plan outputs))).

(** ** What the specification asks of the executor and the negotiator *)

(** the output recorded for an answer of the capability provider *)
Definition payload (reply : JsError + string) : string :=
  match reply with
  | inr result => result
  | inl err => Json.stringify_field "error" (error_text err)
  end.

(** the calls of the capability provider in a trace, with their answers *)
Definition invocations (tr : list Event)
    : list (CommandName * string * (JsError + string)) :=
  omap (fun ev =>
          match ev with
          | EvInvoke n q r => Some (n, q, r)
          | _ => None
          end) tr.

(** the number of completions requested in a trace *)
Definition is_completion (ev : Event) : bool :=
  match ev with EvCompletion _ _ => true | _ => false end.

Definition completions (tr : list Event) : nat :=
  length (filter (fun ev => is_completion ev = true) tr).

(** [tc] is a call of the capability [kind] with the query [q]. *)
Definition is_call (tc : ToolCall) (kind : CommandName) (q : string) : Prop :=
  command_of (toLowerCase (default "" (fn_name tc))) = Some kind
  /\ exists args, parse_arguments tc = Ok args /\ args_query args = Ok (JStr q).

(** [tc] names a tool that is none of the four. *)
Definition is_unknown_call (tc : ToolCall) : Prop :=
  fn_name tc <> Some "finalize_plan"
  /\ command_of (toLowerCase (default "" (fn_name tc))) = None
  /\ exists args, parse_arguments tc = Ok args.

(** [tc] is a call that reads: Observe or Extract. *)
Definition is_read_call (tc : ToolCall) : Prop :=
  exists kind q, is_call tc kind q /\ is_read kind = true.

(** the calls of the provider for [kind] and [q] in a trace *)
Definition invoked (kind : CommandName) (q : string) (tr : list Event)
    : list (CommandName * string * (JsError + string)) :=
  filter (fun c => c.1 = (kind, q)) (invocations tr).

Section Rounds.

Context {W : Type}.
Variable collab : Collaborators W.

(** Each of the next [n] rounds ends with the loop going on. *)
Fixpoint rounds_continue (n : nat) (v : PlanVars) (st : State W) : Prop :=
  match n with
  | O => True
  | S n' =>
      exists v' st',
        plan_round collab v st = (Ok (Continue v'), st')
        /\ rounds_continue n' v' st'
  end.

(** the state after the completion of a round has been received *)
Definition after_completion (v : PlanVars) (st : State W) : State W :=
  {| world := (chat_completions_create collab (messages v) (world st)).2;
     trace := trace st
              ++ [EvCompletion (messages v)
                    (chat_completions_create collab (messages v) (world st)).1] |}.

End Rounds.

(** ** A scripted outside world, for the examples *)

(** [String(v)] for the values of the examples *)
Definition scripted_text (v : JsValue) : string :=
  match v with
  | JStr s => s
  | JBool true => "true"
  | JBool false => "false"
  | JArr [JStr s] => s
  | JArr [] => ""
  | JNull => "null"
  | JUndefined => "undefined"
  | JNum 5%Z 0%Z => "5"
  | _ => "[object Object]"
  end.

(** The replies of the model are read off a list, one for each completion;
    the provider, the file system and the page answer by fixed functions. *)
Definition scripted (provider : CommandName -> string -> JsError + string)
    (mkdir_reply shot_reply : JsError + unit) : Collaborators (list ChatMessage) :=
  {| chat_completions_create := fun _ script =>
       match script with
       | [] => (inr None, [])
       | msg :: script' => (inr (Some msg), script')
       end;
     stagehand := fun n q script => (provider n q, script);
     stagehand_value := fun n v script => (provider n (scripted_text v), script);
     text_of := scripted_text;
     fs_mkdir := fun _ script => (mkdir_reply, script);
     page_screenshot := fun _ script => (shot_reply, script) |}.

Definition start (script : list ChatMessage) : State (list ChatMessage) :=
  {| world := script; trace := [] |}.

Definition join_slash (dir file : string) : string := dir +:+ "/" +:+ file.

Definition says (text : string) : ChatMessage :=
  {| content := Some text; tool_calls := None |}.

Definition calls (tcs : list ToolCall) : ChatMessage :=
  {| content := None; tool_calls := Some tcs |}.

(** a tool call whose arguments are the JSON text of an object with [query] *)
Definition tool_call (id fn q : string) : ToolCall :=
  {| tc_id := id; fn_name := Some fn;
     fn_arguments := Some (Json.stringify_field "query" q) |}.

(** a provider whose page has vanished when it is asked to wait *)
Definition flaky_provider (n : CommandName) (q : string) : JsError + string :=
  match n with
  | act => inr ("NAVIGATED(https://" +:+ q +:+ ")")
  | observe => inl {| err_name := "Error"; err_message := "Target page closed" |}
  | extract => inr "Example Domain"
  end.

Definition steady_provider (n : CommandName) (q : string) : JsError + string :=
  inr (CommandName_str n +:+ " of " +:+ q).

Definition permission_denied : JsError :=
  {| err_name := "Error"; err_message := "EACCES: permission denied, mkdir" |}.

Definition search_plan : list PageFunction :=
  [ {| name := act; query := "google.com" |};
    {| name := observe; query := "wait for results" |};
    {| name := extract; query := "top heading" |} ].

(** a call of the finalize tool with the JSON text of an empty plan *)
Definition finalize_empty : ToolCall :=
  {| tc_id := "call_9"; fn_name := Some "finalize_plan";
     fn_arguments := Some ("{" +:+ Json.quote "plan" +:+ ":[]}") |}.

Definition quiet : Collaborators (list ChatMessage) :=
  scripted steady_provider (inr ()) (inr ()).

Definition session (task : string) : PlanVars :=
  initial_vars "system" (fun t => t) task.

(** ** Further readings of the transcript and the trace *)

(** [m] is the tool entry that answers the call [tc]. *)
Definition tool_reply_to (tc : ToolCall) (m : Message) : Prop :=
  exists name content, m = ToolMsg (tc_id tc) name content.

(** the local variables a call leaves behind *)
Definition vars_of (r : CallResult) : PlanVars :=
  match r with
  | Finalized _ v => v
  | Continue v => v
  end.

(** the answer of the provider to a query, a string or another value, and
    the event that records it *)
Definition provider_answer {W} (collab : Collaborators W) (kind : CommandName)
    (query : JsValue) (w : W) : (JsError + string) * W :=
  match query with
  | JStr q => stagehand collab kind q w
  | _ => stagehand_value collab kind query w
  end.

Definition provider_event (kind : CommandName) (query : JsValue)
    (reply : JsError + string) : Event :=
  match query with
  | JStr q => EvInvoke kind q reply
  | _ => EvInvokeValue kind query reply
  end.

(** the calls of the provider in a trace, those with a string as query and
    those with another value, with their answers *)
Definition provider_calls (tr : list Event)
    : list (CommandName * JsValue * (JsError + string)) :=
  omap (fun ev =>
          match ev with
          | EvInvoke n q r => Some (n, JStr q, r)
          | EvInvokeValue n v r => Some (n, v, r)
          | _ => None
          end) tr.

(** The text is JSON and holds an escape above U+00FF, in a string or in a
    key: the value of [JSON.parse] has no place among the modelled strings,
    and where the program parses such a text the model says no more than
    the mark [OutsideAlphabet]. *)
Definition outside_alphabet (text : string) : Prop :=
  Json.is_json text = true /\ Json.parse text = None.

(** [tc] is a call of the capability [kind] whose query is the value
    [query], a string or not. *)
Definition is_call_with (tc : ToolCall) (kind : CommandName) (query : JsValue) : Prop :=
  command_of (toLowerCase (default "" (fn_name tc))) = Some kind
  /\ exists args, parse_arguments tc = Ok args /\ args_query args = Ok query.

(** What becomes of a tool call, read off the call alone.  The loop goes
    on after a call of an unknown tool and after a capability call, both
    with arguments that parse; for a capability call the arguments are not
    [null], whose [query] cannot be read, and the query has a text, for the
    key of the cache. *)
Definition call_goes_on (tc : ToolCall) : Prop :=
  is_unknown_call tc
  \/ exists kind query, is_call_with tc kind query /\ has_text query = true.

(** A call of the finalize tool whose arguments are the valid plan [p]. *)
Definition call_finalizes (tc : ToolCall) (p : list PageFunction) : Prop :=
  fn_name tc = Some "finalize_plan"
  /\ exists args, parse_arguments tc = Ok args /\ validatePlan args = Ok p.

(** The call fails with [e]: its arguments are not JSON, or it is a call of
    the finalize tool whose arguments are no valid plan, or a capability
    call whose arguments are [null] or whose query has no text. *)
Definition call_fails (tc : ToolCall) (e : Exn) : Prop :=
  e <> OutsideAlphabet
  /\ (parse_arguments tc = Throw e
      \/ exists args,
           parse_arguments tc = Ok args
           /\ (fn_name tc = Some "finalize_plan" /\ validatePlan args = Throw e
               \/ fn_name tc <> Some "finalize_plan"
                  /\ is_Some (command_of (toLowerCase (default "" (fn_name tc))))
                  /\ (args_query args = Throw e
                      \/ exists query,
                           args_query args = Ok query /\ has_text query = false
                           /\ e = TypeError))).

(** Every entry of the cache is the payload of a call of the provider,
    recorded in the trace, for the kind of its key and for a query whose
    text is that of its key.  The text does not tell the query: the string
    [5] and the number 5 have one key. *)
Definition cache_backed {W} (collab : Collaborators W) (c : gmap string string)
    (tr : list Event) : Prop :=
  forall key hit,
    c !! key = Some hit ->
    exists kind query reply,
      is_read kind = true
      /\ key = cache_key (CommandName_str kind) (query_text collab query)
      /\ (kind, query, reply) ∈ provider_calls tr
      /\ payload reply = hit.

(** The events of the loop of [execute] from index [i] on: for each step
    the call of the provider, then the screenshot under the ordinal
    [i + 1]. *)
Fixpoint execution_events (dir : string) (join : string -> string -> string)
    (i : nat) (steps : list PageFunction)
    (replies : list ((JsError + string) * (JsError + unit))) : list Event :=
  match steps, replies with
  | step :: steps', (r, shot) :: replies' =>
      EvInvoke (name step) (query step) r
      :: EvScreenshot (join dir (screenshot_name (i + 1) step)) shot
      :: execution_events dir join (S i) steps' replies'
  | _, _ => []
  end.

(** an event of planning: a completion or a call of the provider *)
Definition is_planning_event (ev : Event) : bool :=
  match ev with
  | EvCompletion _ _ | EvInvoke _ _ _ | EvInvokeValue _ _ _ => true
  | EvMkdir _ _ | EvScreenshot _ _ => false
  end.

(** what a call, a reply or a round may leave behind: events of planning
    only, and a plan only from [validatePlan] *)
Definition planning_only {W : Type} (st : State W) (res : Outcome CallResult * State W) : Prop :=
  (exists new, trace res.2 = trace st ++ new
               /\ Forall (fun ev => is_planning_event ev = true) new)
  /\ match res.1 with
     | Ok (Finalized p _) => exists raw, validatePlan raw = Ok p
     | _ => True
     end.

(** a step as the object [{ name, query }], and a plan as [{ plan }] *)
Definition PageFunction_value (pf : PageFunction) : JsValue :=
  JObj [("name", JStr (CommandName_str (name pf))); ("query", JStr (query pf))].

Definition plan_value (p : list PageFunction) : JsValue :=
  JObj [("plan", JArr (PageFunction_value <$> p))].

(** reading a decimal numeral back *)
Definition parse_decimal (s : string) : option nat :=
  Nat.of_uint <$> NilEmpty.uint_of_string s.

(** ** Stars over one character class, by recursion on the input *)

(** What a greedy star over the class [p] amounts to with the continuation
    [k]: the longest run of [p] first, then shorter ones. *)
Fixpoint greedy_chars (p : ascii -> bool) (k : cont) (pos : nat) (s : string)
    (cs : captures) : option mres :=
  match s with
  | String c s' =>
      if p c then
        match greedy_chars p k (S pos) s' cs with
        | Some m => Some m
        | None => k pos s cs
        end
      else k pos s cs
  | EmptyString => k pos s cs
  end.

(** The same for a lazy star: the shortest run first. *)
Fixpoint lazy_chars (p : ascii -> bool) (k : cont) (pos : nat) (s : string)
    (cs : captures) : option mres :=
  match k pos s cs with
  | Some m => Some m
  | None =>
      match s with
      | String c s' => if p c then lazy_chars p k (S pos) s' cs else None
      | EmptyString => None
      end
  end.

(** Every run of characters of the class [p] replaced by [rep]; [inside]
    says that the character before belonged to a run. *)
Fixpoint squeeze (p : ascii -> bool) (rep : string) (inside : bool) (s : string)
    : string :=
  match s with
  | EmptyString => EmptyString
  | String c s' =>
      if p c then
        if inside then squeeze p rep true s' else rep +:+ squeeze p rep true s'
      else String c (squeeze p rep false s')
  end.

(** [b] does not go on the run of [p]. *)
Definition stops (p : ascii -> bool) (b : string) : Prop :=
  match b with
  | String c _ => p c = false
  | EmptyString => True
  end.

(** No two characters of the class [p] stand next to each other. *)
Fixpoint no_pair (p : ascii -> bool) (s : string) : bool :=
  match s with
  | String a ((String b _) as s') => negb (p a && p b) && no_pair p s'
  | _ => true
  end.

Definition not_backquote (c : ascii) : bool := negb (Ascii.eqb c "`").

(** ** [web-automation.ts]: the capability provider over a browser page *)

(** [page.locator(selector)] and [page.locator(selector).first()] *)
Inductive Locator : Type :=
| locator (selector : string)
| locator_first (selector : string).

(** The calls that reach the browser, the completion API and the module
    loader. *)
Inductive Op : Type :=
| OpNewClient (apiKey : option string)
    (* new OpenAI({ apiKey }) *)
| OpLaunch
    (* chromium.launch({ headless: true }) *)
| OpNewPage
    (* browser.newPage() *)
| OpImport
    (* import('./ctl.js') *)
| OpClosePage
    (* page.close() *)
| OpCloseBrowser
    (* browser.close() *)
| OpWaitForLoadState
    (* page.waitForLoadState("domcontentloaded") *)
| OpGoto (url : string)
    (* page.goto(url, { waitUntil: "domcontentloaded" }) *)
| OpFill (selector text : string)
    (* page.fill(selector, text) *)
| OpTitle
    (* page.title() *)
| OpCount (l : Locator)
    (* l.count() *)
| OpInnerText (l : Locator)
    (* l.innerText() *)
| OpClick (l : Locator)
    (* l.click() *)
| OpPress (l : Locator) (key : string)
    (* l.press(key) *)
| OpIsVisible (l : Locator)
    (* l.isVisible() *)
| OpScreenshot (path : string)
    (* page.screenshot({ path, type: "jpeg", quality: 80, fullPage: true }) *)
| OpExtraction (messages : list Message).
    (* client.chat.completions.create({ model: "gpt-4o-mini", messages, ... }) *)

(** What stands behind the calls, over a state [W] of the outside world.
    [process_env_OPENAI_API_KEY] and [page_url] are read without waiting;
    [query_match_error] is the [TypeError] the platform raises when
    [query.match] is called on a value that is no string, and
    [to_primitive_error] the one it raises when a value without a text is
    turned into a string; each of the others resolves or rejects. *)
Record Browser (W : Type) : Type :=
  { process_env_OPENAI_API_KEY : W -> option string;
    new_OpenAI : option string -> W -> (JsError + unit) * W;
    chromium_launch : W -> (JsError + unit) * W;
    browser_newPage : W -> (JsError + unit) * W;
    import_ctl : W -> (JsError + unit) * W;
    page_close : W -> (JsError + unit) * W;
    browser_close : W -> (JsError + unit) * W;
    page_waitForLoadState : W -> (JsError + unit) * W;
    page_goto : string -> W -> (JsError + unit) * W;
    page_fill : string -> string -> W -> (JsError + unit) * W;
    page_title : W -> (JsError + string) * W;
    page_url : W -> string;
    locator_count : Locator -> W -> (JsError + nat) * W;
    locator_innerText : Locator -> W -> (JsError + string) * W;
    locator_click : Locator -> W -> (JsError + unit) * W;
    locator_press : Locator -> string -> W -> (JsError + unit) * W;
    locator_isVisible : Locator -> W -> (JsError + bool) * W;
    page_screenshot_jpeg : string -> W -> (JsError + unit) * W;
    fs_mkdir_recursive : string -> W -> (JsError + unit) * W;
    planner_completion : list Message -> W -> (JsError + option ChatMessage) * W;
    extraction_completion : list Message -> W -> (JsError + option ChatMessage) * W;
    query_match_error : JsError;
    to_primitive_error : JsError }.
Global Arguments process_env_OPENAI_API_KEY {W} _ _.
Global Arguments new_OpenAI {W} _ _ _.
Global Arguments chromium_launch {W} _ _.
Global Arguments browser_newPage {W} _ _.
Global Arguments import_ctl {W} _ _.
Global Arguments page_close {W} _ _.
Global Arguments browser_close {W} _ _.
Global Arguments page_waitForLoadState {W} _ _.
Global Arguments page_goto {W} _ _ _.
Global Arguments page_fill {W} _ _ _ _.
Global Arguments page_title {W} _ _.
Global Arguments page_url {W} _ _.
Global Arguments locator_count {W} _ _ _.
Global Arguments locator_innerText {W} _ _ _.
Global Arguments locator_click {W} _ _ _.
Global Arguments locator_press {W} _ _ _ _.
Global Arguments locator_isVisible {W} _ _ _.
Global Arguments page_screenshot_jpeg {W} _ _ _.
Global Arguments fs_mkdir_recursive {W} _ _ _.
Global Arguments planner_completion {W} _ _ _.
Global Arguments extraction_completion {W} _ _ _.
Global Arguments query_match_error {W} _.
Global Arguments to_primitive_error {W} _.

(** The outside world together with the calls made so far, each with
    whether it resolved. *)
Definition Logged (W : Type) : Type := W * list (Op * bool).

(** A promise over a world [W]: it resolves ([inr]) or rejects ([inl]). *)
Definition Promise (W A : Type) : Type := W -> (JsError + A) * W.

Definition resolve {W A} (a : A) : Promise W A := fun w => (inr a, w).
Definition reject {W A} (err : JsError) : Promise W A := fun w => (inl err, w).

Definition and_then {W A B} (m : Promise W A) (f : A -> Promise W B) : Promise W B :=
  fun w =>
    match m w with
    | (inr a, w') => f a w'
    | (inl err, w') => (inl err, w')
    end.

Notation "'let+' x ':=' m 'in' k" := (and_then m (fun x => k))
  (at level 10, x name, m at level 100, k at level 200).

(** [try { ... } catch (err) { ... }] *)
Definition catch {W A} (m : Promise W A) (handler : JsError -> Promise W A)
    : Promise W A :=
  fun w =>
    match m w with
    | (inr a, w') => (inr a, w')
    | (inl err, w') => handler err w'
    end.

(** [promise.catch(() => a)] *)
Definition recover {W A} (a : A) (m : Promise W A) : Promise W A :=
  catch m (fun _ => resolve a).

(** [new Error(message)] *)
Definition Error (message : string) : JsError :=
  {| err_name := "Error"; err_message := message |}.

Definition settled {R} (r : JsError + R) : bool :=
  match r with inr _ => true | inl _ => false end.

(** One call, entered in the log. *)
Definition logged {W R} (op : Op) (call : W -> (JsError + R) * W)
    : Promise (Logged W) R :=
  fun lw =>
    let '(r, w') := call lw.1 in
    (r, (w', lw.2 ++ [(op, settled r)])).

(** One call that is left out of the log. *)
Definition unlogged {W R} (call : W -> (JsError + R) * W) : Promise (Logged W) R :=
  fun lw =>
    let '(r, w') := call lw.1 in
    (r, (w', lw.2)).

(** *** The patterns of the provider *)

(** the class of a quote mark, single or double *)
Definition quote_mark (c : ascii) : bool := Ascii.eqb c "'" || Ascii.eqb c Json.dquote.
(** the class [a-zA-Z], which is the same under the [i] flag *)
Definition is_alpha (c : ascii) : bool := between 65 90 c || between 97 122 c.
(** the class [a-zA-Z0-9.-] *)
Definition domain_char (c : ascii) : bool :=
  is_alpha c || is_digit c || Ascii.eqb c "." || Ascii.eqb c "-".
(** the class of the dot: any character but a line terminator *)
Definition not_newline (c : ascii) : bool :=
  negb ((code c =? 10)%N || (code c =? 13)%N).
Definition not_space (c : ascii) : bool := negb (is_space c).
Definition not_quote (c : ascii) : bool := negb (quote_mark c).

(** [wait until], any characters of one line, [visible]; under the [i]
    flag *)
Definition re_wait_visible : regex :=
  RSeq (lit_i "wait until") (RSeq (RStar true (RChar not_newline)) (lit_i "visible")).
(** [first search result], under the [i] flag *)
Definition re_first_result : regex := lit_i "first search result".
(** [navigate to], a space, a quote mark, group 1 of one or more
    characters that are no quote marks, a quote mark; under the [i] flag *)
Definition re_navigate_quoted : regex :=
  RSeq (lit_i "navigate to ")
    (RSeq (RChar quote_mark)
       (RSeq (RGroup 1 (plus (RChar not_quote))) (RChar quote_mark))).
(** [navigate to], white space, group 1 of one or more characters that are
    no white space; under the [i] flag *)
Definition re_navigate_to : regex :=
  RSeq (lit_i "navigate to")
    (RSeq (plus (RChar is_space)) (RGroup 1 (plus (RChar not_space)))).
(** the same after [go to] at the start of the text *)
Definition re_go_to : regex :=
  RSeq RBol
    (RSeq (lit_i "go to")
       (RSeq (plus (RChar is_space)) (RGroup 1 (plus (RChar not_space))))).
(** the whole text as group 1: one or more characters of a domain, a dot,
    two or more letters *)
Definition re_domain : regex :=
  RSeq RBol
    (RSeq
       (RGroup 1
          (RSeq (plus (RChar domain_char))
             (RSeq (chr ".")
                (RSeq (RChar is_alpha) (RSeq (RChar is_alpha) (RStar true (RChar is_alpha)))))))
       REol).
(** at the start of the text, as group 1: [http], an optional [s], a colon
    and two slashes, one or more characters that are no white space; under
    the [i] flag *)
Definition re_url : regex :=
  RSeq RBol
    (RGroup 1
       (RSeq (lit_i "http")
          (RSeq (opt (chr_i "s")) (RSeq (lit "://") (plus (RChar not_space)))))).
(** [type], a space, a quoted group 1, [into search box]; under the [i]
    flag *)
Definition re_type : regex :=
  RSeq (lit_i "type ")
    (RSeq (RChar quote_mark)
       (RSeq (RGroup 1 (plus (RChar not_quote)))
          (RSeq (RChar quote_mark) (lit_i " into search box")))).
(** [click search button], under the [i] flag *)
Definition re_click_search : regex := lit_i "click search button".
(** [click on], a space, a quoted group 1, [link]; under the [i] flag *)
Definition re_click_link : regex :=
  RSeq (lit_i "click on ")
    (RSeq (RChar quote_mark)
       (RSeq (RGroup 1 (plus (RChar not_quote)))
          (RSeq (RChar quote_mark) (lit_i " link")))).

(** The chain of [query.match(...) || ...], read at [navMatch[1]]; in each
    of the five patterns group 1 takes part in every match. *)
Definition navMatch (query : string) : option string :=
  match match_group re_navigate_quoted 1 query with
  | Some url => Some url
  | None =>
  match match_group re_navigate_to 1 query with
  | Some url => Some url
  | None =>
  match match_group re_go_to 1 query with
  | Some url => Some url
  | None =>
  match match_group re_domain 1 query with
  | Some url => Some url
  | None => match_group re_url 1 query
  end end end end.

(** [/\s+/g] and [/\n\s*\n/g] *)
Definition re_spaces_run : regex := plus (RChar is_space).
Definition newline : ascii := "010".
Definition re_blank_lines : regex := RSeq (chr newline) (RSeq spaces (chr newline)).

(** the chain of [replace], [trim] and [substring(0, 8000)] *)
Definition tidy_content (mainContent : string) : string :=
  slice0 (8 * 1000)
    (trim
       (replace_all re_blank_lines (String newline "")
          (replace_all re_spaces_run " " mainContent))).

Definition contentSelectors : list string :=
  [ "main"; "article";
    "[role=" +:+ String Json.dquote "main" +:+ String Json.dquote "]";
    ".content"; "#content"; ".article-content"; ".post-content"; "body" ].

(** what [getIntelligentPageContent] returns *)
Record PageContent : Type :=
  { pc_title : string; pc_url : string; pc_content : string }.

Definition lines (ls : list string) : string :=
  foldr (fun l rest => l +:+ String newline rest) "" ls.

(** the template of [intelligentExtract]; it starts and ends with a line
    break *)
Definition extractionPrompt (query : string) (pageData : PageContent) : string :=
  lines
    [ "";
      "You are an intelligent web content extractor. The user wants to extract specific information from a webpage.";
      "";
      "USER REQUEST: " +:+ String Json.dquote query +:+ String Json.dquote "";
      "";
      "WEBPAGE DATA:";
      "Title: " +:+ pc_title pageData;
      "URL: " +:+ pc_url pageData;
      "Content: " +:+ pc_content pageData;
      "";
      "INSTRUCTIONS:";
      "1. Analyze the user's request and understand what they want to extract";
      "2. Look through the webpage content to find the most relevant information";
      "3. Extract and summarize the requested information clearly and concisely";
      "4. If the exact information isn't found, provide the closest relevant content";
      "5. Keep your response focused and under 200 words";
      "";
      "RESPONSE FORMAT:";
      "Provide a clear, direct answer to what the user requested. Don't include meta-commentary about the extraction process." ].

Definition extractionSystem : string :=
  "You are a helpful web content extraction assistant. Provide clear, concise answers based on the webpage content provided.".

(** the text an extraction that failed is reported with *)
Definition extraction_failed (query message : string) : string :=
  "EXTRACTED(" +:+ String Json.dquote query +:+ String Json.dquote ") => "
  +:+ String Json.dquote "(extraction failed: " +:+ message +:+ ")"
  +:+ String Json.dquote "".

Section Stagehand.

Context {W : Type}.
Variable b : Browser W.

(** [try { ... } catch (err) { throw new Error(prefix + err.message) }] *)
Definition rethrow {A} (prefix : string) (m : Promise (Logged W) A)
    : Promise (Logged W) A :=
  catch m (fun err => reject (Error (prefix +:+ err_message err))).

Definition stagehand_observe (query : string) : Promise (Logged W) string :=
  if test re_wait_visible query then
    let+ _ := logged OpWaitForLoadState (page_waitForLoadState b) in
    resolve ("Waited for condition: " +:+ query)
  else if test re_first_result query then
    let first := locator_first "a h3" in
    let+ n := logged (OpCount first) (locator_count b first) in
    let+ text :=
      if (0 <? n)%nat
      then recover "" (logged (OpInnerText first) (locator_innerText b first))
      else resolve "" in
    resolve ("First result heading: "
             +:+ (if negb (String.eqb text "") then text else "(not found)"))
  else resolve ("Observed: " +:+ query).

(** [for (const selector of contentSelectors) { ... }], which leaves
    [mainContent] empty or set to the first text of more than 100
    characters *)
Fixpoint first_long_text (selectors : list string) : Promise (Logged W) string :=
  match selectors with
  | [] => resolve ""
  | selector :: rest =>
      let element := locator_first selector in
      let+ n := logged (OpCount element) (locator_count b element) in
      if (0 <? n)%nat then
        let+ text :=
          recover "" (logged (OpInnerText element) (locator_innerText b element)) in
        if negb (String.eqb text "") && (100 <? String.length text)%nat
        then resolve text
        else first_long_text rest
      else first_long_text rest
  end.

Definition getIntelligentPageContent : Promise (Logged W) PageContent :=
  rethrow "Failed to get page content: "
    (let+ title := recover "" (logged OpTitle (page_title b)) in
     let+ found := first_long_text contentSelectors in
     let+ mainContent :=
       if negb (String.eqb found "") then resolve found
       else recover ""
              (logged (OpInnerText (locator "body"))
                 (locator_innerText b (locator "body"))) in
     fun lw =>
       resolve {| pc_title := title;
                  pc_url := page_url b lw.1;
                  pc_content := tidy_content mainContent |} lw).

Definition intelligentExtract (query : string) (pageData : PageContent)
    : Promise (Logged W) string :=
  rethrow "GPT extraction failed: "
    (let messages :=
       [SystemMsg extractionSystem; UserMsg (extractionPrompt query pageData)] in
     let+ completion := logged (OpExtraction messages) (extraction_completion b messages) in
     let content :=
       match completion with
       | Some msg => default "" (content msg)
       | None => ""
       end in
     let result :=
       if negb (String.eqb content "") then content else "No content extracted" in
     resolve (trim result)).

Definition stagehand_extract (query : string) : Promise (Logged W) string :=
  catch
    (let+ pageContent := getIntelligentPageContent in
     intelligentExtract query pageContent)
    (fun err => resolve (extraction_failed query (err_message err))).

Definition stagehand_act (query : string) : Promise (Logged W) string :=
  match navMatch query with
  | Some found =>
      let url :=
        if negb (startsWith "http://" found) && negb (startsWith "https://" found)
        then "https://" +:+ found else found in
      let+ _ := logged (OpGoto url) (page_goto b url) in
      resolve ("NAVIGATED(" +:+ url +:+ ")")
  | None =>
  match match_group re_type 1 query with
  | Some text =>
      let selector :=
        "input[name=" +:+ String Json.dquote "q" +:+ String Json.dquote "]" in
      let+ _ := recover tt (logged (OpFill selector text) (page_fill b selector text)) in
      resolve ("TYPED(" +:+ text +:+ ")")
  | None =>
  if test re_click_search query then
    let q := locator ("input[name=" +:+ String Json.dquote "q" +:+ String Json.dquote "]") in
    let+ n := logged (OpCount q) (locator_count b q) in
    if (0 <? n)%nat then
      let+ _ := recover tt (logged (OpPress q "Enter") (locator_press b q "Enter")) in
      resolve "PRESSED_ENTER"
    else
      let btn :=
        locator ("input[name=" +:+ String Json.dquote "btnK" +:+ String Json.dquote "]") in
      let+ visible := recover false (logged (OpIsVisible btn) (locator_isVisible b btn)) in
      if visible : bool then
        let+ _ := recover tt (logged (OpClick btn) (locator_click b btn)) in
        resolve "CLICKED_BTNK"
      else resolve "SEARCH_TRIGGERED"
  else
  match match_group re_click_link 1 query with
  | Some text =>
      let link :=
        locator_first
          ("a:has-text(" +:+ String Json.dquote text +:+ String Json.dquote ")") in
      let+ n := logged (OpCount link) (locator_count b link) in
      if (0 <? n)%nat then
        let+ _ := recover tt (logged (OpClick link) (locator_click b link)) in
        resolve ("CLICKED_LINK_TEXT(" +:+ text +:+ ")")
      else
        let first := locator_first "a h3" in
        let+ m := logged (OpCount first) (locator_count b first) in
        if (0 <? m)%nat then
          let+ _ := recover tt (logged (OpClick first) (locator_click b first)) in
          resolve "CLICKED_FIRST_RESULT"
        else resolve "LINK_NOT_FOUND"
  | None =>
      resolve ("ACTION_OK(" +:+ String Json.dquote query +:+ String Json.dquote ")")
  end end end.

Definition createStagehandImplementation (name : CommandName) (query : string)
    : Promise (Logged W) string :=
  match name with
  | observe => stagehand_observe query
  | extract => stagehand_extract query
  | act => stagehand_act query
  end.

(** The same object called with a query that is no string.  [observe] and
    [extract] use the query in [test] and in template literals only, which
    take its text.  Where the query has no text, [observe] is rejected by
    its first [test]; [extract] reads the page, and is rejected by the
    template literal of its [catch] block, which is reached whether the page
    was read or not.  [act] calls [query.match], which such a value does
    not have, and is rejected before anything is done. *)
Definition createStagehandImplementation_value (String_of : JsValue -> string)
    (name : CommandName) (query : JsValue) : Promise (Logged W) string :=
  match name with
  | observe =>
      if has_text query then stagehand_observe (String_of query)
      else reject (to_primitive_error b)
  | extract =>
      if has_text query then stagehand_extract (String_of query)
      else
        catch
          (let+ _ := getIntelligentPageContent in reject (to_primitive_error b))
          (fun _ => reject (to_primitive_error b))
  | act => reject (query_match_error b)
  end.

End Stagehand.

(** ** [web-automation.ts]: one task from the prompt to the result *)

Record AutomationResult : Type :=
  { r_success : bool;
    r_plan : list PageFunction;
    r_outputs : list string;
    r_screenshots : list string;
    r_output : option string;
    r_error : option string }.

(** the object the [catch] block returns *)
Definition failed_result (message : string) : AutomationResult :=
  {| r_success := false; r_plan := []; r_outputs := []; r_screenshots := [];
     r_output := None; r_error := Some message |}.

(** [plan.map((_, i) => `debug_screenshots/${String(i + 1).padStart(2, '0')}-*.jpg`)] *)
Definition screenshot_patterns (plan : list PageFunction) : list string :=
  imap (fun i _ => "debug_screenshots/" +:+ z (i + 1) +:+ "-*.jpg") plan.

(** the variables [browser] and [page]: whether they have been assigned *)
Record Handles : Type := { browser : bool; page : bool }.

(** The bodies the handler sends. *)
Inductive ResponseBody : Type :=
| BadRequest (error : string)
    (* { error } *)
| Executed (prompt : string) (result : AutomationResult)
    (* { success: true, prompt, result } *)
| ServerError (error : string) (prompt : JsValue).
    (* { success: false, error, prompt } *)

(** The calls the handler makes on [res], in order. *)
Inductive ResCall : Type :=
| ResStatus (code : nat)
    (* res.status(code) *)
| ResJson (body : ResponseBody).
    (* res.json(body) *)

(** The status a body is sent with: the last one set, or 200. *)
Definition status_of (calls : list ResCall) : nat :=
  default 200
    (last (omap (fun c => match c with ResStatus n => Some n | ResJson _ => None end)
             calls)).

(** the bodies sent *)
Definition sent (calls : list ResCall) : list ResponseBody :=
  omap (fun c => match c with ResJson b => Some b | ResStatus _ => None end) calls.

Section WebTask.

Context {W : Type}.
Variable b : Browser W.
(** [join] of [node:path], and the texts of the planner's prompts *)
Variable join : string -> string -> string.
Variable plannerSystemPrompt : string.
Variable plannerUserPrompt : string -> string.
(** the messages of the errors the platform raises itself, and the text of a
    value inside a template literal *)
Variable platform_message : Exn -> string.
Variable String_of : JsValue -> string.

(** [error.message] *)
Definition message (error : Exn) : string :=
  match error with
  | NoCodeFence => "No JSON code fence found."
  | InvalidPlanShape => "Model did not return an object with a 'plan' array."
  | StepNotObject idx =>
      "Plan step " +:+ Number_toString idx +:+ " is not an object."
  | StepNoQuery idx =>
      "Plan step " +:+ Number_toString idx +:+ " must include a string 'query'."
  | StepInvalidName idx name =>
      "Plan step " +:+ Number_toString idx +:+ " has invalid name '"
      +:+ String_of name +:+ "'. Must be one of: observe | extract | act."
  | NoCompletion => "No completion message returned."
  | PlanningExhausted =>
      "Planning loop exceeded iteration limit without a final plan."
  | Rejected err => err_message err
  | SyntaxError | TypeError | OutsideAlphabet => platform_message error
  end.

(** The navigator's collaborators as [executeWebTask] sets them up: the
    client, the provider of [createStagehandImplementation], the file
    system and the page. *)
Definition web_collaborators : Collaborators (Logged W) :=
  {| chat_completions_create := fun messages => unlogged (planner_completion b messages);
     stagehand := createStagehandImplementation b;
     stagehand_value := createStagehandImplementation_value b String_of;
     text_of := String_of;
     fs_mkdir := fun path => unlogged (fs_mkdir_recursive b path);
     page_screenshot := fun path => logged (OpScreenshot path) (page_screenshot_jpeg b path) |}.

(** [await] of a promise inside a function that may also throw *)
Definition awaited {A} (p : Promise (Logged W) A) : M (Logged W) A :=
  fun st =>
    match p (world st) with
    | (inr a, lw) => (Ok a, {| world := lw; trace := trace st |})
    | (inl err, lw) => (Throw (Rejected err), {| world := lw; trace := trace st |})
    end.

(** The statements of the [try] block after [page] has been assigned. *)
Definition run_task (userPrompt : string) : M (Logged W) AutomationResult :=
  let* _ := awaited (logged OpImport (import_ctl b)) in
  let* r :=
    navigate web_collaborators "./debug_screenshots" join
      plannerSystemPrompt plannerUserPrompt userPrompt in
  let plan := r.1 in
  let outputs := r.2 in
  let screenshots := screenshot_patterns plan in
  let* finalOutput := lift (extractFinalOutput plan outputs) in
  ret {| r_success := true; r_plan := plan; r_outputs := outputs;
         r_screenshots := screenshots; r_output := Some finalOutput;
         r_error := None |}.

(** The [try] block: its outcome, and [browser] and [page] as they stand
    when it is left. *)
Definition task_try (userPrompt : string) (st0 : State (Logged W))
    : Outcome AutomationResult * Handles * State (Logged W) :=
  let none := {| browser := false; page := false |} in
  let apiKey := process_env_OPENAI_API_KEY b (world st0).1 in
  match awaited (logged (OpNewClient apiKey) (new_OpenAI b apiKey)) st0 with
  | (Throw e, st1) => (Throw e, none, st1)
  | (Ok _, st1) =>
  if negb (bool_decide (is_Some (process_env_OPENAI_API_KEY b (world st1).1)))
     || String.eqb (default "" (process_env_OPENAI_API_KEY b (world st1).1)) ""
  then (Throw (Rejected (Error "OPENAI_API_KEY environment variable is required")),
        none, st1)
  else
  match awaited (logged OpLaunch (chromium_launch b)) st1 with
  | (Throw e, st2) => (Throw e, none, st2)
  | (Ok _, st2) =>
  let launched := {| browser := true; page := false |} in
  match awaited (logged OpNewPage (browser_newPage b)) st2 with
  | (Throw e, st3) => (Throw e, launched, st3)
  | (Ok _, st3) =>
  let '(outcome, st4) := run_task userPrompt st3 in
  (outcome, {| browser := true; page := true |}, st4)
  end end end.

(** The [finally] block. *)
Definition cleanup (h : Handles) : M (Logged W) unit :=
  let* _ :=
    if page h then awaited (recover tt (logged OpClosePage (page_close b)))
    else ret tt in
  if browser h then awaited (recover tt (logged OpCloseBrowser (browser_close b)))
  else ret tt.

Definition executeWebTask (userPrompt : string) : M (Logged W) AutomationResult :=
  fun st0 =>
    let '(outcome, h, st1) := task_try userPrompt st0 in
    let result :=
      match outcome with
      | Ok r => r
      | Throw error => failed_result (message error)
      end in
    match cleanup h st1 with
    | (Ok _, st2) => (Ok result, st2)
    | (Throw e, st2) => (Throw e, st2)
    end.

(** The handler of [POST /api/execute], on the parsed body of the request:
    the calls it has made on [res], and whether it returns or is rejected.
    In [res.status(500).json({ ... })] the status is set before the object
    is built, so it is set also when building the object throws. *)
Definition post_api_execute (req_body : JsValue)
    : State (Logged W) -> list ResCall * Outcome unit * State (Logged W) :=
  fun st =>
    let attempt : M (Logged W) (list ResCall) :=
      match get_prop req_body "prompt" with
      | None => throw TypeError
      | Some prompt =>
          if negb (truthy prompt) || negb (bool_decide (typeof prompt = TString))
          then
            ret [ResStatus 400;
                 ResJson (BadRequest
                   "Missing or invalid prompt. Please provide a string prompt in the request body.")]
          else
            let* result := executeWebTask (str_of prompt) in
            ret [ResJson (Executed (str_of prompt) result)]
      end in
    match attempt st with
    | (Ok calls, st') => (calls, Ok (), st')
    | (Throw error, st') =>
        match get_prop req_body "prompt" with
        | None => ([ResStatus 500], Throw TypeError, st')
        | Some prompt =>
            ([ResStatus 500;
              ResJson (ServerError (message error)
                         (if truthy prompt then prompt else JNull))],
             Ok (), st')
        end
    end.

End WebTask.

(** ** Readings of the log *)

(** the calls of a log that were made on the page or its elements *)
Definition is_page_op (op : Op) : bool :=
  match op with
  | OpWaitForLoadState | OpGoto _ | OpFill _ _ | OpTitle | OpCount _
  | OpInnerText _ | OpClick _ | OpPress _ _ | OpIsVisible _ | OpScreenshot _ => true
  | OpNewClient _ | OpLaunch | OpNewPage | OpImport | OpClosePage | OpCloseBrowser
  | OpExtraction _ => false
  end.

(** the calls a capability provider may make: on the page, and the
    completion of an extraction *)
Definition is_provider_op (op : Op) : bool :=
  is_page_op op || match op with OpExtraction _ => true | _ => false end.

Definition is_closing (op : Op) : bool :=
  match op with OpClosePage | OpCloseBrowser => true | _ => false end.

(** the addresses a log shows the page was sent to *)
Definition visited (log : list (Op * bool)) : list string :=
  omap (fun entry => match entry.1 with OpGoto url => Some url | _ => None end) log.

(** [lw'] is [lw] after more calls, all of them in the class [allowed]. *)
Definition log_grows {W : Type} (allowed : Op -> bool) (lw lw' : Logged W) : Prop :=
  exists new, lw'.2 = lw.2 ++ new /\ Forall (fun entry => allowed entry.1 = true) new.

(** whether a log shows that the browser was launched, and that a page was
    opened *)
Definition launched (log : list (Op * bool)) : bool :=
  existsb (fun entry => match entry with (OpLaunch, true) => true | _ => false end) log.

Definition page_opened (log : list (Op * bool)) : bool :=
  existsb (fun entry => match entry with (OpNewPage, true) => true | _ => false end) log.

(** the log of a state *)
Definition log_of {W : Type} (st : State (Logged W)) : list (Op * bool) := (world st).2.

(** a bare domain: characters of a domain, a dot, two letters or more *)
Definition is_bare_domain (q : string) : Prop :=
  exists host tld,
    q = host +:+ "." +:+ tld
    /\ host <> "" /\ str_all domain_char host = true
    /\ str_all is_alpha tld = true /\ 2 <= String.length tld.

(** [url] names its protocol. *)
Definition has_protocol (url : string) : bool :=
  startsWith "http://" url || startsWith "https://" url.

(** Queries [observe] has no special case for: they do not hold both
    [wait until] and [visible], and not [first search result], in any case
    of letters. *)
Definition plain_observation (query : string) : bool :=
  let q := toLowerCase query in
  negb (includes "wait until" q && includes "visible" q)
  && negb (includes "first search result" q).

(** Queries [act] has no special case for: no [navigate to], no [go to] or
    [http] at the start, no dot, no [type] or [click on] followed by a quote
    mark, no [click search button]. *)
Definition plain_action (query : string) : bool :=
  let q := toLowerCase query in
  negb (includes "navigate to" q)
  && negb (startsWith "go to" q)
  && negb (includes "." query)
  && negb (startsWith "http" q)
  && negb (includes "type '" q)
  && negb (includes ("type " +:+ String Json.dquote "") q)
  && negb (includes "click search button" q)
  && negb (includes "click on '" q)
  && negb (includes ("click on " +:+ String Json.dquote "") q).

(** [s] without its last character, when that is a hyphen *)
Fixpoint strip_last_dash (s : string) : string :=
  match s with
  | EmptyString => EmptyString
  | String c s' =>
      match s' with
      | EmptyString => if Ascii.eqb "-" c then EmptyString else s
      | String _ _ => String c (strip_last_dash s')
      end
  end.

(** [s] without its first character, when that is a hyphen *)
Definition strip_first_dash (s : string) : string :=
  match s with
  | String c s' => if Ascii.eqb "-" c then s' else s
  | EmptyString => EmptyString
  end.

(** The calls of the provider whose rejection it does not catch: the
    navigation, the wait for the page and the counting of elements. *)
Definition propagates (op : Op) : bool :=
  match op with
  | OpGoto _ | OpCount _ | OpWaitForLoadState => true
  | _ => false
  end.

(** In the entry of the log, a call whose rejection is not caught has
    resolved. *)
Definition went_well (entry : Op * bool) : bool := implb (propagates entry.1) entry.2.

(** [m] rejects exactly when a call whose rejection is not caught has
    rejected, and that call is then its last. *)
Definition rejects_with_its_last_call {W A} (m : Promise (Logged W) A) : Prop :=
  forall lw,
    exists new,
      (m lw).2.2 = lw.2 ++ new
      /\ match (m lw).1 with
         | inl _ =>
             exists earlier op,
               new = earlier ++ [(op, false)] /\ propagates op = true
               /\ Forall (fun entry => went_well entry = true) earlier
         | inr _ => Forall (fun entry => went_well entry = true) new
         end.


(** ** A scripted browser, for the examples *)

Definition not_a_function : JsError :=
  {| err_name := "TypeError"; err_message := "query.match is not a function" |}.

Definition not_a_primitive : JsError :=
  {| err_name := "TypeError"; err_message := "Cannot convert object to primitive value" |}.

(** Every call resolves at once; the page is empty, the model of the
    extraction has nothing to say, and the environment holds [key]. *)
Definition blank_browser (key : option string) : Browser unit :=
  {| process_env_OPENAI_API_KEY := fun _ => key;
     new_OpenAI := fun _ w => (inr (), w);
     chromium_launch := fun w => (inr (), w);
     browser_newPage := fun w => (inr (), w);
     import_ctl := fun w => (inr (), w);
     page_close := fun w => (inr (), w);
     browser_close := fun w => (inr (), w);
     page_waitForLoadState := fun w => (inr (), w);
     page_goto := fun _ w => (inr (), w);
     page_fill := fun _ _ w => (inr (), w);
     page_title := fun w => (inr "", w);
     page_url := fun _ => "about:blank";
     locator_count := fun _ w => (inr 0, w);
     locator_innerText := fun _ w => (inr "", w);
     locator_click := fun _ w => (inr (), w);
     locator_press := fun _ _ w => (inr (), w);
     locator_isVisible := fun _ w => (inr false, w);
     page_screenshot_jpeg := fun _ w => (inr (), w);
     fs_mkdir_recursive := fun _ w => (inr (), w);
     planner_completion := fun _ w => (inr None, w);
     extraction_completion := fun _ w => (inr None, w);
     query_match_error := not_a_function;
     to_primitive_error := not_a_primitive |}.

(** the state before anything has been called *)
Definition fresh : State (Logged unit) := {| world := ((), []); trace := [] |}.

(** the messages of the platform's own errors, as V8 words them *)
Definition v8_message (error : Exn) : string :=
  match error with
  | SyntaxError => "Unexpected token in JSON"
  | TypeError => "Cannot read properties of undefined"
  | OutsideAlphabet => "(outside the alphabet)"
  | _ => ""
  end.

(** A page with a search box that does not react: the elements are there,
    and every action on them is rejected. *)
Definition timeout : JsError :=
  {| err_name := "TimeoutError"; err_message := "Timeout 30000ms exceeded." |}.

Definition unresponsive_browser : Browser unit :=
  {| process_env_OPENAI_API_KEY := fun _ => Some "sk-test";
     new_OpenAI := fun _ w => (inr (), w);
     chromium_launch := fun w => (inr (), w);
     browser_newPage := fun w => (inr (), w);
     import_ctl := fun w => (inr (), w);
     page_close := fun w => (inr (), w);
     browser_close := fun w => (inr (), w);
     page_waitForLoadState := fun w => (inr (), w);
     page_goto := fun _ w => (inr (), w);
     page_fill := fun _ _ w => (inl timeout, w);
     page_title := fun w => (inr "Search", w);
     page_url := fun _ => "https://example.com/";
     locator_count := fun _ w => (inr 1, w);
     locator_innerText := fun _ w => (inl timeout, w);
     locator_click := fun _ w => (inl timeout, w);
     locator_press := fun _ _ w => (inl timeout, w);
     locator_isVisible := fun _ w => (inl timeout, w);
     page_screenshot_jpeg := fun _ w => (inr (), w);
     fs_mkdir_recursive := fun _ w => (inr (), w);
     planner_completion := fun _ w => (inr None, w);
     extraction_completion := fun _ w => (inl timeout, w);
     query_match_error := not_a_function;
     to_primitive_error := not_a_primitive |}.

(** * Properties *)

(** ** Strings *)

Lemma str_all_app p a b : str_all p (a +:+ b) = str_all p a && str_all p b.
Proof.
  induction a as [|c a IH]; simpl; [done|].
  change (String c a +:+ b) with (String c (a +:+ b)). simpl.
  rewrite IH. by rewrite andb_assoc.
Qed.

Lemma str_all_impl (p q : ascii -> bool) s :
  (forall c, p c = true -> q c = true) -> str_all p s = true -> str_all q s = true.
Proof.
  intros Hpq. induction s as [|c s IH]; simpl; [done|].
  intros [Hc Hs]%andb_prop. rewrite (Hpq _ Hc). simpl. auto.
Qed.

Lemma slice0_all p n s : str_all p s = true -> str_all p (slice0 n s) = true.
Proof.
  revert n. induction s as [|c s IH]; intros [|n]; simpl; try done.
  intros [Hc Hs]%andb_prop. rewrite Hc. simpl. auto.
Qed.

Lemma slice0_length n s : String.length (slice0 n s) <= n.
Proof.
  revert s. induction n as [|n IH]; intros [|c s]; simpl; try lia.
  specialize (IH s). lia.
Qed.

Lemma startsWith_app p s : startsWith p (p +:+ s) = true.
Proof.
  induction p as [|c p IH]; simpl; [done|].
  change (String c p +:+ s) with (String c (p +:+ s)).
  by rewrite Ascii.eqb_refl.
Qed.

Lemma startsWith_inv p s :
  startsWith p s = true -> s = p +:+ drop (String.length p) s.
Proof.
  revert s. induction p as [|c p IH]; intros [|d s]; simpl; try done.
  destruct (Ascii.eqb_spec c d) as [->|]; [|done].
  intros H. change (String d p +:+ drop (String.length p) s)
    with (String d (p +:+ drop (String.length p) s)). f_equal. auto.
Qed.

(** [startsWith] is the prefix relation. *)
Lemma startsWith_spec p s : startsWith p s = true <-> exists t, s = p +:+ t.
Proof.
  split.
  - intros H. eexists. by apply startsWith_inv.
  - intros [t ->]. apply startsWith_app.
Qed.

(** [includes] is the substring relation. *)
Lemma includes_spec sub s :
  includes sub s = true <-> exists a b, s = a +:+ sub +:+ b.
Proof.
  split.
  - induction s as [|c s IH]; simpl.
    + destruct (startsWith sub "") eqn:E; [|done].
      intros _. apply startsWith_spec in E as [t E]. by exists "", t.
    + destruct (startsWith sub (String c s)) eqn:E.
      * intros _. apply startsWith_spec in E as [t E]. by exists "", t.
      * intros (a & b & ->)%IH. by exists (String c a), b.
  - intros (a & b & ->). induction a as [|c a IH].
    + change ("" +:+ sub +:+ b) with (sub +:+ b).
      destruct (sub +:+ b) eqn:E; simpl; rewrite <- E, startsWith_app; done.
    + change (String c a +:+ sub +:+ b) with (String c (a +:+ sub +:+ b)).
      simpl. rewrite IH. by destruct (startsWith _ _).
Qed.

(** ** The matcher on the patterns of the sources *)

Lemma rmatch_lit w pos s cs k :
  rmatch (lit w) pos s cs k =
  if startsWith w s then k (pos + String.length w) (drop (String.length w) s) cs
  else None.
Proof.
  revert pos s. induction w as [|c w IH]; intros pos s; simpl.
  - by rewrite Nat.add_0_r; destruct s.
  - destruct s as [|d s]; [done|].
    destruct (Ascii.eqb c d); [|done].
    rewrite IH. by replace (S pos + String.length w) with (pos + S (String.length w)) by lia.
Qed.

Lemma rmatch_words ws pos s cs k :
  total k ->
  is_Some (rmatch (words ws) pos s cs k) <-> starts_any ws s = true.
Proof.
  intros Hk. unfold words. induction ws as [|w ws IH]; simpl.
  - destruct s; split; (done || by intros []).
  - assert (Hw : is_Some (rmatch (lit w) pos s cs k) <-> startsWith w s = true).
    { rewrite rmatch_lit. destruct (startsWith w s); [|split; (done || by intros [])].
      split; [done|]. intros _. apply Hk. }
    destruct ws as [|w' ws].
    + simpl. rewrite orb_false_r. exact Hw.
    + change (alts (lit w :: (lit <$> (w' :: ws))))
        with (RAlt (lit w) (alts (lit <$> (w' :: ws)))).
      simpl rmatch. destruct (rmatch (lit w) pos s cs k) eqn:E.
      * split; [|done]. intros _. apply orb_true_iff. left. apply Hw. done.
      * rewrite IH. destruct (startsWith w s) eqn:E2; [|done].
        destruct Hw as [_ Hw]. destruct (Hw eq_refl) as [? ?]. done.
Qed.

Lemma includes_cons w c s :
  includes w (String c s) = startsWith w (String c s) || includes w s.
Proof.
  change (includes w (String c s))
    with (if startsWith w (String c s) then true else includes w s).
  by destruct (startsWith w (String c s)).
Qed.

Lemma includes_nil w : includes w "" = startsWith w "".
Proof. by destruct w. Qed.

Lemma includes_any_cons ws c s :
  includes_any ws (String c s) = starts_any ws (String c s) || includes_any ws s.
Proof.
  unfold includes_any, starts_any. induction ws as [|w ws IH]; cbn [existsb]; [done|].
  rewrite IH, includes_cons.
  destruct (startsWith w (String c s)); cbn [orb]; [done|].
  destruct (includes w s); cbn [orb]; [by rewrite !orb_true_r|done].
Qed.

Lemma includes_any_nil ws : includes_any ws "" = starts_any ws "".
Proof.
  unfold includes_any, starts_any. induction ws as [|w ws IH]; cbn [existsb]; [done|].
  by rewrite IH, includes_nil.
Qed.

Lemma search_words i ws pos s :
  is_Some (search_from (RGroup i (words ws)) pos s) <-> includes_any ws s = true.
Proof.
  assert (Hat : forall pos s,
    is_Some (match_at (RGroup i (words ws)) pos s) <-> starts_any ws s = true).
  { intros pos' s'. unfold match_at. simpl. apply rmatch_words. by intros ???. }
  revert pos. induction s as [|c s IH]; intros pos; simpl.
  - rewrite includes_any_nil, <- (Hat pos "").
    destruct (match_at _ pos ""); split; (done || by intros []).
  - rewrite includes_any_cons, orb_true_iff, <- (Hat pos (String c s)), <- (IH (S pos)).
    destruct (match_at _ pos (String c s)) eqn:E.
    + split; [by left|done].
    + split; [by right|]. intros [[]|]; done.
Qed.

(** A pattern that is a group of literal alternatives tests for one of
    them as a substring. *)
Lemma test_words i ws s : test (RGroup i (words ws)) s = includes_any ws s.
Proof.
  unfold test. pose proof (search_words i ws 0 s) as H.
  destruct (search_from _ 0 s), (includes_any ws s); try done.
  - destruct H as [H _]. by specialize (H (mk_is_Some _ _ eq_refl)).
  - destruct H as [_ H]. by destruct (H eq_refl).
Qed.

Lemma search_bol_later r pos s : search_from (RSeq RBol r) (S pos) s = None.
Proof. revert pos. induction s as [|c s IH]; intros pos; simpl; [done|apply IH]. Qed.

(** An anchored literal tests for a prefix. *)
Lemma test_bol_lit w s : test (RSeq RBol (lit w)) s = startsWith w s.
Proof.
  unfold test. destruct s as [|c s]; simpl; unfold match_at; simpl;
    rewrite rmatch_lit; destruct (startsWith w _); try done.
  by rewrite search_bol_later.
Qed.

(** ** [normalizeCommandName] *)

Lemma lower_char_idemp c : lower_char (lower_char c) = lower_char c.
Proof. by destruct c as [[] [] [] [] [] [] [] []]. Qed.

Lemma toLowerCase_idemp s : toLowerCase (toLowerCase s) = toLowerCase s.
Proof. induction s as [|c s IH]; simpl; [done|]. by rewrite lower_char_idemp, IH. Qed.

Lemma normalizeCommandName_unfold name :
  normalizeCommandName name = normalizeName_rules name.
Proof.
  unfold normalizeCommandName, normalizeName_rules, command_of.
  unfold re_wait, re_observe, re_act, re_extract.
  rewrite test_bol_lit, !test_words.
  by repeat destruct (String.eqb _ _).
Qed.

Lemma observe_trigger_wins n :
  startsWith "wait" n || includes_any observe_words n = true ->
  command_of n = None.
Proof.
  intros H. unfold command_of.
  destruct (String.eqb_spec n "observe") as [->|_]; [by vm_compute in H|].
  destruct (String.eqb_spec n "extract") as [->|_]; [by vm_compute in H|].
  by destruct (String.eqb_spec n "act") as [->|_]; [vm_compute in H|].
Qed.

(** C8: [normalizeCommandName] lower-cases and trims its input and then
    applies the five rules in their order, the first match winning: it
    agrees with [normalizeName_rules] on every input, gives equal results
    on inputs that differ only in case, and sends every input that has
    both an observe trigger and an act verb to [observe]. *)
Theorem normalizeCommandName_first_match_wins :
  (forall name, normalizeCommandName name = normalizeName_rules name)
  /\ (forall a b, toLowerCase a = toLowerCase b ->
        normalizeCommandName a = normalizeCommandName b)
  /\ (forall name, normalizeCommandName (toLowerCase name) = normalizeCommandName name)
  /\ (forall name,
        let n := trim (toLowerCase name) in
        startsWith "wait" n || includes_any observe_words n = true ->
        includes_any act_words n = true ->
        normalizeCommandName name = Some observe).
Proof.
  split; [exact normalizeCommandName_unfold|].
  split; [by intros a b Hab; unfold normalizeCommandName; rewrite Hab|].
  split; [by intros name; unfold normalizeCommandName; rewrite toLowerCase_idemp|].
  intros name n Hobs _. rewrite normalizeCommandName_unfold.
  unfold normalizeName_rules. fold n.
  rewrite (observe_trigger_wins n Hobs).
  change (includes_any _ n) with (includes_any observe_words n) at 1.
  by rewrite Hobs.
Qed.

(** C8 at an input with both [check] and [click]. *)
Lemma normalizeCommandName_check_click :
  normalizeCommandName "Check the box, then CLICK it" = Some observe.
Proof.
  apply (proj2 (proj2 (proj2 normalizeCommandName_first_match_wins))); reflexivity.
Defined.

(** C9, as stated, fails on four inputs: [wait] inside a word is no
    trigger, an act verb or an extract verb loses against an earlier rule,
    and [ensure], which the claim does not list, is a trigger. *)
Lemma normalizeCommandName_contains_refuted :
  (includes "wait" "await" = true /\ normalizeCommandName "await" = None)
  /\ (includes "click" "check then click" = true
      /\ normalizeCommandName "check then click" = Some observe)
  /\ (includes "get" "click to get" = true
      /\ normalizeCommandName "click to get" = Some act)
  /\ (includes_any
        ["wait"; "verify"; "check"; "confirm"; "click"; "type"; "press";
         "navigate"; "open"; "select"; "submit"; "scroll"; "hover"; "read";
         "get"; "scrape"; "capture"; "grab"; "copy"; "extract"] "ensure" = false
      /\ normalizeCommandName "ensure" = Some observe).
Proof. repeat split; reflexivity. Qed.

Lemma act_verb_not_canonical n :
  includes_any act_words n = true -> command_of n = None.
Proof.
  intros H. unfold command_of.
  destruct (String.eqb_spec n "observe") as [->|_]; [by vm_compute in H|].
  destruct (String.eqb_spec n "extract") as [->|_]; [by vm_compute in H|].
  by destruct (String.eqb_spec n "act") as [->|_]; [vm_compute in H|].
Qed.

(** C9, amended: with [n] the lower-cased and trimmed input, a prefix
    [wait] or an occurrence of ensure, verify, check or confirm gives
    [observe]; failing that, an occurrence of an act verb gives [act];
    failing that too, an occurrence of an extract verb gives [extract]; and
    an input with none of these that is not itself observe or act gives
    null. *)
Theorem normalizeCommandName_by_priority name :
  let n := trim (toLowerCase name) in
  let observe_trigger := startsWith "wait" n || includes_any observe_words n in
  (observe_trigger = true -> normalizeCommandName name = Some observe)
  /\ (observe_trigger = false -> includes_any act_words n = true ->
      normalizeCommandName name = Some act)
  /\ (observe_trigger = false -> includes_any act_words n = false ->
      includes_any extract_words n = true ->
      normalizeCommandName name = Some extract)
  /\ (observe_trigger = false -> includes_any act_words n = false ->
      includes_any extract_words n = false ->
      n <> "observe" -> n <> "act" ->
      normalizeCommandName name = None).
Proof.
  intros n trig. rewrite normalizeCommandName_unfold.
  unfold normalizeName_rules. fold n.
  change (includes_any ["ensure"; _; _; _] n) with (includes_any observe_words n).
  change (includes_any ("click" :: _) n) with (includes_any act_words n).
  change (includes_any ("read" :: _) n) with (includes_any extract_words n).
  fold trig. repeat split.
  - intros H. by rewrite (observe_trigger_wins n H), H.
  - intros H1 H2. by rewrite (act_verb_not_canonical n H2), H1, H2.
  - intros H1 H2 H3. rewrite H1, H2, H3.
    unfold command_of.
    destruct (String.eqb_spec n "observe") as [E|_]; [by rewrite E in H3|].
    destruct (String.eqb_spec n "extract") as [E|_]; [done|].
    by destruct (String.eqb_spec n "act") as [E|_]; [rewrite E in H3|].
  - intros H1 H2 H3 Ho Ha. rewrite H1, H2, H3. unfold command_of.
    destruct (String.eqb_spec n "observe"); [done|].
    destruct (String.eqb_spec n "extract") as [E|]; [by rewrite E in H3|].
    by destruct (String.eqb_spec n "act").
Qed.

(** C9, amended, at an input with an act verb and no observe trigger. *)
Lemma normalizeCommandName_scroll :
  normalizeCommandName " Scroll down " = Some act.
Proof.
  apply (proj1 (proj2 (normalizeCommandName_by_priority " Scroll down "))); reflexivity.
Defined.

(** ** [slugify] and the screenshot file names *)

Lemma star_match_greedy_some body k fuel pos s cs :
  total k -> is_Some (star_match body true k fuel pos s cs).
Proof.
  intros Hk. destruct fuel as [|fuel]; simpl; [apply Hk|].
  destruct (body pos s cs _); [done|apply Hk].
Qed.

Lemma star_char_end p g fuel pos s cs e rest cs' :
  star_match (rmatch (RChar p)) g accept fuel pos s cs = Some (e, rest, cs') ->
  pos <= e.
Proof.
  revert pos s cs e rest cs'.
  induction fuel as [|fuel IH]; intros pos s cs e rest cs'; cbn [star_match rmatch].
  - intros H; inversion H; lia.
  - destruct g; [|intros H; inversion H; lia].
    destruct s as [|c s]; [intros H; inversion H; lia|].
    destruct (p c); [|intros H; inversion H; lia].
    destruct (Nat.eqb_spec (S pos) pos) as [|_]; [lia|].
    destruct (star_match _ _ _ fuel (S pos) s cs) as [[[e' r'] c']|] eqn:E.
    + intros H; inversion H; subst. apply IH in E. lia.
    + intros H; inversion H; lia.
Qed.

(** A global replacement keeps a class of characters that holds the
    replacement text. *)
Lemma replace_all_from_all r rep p s skip pos :
  str_all p rep = true -> str_all p s = true ->
  str_all p (replace_all_from r rep skip pos s) = true.
Proof.
  intros Hrep. revert skip pos. induction s as [|c s IH]; intros skip pos Hs.
  - destruct skip; simpl; [|done]. by destruct (match_at r pos "") as [[[??]?]|].
  - simpl in Hs. apply andb_prop in Hs as [Hc Hs].
    destruct skip as [|skip]; simpl; [|by apply IH].
    destruct (match_at r pos (String c s)) as [[[e ?] ?]|].
    + destruct (Nat.eqb e pos); rewrite str_all_app, Hrep; simpl; [rewrite Hc|]; by apply IH.
    + simpl. rewrite Hc. by apply IH.
Qed.

Lemma match_non_slug pos c s :
  match match_at re_non_slug pos (String c s) with
  | Some (e, _, _) => slug_char c = false /\ pos < e
  | None => slug_char c = true
  end.
Proof.
  unfold match_at, re_non_slug, plus. simpl.
  destruct (slug_char c); simpl; [done|].
  destruct (star_match _ _ _ _ _ _ _) as [[[e r] cs]|] eqn:E.
  - split; [done|]. apply star_char_end in E. lia.
  - match type of E with ?t = None =>
      assert (H : is_Some t) by (apply star_match_greedy_some; by intros ???)
    end.
    rewrite E in H. by destruct H.
Qed.

(** Replacing every run of other characters by a hyphen leaves lower-case
    letters, digits and hyphens only. *)
Lemma replace_non_slug_all s skip pos :
  str_all slug_or_dash (replace_all_from re_non_slug "-" skip pos s) = true.
Proof.
  revert skip pos. induction s as [|c s IH]; intros skip pos.
  - destruct skip; simpl; [|done]. by destruct (match_at re_non_slug pos "") as [[[??]?]|].
  - destruct skip as [|skip]; simpl; [|apply IH].
    pose proof (match_non_slug pos c s) as H.
    destruct (match_at re_non_slug pos (String c s)) as [[[e ?] ?]|].
    + destruct H as [_ H]. destruct (Nat.eqb_spec e pos); [lia|].
      change ("-" +:+ ?x) with (String "-" x). simpl. apply IH.
    + simpl. unfold slug_or_dash at 1. rewrite H. simpl. apply IH.
Qed.

(** [slug_or_dash] is the class a-z, 0-9 and the hyphen. *)
Lemma slug_or_dash_spec c :
  slug_or_dash c = true
  <-> (97 <= code c <= 122)%N \/ (48 <= code c <= 57)%N \/ c = "-"%char.
Proof.
  unfold slug_or_dash, slug_char, is_lower_az, is_digit, between.
  rewrite !orb_true_iff, !andb_true_iff, !N.leb_le.
  destruct (Ascii.eqb_spec c "-") as [->|Hne]; [by split; auto|].
  split; [intros [H|H]; [tauto|done]|tauto].
Qed.

Lemma slugify_len_chars input maxLen :
  str_all slug_or_dash (slugify_len input maxLen) = true.
Proof.
  unfold slugify_len, replace_all. apply slice0_all, replace_all_from_all; [done|].
  apply replace_non_slug_all.
Qed.

Lemma string_of_uint_digits u : str_all is_digit (NilEmpty.string_of_uint u) = true.
Proof. induction u; simpl; done. Qed.

Lemma repeat_char_all p c n : p c = true -> str_all p (repeat_char c n) = true.
Proof. intros H. induction n as [|n IH]; simpl; [done|]. by rewrite H. Qed.

Lemma z_digits n : str_all is_digit (z n) = true.
Proof.
  unfold z, padStart0, Number_toString.
  by rewrite str_all_app, repeat_char_all, string_of_uint_digits.
Qed.

Lemma z_length n : 2 <= String.length (z n).
Proof.
  unfold z, padStart0. generalize (Number_toString n). intros s.
  assert (H : forall a b, String.length (a +:+ b) = String.length a + String.length b).
  { intros a b. induction a as [|c a IH]; [done|].
    change (S (String.length (a +:+ b)) = S (String.length a + String.length b)).
    by rewrite IH. }
  assert (Hr : forall c k, String.length (repeat_char c k) = k).
  { intros c k. induction k as [|k IH]; simpl; [done|by rewrite IH]. }
  rewrite H, Hr. lia.
Qed.

Lemma digit_file_char c : is_digit c = true -> file_char c = true.
Proof. unfold file_char, slug_or_dash, slug_char. intros ->. by rewrite orb_true_r. Qed.

Lemma slug_file_char c : slug_or_dash c = true -> file_char c = true.
Proof. unfold file_char. by intros ->. Qed.

(** C10: for every input, [slugify] with its default bound gives at most 60
    characters, each a lower-case ASCII letter, a digit or a hyphen; and
    every screenshot file name, the ordinal in two digits or more, the step
    name, the slug and [.jpg] joined by hyphens, consists of such
    characters and dots. *)
Theorem slugify_filesystem_safe :
  (forall input,
     String.length (slugify input) <= 60
     /\ str_all slug_or_dash (slugify input) = true)
  /\ (forall stepIndex step,
        screenshot_name stepIndex step =
          z stepIndex +:+ "-" +:+ CommandName_str (name step) +:+ "-"
          +:+ slugify (query step) +:+ ".jpg"
        /\ str_all is_digit (z stepIndex) = true
        /\ 2 <= String.length (z stepIndex)
        /\ str_all file_char (screenshot_name stepIndex step) = true).
Proof.
  split.
  - intros input. split; [apply slice0_length|apply slugify_len_chars].
  - intros i step. split; [done|]. split; [apply z_digits|]. split; [apply z_length|].
    unfold screenshot_name.
    rewrite !str_all_app.
    rewrite (str_all_impl _ _ _ digit_file_char (z_digits i)).
    fold (slugify (query step)).
    rewrite (str_all_impl _ _ (slugify _) slug_file_char (slugify_len_chars _ 60)).
    by destruct (name step).
Qed.

(** ** [validatePlan] *)

Lemma is_canonical_command_of v :
  is_canonical v = match v with JStr s => command_of s | _ => None end.
Proof. by destruct v. Qed.

Lemma validateStep_ok idx step pf :
  validateStep idx step = Ok pf <-> validates_to step pf.
Proof.
  unfold validateStep, validates_to, is_object, step_kind.
  rewrite is_canonical_command_of. unfold prop. split.
  - destruct step as [| |b|m e|s|items|props]; simpl; try done;
      try (by destruct b); try (by destruct (negb (m =? 0)%Z));
      try (by destruct (negb (String.eqb s ""))).
    destruct (obj_get "query" props) as [| |b|m e|q|?|?] eqn:Eq; simpl; try done;
      try (by destruct b); try (by destruct (negb (m =? 0)%Z)).
    destruct (String.eqb_spec q "") as [->|Hq]; simpl; [done|].
    destruct (obj_get "name" props) as [| |?|? ?|nm|?|?]; simpl; try done.
    destruct (command_of nm) as [kind|].
    + intros [= <-]. done.
    + destruct (normalizeCommandName nm); [|done]. intros [= <-]. done.
  - intros ([Hnull Hty] & Hq & Hne & Hk).
    destruct step as [| |b|m e|s|items|props]; simpl in *; try done.
    rewrite Hq. simpl. destruct (String.eqb_spec (query pf) ""); [done|]. simpl.
    destruct (obj_get "name" props) as [| |?|? ?|nm|?|?]; simpl in *; try done.
    destruct (command_of nm) as [kind|]; simpl.
    + injection Hk as ->. by destruct pf.
    + rewrite Hk. by destruct pf.
Qed.

Lemma validateStep_throw idx step e :
  validateStep idx step = Throw e ->
  step_error_index e = Some idx /\ ~ step_ok step.
Proof.
  intros He. split.
  - unfold validateStep in He.
    repeat (match type of He with
            | (if ?b then _ else _) = _ => destruct b
            | match ?o with _ => _ end = _ => destruct o
            end; try done; try (by injection He as <-)).
  - intros (Hobj & [q [Hq Hne]] & [kind Hk]).
    assert (validateStep idx step = Ok {| name := kind; query := q |}) as H.
    { apply validateStep_ok. done. }
    by rewrite H in He.
Qed.

Lemma map_steps_ok idx steps pfs :
  map_steps idx steps = Ok pfs <-> Forall2 validates_to steps pfs.
Proof.
  revert idx pfs. induction steps as [|step steps IH]; intros idx pfs; simpl.
  - split; [intros [= <-]; constructor|by intros ->%Forall2_nil_inv_l].
  - destruct (validateStep idx step) as [pf|e] eqn:E.
    + destruct (map_steps (S idx) steps) as [pfs'|e'] eqn:E'.
      * split.
        -- intros [= <-]. constructor; [by apply validateStep_ok in E|by apply IH in E'].
        -- intros (pf' & pfs'' & H1 & H2 & ->)%Forall2_cons_inv_l.
           apply (validateStep_ok idx) in H1. apply (IH (S idx)) in H2. congruence.
      * split; [done|].
        intros (pf' & pfs'' & H1 & H2 & ->)%Forall2_cons_inv_l.
        apply (IH (S idx)) in H2. congruence.
    + split; [done|].
      intros (pf' & pfs'' & H1 & H2 & ->)%Forall2_cons_inv_l.
      apply (validateStep_ok idx) in H1. congruence.
Qed.

Lemma validates_to_step_ok step pf : validates_to step pf -> step_ok step.
Proof.
  intros (Hobj & Hq & Hne & Hk). split; [done|]. split; [by exists (query pf)|].
  by rewrite Hk.
Qed.

(** The index of the error is that of the first step that is not in order. *)
Lemma map_steps_throw idx steps e :
  map_steps idx steps = Throw e ->
  exists j step,
    step_error_index e = Some (idx + j) /\ steps !! j = Some step
    /\ ~ step_ok step /\ Forall step_ok (take j steps).
Proof.
  revert idx. induction steps as [|step steps IH]; intros idx; simpl; [done|].
  destruct (validateStep idx step) as [pf|e0] eqn:E.
  - destruct (map_steps (S idx) steps) as [pfs'|e'] eqn:E'; [done|].
    intros [= <-]. destruct (IH _ E') as (j & st & H1 & H2 & H3 & H4).
    exists (S j), st. split_and!; try done.
    + by rewrite H1; f_equal; lia.
    + simpl. constructor; [|done].
      apply validateStep_ok in E. by eapply validates_to_step_ok.
  - intros [= <-]. apply validateStep_throw in E as [H1 H2].
    exists 0, step. rewrite Nat.add_0_r. by split_and!.
Qed.

Lemma validatePlan_shape raw :
  validatePlan raw = Throw InvalidPlanShape <-> plan_items raw = None.
Proof.
  unfold validatePlan, plan_items, prop. split.
  - destruct raw as [| |b|m e|s|items|props]; simpl; try done.
    destruct (obj_get "plan" props) as [| |?|? ?|?|its|?]; simpl; try done.
    intros H. apply map_steps_throw in H as (j & st & H & _). done.
  - destruct raw as [| |b|m e|s|items|props]; simpl; try done;
      try (by destruct b); try (by destruct (negb (m =? 0)%Z));
      try (by destruct (negb (String.eqb s ""))).
    by destruct (obj_get "plan" props).
Qed.

Lemma validatePlan_items raw items :
  plan_items raw = Some items -> validatePlan raw = map_steps 0 items.
Proof.
  unfold validatePlan, plan_items, prop.
  destruct raw as [| |b|m e|s|its|props]; simpl; try done.
  destruct (obj_get "plan" props) as [| |?|? ?|?|its|?]; simpl; try done.
  by intros [= ->].
Qed.


(** ** [extractFinalOutput] *)

Lemma zip_outputs_app idx plan1 plan2 outputs :
  zip_outputs idx (plan1 ++ plan2) outputs =
  zip_outputs idx plan1 outputs ++ zip_outputs (idx + length plan1) plan2 outputs.
Proof.
  revert idx. induction plan1 as [|step plan1 IH]; intros idx; simpl.
  - by rewrite Nat.add_0_r.
  - rewrite IH. do 3 f_equal. lia.
Qed.

Lemma zip_outputs_no_extract idx plan outputs :
  Forall (fun step => name step <> extract) plan ->
  filter (fun item => name item.1.1 = extract) (zip_outputs idx plan outputs) = [].
Proof.
  intros H. revert idx. induction H as [|step plan Hs _ IH]; intros idx; simpl; [done|].
  rewrite filter_cons_False; [apply IH|done].
Qed.

Lemma qualifies_nonempty cleaned :
  negb (String.eqb cleaned "") && (10 <? String.length cleaned)%nat
    && negb (includes "(not found" cleaned)
  = qualifies cleaned.
Proof. unfold qualifies. by destruct cleaned. Qed.

(** the steps after the most recent Extract step are of other kinds *)
Lemma extractFinalOutput_last before step after outputs :
  name step = extract ->
  Forall (fun step' => name step' <> extract) after ->
  extractFinalOutput (before ++ step :: after) outputs =
  match outputs !! length before with
  | None => Throw TypeError
  | Some output =>
      Ok (if qualifies (clean output) then clean output else fallback_scan outputs)
  end.
Proof.
  intros Hstep Hafter. unfold extractFinalOutput.
  rewrite zip_outputs_app. simpl. rewrite filter_app, filter_cons_True by exact Hstep.
  rewrite (zip_outputs_no_extract _ after) by done.
  rewrite reverse_app, reverse_singleton. simpl.
  destruct (outputs !! length before) as [output|]; [|done].
  rewrite qualifies_nonempty. by destruct (qualifies (clean output)).
Qed.

Lemma extractFinalOutput_none plan outputs :
  Forall (fun step => name step <> extract) plan ->
  extractFinalOutput plan outputs = Ok (fallback_scan outputs).
Proof.
  intros H. unfold extractFinalOutput. by rewrite zip_outputs_no_extract.
Qed.

(** C2, as stated, fails: the most recent Extract step gave [n/a], the one
    before it an output that qualifies, and the result is the fixed
    sentence instead of that output. *)
Lemma extractFinalOutput_earlier_extract_refuted :
  let plan := [ {| name := extract; query := "headline" |};
                {| name := extract; query := "price" |} ] in
  let outputs := ["Big news today"; "n/a"] in
  qualifies (clean "n/a") = false
  /\ qualifies (clean "Big news today") = true
  /\ synthesize_described plan outputs = "Big news today"
  /\ extractFinalOutput plan outputs = Ok fallback_sentence.
Proof. repeat split; reflexivity. Qed.

(** C2, amended: only the most recent Extract step is a candidate.  When
    its output, the technical prefixes stripped, is longer than ten
    characters and has no not-found marker, that cleaned output is
    returned; when it is not, or the plan has no Extract step, the result
    is that of the second scan over all outputs. *)
Theorem extractFinalOutput_most_recent_extract plan outputs :
  (forall i step output,
     plan !! i = Some step -> name step = extract ->
     (forall j step', i < j -> plan !! j = Some step' -> name step' <> extract) ->
     outputs !! i = Some output ->
     extractFinalOutput plan outputs =
       Ok (if qualifies (clean output) then clean output else fallback_scan outputs))
  /\ ((forall step, step ∈ plan -> name step <> extract) ->
      extractFinalOutput plan outputs = Ok (fallback_scan outputs)).
Proof.
  split.
  - intros i step output Hi Hstep Hlater Hout.
    rewrite <- (take_drop_middle plan i step Hi).
    rewrite extractFinalOutput_last; [| done |].
    + rewrite length_take_le by (apply lookup_lt_Some in Hi; lia). by rewrite Hout.
    + apply Forall_lookup. intros j step' Hj. rewrite lookup_drop in Hj.
      apply (Hlater (S i + j)); [lia|done].
  - intros H. apply extractFinalOutput_none, Forall_forall. done.
Qed.

(** ** The error payload is JSON *)

(** Reading back an escaped text ends at the closing quote and gives the
    text. *)
Lemma parse_chars_escape wide t rest :
  Json.parse_chars wide (Json.escape t +:+ String Json.dquote rest) = Some (t, rest).
Proof.
  induction t as [|c t IH]; [done|].
  assert (H : forall x s, String x s +:+ String Json.dquote rest
                          = String x (s +:+ String Json.dquote rest)) by done.
  destruct c as [[] [] [] [] [] [] [] []];
    cbn [Json.escape];
    cbv [Json.dquote Json.backslash code N_of_ascii N_of_digits Ascii.eqb
         Bool.eqb N.eqb N.ltb N.compare N.add N.mul N.div N.modulo Pos.eqb
         Pos.compare Pos.compare_cont Pos.add Pos.mul];
    rewrite ?H; cbn; rewrite ?H; cbn in IH |- *; rewrite IH; reflexivity.
Qed.


Lemma append_assoc a b c : (a +:+ b) +:+ c = a +:+ (b +:+ c).
Proof.
  induction a as [|x a IH]; [done|].
  change (String x ((a +:+ b) +:+ c) = String x (a +:+ (b +:+ c))). by rewrite IH.
Qed.

Lemma parse_value_error_body wide fuel body text :
  Json.parse_chars wide body = Some (text, "}") ->
  Json.parse_value wide (S (S (S fuel)))
    (String "{" (String Json.dquote (String "e" (String "r" (String "r"
       (String "o" (String "r" (String Json.dquote (String ":"
          (String Json.dquote body))))))))))
  = Some (JObj [("error", JStr text)], "").
Proof. intros H. simpl. rewrite H. reflexivity. Qed.

Lemma parse_value_error_field wide fuel text :
  Json.parse_value wide (S (S (S fuel))) (Json.stringify_field "error" text)
  = Some (JObj [("error", JStr text)], "").
Proof.
  rewrite <- (parse_value_error_body wide fuel
                (Json.escape text +:+ String Json.dquote "}") text)
    by apply parse_chars_escape.
  f_equal. unfold Json.stringify_field, Json.quote.
  change (String "{" (String Json.dquote ("error"
               +:+ String Json.dquote (String ":" (String Json.dquote
                     ((Json.escape text +:+ String Json.dquote "") +:+ "}")))))
          = String "{" (String Json.dquote ("error"
               +:+ String Json.dquote (String ":" (String Json.dquote
                     (Json.escape text +:+ String Json.dquote "}")))))).
  by rewrite append_assoc.
Qed.

(** The payload recorded for a rejection is the JSON text of an object
    whose [error] field is the text of the error. *)
Lemma payload_rejection_is_json err :
  Json.parse (payload (inl err)) = Some (JObj [("error", JStr (error_text err))]).
Proof.
  unfold Json.parse, Json.parse_text, payload.
  destruct (String.length (Json.stringify_field "error" (error_text err))) as [|n] eqn:E;
    [done|].
  replace (2 * S n + 2) with (S (S (S (S (2 * n))))) by lia.
  by rewrite parse_value_error_field.
Qed.

(** ** Texts that are JSON

    Reading the escapes above U+00FF changes nothing for a text that has a
    value without them. *)

Lemma parse_chars_wide_len n : forall s r,
  String.length s <= n ->
  Json.parse_chars false s = Some r -> Json.parse_chars true s = Some r.
Proof.
  induction n as [|n IH]; intros s r Hlen.
  - destruct s; [done|cbn in Hlen; lia].
  - destruct s as [|c s]; [done|]. cbn [Json.parse_chars].
    cbn [String.length] in Hlen.
    destruct (Ascii.eqb c Json.dquote); [done|].
    destruct (Ascii.eqb c Json.backslash).
    + destruct s as [|e s]; [done|]. cbn [String.length] in Hlen.
      assert (Hsimple : forall x,
        ('(w, rest) ← Json.parse_chars false s; Some (String x w, rest)) = Some r ->
        ('(w, rest) ← Json.parse_chars true s; Some (String x w, rest)) = Some r).
      { intros x H. destruct (Json.parse_chars false s) as [[w rest]|] eqn:E; [|done].
        rewrite (IH s (w, rest)) by (done || lia). done. }
      repeat (match goal with |- context [if ?b then _ else _] => destruct b end;
              [by apply Hsimple|]); try done.
      destruct (Ascii.eqb e "u"); [|done].
      destruct s as [|h1 [|h2 [|h3 [|h4 s4]]]]; try done.
      cbn [String.length] in Hlen.
      destruct (Json.hex_val h1) as [a|]; [|done]. cbn [mbind option_bind].
      destruct (Json.hex_val h2) as [b|]; [|done]. cbn [mbind option_bind].
      destruct (Json.hex_val h3) as [c3|]; [|done]. cbn [mbind option_bind].
      destruct (Json.hex_val h4) as [d|]; [|done]. cbn [mbind option_bind].
      destruct ((a =? 0) && (b =? 0))%N; [|done].
      intros H. destruct (Json.parse_chars false s4) as [[w rest]|] eqn:E; [|done].
      rewrite (IH s4 (w, rest)) by (done || lia). done.
    + destruct (code c <? 32)%N; [done|].
      intros H. destruct (Json.parse_chars false s) as [[w rest]|] eqn:E; [|done].
      rewrite (IH s (w, rest)) by (done || lia). done.
Qed.

Lemma parse_chars_wide s r :
  Json.parse_chars false s = Some r -> Json.parse_chars true s = Some r.
Proof. by apply (parse_chars_wide_len (String.length s)). Qed.

Lemma parse_value_wide fuel :
  (forall s r, Json.parse_value false fuel s = Some r -> Json.parse_value true fuel s = Some r)
  /\ (forall s acc r,
        Json.parse_elements false fuel s acc = Some r ->
        Json.parse_elements true fuel s acc = Some r)
  /\ (forall s acc r,
        Json.parse_members false fuel s acc = Some r ->
        Json.parse_members true fuel s acc = Some r).
Proof.
  induction fuel as [|fuel (IHv & IHe & IHm)]; [done|]. split_and!.
  - intros s r. cbn [Json.parse_value].
    destruct (Json.skip_ws s) as [|c s']; [done|].
    destruct (Ascii.eqb c "{").
    { destruct (Json.skip_ws s') as [|x rest]; [by apply IHm|].
      destruct (Ascii.eqb_spec x "}") as [->|]; [done|].
      intros H.
      assert (Json.parse_members false fuel (String x rest) [] = Some r) as Hm.
      { revert H. destruct x as [[] [] [] [] [] [] [] []]; done. }
      apply IHm in Hm. revert Hm. destruct x as [[] [] [] [] [] [] [] []]; done. }
    destruct (Ascii.eqb c "[").
    { destruct (Json.skip_ws s') as [|x rest]; [by apply IHe|].
      destruct (Ascii.eqb_spec x "]") as [->|]; [done|].
      intros H.
      assert (Json.parse_elements false fuel (String x rest) [] = Some r) as Hm.
      { revert H. destruct x as [[] [] [] [] [] [] [] []]; done. }
      apply IHe in Hm. revert Hm. destruct x as [[] [] [] [] [] [] [] []]; done. }
    destruct (Ascii.eqb c Json.dquote); [|done].
    intros H. destruct (Json.parse_chars false s') as [[w rest]|] eqn:E; [|done].
    by rewrite (parse_chars_wide _ _ E).
  - intros s acc r. cbn [Json.parse_elements].
    intros H. destruct (Json.parse_value false fuel s) as [[v rest]|] eqn:E; [|done].
    rewrite (IHv _ _ E). cbn [mbind option_bind] in *.
    destruct (Json.skip_ws rest) as [|x rest']; [done|].
    destruct (Ascii.eqb_spec x ",") as [->|]; [by apply IHe|].
    revert H. destruct x as [[] [] [] [] [] [] [] []]; done.
  - intros s acc r. cbn [Json.parse_members].
    destruct (Json.skip_ws s) as [|c s']; [done|].
    destruct (Ascii.eqb c Json.dquote); [|done].
    intros H. destruct (Json.parse_chars false s') as [[k rest]|] eqn:E; [|done].
    rewrite (parse_chars_wide _ _ E). cbn [mbind option_bind] in *.
    destruct (Json.skip_ws rest) as [|x rest1]; [done|].
    destruct (Ascii.eqb_spec x ":") as [->|];
      [|revert H; destruct x as [[] [] [] [] [] [] [] []]; done].
    destruct (Json.parse_value false fuel rest1) as [[v rest2]|] eqn:Ev; [|done].
    rewrite (IHv _ _ Ev). cbn [mbind option_bind] in *.
    destruct (Json.skip_ws rest2) as [|y rest3]; [done|].
    destruct (Ascii.eqb_spec y ",") as [->|]; [by apply IHm|].
    revert H. destruct y as [[] [] [] [] [] [] [] []]; done.
Qed.

(** A text with a value inside the alphabet is JSON. *)
Lemma parse_is_json text v : Json.parse text = Some v -> Json.is_json text = true.
Proof.
  unfold Json.parse, Json.is_json, Json.parse_text. intros H.
  destruct (Json.parse_value false _ text) as [[v' rest]|] eqn:E; [|done].
  rewrite (proj1 (parse_value_wide _) _ _ E). cbn [mbind option_bind] in *.
  by destruct (Json.skip_ws rest).
Qed.

Lemma not_json_no_value text : Json.is_json text = false -> Json.parse text = None.
Proof.
  intros H. destruct (Json.parse text) as [v|] eqn:E; [|done].
  apply parse_is_json in E. congruence.
Qed.

Lemma JSON_parse_value text v : Json.parse text = Some v -> JSON_parse text = Ok v.
Proof. unfold JSON_parse. by intros ->. Qed.

Lemma JSON_parse_not_json text : Json.is_json text = false -> JSON_parse text = Throw SyntaxError.
Proof. intros H. unfold JSON_parse. by rewrite (not_json_no_value _ H), H. Qed.

(** What [JSON_parse] gives is a value, the syntax error of a text that is
    not JSON, or the mark. *)
Lemma JSON_parse_cases text :
  (exists v, Json.parse text = Some v /\ JSON_parse text = Ok v)
  \/ (Json.is_json text = false /\ JSON_parse text = Throw SyntaxError)
  \/ (Json.is_json text = true /\ JSON_parse text = Throw OutsideAlphabet).
Proof.
  unfold JSON_parse. destruct (Json.parse text) as [v|]; [left; by exists v|].
  destruct (Json.is_json text); [by right; right|by right; left].
Qed.

(** ** [execute] *)

Section NavigatorFacts.

Context {W : Type}.
Variable collab : Collaborators W.
Variable screenshotDir : string.
Variable join : string -> string -> string.
Variable plannerSystemPrompt : string.
Variable plannerUserPrompt : string -> string.

Lemma invokeStagehand_run n q st :
  invokeStagehand collab n (JStr q) st =
  let r := (stagehand collab n q (world st)).1 in
  (Ok (payload r),
   {| world := (stagehand collab n q (world st)).2;
      trace := trace st ++ [EvInvoke n q r] |}).
Proof.
  unfold invokeStagehand, bind, await, ret.
  by destruct (stagehand collab n q (world st)) as [[err|result] w'].
Qed.

(** The same for a query of any kind: a call of the provider never fails,
    a rejection becomes the payload. *)
Lemma invokeStagehand_any_run n query st :
  invokeStagehand collab n query st =
  let r := (provider_answer collab n query (world st)).1 in
  (Ok (payload r),
   {| world := (provider_answer collab n query (world st)).2;
      trace := trace st ++ [provider_event n query r] |}).
Proof.
  unfold invokeStagehand, provider_answer, provider_event, bind, await, ret.
  destruct query; cbn zeta;
    match goal with |- context [match ?call with _ => _ end] =>
      by destruct call as [[err|result] w'] end.
Qed.

Lemma captureStepScreenshot_run i step st :
  exists saved reply,
    captureStepScreenshot collab screenshotDir join i step st =
    (Ok saved,
     {| world := (page_screenshot collab
                    (join screenshotDir (screenshot_name i step)) (world st)).2;
        trace := trace st
                 ++ [EvScreenshot (join screenshotDir (screenshot_name i step)) reply] |}).
Proof.
  unfold captureStepScreenshot, bind, await, ret.
  destruct (page_screenshot collab _ (world st)) as [[err|[]] w']; eauto.
Qed.

Lemma invocations_app tr1 tr2 :
  invocations (tr1 ++ tr2) = invocations tr1 ++ invocations tr2.
Proof. unfold invocations. apply omap_app. Qed.

(** The loop from index [i]: one call of the provider for each step, in
    the order of the plan, and one output for each call. *)
Lemma execute_from_run steps : forall i outputs st,
  exists st' new,
    execute_from collab screenshotDir join i steps outputs st
      = (Ok (outputs ++ ((fun c => payload c.2) <$> invocations new)), st')
    /\ trace st' = trace st ++ new
    /\ (fun c => c.1) <$> invocations new = (fun step => (name step, query step)) <$> steps.
Proof.
  induction steps as [|step steps IH]; intros i outputs st.
  - exists st, []. simpl. unfold ret. by rewrite !app_nil_r.
  - cbn [execute_from]. unfold bind at 1. rewrite invokeStagehand_run. cbn zeta.
    set (r := (stagehand collab (name step) (query step) (world st)).1).
    unfold bind at 1.
    destruct (captureStepScreenshot_run (i + 1) step
                {| world := (stagehand collab (name step) (query step) (world st)).2;
                   trace := trace st ++ [EvInvoke (name step) (query step) r] |})
      as (saved & reply & ->).
    match goal with |- context [execute_from _ _ _ _ _ ?o ?s] =>
      destruct (IH (S i) o s) as (st' & new & Hrun & Htr & Hcalls) end.
    exists st', (EvInvoke (name step) (query step) r
                 :: EvScreenshot (join screenshotDir (screenshot_name (i + 1) step)) reply
                 :: new).
    split_and!.
    + rewrite Hrun. f_equal. f_equal. by rewrite <- app_assoc.
    + rewrite Htr. simpl. by rewrite <- !app_assoc.
    + cbn. by rewrite <- Hcalls.
Qed.

(** C3, amended: when the screenshot directory can be created, [execute]
    returns, for every plan, one output for each step: the provider is
    called once for each step with the step's name and query, in the order
    of the plan, and the i-th output is the payload of the i-th answer, the
    answer itself or, for a rejection, the JSON text of an object with the
    error; a rejection does not end the loop, and no output depends on the
    answer to another step. *)
Theorem execute_one_output_per_step plan st :
  (fs_mkdir collab screenshotDir (world st)).1 = inr () ->
  exists outputs st' new,
    execute collab screenshotDir join plan st = (Ok outputs, st')
    /\ trace st' = trace st ++ new
    /\ length outputs = length plan
    /\ (fun c => c.1) <$> invocations new = (fun step => (name step, query step)) <$> plan
    /\ outputs = (fun c => payload c.2) <$> invocations new
    /\ (forall err,
          Json.parse (payload (inl err)) = Some (JObj [("error", JStr (error_text err))])).
Proof.
  intros Hmk. unfold execute, bind, await.
  destruct (fs_mkdir collab screenshotDir (world st)) as [[err|[]] w'] eqn:E;
    simpl in Hmk; [done|].
  match goal with |- context [execute_from _ _ _ _ _ _ ?s] =>
    destruct (execute_from_run plan 0 [] s) as (st' & new & Hrun & Htr & Hcalls) end.
  exists ((fun c => payload c.2) <$> invocations new), st',
    (EvMkdir screenshotDir (inr ()) :: new).
  split_and!; try done.
  - rewrite Htr. simpl. by rewrite <- app_assoc.
  - rewrite length_fmap, <- (length_fmap (fun c => c.1)), Hcalls. by rewrite length_fmap.
  - apply payload_rejection_is_json.
Qed.


(** ** The cache of a planning session *)

Lemma command_of_str s kind : command_of s = Some kind -> s = CommandName_str kind.
Proof.
  unfold command_of.
  destruct (String.eqb_spec s "observe") as [->|_]; [by intros [= <-]|].
  destruct (String.eqb_spec s "extract") as [->|_]; [by intros [= <-]|].
  destruct (String.eqb_spec s "act") as [->|_]; [by intros [= <-]|done].
Qed.

Lemma is_call_not_finalize tc kind q :
  is_call tc kind q -> fn_name tc <> Some "finalize_plan".
Proof. intros [Hc _] E. rewrite E in Hc. done. Qed.

Lemma append_inv_head p a b : p +:+ a = p +:+ b -> a = b.
Proof.
  induction p as [|c p IH]; [done|].
  change (String c p +:+ ?x) with (String c (p +:+ x)). intros [= H]. auto.
Qed.

Lemma cache_key_inj k q k' q' :
  cache_key (CommandName_str k) q = cache_key (CommandName_str k') q' ->
  k = k' /\ q = q'.
Proof.
  unfold cache_key. destruct k, k'; try done;
    intros H; split; try done;
    by apply append_inv_head in H; apply append_inv_head in H.
Qed.

(** What [handleToolCall] does with a capability call. *)
Lemma handleToolCall_call tc kind q v st :
  is_call tc kind q ->
  handleToolCall collab tc v st =
  let validName := CommandName_str kind in
  let key := cache_key validName q in
  let v1 :=
    if is_read kind && clearCacheBeforeNextRead v
    then {| messages := messages v; cache := ∅; clearCacheBeforeNextRead := false |}
    else v in
  match (if is_read kind then cache v1 !! key else None) with
  | Some hit => (Ok (Continue (push (ToolMsg (tc_id tc) validName hit) v1)), st)
  | None =>
      let r := (stagehand collab kind q (world st)).1 in
      (Ok (Continue
             (push (ToolMsg (tc_id tc) validName (payload r))
                (if bool_decide (kind = act)
                 then {| messages := messages v1; cache := cache v1;
                         clearCacheBeforeNextRead := true |}
                 else {| messages := messages v1;
                         cache := <[key := payload r]> (cache v1);
                         clearCacheBeforeNextRead := clearCacheBeforeNextRead v1 |}))),
       {| world := (stagehand collab kind q (world st)).2;
          trace := trace st ++ [EvInvoke kind q r] |})
  end.
Proof.
  intros Hcall. pose proof (is_call_not_finalize _ _ _ Hcall) as Hfin.
  destruct Hcall as (Hcmd & args & Hargs & Hq).
  unfold handleToolCall. unfold bind at 1. unfold lift at 1. rewrite Hargs.
  rewrite bool_decide_eq_false_2 by done. rewrite Hcmd.
  rewrite (command_of_str _ _ Hcmd).
  unfold bind at 1. unfold lift at 1. rewrite Hq.
  unfold bind at 1. unfold lift at 1. cbn [has_text]. cbn zeta. cbn [query_text].
  destruct (if is_read kind then _ else _) as [hit|]; [done|].
  unfold bind. rewrite invokeStagehand_run. done.
Qed.

Lemma handleToolCall_unknown tc v st :
  is_unknown_call tc ->
  handleToolCall collab tc v st =
  (Ok (Continue (push (ToolMsg (tc_id tc) (default "unknown" (fn_name tc))
                         (unknown_tool_payload (fn_name tc))) v)), st).
Proof.
  intros (Hfin & Hcmd & args & Hargs).
  unfold handleToolCall. unfold bind at 1. unfold lift at 1. rewrite Hargs.
  rewrite bool_decide_eq_false_2 by done. by rewrite Hcmd.
Qed.

Lemma handleToolCalls_app tcs1 tcs2 v st :
  handleToolCalls collab (tcs1 ++ tcs2) v st =
  match handleToolCalls collab tcs1 v st with
  | (Ok (Continue v'), st') => handleToolCalls collab tcs2 v' st'
  | other => other
  end.
Proof.
  revert v st. induction tcs1 as [|tc tcs1 IH]; intros v st; [done|].
  cbn [handleToolCalls app]. unfold bind.
  by destruct (handleToolCall collab tc v st) as [[[plan v'|v']|e] st'].
Qed.

(** A round whose reply carries tool calls hands them, after the assistant
    entry, to the loop over the calls; the cache and the flag pass on as
    they are. *)
Lemma plan_round_calls v st msg tc tcs :
  (chat_completions_create collab (messages v) (world st)).1 = inr (Some msg) ->
  tool_calls msg = Some (tc :: tcs) ->
  plan_round collab v st =
  handleToolCalls collab (tc :: tcs) (push (AssistantCalls (tc :: tcs)) v)
    (after_completion collab v st).
Proof.
  intros Hreply Hcalls. unfold plan_round, after_completion, bind at 1, await.
  destruct (chat_completions_create collab (messages v) (world st)) as [reply w'].
  simpl in Hreply. subst reply. by rewrite Hcalls.
Qed.

Lemma invoked_cons_other kind q k' q' r tr :
  (k', q') <> (kind, q) ->
  invoked kind q (EvInvoke k' q' r :: tr) = invoked kind q tr.
Proof.
  intros H. unfold invoked.
  change (invocations (EvInvoke k' q' r :: tr)) with ((k', q', r) :: invocations tr).
  by rewrite filter_cons_False.
Qed.

(** Reads and calls of unknown tools keep an entry of the cache, and do not
    call the provider for its key. *)
Lemma reads_keep_entry kind q hit mids : forall v st,
  Forall (fun tc => is_read_call tc \/ is_unknown_call tc) mids ->
  clearCacheBeforeNextRead v = false ->
  cache v !! cache_key (CommandName_str kind) q = Some hit ->
  exists v' st' new added,
    handleToolCalls collab mids v st = (Ok (Continue v'), st')
    /\ trace st' = trace st ++ new
    /\ invoked kind q new = []
    /\ messages v' = messages v ++ added
    /\ (mids = [] -> new = [] /\ added = [])
    /\ clearCacheBeforeNextRead v' = false
    /\ cache v' !! cache_key (CommandName_str kind) q = Some hit.
Proof.
  induction mids as [|tc mids IH]; intros v st Hmids Hflag Hhit.
  - exists v, st, [], []. by rewrite !app_nil_r.
  - apply Forall_cons in Hmids as [Htc Hmids].
    cbn [handleToolCalls]. unfold bind.
    destruct Htc as [(k' & q' & Hcall & Hread)|Hunk].
    + rewrite (handleToolCall_call _ _ _ _ _ Hcall). cbn zeta.
      rewrite Hread, Hflag. cbn [andb].
      destruct (cache v !! cache_key (CommandName_str k') q') as [hit'|] eqn:Hk'.
      * edestruct (IH (push (ToolMsg (tc_id tc) (CommandName_str k') hit') v) st)
          as (v' & st' & new & added & Hrun & Htr & Hinv & Hmsg & _ & Hf & Hc); try done.
        exists v', st', new, (ToolMsg (tc_id tc) (CommandName_str k') hit' :: added).
        split_and!; try done. rewrite Hmsg. simpl. by rewrite <- app_assoc.
      * assert (Hne : (k', q') <> (kind, q)) by (intros [= -> ->]; congruence).
        assert (Hkey : cache_key (CommandName_str k') q'
                       <> cache_key (CommandName_str kind) q) by congruence.
        rewrite bool_decide_eq_false_2 by (by destruct k').
        set (r := (stagehand collab k' q' (world st)).1).
        match goal with |- context [handleToolCalls _ _ ?v1 ?s1] =>
          destruct (IH v1 s1)
            as (v' & st' & new & added & Hrun & Htr & Hinv & Hmsg & _ & Hf & Hc)
        end; try done.
        { simpl. by rewrite lookup_insert_ne. }
        exists v', st', (EvInvoke k' q' r :: new),
          (ToolMsg (tc_id tc) (CommandName_str k') (payload r) :: added).
        split_and!; try done.
        -- rewrite Htr. simpl. by rewrite <- app_assoc.
        -- by rewrite invoked_cons_other.
        -- rewrite Hmsg. simpl. by rewrite <- app_assoc.
    + rewrite (handleToolCall_unknown _ _ _ Hunk).
      match goal with |- context [handleToolCalls _ _ ?v1 ?s1] =>
        destruct (IH v1 s1)
          as (v' & st' & new & added & Hrun & Htr & Hinv & Hmsg & _ & Hf & Hc)
      end; try done.
      eexists v', st', new, (_ :: added).
      split_and!; try done. rewrite Hmsg. simpl. by rewrite <- app_assoc.
Qed.

(** A read that finds its entry: no call of the provider, the entry is the
    tool result. *)
Lemma cached_read_served c kind q hit v st :
  is_read kind = true -> is_call c kind q ->
  clearCacheBeforeNextRead v = false ->
  cache v !! cache_key (CommandName_str kind) q = Some hit ->
  handleToolCall collab c v st
  = (Ok (Continue (push (ToolMsg (tc_id c) (CommandName_str kind) hit) v)), st).
Proof.
  intros Hread Hcall Hflag Hhit.
  rewrite (handleToolCall_call _ _ _ _ _ Hcall). cbv zeta.
  rewrite Hread, Hflag. cbn [andb]. by rewrite Hhit.
Qed.

(** The first of two equal reads is not served from the cache. *)
Lemma repeated_read_miss c1 c2 kind q mids v st :
  is_read kind = true -> is_call c1 kind q -> is_call c2 kind q ->
  Forall (fun tc => is_read_call tc \/ is_unknown_call tc) mids ->
  clearCacheBeforeNextRead v = true
    \/ cache v !! cache_key (CommandName_str kind) q = None ->
  exists v' st' new between,
    let r := (stagehand collab kind q (world st)).1 in
    handleToolCalls collab (c1 :: mids ++ [c2]) v st = (Ok (Continue v'), st')
    /\ trace st' = trace st ++ EvInvoke kind q r :: new
    /\ invoked kind q new = []
    /\ (mids = [] -> new = [] /\ between = [])
    /\ messages v' =
         messages v ++ ToolMsg (tc_id c1) (CommandName_str kind) (payload r)
           :: between ++ [ToolMsg (tc_id c2) (CommandName_str kind) (payload r)]
    /\ cache v' !! cache_key (CommandName_str kind) q = Some (payload r).
Proof.
  intros Hread Hc1 Hc2 Hmids Hmiss.
  set (key := cache_key (CommandName_str kind) q).
  set (r := (stagehand collab kind q (world st)).1).
  cbn [handleToolCalls]. unfold bind at 1.
  rewrite (handleToolCall_call _ _ _ _ _ Hc1). cbn zeta. rewrite Hread. cbn [andb].
  fold key.
  assert (Hnone : (if clearCacheBeforeNextRead v
                   then {| messages := messages v; cache := ∅;
                           clearCacheBeforeNextRead := false |}
                   else v).(cache) !! key = None).
  { destruct (clearCacheBeforeNextRead v); [done|]. by destruct Hmiss. }
  rewrite Hnone. rewrite bool_decide_eq_false_2 by (by destruct kind).
  rewrite handleToolCalls_app.
  match goal with |- context [handleToolCalls _ mids ?v1 ?s1] =>
    destruct (reads_keep_entry kind q (payload r) mids v1 s1)
      as (v2 & st2 & new & added & Hrun & Htr & Hinv & Hmsg & Hnil & Hf & Hc)
  end; try done.
  { simpl. by destruct (clearCacheBeforeNextRead v) eqn:E. }
  { simpl. fold key r. by rewrite lookup_insert_eq. }
  rewrite Hrun. cbn [handleToolCalls]. unfold bind.
  rewrite (cached_read_served _ _ _ _ _ _ Hread Hc2 Hf Hc).
  exists (push (ToolMsg (tc_id c2) (CommandName_str kind) (payload r)) v2), st2, new, added.
  split_and!; try done.
  - rewrite Htr. simpl. by rewrite <- app_assoc.
  - simpl. rewrite Hmsg. simpl.
    destruct (clearCacheBeforeNextRead v); simpl; by rewrite <- !app_assoc.
Qed.

(** The first of two equal reads is itself served from the cache. *)
Lemma repeated_read_hit c1 c2 kind q mids v st hit :
  is_read kind = true -> is_call c1 kind q -> is_call c2 kind q ->
  Forall (fun tc => is_read_call tc \/ is_unknown_call tc) mids ->
  clearCacheBeforeNextRead v = false ->
  cache v !! cache_key (CommandName_str kind) q = Some hit ->
  exists v' st' new between,
    handleToolCalls collab (c1 :: mids ++ [c2]) v st = (Ok (Continue v'), st')
    /\ trace st' = trace st ++ new
    /\ invoked kind q new = []
    /\ messages v' =
         messages v ++ ToolMsg (tc_id c1) (CommandName_str kind) hit
           :: between ++ [ToolMsg (tc_id c2) (CommandName_str kind) hit]
    /\ cache v' !! cache_key (CommandName_str kind) q = Some hit.
Proof.
  intros Hread Hc1 Hc2 Hmids Hflag Hhit.
  cbn [handleToolCalls]. unfold bind at 1.
  rewrite (cached_read_served _ _ _ _ _ _ Hread Hc1 Hflag Hhit).
  rewrite handleToolCalls_app.
  match goal with |- context [handleToolCalls _ mids ?v1 ?s1] =>
    destruct (reads_keep_entry kind q hit mids v1 s1)
      as (v2 & st2 & new & added & Hrun & Htr & Hinv & Hmsg & _ & Hf & Hc)
  end; try done.
  rewrite Hrun. cbn [handleToolCalls]. unfold bind.
  rewrite (cached_read_served _ _ _ _ _ _ Hread Hc2 Hf Hc).
  exists (push (ToolMsg (tc_id c2) (CommandName_str kind) hit) v2), st2, new, added.
  split_and!; try done.
  simpl. rewrite Hmsg. simpl. by rewrite <- !app_assoc.
Qed.

(** C5: in a planning session, let a read call for a kind and a query be
    followed, with no Act call in between, by a second call for the same
    kind and query.  When the two are the calls of the first reply of a
    session, the provider is called exactly once, by the first of them, and
    both tool results carry its payload.  More generally, when the first
    call is not itself served from the cache, the provider is called
    exactly once for that kind and query, by the first call, which stores
    the payload.  In every case the second call is answered from the cache,
    both tool results carry the same payload, and the two calls together
    call the provider for their kind and query at most once. *)
Theorem repeated_read_invokes_once c1 c2 kind q :
  is_read kind = true -> is_call c1 kind q -> is_call c2 kind q ->
  (forall task st msg,
     let start := initial_vars plannerSystemPrompt plannerUserPrompt task in
     (chat_completions_create collab (messages start) (world st)).1 = inr (Some msg) ->
     tool_calls msg = Some [c1; c2] ->
     exists v' st',
       let r := (stagehand collab kind q (world (after_completion collab start st))).1 in
       plan_round collab start st = (Ok (Continue v'), st')
       /\ trace st' = trace st ++ [EvCompletion (messages start) (inr (Some msg));
                                   EvInvoke kind q r]
       /\ messages v' =
            messages start
            ++ [AssistantCalls [c1; c2];
                ToolMsg (tc_id c1) (CommandName_str kind) (payload r);
                ToolMsg (tc_id c2) (CommandName_str kind) (payload r)])
  /\ (forall mids v st,
        Forall (fun tc => is_read_call tc \/ is_unknown_call tc) mids ->
        clearCacheBeforeNextRead v = true
          \/ cache v !! cache_key (CommandName_str kind) q = None ->
        exists v' st' new between,
          let r := (stagehand collab kind q (world st)).1 in
          handleToolCalls collab (c1 :: mids ++ [c2]) v st = (Ok (Continue v'), st')
          /\ trace st' = trace st ++ EvInvoke kind q r :: new
          /\ length (invoked kind q (EvInvoke kind q r :: new)) = 1
          /\ (mids = [] -> new = [])
          /\ messages v' =
               messages v ++ ToolMsg (tc_id c1) (CommandName_str kind) (payload r)
                 :: between ++ [ToolMsg (tc_id c2) (CommandName_str kind) (payload r)]
          /\ cache v' !! cache_key (CommandName_str kind) q = Some (payload r))
  /\ (forall mids v st,
        Forall (fun tc => is_read_call tc \/ is_unknown_call tc) mids ->
        exists v' st' new between shared,
          handleToolCalls collab (c1 :: mids ++ [c2]) v st = (Ok (Continue v'), st')
          /\ trace st' = trace st ++ new
          /\ length (invoked kind q new) <= 1
          /\ messages v' =
               messages v ++ ToolMsg (tc_id c1) (CommandName_str kind) shared
                 :: between ++ [ToolMsg (tc_id c2) (CommandName_str kind) shared]
          /\ cache v' !! cache_key (CommandName_str kind) q = Some shared)
  /\ (forall v st hit,
        clearCacheBeforeNextRead v = false ->
        cache v !! cache_key (CommandName_str kind) q = Some hit ->
        handleToolCall collab c2 v st
        = (Ok (Continue (push (ToolMsg (tc_id c2) (CommandName_str kind) hit) v)), st)).
Proof.
  intros Hread Hc1 Hc2.
  assert (Hone : forall r new, invoked kind q new = [] ->
            length (invoked kind q (EvInvoke kind q r :: new)) = 1).
  { intros r new Hinv. unfold invoked in *.
    change (invocations (EvInvoke kind q r :: new)) with ((kind, q, r) :: invocations new).
    rewrite filter_cons_True by done. simpl. by rewrite Hinv. }
  split_and!.
  - intros task st msg start Hreply Hcalls.
    rewrite (plan_round_calls _ _ _ _ _ Hreply Hcalls).
    destruct (repeated_read_miss c1 c2 kind q [] (push (AssistantCalls [c1; c2]) start)
                (after_completion collab start st))
      as (v' & st' & new & between & Hrun & Htr & Hinv & Hnil & Hmsg & Hc); try done;
      [by right|].
    destruct (Hnil eq_refl) as [-> ->].
    exists v', st'. cbv zeta in *. split_and!; [done| |].
    + rewrite Htr. unfold after_completion at 1. cbn [trace]. rewrite Hreply.
      by rewrite <- app_assoc.
    + rewrite Hmsg. cbn [push messages]. by rewrite <- app_assoc.
  - intros mids v st Hmids Hmiss.
    destruct (repeated_read_miss c1 c2 kind q mids v st)
      as (v' & st' & new & between & Hrun & Htr & Hinv & Hnil & Hmsg & Hc); try done.
    exists v', st', new, between. cbv zeta in *. split_and!; try done;
      [by apply Hone|by intros H; apply Hnil].
  - intros mids v st Hmids.
    destruct (clearCacheBeforeNextRead v) eqn:Hflag;
      [|destruct (cache v !! cache_key (CommandName_str kind) q) as [hit|] eqn:Hhit].
    + destruct (repeated_read_miss c1 c2 kind q mids v st)
        as (v' & st' & new & between & Hrun & Htr & Hinv & _ & Hmsg & Hc); try done;
        [by left|].
      eexists v', st', (_ :: new), between, _. cbv zeta in *.
      split_and!; try done. by rewrite Hone.
    + destruct (repeated_read_hit c1 c2 kind q mids v st hit)
        as (v' & st' & new & between & Hrun & Htr & Hinv & Hmsg & Hc); try done.
      exists v', st', new, between, hit. split_and!; try done. rewrite Hinv. simpl. lia.
    + destruct (repeated_read_miss c1 c2 kind q mids v st)
        as (v' & st' & new & between & Hrun & Htr & Hinv & _ & Hmsg & Hc); try done;
        [by right|].
      eexists v', st', (_ :: new), between, _. cbv zeta in *.
      split_and!; try done. by rewrite Hone.
  - intros v st hit. by apply cached_read_served.
Qed.

(** Act calls and calls of unknown tools leave the cache as it is and the
    invalidation pending. *)
Lemma acts_keep_pending mids : forall v st,
  Forall (fun tc => (exists q, is_call tc act q) \/ is_unknown_call tc) mids ->
  clearCacheBeforeNextRead v = true ->
  exists v' st' new,
    handleToolCalls collab mids v st = (Ok (Continue v'), st')
    /\ trace st' = trace st ++ new
    /\ clearCacheBeforeNextRead v' = true
    /\ cache v' = cache v.
Proof.
  induction mids as [|tc mids IH]; intros v st Hmids Hflag.
  - exists v, st, []. by rewrite app_nil_r.
  - apply Forall_cons in Hmids as [Htc Hmids].
    cbn [handleToolCalls]. unfold bind.
    destruct Htc as [(q' & Hcall)|Hunk].
    + rewrite (handleToolCall_call _ _ _ _ _ Hcall).
      cbv zeta. cbn [is_read andb]. rewrite bool_decide_eq_true_2 by done.
      match goal with |- context [handleToolCalls _ _ ?v1 ?s1] =>
        destruct (IH v1 s1) as (v' & st' & new & Hrun & Htr & Hf & Hc)
      end; try done.
      eexists v', st', (_ :: new). split_and!; try done.
      rewrite Htr. simpl. by rewrite <- app_assoc.
    + rewrite (handleToolCall_unknown _ _ _ Hunk).
      match goal with |- context [handleToolCalls _ _ ?v1 ?s1] =>
        destruct (IH v1 s1) as (v' & st' & new & Hrun & Htr & Hf & Hc)
      end; try done.
      by exists v', st', new.
Qed.

(** A read with the invalidation pending: the cache is emptied, the
    provider is called, and the cache holds the one new entry. *)
Lemma pending_read_invokes c_read kind q v st :
  is_read kind = true -> is_call c_read kind q ->
  clearCacheBeforeNextRead v = true ->
  handleToolCall collab c_read v st =
  let r := (stagehand collab kind q (world st)).1 in
  (Ok (Continue
         {| messages := messages v
                        ++ [ToolMsg (tc_id c_read) (CommandName_str kind) (payload r)];
            cache := {[ cache_key (CommandName_str kind) q := payload r ]};
            clearCacheBeforeNextRead := false |}),
   {| world := (stagehand collab kind q (world st)).2;
      trace := trace st ++ [EvInvoke kind q r] |}).
Proof.
  intros Hread Hcall Hflag.
  rewrite (handleToolCall_call _ _ _ _ _ Hcall). cbv zeta.
  rewrite Hread, Hflag. cbn [andb cache]. rewrite lookup_empty.
  by rewrite bool_decide_eq_false_2 by (by destruct kind).
Qed.

(** C4: an Act call leaves the cache as it is and sets the pending flag;
    the flag stays set over further Act calls and calls of unknown tools;
    and the next Observe or Extract call, whatever its kind and query and
    whatever the cache holds for them, empties the cache before it looks
    anything up, so it calls the provider afresh, and the cache then holds
    the one entry for that call.  In particular, when the first reply of a
    session carries a read, an Act and the same read again, the provider is
    called for each of the three. *)
Theorem read_after_act_invokes_afresh c_act qa c_read kind q :
  is_call c_act act qa -> is_read kind = true -> is_call c_read kind q ->
  (forall v st, exists v1 st1,
      handleToolCall collab c_act v st = (Ok (Continue v1), st1)
      /\ cache v1 = cache v
      /\ clearCacheBeforeNextRead v1 = true)
  /\ (forall v st,
        clearCacheBeforeNextRead v = true ->
        exists v' st',
          let r := (stagehand collab kind q (world st)).1 in
          handleToolCall collab c_read v st = (Ok (Continue v'), st')
          /\ trace st' = trace st ++ [EvInvoke kind q r]
          /\ cache v' = {[ cache_key (CommandName_str kind) q := payload r ]}
          /\ clearCacheBeforeNextRead v' = false
          /\ last (messages v')
             = Some (ToolMsg (tc_id c_read) (CommandName_str kind) (payload r)))
  /\ (forall mids v st,
        Forall (fun tc => (exists q', is_call tc act q') \/ is_unknown_call tc) mids ->
        exists v' st2 st' before,
          handleToolCalls collab (c_act :: mids ++ [c_read]) v st = (Ok (Continue v'), st')
          /\ trace st2 = trace st ++ before
          /\ let r := (stagehand collab kind q (world st2)).1 in
             trace st' = trace st2 ++ [EvInvoke kind q r]
             /\ cache v' = {[ cache_key (CommandName_str kind) q := payload r ]}
             /\ clearCacheBeforeNextRead v' = false
             /\ last (messages v')
                = Some (ToolMsg (tc_id c_read) (CommandName_str kind) (payload r)))
  /\ (forall c_first task st msg,
        let start := initial_vars plannerSystemPrompt plannerUserPrompt task in
        is_call c_first kind q ->
        (chat_completions_create collab (messages start) (world st)).1 = inr (Some msg) ->
        tool_calls msg = Some [c_first; c_act; c_read] ->
        exists v' st' new,
          plan_round collab start st = (Ok (Continue v'), st')
          /\ trace st' = trace st ++ EvCompletion (messages start) (inr (Some msg)) :: new
          /\ (fun c => c.1) <$> invocations new = [(kind, q); (act, qa); (kind, q)]
          /\ (forall r, last new = Some (EvInvoke kind q r) ->
                cache v' = {[ cache_key (CommandName_str kind) q := payload r ]}
                /\ last (messages v')
                   = Some (ToolMsg (tc_id c_read) (CommandName_str kind) (payload r)))).
Proof.
  intros Hact Hread Hcall.
  assert (H1 : forall v st,
    handleToolCall collab c_act v st =
    (Ok (Continue
           (push (ToolMsg (tc_id c_act) (CommandName_str act)
                    (payload (stagehand collab act qa (world st)).1))
              {| messages := messages v; cache := cache v;
                 clearCacheBeforeNextRead := true |})),
     {| world := (stagehand collab act qa (world st)).2;
        trace := trace st ++ [EvInvoke act qa (stagehand collab act qa (world st)).1] |})).
  { intros v st. rewrite (handleToolCall_call _ _ _ v st Hact).
    cbv zeta. cbn [is_read andb]. by rewrite bool_decide_eq_true_2. }
  split_and!.
  - intros v st. rewrite H1. by eexists _, _.
  - intros v st Hflag. rewrite (pending_read_invokes _ _ _ _ _ Hread Hcall Hflag).
    eexists _, _. cbv zeta. split_and!; try done. cbn. by rewrite last_snoc.
  - intros mids v st Hmids.
    cbn [handleToolCalls]. unfold bind at 1. rewrite H1.
    rewrite handleToolCalls_app.
    match goal with |- context [handleToolCalls _ mids ?v1 ?s1] =>
      destruct (acts_keep_pending mids v1 s1) as (v2 & st2 & new & Hrun & Htr & Hf & Hc)
    end; try done.
    rewrite Hrun. cbn [handleToolCalls]. unfold bind.
    rewrite (pending_read_invokes _ _ _ _ _ Hread Hcall Hf).
    eexists _, st2, _, _. split_and!; try done.
    + rewrite Htr. simpl. by rewrite <- app_assoc.
    + cbn. by rewrite last_snoc.
  - intros c_first task st msg start Hfirst Hreply Hcalls.
    rewrite (plan_round_calls _ _ _ _ _ Hreply Hcalls).
    cbn [handleToolCalls]. unfold bind at 1.
    rewrite (handleToolCall_call _ _ _ _ _ Hfirst). cbv zeta.
    rewrite Hread. cbn [andb push clearCacheBeforeNextRead start initial_vars cache].
    rewrite lookup_empty. rewrite bool_decide_eq_false_2 by (by destruct kind).
    unfold bind at 1. rewrite H1.
    unfold bind at 1. rewrite pending_read_invokes with (kind := kind) (q := q) by done.
    cbv zeta. unfold ret.
    eexists _, _, [_; _; _]. split_and!.
    + reflexivity.
    + cbn [trace after_completion]. rewrite Hreply. by rewrite <- !app_assoc.
    + reflexivity.
    + intros r [= <-]. split; [done|]. cbn [push messages].
      by rewrite !last_snoc.
Qed.

(** ** The negotiation loop *)

Lemma trim_blank text : (0 <? String.length (trim text))%nat = false <-> trim text = "".
Proof. destruct (trim text); simpl; split; done. Qed.

(** A round whose reply is text without tool calls. *)
Lemma plan_round_text v st msg text :
  (chat_completions_create collab (messages v) (world st)).1 = inr (Some msg) ->
  default [] (tool_calls msg) = [] ->
  content msg = Some text ->
  plan_round collab v st =
  if (0 <? String.length (trim text))%nat then
    match safeParsePlan text with
    | Throw e => (Throw e, after_completion collab v st)
    | Ok parsed =>
        match validatePlan parsed with
        | Throw e => (Throw e, after_completion collab v st)
        | Ok plan => (Ok (Finalized plan v), after_completion collab v st)
        end
    end
  else (Ok (Continue (push (AssistantText text) v)), after_completion collab v st).
Proof.
  intros Hreply Hcalls Htext. unfold plan_round, after_completion, bind, await.
  destruct (chat_completions_create collab (messages v) (world st)) as [reply w'].
  simpl in Hreply. subst reply. rewrite Hcalls, Htext. simpl.
  destruct (0 <? String.length (trim text))%nat; [|done].
  unfold lift. destruct (safeParsePlan text) as [parsed|e]; [|done].
  by destruct (validatePlan parsed).
Qed.

(** The same for a reply without text. *)
Lemma plan_round_no_text v st msg :
  (chat_completions_create collab (messages v) (world st)).1 = inr (Some msg) ->
  default [] (tool_calls msg) = [] ->
  content msg = None ->
  plan_round collab v st
  = (Ok (Continue (push (AssistantText "") v)), after_completion collab v st).
Proof.
  intros Hreply Hcalls Htext. unfold plan_round, after_completion, bind, await.
  destruct (chat_completions_create collab (messages v) (world st)) as [reply w'].
  simpl in Hreply. subst reply. by rewrite Hcalls, Htext.
Qed.

(** What [safeParsePlan] gives for a text that is not JSON. *)
Lemma safeParsePlan_not_json text :
  Json.is_json text = false ->
  safeParsePlan text
  = match match_group re_fence 1 text with
    | Some inner => if String.eqb inner "" then Throw NoCodeFence else JSON_parse inner
    | None => Throw NoCodeFence
    end.
Proof.
  intros H. unfold safeParsePlan, tryFence. rewrite (JSON_parse_not_json _ H).
  destruct (match_group re_fence 1 text) as [inner|]; [|done].
  by destruct (String.eqb inner "").
Qed.

(** C1, amended: let the reply of a round be without tool calls.  When its
    text is not blank, [plan] parses it with [safeParsePlan] and validates
    what that gives.  When the text is not JSON and holds no fence, or a
    fence around nothing, the round fails with the error of the missing
    fence; when it holds a fence around a text that is not JSON, with the
    syntax error.  In both cases [plan] fails there: nothing is appended to
    the transcript and no further round is run.  Only a text that is blank,
    or absent, is appended as an assistant entry, the loop going on with
    the next round. *)
Theorem plan_round_unparseable_text v st msg :
  (chat_completions_create collab (messages v) (world st)).1 = inr (Some msg) ->
  default [] (tool_calls msg) = [] ->
  let text := default "" (content msg) in
  let fails_with e :=
    plan_round collab v st = (Throw e, after_completion collab v st)
    /\ forall n, plan_rounds collab (S n) v st = (Throw e, after_completion collab v st) in
  (trim text <> "" -> Json.is_json text = false ->
   match match_group re_fence 1 text with
   | Some inner =>
       if String.eqb inner "" then fails_with NoCodeFence
       else Json.is_json inner = false -> fails_with SyntaxError
   | None => fails_with NoCodeFence
   end)
  /\ (trim text <> "" ->
      plan_round collab v st
      = match safeParsePlan text with
        | Throw e => (Throw e, after_completion collab v st)
        | Ok parsed =>
            match validatePlan parsed with
            | Throw e => (Throw e, after_completion collab v st)
            | Ok plan => (Ok (Finalized plan v), after_completion collab v st)
            end
        end)
  /\ (trim text = "" ->
      plan_round collab v st
        = (Ok (Continue (push (AssistantText text) v)), after_completion collab v st)
      /\ forall n, plan_rounds collab (S n) v st
           = plan_rounds collab n (push (AssistantText text) v)
               (after_completion collab v st)).
Proof.
  intros Hreply Hcalls text fails_with.
  assert (Hround :
    plan_round collab v st =
    if (0 <? String.length (trim text))%nat then
      match safeParsePlan text with
      | Throw e => (Throw e, after_completion collab v st)
      | Ok parsed =>
          match validatePlan parsed with
          | Throw e => (Throw e, after_completion collab v st)
          | Ok plan => (Ok (Finalized plan v), after_completion collab v st)
          end
      end
    else (Ok (Continue (push (AssistantText text) v)), after_completion collab v st)).
  { subst text. destruct (content msg) as [t|] eqn:Htext.
    - by apply (plan_round_text v st msg t).
    - rewrite (plan_round_no_text v st msg Hreply Hcalls Htext). reflexivity. }
  assert (Hfails : forall e,
    trim text <> "" -> safeParsePlan text = Throw e -> fails_with e).
  { intros e Hne Hparse. rewrite Hparse in Hround.
    destruct (0 <? String.length (trim text))%nat eqn:Hlen;
      [|by apply trim_blank in Hlen].
    split; [done|]. intros n. cbn [plan_rounds]. unfold bind. by rewrite Hround. }
  split_and!.
  - intros Hne Hnot. pose proof (safeParsePlan_not_json text Hnot) as Hparse.
    destruct (match_group re_fence 1 text) as [inner|]; [|by apply Hfails].
    destruct (String.eqb inner ""); [by apply Hfails|].
    intros Hinner. apply Hfails; [done|]. by rewrite Hparse, JSON_parse_not_json.
  - intros Hne. destruct (0 <? String.length (trim text))%nat eqn:Hlen;
      [done|by apply trim_blank in Hlen].
  - intros Hblank. apply trim_blank in Hblank. rewrite Hblank in Hround.
    split; [done|]. intros n. cbn [plan_rounds]. unfold bind. by rewrite Hround.
Qed.

Lemma completions_app tr1 tr2 :
  completions (tr1 ++ tr2) = completions tr1 + completions tr2.
Proof. unfold completions. by rewrite filter_app, length_app. Qed.

Lemma validatePlan_not_exhausted raw : validatePlan raw <> Throw PlanningExhausted.
Proof.
  intros H. destruct (plan_items raw) as [items|] eqn:E.
  - rewrite (validatePlan_items _ _ E) in H.
    by apply map_steps_throw in H as (j & step & H & _).
  - apply validatePlan_shape in E. congruence.
Qed.

Lemma JSON_parse_not_exhausted text : JSON_parse text <> Throw PlanningExhausted.
Proof. unfold JSON_parse. by destruct (Json.parse text), (Json.is_json text). Qed.

Lemma parse_arguments_not_exhausted tc : parse_arguments tc <> Throw PlanningExhausted.
Proof.
  unfold parse_arguments.
  destruct (fn_arguments tc) as [a|]; [|done].
  destruct (negb (String.eqb a "")); [|done]. apply JSON_parse_not_exhausted.
Qed.

Lemma args_query_not_exhausted args : args_query args <> Throw PlanningExhausted.
Proof.
  unfold args_query. destruct (get_prop args "query") as [[]|]; done.
Qed.

Lemma safeParsePlan_not_exhausted text : safeParsePlan text <> Throw PlanningExhausted.
Proof.
  unfold safeParsePlan, tryFence.
  pose proof (JSON_parse_not_exhausted text) as H.
  destruct (JSON_parse text) as [v|[]]; try done;
    (destruct (match_group re_fence 1 text) as [inner|]; [|done];
     destruct (negb (String.eqb inner "")); [|done]; apply JSON_parse_not_exhausted).
Qed.

Lemma bind_lift_ok {A B} (a : A) (f : A -> M W B) st : bind (lift (Ok a)) f st = f a st.
Proof. done. Qed.

Lemma bind_lift_throw {A B} e (f : A -> M W B) st :
  bind (lift (Throw e)) f st = (Throw e, st).
Proof. done. Qed.

(** A tool call requests no completion and does not raise the error of the
    exhausted loop. *)
Lemma handleToolCall_effect tc v st :
  exists new,
    trace (handleToolCall collab tc v st).2 = trace st ++ new
    /\ completions new = 0
    /\ (handleToolCall collab tc v st).1 <> Throw PlanningExhausted.
Proof.
  assert (Hnil : forall (o : Outcome CallResult),
            o <> Throw PlanningExhausted ->
            exists new, trace (o, st).2 = trace st ++ new /\ completions new = 0
                        /\ (o, st).1 <> Throw PlanningExhausted).
  { intros o Ho. exists []. by rewrite app_nil_r. }
  unfold handleToolCall. cbv zeta.
  pose proof (parse_arguments_not_exhausted tc) as Hargs.
  destruct (parse_arguments tc) as [args|e];
    [rewrite bind_lift_ok|rewrite bind_lift_throw; apply Hnil; congruence].
  destruct (bool_decide (fn_name tc = Some "finalize_plan")).
  { pose proof (validatePlan_not_exhausted args) as Hv.
    destruct (validatePlan args);
      [rewrite bind_lift_ok; by apply Hnil|rewrite bind_lift_throw; apply Hnil; congruence]. }
  destruct (command_of _) as [cmd|]; [|by apply Hnil].
  pose proof (args_query_not_exhausted args) as Hq.
  destruct (args_query args) as [q|e];
    [rewrite bind_lift_ok|rewrite bind_lift_throw; apply Hnil; congruence].
  destruct (has_text q);
    [rewrite bind_lift_ok|rewrite bind_lift_throw; by apply Hnil].
  destruct (if is_read cmd then _ else _) as [hit|]; [by apply Hnil|].
  unfold bind. rewrite invokeStagehand_any_run. cbn [fst snd trace].
  eexists [_]. split_and!; [done| |done].
  unfold completions. by destruct q.
Qed.

Lemma handleToolCalls_effect tcs : forall v st,
  exists new,
    trace (handleToolCalls collab tcs v st).2 = trace st ++ new
    /\ completions new = 0
    /\ (handleToolCalls collab tcs v st).1 <> Throw PlanningExhausted.
Proof.
  induction tcs as [|tc tcs IH]; intros v st.
  - exists []. rewrite app_nil_r. by split_and!.
  - cbn [handleToolCalls]. unfold bind.
    destruct (handleToolCall_effect tc v st) as (new1 & Htr1 & Hc1 & Hex1).
    destruct (handleToolCall collab tc v st) as [[[plan v'|v']|e] st1]; simpl in *.
    + exists new1. by split_and!.
    + destruct (IH v' st1) as (new2 & Htr2 & Hc2 & Hex2).
      exists (new1 ++ new2). split_and!; [|by rewrite completions_app, Hc1, Hc2|done].
      by rewrite Htr2, Htr1, app_assoc.
    + exists new1. by split_and!.
Qed.

(** A round requests one completion and does not raise the error of the
    exhausted loop. *)
Lemma plan_round_effect v st :
  exists new,
    trace (plan_round collab v st).2 = trace st ++ new
    /\ completions new = 1
    /\ (plan_round collab v st).1 <> Throw PlanningExhausted.
Proof.
  unfold plan_round, bind, await.
  destruct (chat_completions_create collab (messages v) (world st))
    as [[err|[msg|]] w']; simpl.
  - eexists [_]. by split_and!.
  - destruct (0 <? length (default [] (tool_calls msg)))%nat.
    + match goal with |- context [handleToolCalls _ ?tcs ?v1 ?s1] =>
        destruct (handleToolCalls_effect tcs v1 s1) as (new & Htr & Hc & Hex) end.
      exists ([EvCompletion (messages v) (inr (Some msg))] ++ new). split_and!; [|by rewrite completions_app, Hc|done].
      rewrite Htr. simpl. by rewrite <- app_assoc.
    + destruct (content msg) as [text|]; [|eexists [_]; by split_and!].
      destruct (0 <? String.length (trim text))%nat; [|eexists [_]; by split_and!].
      pose proof (safeParsePlan_not_exhausted text) as Hp.
      destruct (safeParsePlan text) as [parsed|e];
        [|eexists [_]; split_and!; simpl; (done || congruence)].
      pose proof (validatePlan_not_exhausted parsed) as Hv.
      destruct (validatePlan parsed); eexists [_]; split_and!; simpl; (done || congruence).
  - eexists [_]. by split_and!.
Qed.

Lemma plan_rounds_bound n : forall v st,
  completions (trace (plan_rounds collab n v st).2) <= completions (trace st) + n.
Proof.
  induction n as [|n IH]; intros v st; cbn [plan_rounds].
  - simpl. lia.
  - unfold bind. destruct (plan_round_effect v st) as (new & Htr & Hc & _).
    destruct (plan_round collab v st) as [[[plan v'|v']|e] st1]; simpl in *.
    + rewrite Htr, completions_app. lia.
    + specialize (IH v' st1). rewrite Htr, completions_app in IH. lia.
    + rewrite Htr, completions_app. lia.
Qed.

Lemma plan_rounds_exhausted n : forall v st,
  (plan_rounds collab n v st).1 = Throw PlanningExhausted
  <-> rounds_continue collab n v st.
Proof.
  induction n as [|n IH]; intros v st; cbn [plan_rounds rounds_continue].
  - done.
  - unfold bind. destruct (plan_round_effect v st) as (new & _ & _ & Hex).
    destruct (plan_round collab v st) as [[[plan v'|v']|e] st1]; simpl in *.
    + split; [done|]. by intros (? & ? & ? & _).
    + rewrite IH. split; [by exists v', st1|]. by intros (? & ? & [= -> ->] & ?).
    + split; [congruence|]. by intros (? & ? & ? & _).
Qed.

Lemma plan_rounds_exhausted_count n : forall v st,
  rounds_continue collab n v st ->
  completions (trace (plan_rounds collab n v st).2) = completions (trace st) + n.
Proof.
  induction n as [|n IH]; intros v st; cbn [plan_rounds rounds_continue].
  - simpl. lia.
  - intros (v' & st' & Hround & Hrest). unfold bind.
    destruct (plan_round_effect v st) as (new & Htr & Hc & _).
    rewrite Hround in *. simpl in *.
    rewrite (IH _ _ Hrest), Htr, completions_app. lia.
Qed.

(** A round goes on only after tool calls, or after a reply without tool
    calls whose text is blank or absent. *)
Lemma plan_round_continue_inv v st v' st' :
  plan_round collab v st = (Ok (Continue v'), st') ->
  exists msg,
    (chat_completions_create collab (messages v) (world st)).1 = inr (Some msg)
    /\ (default [] (tool_calls msg) <> []
        \/ (trim (default "" (content msg)) = ""
            /\ v' = push (AssistantText (default "" (content msg))) v)).
Proof.
  unfold plan_round, bind, await.
  destruct (chat_completions_create collab (messages v) (world st))
    as [[err|[msg|]] w']; simpl; try done.
  intros H. exists msg. split; [done|].
  destruct (default [] (tool_calls msg)) as [|tc tcs]; [right|by left].
  simpl in H. destruct (content msg) as [text|]; simpl.
  - destruct (0 <? String.length (trim text))%nat eqn:Hlen.
    + destruct (safeParsePlan text) as [parsed|e]; [|done].
      by destruct (validatePlan parsed).
    + apply trim_blank in Hlen. by injection H as <- _.
  - by injection H as <- _.
Qed.

(** *** What becomes of a tool call *)

Lemma is_call_with_not_finalize tc kind query :
  is_call_with tc kind query -> fn_name tc <> Some "finalize_plan".
Proof. intros [Hc _] E. rewrite E in Hc. done. Qed.

(** What [handleToolCall] does with a capability call, whatever its query
    is, when the query has a text. *)
Lemma handleToolCall_call_with tc kind query v st :
  is_call_with tc kind query -> has_text query = true ->
  handleToolCall collab tc v st =
  let validName := CommandName_str kind in
  let key := cache_key validName (query_text collab query) in
  let v1 :=
    if is_read kind && clearCacheBeforeNextRead v
    then {| messages := messages v; cache := ∅; clearCacheBeforeNextRead := false |}
    else v in
  match (if is_read kind then cache v1 !! key else None) with
  | Some hit => (Ok (Continue (push (ToolMsg (tc_id tc) validName hit) v1)), st)
  | None =>
      let r := (provider_answer collab kind query (world st)).1 in
      (Ok (Continue
             (push (ToolMsg (tc_id tc) validName (payload r))
                (if bool_decide (kind = act)
                 then {| messages := messages v1; cache := cache v1;
                         clearCacheBeforeNextRead := true |}
                 else {| messages := messages v1;
                         cache := <[key := payload r]> (cache v1);
                         clearCacheBeforeNextRead := clearCacheBeforeNextRead v1 |}))),
       {| world := (provider_answer collab kind query (world st)).2;
          trace := trace st ++ [provider_event kind query r] |})
  end.
Proof.
  intros Hcall Htext. pose proof (is_call_with_not_finalize _ _ _ Hcall) as Hfin.
  destruct Hcall as (Hcmd & args & Hargs & Hq).
  unfold handleToolCall. unfold bind at 1. unfold lift at 1. rewrite Hargs.
  rewrite bool_decide_eq_false_2 by done. rewrite Hcmd.
  rewrite (command_of_str _ _ Hcmd).
  unfold bind at 1. unfold lift at 1. rewrite Hq.
  unfold bind at 1. unfold lift at 1. rewrite Htext. cbn zeta.
  destruct (if is_read kind then _ else _) as [hit|]; [done|].
  unfold bind. rewrite invokeStagehand_any_run. done.
Qed.

(** A capability call whose query has no text fails where the key of the
    cache is made, before the cache is read and the provider is called. *)
Lemma handleToolCall_no_text tc kind query v st :
  is_call_with tc kind query -> has_text query = false ->
  handleToolCall collab tc v st = (Throw TypeError, st).
Proof.
  intros Hcall Htext. pose proof (is_call_with_not_finalize _ _ _ Hcall) as Hfin.
  destruct Hcall as (Hcmd & args & Hargs & Hq).
  unfold handleToolCall. unfold bind at 1. unfold lift at 1. rewrite Hargs.
  rewrite bool_decide_eq_false_2 by done. rewrite Hcmd.
  unfold bind at 1. unfold lift at 1. rewrite Hq.
  unfold bind at 1. unfold lift at 1. by rewrite Htext.
Qed.

Lemma call_goes_on_run tc v st :
  call_goes_on tc ->
  exists v' st', handleToolCall collab tc v st = (Ok (Continue v'), st').
Proof.
  intros [Hunk|(kind & query & Hcall & Htext)].
  - rewrite (handleToolCall_unknown _ _ _ Hunk). by eexists _, _.
  - rewrite (handleToolCall_call_with _ _ _ _ _ Hcall Htext). cbv zeta.
    destruct (if is_read kind then _ else _) as [hit|]; by eexists _, _.
Qed.

Lemma call_finalizes_run tc p v st :
  call_finalizes tc p ->
  handleToolCall collab tc v st
  = (Ok (Finalized p
           (push (ToolMsg (tc_id tc) "finalize_plan"
                    (Json.stringify_field "status" "received")) v)), st).
Proof.
  intros (Hfin & args & Hargs & Hplan).
  unfold handleToolCall. unfold bind at 1. unfold lift at 1. rewrite Hargs.
  rewrite bool_decide_eq_true_2 by done.
  unfold bind, lift. by rewrite Hplan.
Qed.

Lemma call_fails_run tc e v st :
  call_fails tc e -> handleToolCall collab tc v st = (Throw e, st).
Proof.
  intros [_ [Hargs|(args & Hargs & [[Hfin Hplan]|(Hfin & [kind Hcmd] & Hq)])]].
  - unfold handleToolCall. unfold bind at 1. unfold lift at 1. by rewrite Hargs.
  - unfold handleToolCall. unfold bind at 1. unfold lift at 1. rewrite Hargs.
    rewrite bool_decide_eq_true_2 by done. unfold bind, lift. by rewrite Hplan.
  - destruct Hq as [Hq|(query & Hq & Htext & ->)].
    + unfold handleToolCall. unfold bind at 1. unfold lift at 1. rewrite Hargs.
      rewrite bool_decide_eq_false_2 by done. rewrite Hcmd.
      unfold bind, lift. by rewrite Hq.
    + apply (handleToolCall_no_text tc kind query); [|done].
      split; [done|]. by exists args.
Qed.

Lemma validatePlan_not_outside raw : validatePlan raw <> Throw OutsideAlphabet.
Proof.
  intros H. destruct (plan_items raw) as [items|] eqn:E.
  - rewrite (validatePlan_items _ _ E) in H.
    by apply map_steps_throw in H as (j & step & H & _).
  - apply validatePlan_shape in E. congruence.
Qed.

(** Every tool call goes on, fails or finalizes, unless its arguments lie
    outside the alphabet. *)
Lemma call_fate tc :
  call_goes_on tc \/ (exists e, call_fails tc e) \/ (exists p, call_finalizes tc p)
  \/ parse_arguments tc = Throw OutsideAlphabet.
Proof.
  assert (Hdec : forall e : Exn, e = OutsideAlphabet \/ e <> OutsideAlphabet).
  { intros []; (by left) || (by right). }
  destruct (parse_arguments tc) as [args|e] eqn:Hargs.
  2:{ destruct (Hdec e) as [->|He]; [by right; right; right|].
      right; left. exists e. split; [done|by left]. }
  destruct (decide (fn_name tc = Some "finalize_plan")) as [Hfin|Hfin].
  - destruct (validatePlan args) as [p|e] eqn:Hplan.
    + right; right; left. exists p. split; [done|]. by exists args.
    + right; left. exists e. split; [|right; exists args; split; [done|by left]].
      intros ->. by apply (validatePlan_not_outside args).
  - destruct (command_of (toLowerCase (default "" (fn_name tc)))) as [kind|] eqn:Hcmd.
    + destruct (args_query args) as [query|e] eqn:Hq.
      * destruct (has_text query) eqn:Htext.
        -- left. right. exists kind, query. split; [|done]. split; [done|]. by exists args.
        -- right; left. exists TypeError. split; [done|].
           right. exists args. split; [done|]. right. split_and!; [done| |].
           ++ by rewrite Hcmd.
           ++ right. by exists query.
      * right; left. exists e. split.
        -- intros ->. unfold args_query in Hq.
           by destruct (get_prop args "query") as [[]|].
        -- right. exists args. split; [done|]. right. split_and!; [done| |by left].
           by rewrite Hcmd.
    + left. left. split_and!; [done|done|by exists args].
Qed.

Lemma handleToolCalls_go_on tcs : forall v st,
  Forall call_goes_on tcs ->
  exists v' st', handleToolCalls collab tcs v st = (Ok (Continue v'), st').
Proof.
  induction tcs as [|tc tcs IH]; intros v st Hall; [by exists v, st|].
  apply Forall_cons in Hall as [Htc Hall].
  destruct (call_goes_on_run tc v st Htc) as (v1 & st1 & Hrun).
  cbn [handleToolCalls]. unfold bind. rewrite Hrun. by apply IH.
Qed.

Lemma handleToolCalls_first_fails pre tc post e v st :
  Forall call_goes_on pre -> call_fails tc e ->
  exists st', handleToolCalls collab (pre ++ tc :: post) v st = (Throw e, st').
Proof.
  intros Hpre Htc. rewrite handleToolCalls_app.
  destruct (handleToolCalls_go_on pre v st Hpre) as (v1 & st1 & ->).
  cbn [handleToolCalls]. unfold bind. rewrite (call_fails_run _ _ _ _ Htc). by exists st1.
Qed.

Lemma handleToolCalls_first_finalizes pre tc post p v st :
  Forall call_goes_on pre -> call_finalizes tc p ->
  exists v' st',
    handleToolCalls collab (pre ++ tc :: post) v st = (Ok (Finalized p v'), st').
Proof.
  intros Hpre Htc. rewrite handleToolCalls_app.
  destruct (handleToolCalls_go_on pre v st Hpre) as (v1 & st1 & ->).
  cbn [handleToolCalls]. unfold bind. rewrite (call_finalizes_run _ _ _ _ Htc).
  by eexists _, _.
Qed.

Lemma handleToolCalls_continue_inv tcs : forall v st v' st',
  handleToolCalls collab tcs v st = (Ok (Continue v'), st') ->
  Forall call_goes_on tcs.
Proof.
  induction tcs as [|tc tcs IH]; intros v st v' st' Hrun; [done|].
  cbn [handleToolCalls] in Hrun. unfold bind in Hrun.
  destruct (call_fate tc) as [Hgo|[[e Hfail]|[[p Hfin]|Hout]]].
  - constructor; [done|].
    destruct (call_goes_on_run tc v st Hgo) as (v1 & st1 & H1). rewrite H1 in Hrun.
    by apply (IH v1 st1 v' st').
  - by rewrite (call_fails_run _ _ _ _ Hfail) in Hrun.
  - by rewrite (call_finalizes_run _ _ _ _ Hfin) in Hrun.
  - unfold handleToolCall in Hrun. unfold bind at 1 in Hrun. unfold lift at 1 in Hrun.
    by rewrite Hout in Hrun.
Qed.

(** *** Where the mark comes from *)

Lemma JSON_parse_outside text :
  JSON_parse text = Throw OutsideAlphabet -> outside_alphabet text.
Proof.
  unfold JSON_parse, outside_alphabet.
  destruct (Json.parse text); [done|]. by destruct (Json.is_json text).
Qed.

Lemma safeParsePlan_outside text :
  safeParsePlan text = Throw OutsideAlphabet ->
  outside_alphabet text
  \/ exists inner, match_group re_fence 1 text = Some inner /\ outside_alphabet inner.
Proof.
  unfold safeParsePlan. destruct (JSON_parse text) as [parsed|e] eqn:E; [done|].
  destruct e; try (by left; apply JSON_parse_outside);
    unfold tryFence; (destruct (match_group re_fence 1 text) as [inner|]; [|done]);
    (destruct (negb (String.eqb inner "")); [|done]);
    intros H; right; exists inner; (split; [done|]); by apply JSON_parse_outside.
Qed.

Lemma parse_arguments_outside tc :
  parse_arguments tc = Throw OutsideAlphabet ->
  exists text, fn_arguments tc = Some text /\ outside_alphabet text.
Proof.
  unfold parse_arguments. destruct (fn_arguments tc) as [text|]; [|done].
  destruct (negb (String.eqb text "")); [|done].
  intros H. exists text. split; [done|]. by apply JSON_parse_outside.
Qed.

Lemma handleToolCall_outside tc v st st' :
  handleToolCall collab tc v st = (Throw OutsideAlphabet, st') ->
  parse_arguments tc = Throw OutsideAlphabet.
Proof.
  intros Hrun. destruct (call_fate tc) as [Hgo|[[e Hfail]|[[p Hfin]|Hout]]]; [| | |done].
  - destruct (call_goes_on_run tc v st Hgo) as (v1 & st1 & H1). congruence.
  - pose proof (call_fails_run _ _ v st Hfail) as H1. destruct Hfail as [He _]. congruence.
  - pose proof (call_finalizes_run _ _ v st Hfin) as H1. congruence.
Qed.

Lemma handleToolCalls_outside tcs : forall v st st',
  handleToolCalls collab tcs v st = (Throw OutsideAlphabet, st') ->
  exists tc, tc ∈ tcs /\ parse_arguments tc = Throw OutsideAlphabet.
Proof.
  induction tcs as [|tc tcs IH]; intros v st st'; [done|].
  cbn [handleToolCalls]. unfold bind.
  destruct (handleToolCall collab tc v st) as [[[p v1|v1]|e] st1] eqn:E1.
  - done.
  - intros H. destruct (IH _ _ _ H) as (tc' & Hin & Hout).
    exists tc'. split; [by apply list_elem_of_further|done].
  - intros [= -> <-]. exists tc. split; [by apply list_elem_of_here|].
    by apply (handleToolCall_outside tc v st st1).
Qed.

(** A round ends in the mark only when a text that it parses lies outside
    the alphabet: the text of the reply, what its fence holds, or the
    arguments of one of its tool calls. *)
Lemma plan_round_outside v st st2 :
  plan_round collab v st = (Throw OutsideAlphabet, st2) ->
  exists msg text,
    (chat_completions_create collab (messages v) (world st)).1 = inr (Some msg)
    /\ outside_alphabet text
    /\ (content msg = Some text
        \/ match_group re_fence 1 (default "" (content msg)) = Some text
        \/ exists tc, tc ∈ default [] (tool_calls msg) /\ fn_arguments tc = Some text).
Proof.
  unfold plan_round, bind at 1, await.
  destruct (chat_completions_create collab (messages v) (world st))
    as [[err|[msg|]] w']; cbn [fst]; [done| |done].
  destruct (0 <? length (default [] (tool_calls msg)))%nat.
  - intros H. apply handleToolCalls_outside in H as (tc & Hin & Hout).
    apply parse_arguments_outside in Hout as (text & Hargs & Htext).
    exists msg, text. split; [done|]. split; [done|]. right; right. by exists tc.
  - destruct (content msg) as [text|] eqn:Hcontent; [|done].
    destruct (0 <? String.length (trim text))%nat; [|done].
    unfold bind, lift, ret.
    destruct (safeParsePlan text) as [parsed|e] eqn:Eparse.
    + pose proof (validatePlan_not_outside parsed) as Hv.
      destruct (validatePlan parsed); [done|]. intros [= -> _]. done.
    + intros [= -> _].
      destruct (safeParsePlan_outside _ Eparse) as [Htext|(inner & Hfence & Htext)].
      * exists msg, text. split; [done|]. split; [done|]. by left.
      * exists msg, inner. split; [done|]. split; [done|]. right; left.
        by rewrite Hcontent.
Qed.

(** A round whose completion is rejected or comes without a message. *)
Lemma plan_round_no_message v st :
  match (chat_completions_create collab (messages v) (world st)).1 with
  | inl err =>
      plan_round collab v st = (Throw (Rejected err), after_completion collab v st)
  | inr None =>
      plan_round collab v st = (Throw NoCompletion, after_completion collab v st)
  | inr (Some _) => True
  end.
Proof.
  unfold plan_round, after_completion, bind, await.
  by destruct (chat_completions_create collab (messages v) (world st))
    as [[err|[msg|]] w'].
Qed.

(** C6, amended: [plan] requests at most 16 completions.  It raises the
    error of the exhausted loop exactly when each of 16 rounds ends with
    the loop going on; it has then requested exactly 16 completions.  A
    round that fails ends the call in that round with its own error, which
    is never that of the exhausted loop; a round that finalizes ends it
    with the plan.  What a round does is read off the reply.  A rejected
    completion and a missing message fail it.  After tool calls it goes on
    exactly when every call goes on: none is a call of the finalize tool,
    all have arguments that parse, and none is a capability call with the
    arguments [null] or with a query that has no text; it fails with the
    error of the first call that fails, by arguments that are not JSON, by
    a call of the finalize tool whose arguments are no valid plan, by
    reading the query of [null], or by a query that has no text for the
    key of the cache; and it finalizes with
    the plan of the first call of the finalize tool whose arguments are
    valid, when the calls before it go on.  Without tool calls it goes on
    exactly when the text is blank or absent, and otherwise gives what
    parsing and validating the text give.  All of this is said of replies
    whose parsed texts lie within the alphabet: a round ends in the mark
    only when the text of the reply, the content of its fence or the
    arguments of one of its calls is JSON with an escape above U+00FF. *)
Theorem plan_round_budget task st :
  let run := plan collab plannerSystemPrompt plannerUserPrompt task st in
  let start := initial_vars plannerSystemPrompt plannerUserPrompt task in
  completions (trace run.2) <= completions (trace st) + 16
  /\ (run.1 = Throw PlanningExhausted <-> rounds_continue collab 16 start st)
  /\ (rounds_continue collab 16 start st ->
      run.1 = Throw PlanningExhausted
      /\ completions (trace run.2) = completions (trace st) + 16)
  /\ (forall n v1 st1 e st2,
        plan_round collab v1 st1 = (Throw e, st2) ->
        plan_rounds collab (S n) v1 st1 = (Throw e, st2) /\ e <> PlanningExhausted)
  /\ (forall n v1 st1 p v2 st2,
        plan_round collab v1 st1 = (Ok (Finalized p v2), st2) ->
        plan_rounds collab (S n) v1 st1 = (Ok p, st2))
  /\ (forall n v1 st1 v2 st2,
        plan_round collab v1 st1 = (Ok (Continue v2), st2) ->
        plan_rounds collab (S n) v1 st1 = plan_rounds collab n v2 st2
        /\ exists msg,
             (chat_completions_create collab (messages v1) (world st1)).1
               = inr (Some msg)
             /\ (default [] (tool_calls msg) <> []
                 \/ (trim (default "" (content msg)) = ""
                     /\ v2 = push (AssistantText (default "" (content msg))) v1)))
  /\ (forall v1 st1,
        let round := plan_round collab v1 st1 in
        let after := after_completion collab v1 st1 in
        match (chat_completions_create collab (messages v1) (world st1)).1 with
        | inl err => round = (Throw (Rejected err), after)
        | inr None => round = (Throw NoCompletion, after)
        | inr (Some msg) =>
            let tcs := default [] (tool_calls msg) in
            let text := default "" (content msg) in
            (tcs <> [] ->
             (Forall call_goes_on tcs <-> exists v2 st2, round = (Ok (Continue v2), st2))
             /\ (forall pre tc post e,
                   tcs = pre ++ tc :: post -> Forall call_goes_on pre ->
                   call_fails tc e ->
                   exists st2, round = (Throw e, st2))
             /\ (forall pre tc post p,
                   tcs = pre ++ tc :: post -> Forall call_goes_on pre ->
                   call_finalizes tc p ->
                   exists v2 st2, round = (Ok (Finalized p v2), st2)))
            /\ (tcs = [] ->
                (trim text = "" <-> exists v2 st2, round = (Ok (Continue v2), st2))
                /\ (trim text <> "" ->
                    round
                    = match safeParsePlan text with
                      | Throw e => (Throw e, after)
                      | Ok parsed =>
                          match validatePlan parsed with
                          | Throw e => (Throw e, after)
                          | Ok p => (Ok (Finalized p v1), after)
                          end
                      end))
        end)
  /\ (forall tc,
        call_goes_on tc \/ (exists e, call_fails tc e) \/ (exists p, call_finalizes tc p)
        \/ parse_arguments tc = Throw OutsideAlphabet)
  /\ (forall v1 st1 st2,
        plan_round collab v1 st1 = (Throw OutsideAlphabet, st2) ->
        exists msg text,
          (chat_completions_create collab (messages v1) (world st1)).1 = inr (Some msg)
          /\ outside_alphabet text
          /\ (content msg = Some text
              \/ match_group re_fence 1 (default "" (content msg)) = Some text
              \/ exists tc,
                   tc ∈ default [] (tool_calls msg) /\ fn_arguments tc = Some text)).
Proof.
  intros run start. unfold run, plan. fold start. split_and!.
  - apply plan_rounds_bound.
  - apply plan_rounds_exhausted.
  - intros H. split; [by apply plan_rounds_exhausted|by apply plan_rounds_exhausted_count].
  - intros n v1 st1 e st2 H. split.
    + cbn [plan_rounds]. unfold bind. by rewrite H.
    + destruct (plan_round_effect v1 st1) as (new & _ & _ & Hex).
      rewrite H in Hex. simpl in Hex. congruence.
  - intros n v1 st1 p v2 st2 H. cbn [plan_rounds]. unfold bind. by rewrite H.
  - intros n v1 st1 v2 st2 H. split.
    + cbn [plan_rounds]. unfold bind. by rewrite H.
    + by eapply plan_round_continue_inv.
  - intros v1 st1. cbv zeta. pose proof (plan_round_no_message v1 st1) as Hno.
    set (round := plan_round collab v1 st1) in *.
    set (after := after_completion collab v1 st1) in *.
    destruct (chat_completions_create collab (messages v1) (world st1)).1
      as [err|[msg|]] eqn:Hreply; [done| |done].
    set (tcs := default [] (tool_calls msg)). set (text := default "" (content msg)).
    split.
    + intros Hcalls.
      assert (Hround : round = handleToolCalls collab tcs (push (AssistantCalls tcs) v1) after).
      { subst round tcs. destruct (tool_calls msg) as [[|tc rest]|] eqn:Htcs; [done| |done].
        by apply (plan_round_calls v1 st1 msg tc rest). }
      rewrite Hround. split_and!.
      * split; [apply handleToolCalls_go_on|].
        intros (v2 & st2 & H). by apply handleToolCalls_continue_inv in H.
      * intros pre tc post e -> Hpre Htc. by apply handleToolCalls_first_fails.
      * intros pre tc post p -> Hpre Htc. by apply handleToolCalls_first_finalizes.
    + intros Hcalls.
      assert (Hround :
        round =
        if (0 <? String.length (trim text))%nat then
          match safeParsePlan text with
          | Throw e => (Throw e, after)
          | Ok parsed =>
              match validatePlan parsed with
              | Throw e => (Throw e, after)
              | Ok p => (Ok (Finalized p v1), after)
              end
          end
        else (Ok (Continue (push (AssistantText text) v1)), after)).
      { subst round text. destruct (content msg) as [t|] eqn:Htext.
        - by apply (plan_round_text v1 st1 msg t).
        - rewrite (plan_round_no_text v1 st1 msg Hreply Hcalls Htext). reflexivity. }
      destruct (0 <? String.length (trim text))%nat eqn:Hlen.
      * assert (Hne : trim text <> "").
        { intros E. apply trim_blank in E. congruence. }
        split; [|done]. split; [done|]. intros (v2 & st2 & H). rewrite Hround in H.
        destruct (safeParsePlan text) as [parsed|e]; [|done].
        by destruct (validatePlan parsed).
      * apply trim_blank in Hlen. split; [|done]. split; [|done].
        intros _. rewrite Hround. by eexists _, _.
  - apply call_fate.
  - apply plan_round_outside.
Qed.

End NavigatorFacts.

(** ** Examples on a scripted outside world *)

Example normalize_wait : normalizeCommandName "  Wait Until loaded " = Some observe.
Proof. reflexivity. Qed.

Example slugify_url :
  slugify "Go to https://Example.com/Path?x=1 -- now!" = "go-to-example-com-path-x-1-now".
Proof. reflexivity. Qed.

Example slugify_edges : slugify "--A--b--" = "a-b".
Proof. reflexivity. Qed.

Example z_pads : z 7 = "07" /\ z 123 = "123".
Proof. split; reflexivity. Qed.

Example screenshot_name_third :
  screenshot_name 3 {| name := extract; query := "Top heading?" |}
  = "03-extract-top-heading.jpg".
Proof. reflexivity. Qed.

(** The scenario of three steps whose middle step fails. *)
Example execute_middle_step_fails :
  (execute (scripted flaky_provider (inr ()) (inr ())) "shots" join_slash
     search_plan (start [])).1
  = Ok ["NAVIGATED(https://google.com)";
        Json.stringify_field "error" "Target page closed";
        "Example Domain"].
Proof. reflexivity. Qed.

Example execute_empty_plan :
  (execute (scripted steady_provider (inr ()) (inr ())) "shots" join_slash
     [] (start [])).1 = Ok []
  /\ extractFinalOutput [] [] = Ok fallback_sentence.
Proof. split; reflexivity. Qed.

(** The cache and the pending flag live across the rounds of a session: the
    second Observe, a round later, is answered from the cache, and the
    third, after the Act of the round before, calls the provider again. *)
Example session_cache_across_rounds :
  let script :=
    [ calls [tool_call "call_1" "observe" "results"];
      calls [tool_call "call_2" "observe" "results"];
      calls [tool_call "call_3" "act" "click next"];
      calls [tool_call "call_4" "observe" "results"];
      calls [finalize_empty] ] in
  let run := plan quiet "system" (fun task => task) "page through" (start script) in
  run.1 = Ok []
  /\ (fun c => c.1) <$> invocations (trace run.2)
     = [(observe, "results"); (act, "click next"); (observe, "results")]
  /\ completions (trace run.2) = 5.
Proof. repeat split; reflexivity. Qed.

(** A plan handed in as text inside a code fence. *)
Example plan_from_fenced_text :
  let text := "Here is the plan: ```json {" +:+ Json.quote "plan" +:+ ": [{"
              +:+ Json.quote "name" +:+ ":" +:+ Json.quote "Click it" +:+ ","
              +:+ Json.quote "query" +:+ ":" +:+ Json.quote "the button"
              +:+ "}]} ```" in
  (plan quiet "system" (fun task => task) "press it" (start [says text])).1
  = Ok [ {| name := act; query := "the button" |} ].
Proof. reflexivity. Qed.

(** ** The theorems at concrete inputs *)


(** C2, amended, at the plan of three steps: the Extract step is the last. *)
Lemma extractFinalOutput_most_recent_extract_news :
  extractFinalOutput search_plan
    ["NAVIGATED(https://google.com)"; "Observed: wait for results";
     "Headline: Big news today"]
  = Ok "Big news today".
Proof.
  apply (proj1 (extractFinalOutput_most_recent_extract search_plan
           ["NAVIGATED(https://google.com)"; "Observed: wait for results";
            "Headline: Big news today"])
           2 {| name := extract; query := "top heading" |} "Headline: Big news today").
  - reflexivity.
  - reflexivity.
  - intros [|[|[|j]]] step'; simpl; (lia || done).
  - reflexivity.
Defined.

(** C3, amended, at the plan of three steps whose middle step fails. *)
Lemma execute_one_output_per_step_search :
  exists outputs st' new,
    execute (scripted flaky_provider (inr ()) (inr ())) "shots" join_slash
      search_plan (start []) = (Ok outputs, st')
    /\ trace st' = trace (start []) ++ new
    /\ length outputs = length search_plan
    /\ (fun c => c.1) <$> invocations new
       = (fun step => (name step, query step)) <$> search_plan
    /\ outputs = (fun c => payload c.2) <$> invocations new
    /\ (forall err,
          Json.parse (payload (inl err)) = Some (JObj [("error", JStr (error_text err))])).
Proof. apply execute_one_output_per_step. reflexivity. Defined.

(** C3, as stated, fails when the directory for the screenshots cannot be
    created: [execute] is rejected before the first step, with no output
    at all. *)
Lemma execute_mkdir_rejected_refuted :
  execute (scripted steady_provider (inl permission_denied) (inr ())) "shots"
    join_slash search_plan (start [])
  = (Throw (Rejected permission_denied),
     {| world := []; trace := [EvMkdir "shots" (inl permission_denied)] |}).
Proof. reflexivity. Qed.

(** C4 at an Act call followed by an Observe call whose result is cached. *)
Lemma read_after_act_invokes_afresh_stale :
  let v := {| messages := []; cache := {[ "observe::results list" := "stale" ]};
              clearCacheBeforeNextRead := false |} in
  let c_act := tool_call "call_1" "act" "click the search button" in
  let c_read := tool_call "call_2" "observe" "results list" in
  exists v' st2 st' before,
    handleToolCalls quiet (c_act :: [] ++ [c_read]) v (start [])
       = (Ok (Continue v'), st')
    /\ trace st2 = trace (start []) ++ before
    /\ let r := (stagehand quiet observe "results list" (world st2)).1 in
       trace st' = trace st2 ++ [EvInvoke observe "results list" r]
       /\ cache v' = {[ cache_key (CommandName_str observe) "results list" := payload r ]}
       /\ clearCacheBeforeNextRead v' = false
       /\ last (messages v')
          = Some (ToolMsg (tc_id c_read) (CommandName_str observe) (payload r)).
Proof.
  intros v c_act c_read.
  refine (proj1 (proj2 (proj2 (read_after_act_invokes_afresh quiet "system"
            (fun t => t) c_act "click the search button" c_read observe
            "results list" _ _ _)))
            [] v (start []) _).
  - split; [reflexivity|]. eexists. split; reflexivity.
  - reflexivity.
  - split; [reflexivity|]. eexists. split; reflexivity.
  - constructor.
Defined.

(** C5 at two Extract calls for the same query, the first reply of a
    session. *)
Lemma repeated_read_invokes_once_title :
  let c1 := tool_call "call_1" "extract" "page title" in
  let c2 := tool_call "call_2" "extract" "page title" in
  let st := start [calls [c1; c2]] in
  let v := session "find the title" in
  exists v' st',
    let r := (stagehand quiet extract "page title" (world (after_completion quiet v st))).1 in
    plan_round quiet v st = (Ok (Continue v'), st')
    /\ trace st' = trace st ++ [EvCompletion (messages v) (inr (Some (calls [c1; c2])));
                                EvInvoke extract "page title" r]
    /\ messages v' =
         messages v
         ++ [AssistantCalls [c1; c2];
             ToolMsg (tc_id c1) (CommandName_str extract) (payload r);
             ToolMsg (tc_id c2) (CommandName_str extract) (payload r)].
Proof.
  intros c1 c2 st v.
  refine (proj1 (repeated_read_invokes_once quiet "system" (fun t => t)
                   c1 c2 extract "page title" _ _ _)
            "find the title" st (calls [c1; c2]) _ _).
  - reflexivity.
  - split; [reflexivity|]. eexists. split; reflexivity.
  - split; [reflexivity|]. eexists. split; reflexivity.
  - reflexivity.
  - reflexivity.
Defined.

(** C1, as stated, fails: the model answers with a sentence and would hand
    in a plan in the next round; [plan] fails on the sentence, after one
    completion, and the second reply is never asked for. *)
Lemma plan_unparseable_text_refuted :
  let script := [says "Let me think about it."; calls [finalize_empty]] in
  let run := plan quiet "system" (fun task => task) "find the headline" (start script) in
  safeParsePlan "Let me think about it." = Throw NoCodeFence
  /\ run.1 = Throw NoCodeFence
  /\ completions (trace run.2) = 1
  /\ world run.2 = [calls [finalize_empty]]
  /\ (plan quiet "system" (fun task => task) "find the headline"
        (start [calls [finalize_empty]])).1 = Ok [].
Proof. repeat split; reflexivity. Qed.

(** C1, amended, at a reply that is a sentence. *)
Lemma plan_round_unparseable_text_sentence :
  let st := start [says "Let me think about it."] in
  let v := session "find the headline" in
  plan_round quiet v st = (Throw NoCodeFence, after_completion quiet v st)
  /\ forall n, plan_rounds quiet (S n) v st
       = (Throw NoCodeFence, after_completion quiet v st).
Proof.
  intros st v.
  apply (proj1 (plan_round_unparseable_text quiet v st
                  (says "Let me think about it.") eq_refl eq_refl)).
  - vm_compute. discriminate.
  - reflexivity.
Defined.

(** C6, as stated, fails: no round hands in a plan, and yet the call ends
    in the first round, on the text of the reply, and not after the
    sixteenth with the error of the exhausted loop. *)
Lemma plan_never_finalizing_refuted :
  let script := replicate 16 (says "I am still working on it.") in
  let run := plan quiet "system" (fun task => task) "find the headline" (start script) in
  run.1 = Throw NoCodeFence
  /\ run.1 <> Throw PlanningExhausted
  /\ completions (trace run.2) = 1.
Proof. repeat split; (reflexivity || discriminate). Qed.

(** C6, amended, at a model that answers sixteen times with an empty text. *)
Lemma plan_round_budget_silent_model :
  let st := start (replicate 16 (says "")) in
  let run := plan quiet "system" (fun task => task) "find the headline" st in
  run.1 = Throw PlanningExhausted
  /\ completions (trace run.2) = completions (trace st) + 16.
Proof.
  intros st run.
  apply (proj1 (proj2 (proj2
           (plan_round_budget quiet "system" (fun task => task) "find the headline" st)))).
  simpl. repeat (eexists _, _; split; [reflexivity|]). exact I.
Defined.

(** * Further properties *)

(** ** The calls of one reply *)

Section ReplyFacts.

Context {W : Type}.
Variable collab : Collaborators W.

Lemma handleToolCall_finalize tc v st :
  fn_name tc = Some "finalize_plan" ->
  handleToolCall collab tc v st =
  match parse_arguments tc with
  | Throw e => (Throw e, st)
  | Ok args =>
      match validatePlan args with
      | Throw e => (Throw e, st)
      | Ok p =>
          (Ok (Finalized p
                 (push (ToolMsg (tc_id tc) "finalize_plan"
                          (Json.stringify_field "status" "received")) v)), st)
      end
  end.
Proof.
  intros Hfin. unfold handleToolCall. rewrite Hfin.
  rewrite bool_decide_eq_true_2 by done.
  unfold bind, lift, ret.
  destruct (parse_arguments tc) as [args|e]; [|done].
  by destruct (validatePlan args).
Qed.

Lemma handleToolCalls_finalize_cut fin post v st :
  fn_name fin = Some "finalize_plan" ->
  handleToolCalls collab (fin :: post) v st = handleToolCalls collab [fin] v st.
Proof.
  intros Hfin. cbn [handleToolCalls]. unfold bind.
  rewrite (handleToolCall_finalize _ _ _ Hfin).
  destruct (parse_arguments fin) as [args|e]; [|done].
  by destruct (validatePlan args).
Qed.

(** X1: the calls of a reply that stand after a call of [finalize_plan]
    are never handled: the loop gives what it gives without them.  The
    finalize call itself calls no collaborator; when the plan in its
    arguments is valid, it is answered by the one entry
    [{status: received}] and the plan is returned. *)
Theorem finalize_plan_ends_the_reply fin :
  fn_name fin = Some "finalize_plan" ->
  (forall pre post v st,
     handleToolCalls collab (pre ++ fin :: post) v st
     = handleToolCalls collab (pre ++ [fin]) v st)
  /\ (forall post v st r st',
        handleToolCalls collab (fin :: post) v st = (r, st') ->
        st' = st
        /\ match r with
           | Ok (Finalized p v') =>
               (exists args, parse_arguments fin = Ok args /\ validatePlan args = Ok p)
               /\ messages v' =
                    messages v ++ [ToolMsg (tc_id fin) "finalize_plan"
                                     (Json.stringify_field "status" "received")]
               /\ cache v' = cache v
           | Ok (Continue _) => False
           | Throw e =>
               parse_arguments fin = Throw e
               \/ exists args, parse_arguments fin = Ok args /\ validatePlan args = Throw e
           end).
Proof.
  intros Hfin. split.
  - intros pre post v st. rewrite !handleToolCalls_app.
    destruct (handleToolCalls collab pre v st) as [[[p v'|v']|e] st']; try done.
    by apply handleToolCalls_finalize_cut.
  - intros post v st r st'. rewrite handleToolCalls_finalize_cut by done.
    cbn [handleToolCalls]. unfold bind. rewrite (handleToolCall_finalize _ _ _ Hfin).
    destruct (parse_arguments fin) as [args|e] eqn:Ea.
    + destruct (validatePlan args) as [p|e] eqn:Ev; unfold ret; intros [= <- <-].
      * split; [done|]. split_and!; [by exists args|done|done].
      * split; [done|]. right. by exists args.
    + intros [= <- <-]. split; [done|]. by left.
Qed.

End ReplyFacts.

Section TranscriptFacts.

Context {W : Type}.
Variable collab : Collaborators W.

(** One call adds one tool entry, which answers it; the entries before
    stay as they are. *)
Lemma handleToolCall_reply tc v st r st' :
  handleToolCall collab tc v st = (Ok r, st') ->
  exists m, messages (vars_of r) = messages v ++ [m] /\ tool_reply_to tc m.
Proof.
  unfold handleToolCall, bind, lift, ret.
  destruct (parse_arguments tc) as [args|e]; [|done].
  destruct (bool_decide _).
  - destruct (validatePlan args) as [p|e]; [|done].
    intros [= <- <-]. eexists. split; [done|]. by eexists _, _.
  - destruct (command_of _) as [cmd|].
    + destruct (args_query args) as [q|e]; [|done].
      destruct (has_text q); [|done].
      cbv zeta.
      destruct (if is_read cmd then _ else _) as [hit|].
      * intros [= <- <-]. eexists. split; [|by eexists _, _].
        cbn. by destruct (is_read cmd && clearCacheBeforeNextRead v).
      * rewrite invokeStagehand_any_run. cbv zeta. intros [= <- <-].
        eexists. split; [|by eexists _, _].
        cbn. destruct (bool_decide (cmd = act)); cbn;
          by destruct (is_read cmd && clearCacheBeforeNextRead v).
    + intros [= <- <-]. eexists. split; [done|]. by eexists _, _.
Qed.

Lemma handleToolCalls_replies tcs : forall v st r st',
  handleToolCalls collab tcs v st = (Ok r, st') ->
  exists replies,
    messages (vars_of r) = messages v ++ replies
    /\ match r with
       | Continue _ => Forall2 tool_reply_to tcs replies
       | Finalized _ _ =>
           exists n fin,
             tcs !! n = Some fin /\ fn_name fin = Some "finalize_plan"
             /\ Forall2 tool_reply_to (take (S n) tcs) replies
       end.
Proof.
  induction tcs as [|tc tcs IH]; intros v st r st'.
  - intros [= <- <-]. exists []. split; [by rewrite app_nil_r|constructor].
  - cbn [handleToolCalls]. unfold bind.
    destruct (handleToolCall collab tc v st) as [[r1|e] st1] eqn:E1; [|done].
    destruct (handleToolCall_reply _ _ _ _ _ E1) as (m & Hm & Hreply).
    destruct r1 as [p v1|v1].
    + intros [= <- <-]. exists [m]. split; [done|].
      exists 0, tc. split_and!; [done| |by repeat constructor].
      destruct (decide (fn_name tc = Some "finalize_plan")) as [|Hne]; [done|].
      exfalso. revert E1. unfold handleToolCall, bind, lift, ret.
      destruct (parse_arguments tc) as [args|?]; [|done].
      rewrite bool_decide_eq_false_2 by done.
      destruct (command_of _); [|done].
      destruct (args_query args) as [q|]; [|done].
      destruct (has_text q); [|done]. cbv zeta.
      destruct (if is_read _ then _ else _); [done|].
      by rewrite invokeStagehand_any_run.
    + intros Hrest. destruct (IH _ _ _ _ Hrest) as (replies & Hmsgs & Hshape).
      exists (m :: replies). split.
      * rewrite Hmsgs. cbn in Hm. rewrite Hm. by rewrite <- app_assoc.
      * destruct r as [p v2|v2].
        -- destruct Hshape as (n & fin & Hn & Hfin & Hall).
           exists (S n), fin. split_and!; [done|done|]. by constructor.
        -- by constructor.
Qed.

(** X2: a round that goes on after tool calls has added to the
    transcript the assistant entry with the calls and then, for each call
    and in their order, exactly one tool entry that carries the id of the
    call; nothing that was in the transcript is changed.  A round that ends
    with a plan from [finalize_plan] has answered the calls up to that
    one. *)
Theorem every_tool_call_is_answered v st msg tcs r st' :
  (chat_completions_create collab (messages v) (world st)).1 = inr (Some msg) ->
  tool_calls msg = Some tcs -> tcs <> [] ->
  plan_round collab v st = (Ok r, st') ->
  exists replies,
    messages (vars_of r) = messages v ++ AssistantCalls tcs :: replies
    /\ match r with
       | Continue _ => Forall2 tool_reply_to tcs replies
       | Finalized _ _ =>
           exists n fin,
             tcs !! n = Some fin /\ fn_name fin = Some "finalize_plan"
             /\ Forall2 tool_reply_to (take (S n) tcs) replies
       end.
Proof.
  intros Hreply Hcalls Hne. destruct tcs as [|tc tcs]; [done|].
  rewrite (plan_round_calls _ _ _ _ _ _ Hreply Hcalls). intros Hrun.
  destruct (handleToolCalls_replies _ _ _ _ _ Hrun) as (replies & Hmsgs & Hshape).
  exists replies. split; [|done].
  rewrite Hmsgs. cbn. by rewrite <- app_assoc.
Qed.

(** ** The cache holds payloads of the provider only *)

Lemma provider_calls_app tr1 tr2 :
  provider_calls (tr1 ++ tr2) = provider_calls tr1 ++ provider_calls tr2.
Proof. unfold provider_calls. apply omap_app. Qed.

Lemma provider_calls_event kind query reply :
  provider_calls [provider_event kind query reply] = [(kind, query, reply)].
Proof. by destruct query. Qed.

Lemma cache_backed_more c tr new :
  cache_backed collab c tr -> cache_backed collab c (tr ++ new).
Proof.
  intros H key hit Hk. destruct (H key hit Hk) as (kind & q & reply & ? & ? & Hin & ?).
  exists kind, q, reply. split_and!; try done.
  rewrite provider_calls_app. set_solver.
Qed.

Lemma handleToolCall_backed tc v st r st' :
  cache_backed collab (cache v) (trace st) ->
  handleToolCall collab tc v st = (Ok r, st') ->
  cache_backed collab (cache (vars_of r)) (trace st').
Proof.
  intros Hb. unfold handleToolCall, bind, lift, ret.
  destruct (parse_arguments tc) as [args|e]; [|done].
  destruct (bool_decide _).
  - destruct (validatePlan args) as [p|e]; [|done]. by intros [= <- <-].
  - destruct (command_of _) as [cmd|] eqn:Ecmd.
    + destruct (args_query args) as [q|e]; [|done].
      destruct (has_text q); [|done].
      cbv zeta.
      assert (Hb1 : cache_backed collab
                (cache (if is_read cmd && clearCacheBeforeNextRead v
                        then {| messages := messages v; cache := ∅;
                                clearCacheBeforeNextRead := false |}
                        else v)) (trace st)).
      { destruct (is_read cmd && clearCacheBeforeNextRead v); [|done].
        intros key hit. cbn. by rewrite lookup_empty. }
      destruct (if is_read cmd then _ else _) as [hit|].
      * by intros [= <- <-].
      * rewrite invokeStagehand_any_run. cbv zeta. intros [= <- <-].
        cbn [vars_of push cache trace].
        destruct (bool_decide_reflect (cmd = act)) as [->|Hna]; cbn [cache].
        -- by apply cache_backed_more.
        -- intros key hit. rewrite (command_of_str _ _ Ecmd).
           destruct (decide (key = cache_key (CommandName_str cmd) (query_text collab q)))
             as [->|Hk].
           ++ rewrite lookup_insert_eq. intros [= <-].
              eexists cmd, q, _. split_and!; [by destruct cmd|done| |done].
              rewrite provider_calls_app, provider_calls_event. set_solver.
           ++ rewrite lookup_insert_ne by done. intros Hk'.
              by apply (cache_backed_more _ _ _ Hb1).
    + by intros [= <- <-].
Qed.

Lemma handleToolCalls_backed tcs : forall v st r st',
  cache_backed collab (cache v) (trace st) ->
  handleToolCalls collab tcs v st = (Ok r, st') ->
  cache_backed collab (cache (vars_of r)) (trace st').
Proof.
  induction tcs as [|tc tcs IH]; intros v st r st' Hb.
  - by intros [= <- <-].
  - cbn [handleToolCalls]. unfold bind.
    destruct (handleToolCall collab tc v st) as [[r1|e] st1] eqn:E1; [|done].
    pose proof (handleToolCall_backed _ _ _ _ _ Hb E1) as Hb1.
    destruct r1 as [p v1|v1]; [by intros [= <- <-]|].
    by apply IH.
Qed.

Lemma plan_round_backed v st r st' :
  cache_backed collab (cache v) (trace st) ->
  plan_round collab v st = (Ok r, st') ->
  cache_backed collab (cache (vars_of r)) (trace st').
Proof.
  intros Hb. unfold plan_round, bind at 1, await.
  destruct (chat_completions_create collab (messages v) (world st)) as [[err|[msg|]] w'];
    try done.
  destruct (0 <? length _)%nat.
  - apply handleToolCalls_backed. cbn. by apply cache_backed_more.
  - destruct (content msg) as [text|].
    + destruct (0 <? String.length (trim text))%nat.
      * unfold bind, lift, ret. destruct (safeParsePlan text) as [parsed|?]; [|done].
        destruct (validatePlan parsed); [|done].
        intros [= <- <-]. cbn. by apply cache_backed_more.
      * intros [= <- <-]. cbn. by apply cache_backed_more.
    + intros [= <- <-]. cbn. by apply cache_backed_more.
Qed.

(** X3: the planner hands the model no reading of its own making.  A
    session starts with an empty cache; every round keeps the cache to
    payloads that the provider gave, in this session, for the kind of their
    key and for a query whose text is that of their key; and the tool entry
    that answers an Observe, Extract or Act call carries the payload of a
    call of the provider, made now or earlier in the session, for that kind
    and for a query of the same text.  The query of that call need not be
    the query of the answered call, since the key is built from the text of
    the query; an Act call is always answered by a call made now, for its
    own query. *)
Theorem tool_results_come_from_the_provider :
  (forall sys usr task tr, cache_backed collab (cache (initial_vars sys usr task)) tr)
  /\ (forall v st r st',
        cache_backed collab (cache v) (trace st) ->
        plan_round collab v st = (Ok r, st') ->
        cache_backed collab (cache (vars_of r)) (trace st'))
  /\ (forall tc kind query v st r st',
        cache_backed collab (cache v) (trace st) ->
        is_call_with tc kind query ->
        handleToolCall collab tc v st = (Ok r, st') ->
        cache_backed collab (cache (vars_of r)) (trace st')
        /\ exists asked reply,
             query_text collab asked = query_text collab query
             /\ (kind, asked, reply) ∈ provider_calls (trace st')
             /\ messages (vars_of r) =
                  messages v ++ [ToolMsg (tc_id tc) (CommandName_str kind) (payload reply)]
             /\ (kind = act ->
                 asked = query
                 /\ trace st' = trace st ++ [provider_event act query reply]))
  /\ (forall kind value,
        cache_key (CommandName_str kind) (query_text collab (JStr (query_text collab value)))
        = cache_key (CommandName_str kind) (query_text collab value)).
Proof.
  split_and!.
  - intros sys usr task tr key hit. cbn. by rewrite lookup_empty.
  - apply plan_round_backed.
  - intros tc kind query v st r st' Hb Hcall Hrun.
    split; [by eapply handleToolCall_backed|].
    destruct (has_text query) eqn:Htext;
      [|by rewrite (handleToolCall_no_text _ _ _ _ _ _ Hcall Htext) in Hrun].
    revert Hrun. rewrite (handleToolCall_call_with _ _ _ _ _ _ Hcall Htext). cbv zeta.
    destruct (is_read kind) eqn:Hread; cbn [andb].
    + destruct (clearCacheBeforeNextRead v) eqn:Hflag; cbn [cache].
      * rewrite lookup_empty. rewrite bool_decide_eq_false_2 by (by destruct kind).
        intros [= <- <-]. eexists query, _. split_and!; [done| |done|by intros ->].
        cbn. rewrite provider_calls_app, provider_calls_event. set_solver.
      * destruct (cache v !! _) as [hit|] eqn:Hhit.
        -- intros [= <- <-].
           destruct (Hb _ _ Hhit) as (k' & q' & reply & _ & Hkey & Hin & Hp).
           apply cache_key_inj in Hkey as [<- Hsame].
           exists q', reply. split_and!; [done|done| |by intros ->]. cbn. by rewrite Hp.
        -- rewrite bool_decide_eq_false_2 by (by destruct kind).
           intros [= <- <-]. eexists query, _. split_and!; [done| |done|by intros ->].
           cbn. rewrite provider_calls_app, provider_calls_event. set_solver.
    + destruct kind; try done. rewrite bool_decide_eq_true_2 by done.
      intros [= <- <-]. eexists query, _. split_and!; [done| |done|done].
      cbn. rewrite provider_calls_app, provider_calls_event. set_solver.
  - done.
Qed.

End TranscriptFacts.

(** ** The events of [execute] *)

Section ExecuteFacts.

Context {W : Type}.
Variable collab : Collaborators W.
Variable screenshotDir : string.
Variable join : string -> string -> string.
Variable plannerSystemPrompt : string.
Variable plannerUserPrompt : string -> string.

Lemma execute_from_events steps : forall i outputs st,
  exists replies st',
    execute_from collab screenshotDir join i steps outputs st
      = (Ok (outputs ++ ((fun p => payload p.1) <$> replies)), st')
    /\ length replies = length steps
    /\ trace st' = trace st ++ execution_events screenshotDir join i steps replies.
Proof.
  induction steps as [|step steps IH]; intros i outputs st.
  - exists [], st. by rewrite !app_nil_r.
  - cbn [execute_from]. unfold bind at 1. rewrite invokeStagehand_run. cbn zeta.
    set (r := (stagehand collab (name step) (query step) (world st)).1).
    unfold bind at 1.
    destruct (captureStepScreenshot_run collab screenshotDir join (i + 1) step
                {| world := (stagehand collab (name step) (query step) (world st)).2;
                   trace := trace st ++ [EvInvoke (name step) (query step) r] |})
      as (saved & shot & ->).
    match goal with |- context [execute_from _ _ _ _ _ ?o ?s] =>
      destruct (IH (S i) o s) as (replies & st' & Hrun & Hlen & Htr) end.
    exists ((r, shot) :: replies), st'. split_and!.
    + rewrite Hrun. cbn. by rewrite <- app_assoc.
    + cbn. by rewrite Hlen.
    + rewrite Htr. cbn. by rewrite <- !app_assoc.
Qed.

Lemma execute_run plan st :
  match (fs_mkdir collab screenshotDir (world st)).1 with
  | inl err =>
      exists st',
        execute collab screenshotDir join plan st = (Throw (Rejected err), st')
        /\ trace st' = trace st ++ [EvMkdir screenshotDir (inl err)]
  | inr _ =>
      exists replies st',
        execute collab screenshotDir join plan st
          = (Ok ((fun p => payload p.1) <$> replies), st')
        /\ length replies = length plan
        /\ trace st' =
             trace st ++ EvMkdir screenshotDir (inr ())
               :: execution_events screenshotDir join 0 plan replies
  end.
Proof.
  unfold execute, bind, await.
  destruct (fs_mkdir collab screenshotDir (world st)) as [[err|[]] w']; cbn [fst].
  - by eexists.
  - match goal with |- context [execute_from _ _ _ _ _ _ ?s] =>
      destruct (execute_from_events plan 0 [] s) as (replies & st' & Hrun & Hlen & Htr) end.
    exists replies, st'. split_and!; [done|done|].
    rewrite Htr. cbn. by rewrite <- app_assoc.
Qed.

(** X4: what [execute] does to the outside world, in full.  It first
    asks for the screenshot directory.  When that is refused it raises the
    refusal and does nothing else.  Otherwise it goes through the plan in
    order, and for each step it calls the provider once and then asks for
    one screenshot, under the ordinal of the step counted from 1, whatever
    the provider answered and whatever became of the screenshots before;
    the outputs are the payloads of the provider's answers. *)
Theorem execute_trace plan st :
  match (fs_mkdir collab screenshotDir (world st)).1 with
  | inl err =>
      exists st',
        execute collab screenshotDir join plan st = (Throw (Rejected err), st')
        /\ trace st' = trace st ++ [EvMkdir screenshotDir (inl err)]
  | inr _ =>
      exists replies st',
        execute collab screenshotDir join plan st
          = (Ok ((fun p => payload p.1) <$> replies), st')
        /\ length replies = length plan
        /\ trace st' =
             trace st ++ EvMkdir screenshotDir (inr ())
               :: execution_events screenshotDir join 0 plan replies
  end.
Proof. apply execute_run. Qed.

Lemma execution_events_no_completion i steps replies :
  completions (execution_events screenshotDir join i steps replies) = 0.
Proof.
  revert i replies. induction steps as [|step steps IH]; intros i [|[r shot] replies];
    try done.
  cbn [execution_events]. apply (IH (S i) replies).
Qed.

Lemma validatePlan_queries raw p :
  validatePlan raw = Ok p -> Forall (fun pf => query pf <> "") p.
Proof.
  intros Hok. destruct (plan_items raw) as [items|] eqn:Hitems.
  - rewrite (validatePlan_items _ _ Hitems) in Hok. apply map_steps_ok in Hok.
    clear Hitems. induction Hok as [|step pf steps pfs Hv _ IH]; constructor; [|done].
    by destruct Hv as (_ & _ & Hq & _).
  - apply validatePlan_shape in Hitems. congruence.
Qed.

Lemma planning_only_same (st : State W) (o : Outcome CallResult) :
  match o with Ok (Finalized p _) => exists raw, validatePlan raw = Ok p | _ => True end ->
  planning_only st (o, st).
Proof. intros H. split; [|done]. exists []. by rewrite app_nil_r. Qed.

Lemma planning_only_trans (st : State W) res1 res :
  planning_only st res1 -> planning_only res1.2 res -> planning_only st res.
Proof.
  intros [(new1 & H1 & F1) _] [(new2 & H2 & F2) Hp]. split; [|done].
  exists (new1 ++ new2). split; [by rewrite H2, H1, app_assoc|by apply Forall_app].
Qed.

Lemma handleToolCall_planning tc v st :
  planning_only st (handleToolCall collab tc v st).
Proof.
  unfold handleToolCall, bind, lift, ret.
  destruct (parse_arguments tc) as [args|e]; [|by apply planning_only_same].
  destruct (bool_decide _).
  { destruct (validatePlan args) as [p|e] eqn:E; apply planning_only_same; [|done].
    by exists args. }
  destruct (command_of _) as [cmd|]; [|by apply planning_only_same].
  destruct (args_query args) as [q|e]; [|by apply planning_only_same].
  destruct (has_text q); [|by apply planning_only_same].
  cbv zeta. destruct (if is_read cmd then _ else _) as [hit|];
    [by apply planning_only_same|].
  rewrite invokeStagehand_any_run. cbv zeta. split; [|done].
  eexists [_]. split; [done|]. constructor; [by destruct q|constructor].
Qed.

Lemma handleToolCalls_planning tcs : forall v st,
  planning_only st (handleToolCalls collab tcs v st).
Proof.
  induction tcs as [|tc tcs IH]; intros v st; [by apply planning_only_same|].
  cbn [handleToolCalls]. unfold bind.
  pose proof (handleToolCall_planning tc v st) as H1.
  destruct (handleToolCall collab tc v st) as [[[p v1|v1]|e] st1]; try done.
  eapply planning_only_trans; [exact H1|apply IH].
Qed.

Lemma plan_round_planning v st : planning_only st (plan_round collab v st).
Proof.
  unfold plan_round, bind at 1, await.
  destruct (chat_completions_create collab (messages v) (world st)) as [reply w'].
  set (st1 := {| world := w'; trace := trace st ++ [EvCompletion (messages v) reply] |}).
  assert (H1 : forall o : Outcome CallResult,
            match o with
            | Ok (Finalized p _) => exists raw, validatePlan raw = Ok p
            | _ => True
            end -> planning_only st (o, st1)).
  { intros o Ho. split; [|done]. eexists [_]. split; [done|]. by repeat constructor. }
  destruct reply as [err|[msg|]]; [by apply H1|..|by apply H1].
  destruct (0 <? length _)%nat.
  - eapply planning_only_trans; [apply (H1 (Throw NoCompletion) I)|].
    apply handleToolCalls_planning.
  - destruct (content msg) as [text|]; [|by apply H1].
    destruct (0 <? String.length (trim text))%nat; [|by apply H1].
    unfold bind, lift, ret. destruct (safeParsePlan text) as [parsed|?]; [|by apply H1].
    destruct (validatePlan parsed) as [p|?] eqn:E; apply H1; [|done]. by exists parsed.
Qed.

Lemma plan_rounds_planning n : forall v st,
  (exists new, trace (plan_rounds collab n v st).2 = trace st ++ new
               /\ Forall (fun ev => is_planning_event ev = true) new)
  /\ match (plan_rounds collab n v st).1 with
     | Ok p => exists raw, validatePlan raw = Ok p
     | Throw _ => True
     end.
Proof.
  induction n as [|n IH]; intros v st; cbn [plan_rounds].
  - split; [|done]. exists []. by rewrite app_nil_r.
  - unfold bind. destruct (plan_round_planning v st) as [(new1 & H1 & F1) Hp].
    destruct (plan_round collab v st) as [[[p v1|v1]|e] st1]; cbn in *.
    + split; [by exists new1|done].
    + destruct (IH v1 st1) as [(new2 & H2 & F2) Hp2]. split; [|done].
      exists (new1 ++ new2). split; [by rewrite H2, H1, app_assoc|by apply Forall_app].
    + split; [by exists new1|done].
Qed.

Lemma navigate_run task st :
  let planned := plan collab plannerSystemPrompt plannerUserPrompt task st in
  let done :=
    navigate collab screenshotDir join plannerSystemPrompt plannerUserPrompt task st in
  (exists planning,
     trace planned.2 = trace st ++ planning
     /\ Forall (fun ev => is_planning_event ev = true) planning)
  /\ match planned.1 with
     | Throw e => done = (Throw e, planned.2)
     | Ok steps =>
         Forall (fun pf => query pf <> "") steps
         /\ exists executing,
              trace done.2 = trace planned.2 ++ executing
              /\ completions executing = 0
              /\ match done.1 with
                 | Ok (steps', outputs) =>
                     steps' = steps /\ length outputs = length steps
                 | Throw e =>
                     exists err,
                       e = Rejected err
                       /\ executing = [EvMkdir screenshotDir (inl err)]
                 end
     end.
Proof.
  intros planned done.
  destruct (plan_rounds_planning 16
              (initial_vars plannerSystemPrompt plannerUserPrompt task) st)
    as [Hplanning Hvalid].
  fold (plan collab plannerSystemPrompt plannerUserPrompt task) in Hplanning, Hvalid.
  fold planned in Hplanning, Hvalid.
  split; [done|].
  subst done. unfold navigate, bind. fold planned.
  destruct planned as [[steps|e] st1] eqn:Eplan; cbn [fst snd] in *; [|done].
  destruct Hvalid as [raw Hraw]. split; [by eapply validatePlan_queries|].
  pose proof (execute_run steps st1) as Hexec.
  destruct ((fs_mkdir collab screenshotDir (world st1)).1) as [err|[]].
  - destruct Hexec as (st' & -> & Htr). exists [EvMkdir screenshotDir (inl err)].
    cbn. split_and!; [done|done|by exists err].
  - destruct Hexec as (replies & st' & -> & Hlen & Htr).
    eexists. cbn. split_and!; [exact Htr| |done|].
    + change (completions (EvMkdir screenshotDir (inr ()) :: ?l)) with (completions l).
      apply execution_events_no_completion.
    + rewrite length_fmap. done.
Qed.

(** X5: [navigate] plans and then executes, and the two keep to their
    own collaborators.  Planning only requests completions and calls the
    provider; it creates no directory and takes no screenshot.  When
    planning fails, [navigate] fails with the same error and nothing is
    executed.  A plan that planning returns has passed [validatePlan], so
    none of its steps has an empty query.  Executing requests no
    completion; it fails only when the screenshot directory is refused, and
    otherwise [navigate] returns the plan with one output for each
    step. *)
Theorem navigate_plans_then_executes task st :
  let planned := plan collab plannerSystemPrompt plannerUserPrompt task st in
  let done :=
    navigate collab screenshotDir join plannerSystemPrompt plannerUserPrompt task st in
  (exists planning,
     trace planned.2 = trace st ++ planning
     /\ Forall (fun ev => is_planning_event ev = true) planning)
  /\ match planned.1 with
     | Throw e => done = (Throw e, planned.2)
     | Ok steps =>
         Forall (fun pf => query pf <> "") steps
         /\ exists executing,
              trace done.2 = trace planned.2 ++ executing
              /\ completions executing = 0
              /\ match done.1 with
                 | Ok (steps', outputs) =>
                     steps' = steps /\ length outputs = length steps
                 | Throw e =>
                     exists err,
                       e = Rejected err
                       /\ executing = [EvMkdir screenshotDir (inl err)]
                 end
     end.
Proof. apply navigate_run. Qed.

End ExecuteFacts.

(** ** Ordinals and file names *)

Lemma length_append a b : String.length (a +:+ b) = String.length a + String.length b.
Proof.
  induction a as [|c a IH]; [done|].
  change (S (String.length (a +:+ b)) = S (String.length a + String.length b)).
  by rewrite IH.
Qed.

Lemma append_inv_tail a b c : a +:+ c = b +:+ c -> a = b.
Proof.
  revert b. induction a as [|x a IH]; intros [|y b] H; [done| | |].
  - apply (f_equal String.length) in H. rewrite !length_append in H. cbn in H. lia.
  - apply (f_equal String.length) in H. rewrite !length_append in H. cbn in H. lia.
  - change (String x (a +:+ c) = String y (b +:+ c)) in H.
    injection H as -> H. f_equal. by apply IH.
Qed.

Lemma uint_of_string_zeros n s :
  parse_decimal (repeat_char "0" n +:+ s) = parse_decimal s.
Proof.
  unfold parse_decimal. induction n as [|n IH]; [done|].
  change (repeat_char "0" (S n) +:+ s) with (String "0" (repeat_char "0" n +:+ s)).
  cbn [NilEmpty.uint_of_string]. revert IH.
  destruct (NilEmpty.uint_of_string (repeat_char "0" n +:+ s)) as [d|];
    destruct (NilEmpty.uint_of_string s) as [d'|]; cbn; try done.
Qed.

(** The ordinal reads back as the number it was made from. *)
Lemma parse_decimal_z n : parse_decimal (z n) = Some n.
Proof.
  unfold z, padStart0. rewrite uint_of_string_zeros.
  unfold parse_decimal, Number_toString. rewrite NilEmpty.usu. cbn.
  by rewrite DecimalNat.Unsigned.of_to.
Qed.

Lemma digits_before_dash a b x y :
  str_all is_digit a = true -> str_all is_digit b = true ->
  a +:+ String "-" x = b +:+ String "-" y -> a = b /\ x = y.
Proof.
  revert b. induction a as [|c a IH]; intros [|d b] Ha Hb H.
  - by injection H as ->.
  - injection H as <- _. cbn in Hb. done.
  - injection H as -> _. cbn in Ha. done.
  - cbn in Ha, Hb. apply andb_prop in Ha as [_ Ha]. apply andb_prop in Hb as [_ Hb].
    injection H as -> H. destruct (IH b Ha Hb H) as [-> ->]. done.
Qed.

(** X6: the zero-padded ordinal [z(n)] reads back as [n], so it is
    different for different numbers; and two screenshot file names are
    equal only for the same ordinal, the same step name and the same slug.
    The screenshots of the steps of one run therefore go to files of
    different names. *)
Theorem screenshot_names_differ :
  (forall n, parse_decimal (z n) = Some n)
  /\ (forall n m, z n = z m <-> n = m)
  /\ (forall i j s t,
        screenshot_name i s = screenshot_name j t
        <-> i = j /\ name s = name t /\ slugify (query s) = slugify (query t)).
Proof.
  assert (Hz : forall n m, z n = z m -> n = m).
  { intros n m H. apply (f_equal parse_decimal) in H.
    rewrite !parse_decimal_z in H. by injection H. }
  split_and!.
  - apply parse_decimal_z.
  - intros n m. split; [apply Hz|by intros ->].
  - intros i j s t. split.
    + unfold screenshot_name. intros H.
      apply digits_before_dash in H as [Hij H]; [|apply z_digits..].
      apply Hz in Hij as ->. split; [done|].
      revert H. generalize (slugify (query s)) (slugify (query t)). intros a b H.
      destruct (name s), (name t); cbn in H; try discriminate;
        injection H as H; change (a +:+ ".jpg" = b +:+ ".jpg") in H;
        apply append_inv_tail in H; done.
    + intros (-> & Hn & Hs). unfold screenshot_name. by rewrite Hn, Hs.
Qed.

(** ** A validated plan validates again *)

Lemma validateStep_value idx pf :
  query pf <> "" -> validateStep idx (PageFunction_value pf) = Ok pf.
Proof.
  intros Hq. apply validateStep_ok. unfold validates_to, is_object, step_kind, prop.
  split_and!; try done. cbn. by destruct (name pf).
Qed.

Lemma validateStep_value_inv idx pf pf' :
  validateStep idx (PageFunction_value pf) = Ok pf' -> pf' = pf /\ query pf <> "".
Proof.
  intros (_ & Hq & Hne & Hk)%validateStep_ok.
  unfold step_kind, prop in *. cbn in Hq, Hk. injection Hq as Hq.
  destruct pf as [n q], pf' as [n' q']; cbn in *. subst q'. split; [|done].
  f_equal. destruct n; cbn in Hk; congruence.
Qed.

Lemma map_steps_values idx p :
  Forall (fun pf => query pf <> "") p ->
  map_steps idx (PageFunction_value <$> p) = Ok p.
Proof.
  intros H. revert idx. induction H as [|pf p Hq _ IH]; intros idx; [done|].
  cbn [fmap list_fmap map_steps]. rewrite validateStep_value by done.
  change (list_fmap _ _ PageFunction_value p) with (PageFunction_value <$> p).
  by rewrite IH.
Qed.

Lemma map_steps_values_inv p : forall idx p',
  map_steps idx (PageFunction_value <$> p) = Ok p' ->
  p' = p /\ Forall (fun pf => query pf <> "") p.
Proof.
  induction p as [|pf p IH]; intros idx p'.
  - by intros [= <-].
  - cbn [fmap list_fmap map_steps].
    change (list_fmap _ _ PageFunction_value p) with (PageFunction_value <$> p).
    destruct (validateStep idx (PageFunction_value pf)) as [pf1|] eqn:E1; [|done].
    destruct (map_steps (S idx) (PageFunction_value <$> p)) as [p1|] eqn:E2; [|done].
    intros [= <-]. apply validateStep_value_inv in E1 as [-> Hq].
    apply IH in E2 as [-> Hall]. split; [done|by constructor].
Qed.

(** X7: a plan, written as the object [{ plan: [{ name, query }, ...] }],
    passes [validatePlan] exactly when none of its steps has an empty
    query, and what [validatePlan] then returns is that plan, step for
    step; so whatever [validatePlan] has returned it accepts again,
    unchanged. *)
Theorem validatePlan_accepts_its_results :
  (forall p,
     validatePlan (plan_value p) = Ok p <-> Forall (fun pf => query pf <> "") p)
  /\ (forall p p', validatePlan (plan_value p) = Ok p' -> p' = p)
  /\ (forall raw p, validatePlan raw = Ok p -> validatePlan (plan_value p) = Ok p).
Proof.
  assert (Hitems : forall p, validatePlan (plan_value p)
                             = map_steps 0 (PageFunction_value <$> p)).
  { intros p. by apply validatePlan_items. }
  split_and!.
  - intros p. rewrite Hitems. split.
    + by intros [_ H]%map_steps_values_inv.
    + apply map_steps_values.
  - intros p p'. rewrite Hitems. by intros [-> _]%map_steps_values_inv.
  - intros raw p Hok. rewrite Hitems. apply map_steps_values.
    destruct (plan_items raw) as [items|] eqn:Hi.
    + rewrite (validatePlan_items _ _ Hi) in Hok. apply map_steps_ok in Hok.
      clear Hi. induction Hok as [|step pf steps pfs Hv _ IH]; constructor; [|done].
      by destruct Hv as (_ & _ & Hq & _).
    + apply validatePlan_shape in Hi. congruence.
Qed.

(** ** [extractFinalOutput] on the outputs of a run *)

Lemma includes_length sub s :
  includes sub s = true -> String.length sub <= String.length s.
Proof.
  intros (a & b & ->)%includes_spec. rewrite !length_append. lia.
Qed.

Lemma fallback_scan_length outputs : 10 <= String.length (fallback_scan outputs).
Proof.
  unfold fallback_scan.
  destruct (last (filter _ outputs)) as [o|] eqn:E; cbn; [|lia].
  apply last_Some_elem_of in E. apply list_elem_of_filter in E as [Hm _].
  unfold is_meaningful in Hm. apply orb_prop in Hm as [Hm|Hm].
  - apply includes_length in Hm. cbn in Hm. lia.
  - apply andb_prop in Hm as [Hm _]. apply andb_prop in Hm as [Hm _].
    apply Nat.ltb_lt in Hm. lia.
Qed.

(** X8: on outputs that are at least as many as the steps of the plan,
    as those of [execute] are, [extractFinalOutput] returns a text; the
    text it returns is never empty, it has ten characters or more; and it
    fails, with the type error of reading [undefined], only when the most
    recent Extract step has no output. *)
Theorem extractFinalOutput_total plan outputs :
  (length plan <= length outputs ->
   exists text, extractFinalOutput plan outputs = Ok text)
  /\ (forall text,
        extractFinalOutput plan outputs = Ok text -> 10 <= String.length text)
  /\ (forall e,
        extractFinalOutput plan outputs = Throw e ->
        e = TypeError
        /\ exists i step,
             plan !! i = Some step /\ name step = extract /\ length outputs <= i
             /\ forall j step', i < j -> plan !! j = Some step' -> name step' <> extract).
Proof.
  assert (Hscan : forall (b : bool) (c : string),
            (b = true -> 10 <= String.length c) ->
            10 <= String.length (if b then c else
              match last (filter (fun o => is_meaningful o = true) outputs) with
              | Some o => o
              | None => fallback_sentence
              end)).
  { intros [] c Hc; [by apply Hc|]. apply (fallback_scan_length outputs). }
  destruct (decide (Forall (fun step => name step <> extract) plan)) as [Hnone|Hsome].
  - rewrite (extractFinalOutput_none _ _ Hnone). split_and!.
    + intros _. by eexists.
    + intros text [= <-]. apply fallback_scan_length.
    + done.
  - apply not_Forall_Exists in Hsome; [|apply _].
    assert (exists before step after,
              plan = before ++ step :: after /\ name step = extract
              /\ Forall (fun step' => name step' <> extract) after)
      as (before & step & after & -> & Hstep & Hafter).
    { clear Hscan. induction plan as [|s plan IH]; [by apply Exists_nil in Hsome|].
      destruct (decide (Exists (fun step => ~ name step <> extract) plan)) as [Hex|Hno].
      - destruct (IH Hex) as (before & step & after & -> & ? & ?).
        by exists (s :: before), step, after.
      - apply Exists_cons in Hsome as [Hs|?]; [|done].
        exists [], s, plan. split_and!; [done|by destruct (decide (name s = extract))|].
        apply Forall_forall. intros x Hx Hext. apply Hno, Exists_exists.
        exists x. split; [done|]. by intros ?. }
    rewrite (extractFinalOutput_last _ _ _ _ Hstep Hafter).
    rewrite length_app. cbn [length].
    destruct (outputs !! length before) as [output|] eqn:Hout.
    + split_and!.
      * intros _. by eexists.
      * intros text [= <-]. unfold fallback_scan, default.
        apply Hscan. unfold qualifies. intros [H _]%andb_prop.
        apply Nat.ltb_lt in H. lia.
      * done.
    + apply lookup_ge_None in Hout. split_and!.
      * lia.
      * done.
      * intros e [= <-]. split; [done|]. exists (length before), step.
        split_and!; [by rewrite list_lookup_middle|done|done|].
        intros j step' Hj Hl Hext.
        rewrite lookup_app_r in Hl by lia.
        destruct (j - length before) as [|k] eqn:Ek; [lia|]. cbn in Hl.
        rewrite Forall_lookup in Hafter. by apply (Hafter k step').
Qed.

(** ** Reversal and trimming *)

Lemma append_nil_r s : s +:+ "" = s.
Proof.
  induction s as [|c s IH]; [done|].
  change (String c (s +:+ "") = String c s). by rewrite IH.
Qed.

Lemma str_rev_onto_spec s acc : str_rev_onto s acc = str_rev s +:+ acc.
Proof.
  unfold str_rev. revert acc. induction s as [|c s IH]; intros acc; [done|].
  cbn [str_rev_onto]. rewrite IH, (IH (String c "")). by rewrite append_assoc.
Qed.

Lemma str_rev_cons c s : str_rev (String c s) = str_rev s +:+ String c "".
Proof. unfold str_rev at 1. cbn [str_rev_onto]. apply str_rev_onto_spec. Qed.

Lemma str_rev_app a b : str_rev (a +:+ b) = str_rev b +:+ str_rev a.
Proof.
  induction a as [|c a IH].
  - by rewrite append_nil_r.
  - change (String c a +:+ b) with (String c (a +:+ b)).
    by rewrite !str_rev_cons, IH, append_assoc.
Qed.

Lemma str_rev_involutive s : str_rev (str_rev s) = s.
Proof.
  induction s as [|c s IH]; [done|].
  by rewrite str_rev_cons, str_rev_app, IH.
Qed.

(** Trimming leaves a text alone that neither starts nor ends with white
    space. *)
Lemma trim_tight c t d :
  is_space c = false -> is_space d = false ->
  trim (String c (t +:+ String d "")) = String c (t +:+ String d "").
Proof.
  intros Hc Hd. unfold trim, trimEnd. cbn [trimStart]. rewrite Hc.
  change (String c (t +:+ String d "")) with (String c t +:+ String d "").
  rewrite str_rev_app. change (str_rev (String d "")) with (String d "").
  change (String d "" +:+ ?x) with (String d x). cbn [trimStart]. rewrite Hd.
  change (String d (str_rev (String c t))) with (String d "" +:+ str_rev (String c t)).
  by rewrite str_rev_app, str_rev_involutive.
Qed.

(** ** Replacements anchored at the start *)

Lemma match_at_bol_later r pos s : match_at (RSeq RBol r) (S pos) s = None.
Proof. done. Qed.

Lemma replace_from_bol_later r rep pos s : replace_from (RSeq RBol r) rep (S pos) s = s.
Proof.
  revert pos. induction s as [|c s IH]; intros pos; cbn [replace_from];
    rewrite match_at_bol_later; [done|]. by rewrite IH.
Qed.

Lemma replace_bol_none r rep s :
  match_at (RSeq RBol r) 0 s = None -> replace (RSeq RBol r) rep s = s.
Proof.
  intros H. unfold replace. destruct s as [|c s]; cbn [replace_from]; rewrite H; [done|].
  by rewrite replace_from_bol_later.
Qed.

Lemma match_bol_lit_none w r s :
  startsWith w s = false -> match_at (RSeq RBol (RSeq (lit w) r)) 0 s = None.
Proof.
  intros H. unfold match_at. cbn [rmatch Nat.eqb]. by rewrite rmatch_lit, H.
Qed.

(** Nothing is stripped from an output that starts with none of the
    letters a technical prefix starts with, and neither starts nor ends
    with white space. *)
Lemma clean_other c t d :
  is_space c = false -> is_space d = false ->
  c <> "E"%char -> c <> "F"%char -> c <> "H"%char -> c <> "C"%char ->
  clean (String c (t +:+ String d "")) = String c (t +:+ String d "").
Proof.
  intros Hc Hd H1 H2 H3 H4. unfold clean, re_strip_extracted, re_strip_label.
  assert (Hfirst : forall w x y, c <> x -> startsWith (String x w) (String c y) = false).
  { intros w x y Hx. cbn. by destruct (Ascii.eqb_spec x c) as [->|]. }
  rewrite (replace_bol_none _ "" _ (match_bol_lit_none _ _ _ (Hfirst _ _ _ H1))).
  rewrite (replace_bol_none _ "" _ (match_bol_lit_none _ _ _ (Hfirst _ _ _ H2))).
  rewrite (replace_bol_none _ "" _ (match_bol_lit_none _ _ _ (Hfirst _ _ _ H3))).
  rewrite (replace_bol_none _ "" _ (match_bol_lit_none _ _ _ (Hfirst _ _ _ H4))).
  rewrite (replace_bol_none _ "" _ (match_bol_lit_none _ _ _ (Hfirst _ _ _ H3))).
  by apply trim_tight.
Qed.

Lemma stringify_field_shape k v :
  Json.stringify_field k v
  = String "{" ((Json.quote k +:+ ":" +:+ Json.quote v) +:+ String "}" "").
Proof.
  unfold Json.stringify_field.
  change ("{" +:+ ?x) with (String "{" x). f_equal.
  by rewrite !append_assoc.
Qed.

Lemma stringify_error_length t :
  (10 <? String.length (Json.stringify_field "error" t))%nat = true.
Proof.
  rewrite stringify_field_shape. apply Nat.ltb_lt. cbn [String.length].
  rewrite !length_append. change (String.length (Json.quote "error")) with 7.
  change (String.length ":") with 1. change (String.length "}") with 1.
  unfold Json.quote. cbn [String.length]. lia.
Qed.

(** X9: when the step that failed is the most recent Extract step, the
    error is the result of the task: the output of the step is the JSON
    text of the error, nothing is stripped from it, it is longer than ten
    characters, and unless it happens to contain the not-found marker,
    [extractFinalOutput] returns it as the final output. *)
Theorem failed_extract_is_the_final_output before step after outputs err :
  name step = extract ->
  Forall (fun step' => name step' <> extract) after ->
  outputs !! length before = Some (payload (inl err)) ->
  includes "(not found" (payload (inl err)) = false ->
  clean (payload (inl err)) = Json.stringify_field "error" (error_text err)
  /\ extractFinalOutput (before ++ step :: after) outputs
     = Ok (Json.stringify_field "error" (error_text err)).
Proof.
  intros Hstep Hafter Hout Hmark.
  assert (Hclean : clean (payload (inl err))
                   = Json.stringify_field "error" (error_text err)).
  { cbn [payload]. rewrite stringify_field_shape. by apply clean_other. }
  split; [done|].
  rewrite (extractFinalOutput_last _ _ _ _ Hstep Hafter), Hout, Hclean.
  unfold qualifies. cbn [payload] in Hmark. by rewrite Hmark, stringify_error_length.
Qed.

(** ** The arguments of a tool call *)

Lemma parse_value_field wide fuel kbody vbody k v :
  Json.parse_chars wide kbody = Some (k, String ":" (String Json.dquote vbody)) ->
  Json.parse_chars wide vbody = Some (v, "}") ->
  Json.parse_value wide (S (S (S fuel))) (String "{" (String Json.dquote kbody))
  = Some (JObj [(k, JStr v)], "").
Proof. intros Hk Hv. simpl. rewrite Hk. simpl. rewrite Hv. reflexivity. Qed.

(** [JSON.parse] reads back the object that [JSON.stringify] wrote for one
    string field. *)
Lemma parse_stringify_field k v :
  Json.parse (Json.stringify_field k v) = Some (JObj [(k, JStr v)]).
Proof.
  unfold Json.parse, Json.parse_text.
  assert (Hshape : Json.stringify_field k v
                   = String "{" (String Json.dquote
                       (Json.escape k +:+ String Json.dquote
                          (String ":" (String Json.dquote
                             (Json.escape v +:+ String Json.dquote "}")))))).
  { unfold Json.stringify_field, Json.quote.
    change ("{" +:+ ?x) with (String "{" x). f_equal.
    change (String Json.dquote (Json.escape k +:+ String Json.dquote "") +:+ ?x)
      with (String Json.dquote ((Json.escape k +:+ String Json.dquote "") +:+ x)).
    f_equal. rewrite append_assoc. f_equal.
    change (String Json.dquote "" +:+ ?x) with (String Json.dquote x). f_equal.
    change (":" +:+ ?x) with (String ":" x). f_equal.
    change (String Json.dquote (Json.escape v +:+ String Json.dquote "") +:+ "}")
      with (String Json.dquote ((Json.escape v +:+ String Json.dquote "") +:+ "}")).
    f_equal. by rewrite append_assoc. }
  destruct (String.length (Json.stringify_field k v)) as [|n] eqn:E.
  { by rewrite Hshape in E. }
  replace (2 * S n + 2) with (S (S (S (S (2 * n))))) by lia.
  rewrite Hshape.
  rewrite (parse_value_field _ _
             (Json.escape k +:+ String Json.dquote
                (String ":" (String Json.dquote
                   (Json.escape v +:+ String Json.dquote "}"))))
             (Json.escape v +:+ String Json.dquote "}") k v);
    [done|apply parse_chars_escape..].
Qed.

Section ArgumentFacts.

Context {W : Type}.
Variable collab : Collaborators W.

(** X10: how the query of an Observe, Extract or Act call is read from
    its arguments.  Arguments written by [JSON.stringify] for an object
    with the one field [query] give that query back.  Absent or empty
    arguments, and an object without [query] or with [query: null], give
    the empty query, with which the provider is then really called.  A
    [query] that is no string, a number or an array, is not refused: it is
    the query of the call, its text makes the key of the cache, and the
    provider is called with the value itself.  A [query] that has no text,
    an object with a property [toString], fails the call with a type
    error where the key is made.  So do arguments that are the JSON text
    [null], and arguments that are not JSON fail it with a syntax error;
    none of these reaches the provider. *)
Theorem tool_call_query tc kind :
  command_of (toLowerCase (default "" (fn_name tc))) = Some kind ->
  (forall q, fn_arguments tc = Some (Json.stringify_field "query" q) -> is_call tc kind q)
  /\ (fn_arguments tc = None \/ fn_arguments tc = Some "" -> is_call tc kind "")
  /\ (forall text props,
        fn_arguments tc = Some text -> Json.parse text = Some (JObj props) ->
        obj_get "query" props = JUndefined \/ obj_get "query" props = JNull ->
        is_call tc kind "")
  /\ (is_call tc kind "" ->
      forall v st,
        invocations (trace (handleToolCall collab tc v st).2)
        = invocations (trace st)
          ++ match (if is_read kind
                    then (if clearCacheBeforeNextRead v then ∅ else cache v)
                           !! cache_key (CommandName_str kind) ""
                    else None) with
             | Some _ => []
             | None => [(kind, "", (stagehand collab kind "" (world st)).1)]
             end)
  /\ (forall text props,
        fn_arguments tc = Some text -> Json.parse text = Some (JObj props) ->
        obj_get "query" props <> JUndefined -> obj_get "query" props <> JNull ->
        let query := obj_get "query" props in
        is_call_with tc kind query
        /\ (has_text query = false ->
            forall v st, handleToolCall collab tc v st = (Throw TypeError, st))
        /\ forall v st,
             has_text query = true ->
             (exists v' st', handleToolCall collab tc v st = (Ok (Continue v'), st'))
             /\ provider_calls (trace (handleToolCall collab tc v st).2)
                = provider_calls (trace st)
                  ++ match (if is_read kind
                            then (if clearCacheBeforeNextRead v then ∅ else cache v)
                                   !! cache_key (CommandName_str kind)
                                        (query_text collab query)
                            else None) with
                     | Some _ => []
                     | None =>
                         [(kind, query, (provider_answer collab kind query (world st)).1)]
                     end)
  /\ (forall text v st,
        fn_arguments tc = Some text -> Json.parse text = Some JNull ->
        handleToolCall collab tc v st = (Throw TypeError, st))
  /\ (forall text v st,
        fn_arguments tc = Some text -> text <> "" -> Json.is_json text = false ->
        handleToolCall collab tc v st = (Throw SyntaxError, st)).
Proof.
  intros Hcmd.
  assert (Hfin : fn_name tc <> Some "finalize_plan").
  { intros E. by rewrite E in Hcmd. }
  assert (Hparse : forall text, fn_arguments tc = Some text -> text <> "" ->
            parse_arguments tc = JSON_parse text).
  { intros text E Hne. unfold parse_arguments. rewrite E.
    by destruct (String.eqb_spec text "") as [->|_]. }
  split_and!.
  - intros q E. split; [done|]. exists (JObj [("query", JStr q)]). split; [|done].
    rewrite (Hparse _ E).
    + unfold JSON_parse. by rewrite parse_stringify_field.
    + by rewrite stringify_field_shape.
  - intros [E|E]; (split; [done|]); exists (JObj []); unfold parse_arguments;
      by rewrite E.
  - intros text props E Hp Hq. split; [done|]. exists (JObj props). split.
    + rewrite (Hparse _ E).
      * unfold JSON_parse. by rewrite Hp.
      * intros ->. done.
    + unfold args_query. cbn. by destruct Hq as [-> | ->].
  - intros Hcall v st. rewrite (handleToolCall_call _ _ _ _ _ _ Hcall). cbv zeta.
    destruct (is_read kind) eqn:Hread; cbn [andb].
    + destruct (clearCacheBeforeNextRead v); cbn [cache].
      * rewrite lookup_empty. cbn. by rewrite invocations_app.
      * destruct (cache v !! _); cbn; [by rewrite app_nil_r|by rewrite invocations_app].
    + cbn. by rewrite invocations_app.
  - intros text props E Hp Hu Hn query.
    assert (Hcall : is_call_with tc kind query).
    { split; [done|]. exists (JObj props). split.
      - rewrite (Hparse _ E).
        + unfold JSON_parse. by rewrite Hp.
        + intros ->. done.
      - unfold args_query. cbn [get_prop]. subst query.
        by destruct (obj_get "query" props). }
    split; [done|]. split.
    { intros Htext v st. by apply (handleToolCall_no_text _ tc kind query). }
    intros v st Htext.
    rewrite (handleToolCall_call_with _ _ _ _ _ _ Hcall Htext). cbv zeta.
    destruct (is_read kind) eqn:Hread; cbn [andb].
    + destruct (clearCacheBeforeNextRead v); cbn [cache].
      * rewrite lookup_empty. cbn [snd trace].
        split; [by eexists _, _|].
        by rewrite provider_calls_app, provider_calls_event.
      * destruct (cache v !! _); cbn [snd trace].
        -- split; [by eexists _, _|]. by rewrite app_nil_r.
        -- split; [by eexists _, _|].
           by rewrite provider_calls_app, provider_calls_event.
    + cbn [snd trace]. split; [by eexists _, _|].
      by rewrite provider_calls_app, provider_calls_event.
  - intros text v st E Hp.
    unfold handleToolCall, bind, lift.
    rewrite (Hparse _ E) by (intros ->; done). unfold JSON_parse. rewrite Hp.
    rewrite bool_decide_eq_false_2 by done. by rewrite Hcmd.
  - intros text v st E Hne Hp.
    unfold handleToolCall, bind, lift.
    rewrite (Hparse _ E) by done. by rewrite (JSON_parse_not_json _ Hp).
Qed.

End ArgumentFacts.

(** ** Stars over a character class *)

Lemma star_greedy_chars p k fuel : forall pos s cs,
  String.length s <= fuel ->
  star_match (rmatch (RChar p)) true k fuel pos s cs = greedy_chars p k pos s cs.
Proof.
  induction fuel as [|fuel IH]; intros pos s cs Hlen.
  - destruct s; [done|cbn in Hlen; lia].
  - cbn [star_match rmatch]. destruct s as [|c s]; [done|]. cbn [greedy_chars].
    destruct (p c); [|done].
    destruct (Nat.eqb_spec (S pos) pos) as [|_]; [lia|].
    rewrite IH by (cbn in Hlen; lia). done.
Qed.

Lemma star_lazy_chars p k fuel : forall pos s cs,
  String.length s <= fuel ->
  star_match (rmatch (RChar p)) false k fuel pos s cs = lazy_chars p k pos s cs.
Proof.
  induction fuel as [|fuel IH]; intros pos s cs Hlen.
  - destruct s; [|cbn in Hlen; lia]. cbn. by destruct (k pos "" cs).
  - cbn [star_match rmatch]. destruct s as [|c s]; cbn [lazy_chars]; [done|].
    destruct (k pos (String c s) cs); [done|].
    destruct (p c); [|done].
    destruct (Nat.eqb_spec (S pos) pos) as [|_]; [lia|].
    by rewrite IH by (cbn in Hlen; lia).
Qed.

Lemma rmatch_star_greedy p pos s cs k :
  rmatch (RStar true (RChar p)) pos s cs k = greedy_chars p k pos s cs.
Proof. cbn [rmatch]. by apply star_greedy_chars. Qed.

Lemma rmatch_star_lazy p pos s cs k :
  rmatch (RStar false (RChar p)) pos s cs k = lazy_chars p k pos s cs.
Proof. cbn [rmatch]. by apply star_lazy_chars. Qed.

Lemma rmatch_plus_chars p pos s cs k :
  rmatch (plus (RChar p)) pos s cs k =
  match s with
  | String c s' => if p c then greedy_chars p k (S pos) s' cs else None
  | EmptyString => None
  end.
Proof.
  unfold plus. cbn [rmatch]. destruct s as [|c s]; [done|].
  destruct (p c); [|done]. by apply star_greedy_chars.
Qed.

Lemma greedy_chars_run p k a : forall pos b cs m,
  str_all p a = true -> stops p b ->
  k (pos + String.length a) b cs = Some m ->
  greedy_chars p k pos (a +:+ b) cs = Some m.
Proof.
  induction a as [|x a IH]; intros pos b cs m Ha Hb Hk.
  - cbn in Hk. rewrite Nat.add_0_r in Hk. change ("" +:+ b) with b.
    destruct b as [|c t]; cbn [greedy_chars]; [done|]. cbn in Hb. by rewrite Hb.
  - cbn in Ha. apply andb_prop in Ha as [Hx Ha].
    change (String x a +:+ b) with (String x (a +:+ b)). cbn [greedy_chars]. rewrite Hx.
    rewrite (IH (S pos) b cs m); try done.
    by replace (S pos + String.length a) with (pos + String.length (String x a))
      by (cbn; lia).
Qed.

Lemma greedy_chars_run_none p k a : forall pos b cs,
  str_all p a = true -> stops p b ->
  (forall a1 a2, a = a1 +:+ a2 -> k (pos + String.length a1) (a2 +:+ b) cs = None) ->
  greedy_chars p k pos (a +:+ b) cs = None.
Proof.
  induction a as [|x a IH]; intros pos b cs Ha Hb Hk.
  - specialize (Hk "" "" eq_refl). cbn in Hk. rewrite Nat.add_0_r in Hk.
    change ("" +:+ b) with b in *.
    destruct b as [|c t]; cbn [greedy_chars]; [done|]. cbn in Hb. by rewrite Hb.
  - cbn in Ha. apply andb_prop in Ha as [Hx Ha].
    change (String x a +:+ b) with (String x (a +:+ b)). cbn [greedy_chars]. rewrite Hx.
    rewrite (IH (S pos) b cs); try done.
    + specialize (Hk "" (String x a) eq_refl). cbn in Hk. by rewrite Nat.add_0_r in Hk.
    + intros a1 a2 ->. specialize (Hk (String x a1) a2 eq_refl).
      by replace (S pos + String.length a1) with (pos + String.length (String x a1))
        by (cbn; lia).
Qed.

Lemma lazy_chars_first p k a : forall pos b cs m,
  str_all p a = true ->
  (forall a1 a2, a = a1 +:+ a2 -> a2 <> "" ->
     k (pos + String.length a1) (a2 +:+ b) cs = None) ->
  k (pos + String.length a) b cs = Some m ->
  lazy_chars p k pos (a +:+ b) cs = Some m.
Proof.
  induction a as [|x a IH]; intros pos b cs m Ha Hnone Hk.
  - cbn in Hk. rewrite Nat.add_0_r in Hk. change ("" +:+ b) with b.
    destruct b; cbn [lazy_chars]; by rewrite Hk.
  - cbn in Ha. apply andb_prop in Ha as [Hx Ha].
    change (String x a +:+ b) with (String x (a +:+ b)). cbn [lazy_chars].
    pose proof (Hnone "" (String x a) eq_refl) as H0. cbn in H0.
    rewrite Nat.add_0_r in H0. change (String x a +:+ b) with (String x (a +:+ b)) in H0.
    rewrite H0 by done. rewrite Hx.
    apply IH; try done.
    + intros a1 a2 -> Hne. specialize (Hnone (String x a1) a2 eq_refl Hne).
      by replace (S pos + String.length a1) with (pos + String.length (String x a1))
        by (cbn; lia).
    + by replace (S pos + String.length a) with (pos + String.length (String x a))
        by (cbn; lia).
Qed.

(** ** Searching *)

Lemma search_from_skip r a : forall pos b,
  (forall a1 a2, a = a1 +:+ a2 -> a2 <> "" ->
     match_at r (pos + String.length a1) (a2 +:+ b) = None) ->
  search_from r pos (a +:+ b) = search_from r (pos + String.length a) b.
Proof.
  induction a as [|x a IH]; intros pos b Hnone.
  - cbn. by rewrite Nat.add_0_r.
  - change (String x a +:+ b) with (String x (a +:+ b)). cbn [search_from].
    pose proof (Hnone "" (String x a) eq_refl) as H0. cbn in H0.
    rewrite Nat.add_0_r in H0. change (String x a +:+ b) with (String x (a +:+ b)) in H0.
    rewrite H0 by done.
    rewrite IH.
    + f_equal. cbn. lia.
    + intros a1 a2 -> Hne. specialize (Hnone (String x a1) a2 eq_refl Hne).
      by replace (S pos + String.length a1) with (pos + String.length (String x a1))
        by (cbn; lia).
Qed.

Lemma search_from_here r pos s m :
  match_at r pos s = Some m -> search_from r pos s = Some (pos, m).
Proof. intros H. destruct s; cbn [search_from]; by rewrite H. Qed.

Lemma search_from_none r s : forall pos,
  (forall a1 a2 pos', s = a1 +:+ a2 -> match_at r pos' a2 = None) ->
  search_from r pos s = None.
Proof.
  induction s as [|x s IH]; intros pos Hnone.
  - cbn. by rewrite (Hnone "" "" pos eq_refl).
  - cbn [search_from]. rewrite (Hnone "" (String x s) pos eq_refl).
    apply IH. intros a1 a2 pos' ->. by apply (Hnone (String x a1) a2 pos').
Qed.

(** ** Literals under the [i] flag *)

Lemma toLowerCase_app a b : toLowerCase (a +:+ b) = toLowerCase a +:+ toLowerCase b.
Proof.
  induction a as [|c a IH]; [done|].
  change (String c a +:+ b) with (String c (a +:+ b)). cbn [toLowerCase]. by rewrite IH.
Qed.

Lemma toLowerCase_length s : String.length (toLowerCase s) = String.length s.
Proof. induction s as [|c s IH]; [done|]. cbn. by rewrite IH. Qed.

Lemma drop_app a b : drop (String.length a) (a +:+ b) = b.
Proof. induction a as [|c a IH]; [by destruct b|]. done. Qed.

Lemma rmatch_lit_i w : forall pos s cs k,
  rmatch (lit_i w) pos s cs k =
  if startsWith w (toLowerCase s) then k (pos + String.length w) (drop (String.length w) s) cs
  else None.
Proof.
  induction w as [|c w IH]; intros pos s cs k; cbn [lit_i rmatch].
  - rewrite Nat.add_0_r. by destruct s.
  - unfold chr_i at 1. cbn [rmatch]. destruct s as [|d s]; [done|].
    cbn [toLowerCase startsWith]. rewrite (Ascii.eqb_sym c).
    destruct (Ascii.eqb (lower_char d) c); [|done].
    rewrite IH. cbn [String.length drop].
    by replace (S pos + String.length w) with (pos + S (String.length w)) by lia.
Qed.

(** A pattern that starts with a literal finds nothing in a text that does
    not hold the literal. *)
Lemma search_lit_i_none w r s pos :
  includes w (toLowerCase s) = false ->
  search_from (RSeq (lit_i w) r) pos s = None.
Proof.
  intros Hinc. apply search_from_none. intros a1 a2 pos' ->.
  unfold match_at. cbn [rmatch]. rewrite rmatch_lit_i.
  destruct (startsWith w (toLowerCase a2)) eqn:E; [|done].
  rewrite toLowerCase_app in Hinc.
  apply startsWith_spec in E as [t E].
  assert (includes w (toLowerCase a1 +:+ toLowerCase a2) = true); [|congruence].
  apply includes_spec. exists (toLowerCase a1), t. by rewrite E.
Qed.

Lemma search_bol_none r s :
  match_at (RSeq RBol r) 0 s = None -> search_from (RSeq RBol r) 0 s = None.
Proof.
  intros H. destruct s as [|c s]; cbn [search_from]; rewrite H; [done|].
  apply search_bol_later.
Qed.

(** ** White space at the ends of a text *)

Lemma str_all_rev_onto p s acc :
  str_all p (str_rev_onto s acc) = str_all p s && str_all p acc.
Proof.
  revert acc. induction s as [|c s IH]; intros acc; [done|].
  cbn [str_rev_onto str_all]. rewrite IH. cbn [str_all].
  by destruct (p c), (str_all p s), (str_all p acc).
Qed.

Lemma str_all_rev p s : str_all p (str_rev s) = str_all p s.
Proof. unfold str_rev. rewrite str_all_rev_onto. cbn. by rewrite andb_true_r. Qed.

Lemma length_str_rev s : String.length (str_rev s) = String.length s.
Proof.
  induction s as [|c s IH]; [done|].
  rewrite str_rev_cons, length_append, IH. cbn. lia.
Qed.

Lemma length_trimStart s : String.length (trimStart s) <= String.length s.
Proof.
  induction s as [|c s IH]; [done|]. cbn [trimStart].
  destruct (is_space c); cbn; lia.
Qed.

Lemma length_trimEnd s : String.length (trimEnd s) <= String.length s.
Proof.
  unfold trimEnd. rewrite length_str_rev.
  etrans; [apply length_trimStart|]. by rewrite length_str_rev.
Qed.

Lemma trimStart_spaces w s : str_all is_space w = true -> trimStart (w +:+ s) = trimStart s.
Proof.
  induction w as [|c w IH]; [done|]. cbn. intros [Hc Hw]%andb_prop.
  change (String c w +:+ s) with (String c (w +:+ s)). cbn [trimStart]. rewrite Hc. auto.
Qed.

Lemma trimEnd_spaces a w : str_all is_space w = true -> trimEnd (a +:+ w) = trimEnd a.
Proof.
  intros Hw. unfold trimEnd. rewrite str_rev_app, trimStart_spaces; [done|].
  by rewrite str_all_rev.
Qed.

(** A text that trimming leaves alone starts with no white space, and none
    of its ends is white space only. *)
Lemma trim_fixed_head c t : trim (String c t) = String c t -> is_space c = false.
Proof.
  intros H. destruct (is_space c) eqn:E; [|done].
  apply (f_equal String.length) in H. unfold trim in H. cbn [trimStart] in H.
  rewrite E in H. pose proof (length_trimEnd (trimStart t)).
  pose proof (length_trimStart t). cbn in H. lia.
Qed.

Lemma trim_fixed_tail a1 a2 :
  trim (a1 +:+ a2) = a1 +:+ a2 -> a2 <> "" -> str_all is_space a2 = false.
Proof.
  intros H Hne. destruct (str_all is_space a2) eqn:E; [|done].
  assert (Hend : trimEnd (a1 +:+ a2) = a1 +:+ a2).
  { destruct (a1 +:+ a2) as [|c t] eqn:Es; [done|].
    pose proof (trim_fixed_head _ _ H) as Hc. unfold trim in H. cbn [trimStart] in H.
    by rewrite Hc in H. }
  rewrite trimEnd_spaces in Hend by done.
  apply (f_equal String.length) in Hend. rewrite length_append in Hend.
  pose proof (length_trimEnd a1). destruct a2; [done|]. cbn in Hend. lia.
Qed.

(** The longest run of [p] at the start of a text. *)
Lemma run_split p s :
  exists w r, s = w +:+ r /\ str_all p w = true /\ stops p r.
Proof.
  induction s as [|c s (w & r & -> & Hw & Hr)].
  - by exists "", "".
  - destruct (p c) eqn:Hc.
    + exists (String c w), r. split_and!; [done| |done]. cbn. by rewrite Hc.
    + by exists "", (String c (w +:+ r)).
Qed.

Lemma str_all_app_r p a b : str_all p (a +:+ b) = true -> str_all p b = true.
Proof. rewrite str_all_app. by intros [_ ?]%andb_prop. Qed.

Lemma slice0_app a b : slice0 (String.length a) (a +:+ b) = a.
Proof.
  induction a as [|c a IH]; [by destruct b|].
  change (String c a +:+ b) with (String c (a +:+ b)). cbn. by rewrite IH.
Qed.

(** ** The fence pattern *)

Lemma startsWith_head w x c t :
  Ascii.eqb x c = false -> startsWith (String x w) (String c t) = false.
Proof. cbn. by intros ->. Qed.

Lemma fence_needs_backquote s pos :
  match s with String c _ => not_backquote c = true | EmptyString => True end ->
  match_at re_fence pos s = None.
Proof.
  intros H. unfold match_at, re_fence. cbn [rmatch]. rewrite rmatch_lit.
  destruct s as [|c t]; [done|]. rewrite startsWith_head; [done|].
  unfold not_backquote in H. rewrite Ascii.eqb_sym. by destruct (Ascii.eqb c "`").
Qed.

Lemma closing_fence_here ws2 post pos cs :
  str_all is_space ws2 = true ->
  rmatch (RSeq spaces (lit "```")) pos (ws2 +:+ "```" +:+ post) cs accept
  = Some (pos + String.length ws2 + 3, post, cs).
Proof.
  intros Hws. unfold spaces. cbn [rmatch].
  change (star_match _ _ _ _ _ _ _) with
    (rmatch (RStar true (RChar is_space)) pos (ws2 +:+ "```" +:+ post) cs
       (fun pos' s' cs' => rmatch (lit "```") pos' s' cs' accept)).
  rewrite rmatch_star_greedy.
  apply greedy_chars_run; [done|done|].
  rewrite rmatch_lit. by rewrite startsWith_app, (drop_app "```").
Qed.

Lemma closing_fence_later w e u pos cs :
  str_all is_space w = true -> is_space e = false -> not_backquote e = true ->
  rmatch (RSeq spaces (lit "```")) pos (w +:+ String e u) cs accept = None.
Proof.
  intros Hw He Hb. unfold spaces. cbn [rmatch].
  change (star_match _ _ _ _ _ _ _) with
    (rmatch (RStar true (RChar is_space)) pos (w +:+ String e u) cs
       (fun pos' s' cs' => rmatch (lit "```") pos' s' cs' accept)).
  rewrite rmatch_star_greedy.
  apply greedy_chars_run_none; [done|done|].
  intros w1 w2 ->. rewrite rmatch_lit.
  assert (startsWith "```" (w2 +:+ String e u) = false) as ->; [|done].
  destruct w2 as [|x w2].
  - apply startsWith_head. unfold not_backquote in Hb. rewrite Ascii.eqb_sym.
    by destruct (Ascii.eqb e "`").
  - apply startsWith_head. apply str_all_app_r in Hw. cbn in Hw.
    apply andb_prop in Hw as [Hx _]. by destruct (Ascii.eqb_spec "`" x) as [<-|].
Qed.

Lemma space_not_j c : is_space c = true -> Ascii.eqb "j" (lower_char c) = false.
Proof. destruct c as [[] [] [] [] [] [] [] []]; by vm_compute. Qed.

Lemma lower_j c : Ascii.eqb "j" (lower_char c) = true -> c = "j"%char \/ c = "J"%char.
Proof.
  destruct c as [[] [] [] [] [] [] [] []]; vm_compute; intros H; try done; auto.
Qed.

Lemma parse_head_not_j c t v :
  Json.parse (String c t) = Some v -> Ascii.eqb "j" (lower_char c) = false.
Proof.
  intros H. destruct (Ascii.eqb "j" (lower_char c)) eqn:E; [|done].
  apply lower_j in E. unfold Json.parse, Json.parse_text in H. cbn [String.length] in H.
  replace (2 * S (String.length t) + 2) with (S (S (S (S (2 * String.length t))))) in H
    by lia.
  by destruct E as [-> | ->].
Qed.

(** What the fence pattern finds at a fence: the text between the white
    space after the opening and the white space before the closing. *)
Lemma match_fence_here tag ws1 body ws2 post pos :
  tag = "" \/ toLowerCase tag = "json" ->
  (tag = "" ->
   forall c t, ws1 +:+ body = String c t -> Ascii.eqb "j" (lower_char c) = false) ->
  str_all is_space ws1 = true -> str_all is_space ws2 = true ->
  trim body = body -> body <> "" -> str_all not_backquote body = true ->
  exists e,
    match_at re_fence pos
      ("```" +:+ tag +:+ ws1 +:+ body +:+ ws2 +:+ "```" +:+ post)
    = Some (e, post, [(1, body)]).
Proof.
  intros Htag Hj Hws1 Hws2 Htrim Hne Hbq.
  set (R := ws2 +:+ "```" +:+ post).
  (* the group and the closing fence, from the start of the body *)
  assert (Hgroup : forall p0,
    rmatch (RSeq (RGroup 1 (RStar false any_char)) (RSeq spaces (lit "```")))
      p0 (body +:+ R) [] accept
    = Some (p0 + String.length body + String.length ws2 + 3, post, [(1, body)])).
  { intros p0. cbn [rmatch].
    change (star_match _ _ _ _ _ _ _) with
      (rmatch (RStar false any_char) p0 (body +:+ R) []
         (fun pos' s' cs' =>
            rmatch (RSeq spaces (lit "```")) pos' s'
              ((1, slice0 (pos' - p0) (body +:+ R)) :: cs') accept)).
    unfold any_char. rewrite rmatch_star_lazy.
    apply lazy_chars_first.
    - clear. induction body as [|c s IH]; [done|exact IH].
    - intros a1 a2 Hsplit Ha2.
      destruct (run_split is_space a2) as (w & r & -> & Hw & Hr).
      destruct r as [|e u].
      { rewrite append_nil_r in *. rewrite Hsplit in Htrim.
        pose proof (trim_fixed_tail _ _ Htrim Ha2). congruence. }
      cbn in Hr. rewrite append_assoc.
      change (String e u +:+ R) with (String e (u +:+ R)).
      apply closing_fence_later; [done|done|].
      rewrite Hsplit in Hbq. apply str_all_app_r, str_all_app_r in Hbq.
      cbn in Hbq. by apply andb_prop in Hbq as [? _].
    - replace (p0 + String.length body - p0) with (String.length body) by lia.
      rewrite slice0_app. unfold R. by rewrite closing_fence_here. }
  (* the white space after the tag *)
  assert (Hspaces : forall p0,
    rmatch (RSeq spaces
              (RSeq (RGroup 1 (RStar false any_char)) (RSeq spaces (lit "```"))))
      p0 (ws1 +:+ body +:+ R) [] accept
    = Some (p0 + String.length ws1 + String.length body + String.length ws2 + 3,
            post, [(1, body)])).
  { intros p0. unfold spaces at 1.
    change (rmatch (RSeq (RStar true (RChar is_space)) ?r) p0 ?s [] accept)
      with (rmatch (RStar true (RChar is_space)) p0 s []
              (fun pos' s' cs' => rmatch r pos' s' cs' accept)).
    rewrite rmatch_star_greedy. apply greedy_chars_run; [done| |by rewrite Hgroup].
    destruct body as [|c t]; [done|]. cbn. by apply trim_fixed_head in Htrim. }
  exists (pos + 3 + String.length tag + String.length ws1 + String.length body
          + String.length ws2 + 3).
  unfold match_at, re_fence.
  change (rmatch (RSeq (lit "```") ?r) pos ?s [] accept)
    with (rmatch (lit "```") pos s [] (fun pos' s' cs' => rmatch r pos' s' cs' accept)).
  rewrite rmatch_lit, startsWith_app, (drop_app "```").
  change (rmatch (RSeq (opt (lit_i "json")) ?r) ?p ?s [] accept)
    with (match rmatch (lit_i "json") p s []
                  (fun pos' s' cs' => rmatch r pos' s' cs' accept) with
          | Some m => Some m
          | None => rmatch r p s [] accept
          end).
  rewrite rmatch_lit_i.
  destruct Htag as [-> | Hjson].
  - change ("" +:+ ?x) with x. specialize (Hj eq_refl).
    rewrite <- append_assoc, toLowerCase_app.
    assert (startsWith "json" (toLowerCase (ws1 +:+ body) +:+ toLowerCase R) = false) as ->.
    { destruct (ws1 +:+ body) as [|c t] eqn:E.
      - apply (f_equal String.length) in E.
        rewrite length_append in E. destruct body; [done|].
        cbn in E. lia.
      - cbn [toLowerCase]. change (String ?x ?y +:+ ?z) with (String x (y +:+ z)).
        cbn [startsWith]. by rewrite (Hj c t eq_refl). }
    rewrite append_assoc. rewrite Hspaces. do 3 f_equal; cbn [String.length]; lia.
  - rewrite toLowerCase_app, Hjson, startsWith_app.
    assert (String.length tag = 4) as Hlen.
    { by rewrite <- toLowerCase_length, Hjson. }
    change (String.length "json") with 4. rewrite <- Hlen, drop_app.
    rewrite Hspaces. do 3 f_equal; cbn [String.length]; lia.
Qed.

(** X11: [safeParsePlan] finds a fenced plan inside a longer text.  Let a
    text that is not itself JSON hold, after a part without backquotes, a
    fence: three backquotes, optionally the tag [json] in any case, white
    space, a JSON text without backquotes, white space, three backquotes.
    Then [safeParsePlan] returns the value of that JSON text, whatever
    follows the fence.  A text that is not JSON and holds no backquote at
    all fails with the error of the missing fence, not with the syntax
    error of [JSON.parse]. *)
Theorem safeParsePlan_finds_the_fence :
  (forall pre tag ws1 body ws2 post v,
     let content :=
       pre +:+ "```" +:+ tag +:+ ws1 +:+ body +:+ ws2 +:+ "```" +:+ post in
     Json.is_json content = false ->
     str_all not_backquote pre = true ->
     tag = "" \/ toLowerCase tag = "json" ->
     str_all is_space ws1 = true -> str_all is_space ws2 = true ->
     trim body = body -> str_all not_backquote body = true ->
     Json.parse body = Some v ->
     safeParsePlan content = Ok v)
  /\ (forall content,
        Json.is_json content = false -> str_all not_backquote content = true ->
        safeParsePlan content = Throw NoCodeFence).
Proof.
  split.
  - intros pre tag ws1 body ws2 post v content Hnot Hpre Htag Hws1 Hws2 Htrim Hbq Hv.
    assert (Hne : body <> "") by (by intros ->).
    rewrite (safeParsePlan_not_json _ Hnot). unfold match_group.
    subst content. rewrite search_from_skip.
    + destruct (match_fence_here tag ws1 body ws2 post (0 + String.length pre))
        as (e & He); try done.
      { intros _ c t E. destruct ws1 as [|x ws1].
        - change ("" +:+ body) with body in E. subst body.
          by apply parse_head_not_j in Hv.
        - injection E as -> _. cbn in Hws1. apply andb_prop in Hws1 as [Hx _].
          by apply space_not_j. }
      rewrite (search_from_here _ _ _ _ He). cbn [capture Nat.eqb].
      destruct (String.eqb_spec body "") as [|_]; [done|]. cbn [negb].
      unfold JSON_parse. by rewrite Hv.
    + intros a1 a2 -> Ha2. apply fence_needs_backquote.
      destruct a2 as [|c t]; [done|].
      change (String c t +:+ ?x) with (String c (t +:+ x)).
      apply str_all_app_r in Hpre. cbn in Hpre. by apply andb_prop in Hpre as [? _].
  - intros content Hnot Hbq. rewrite (safeParsePlan_not_json _ Hnot).
    unfold match_group. rewrite search_from_none; [done|].
    intros a1 a2 pos' ->. apply fence_needs_backquote.
    apply str_all_app_r in Hbq. destruct a2 as [|c t]; [done|].
    cbn in Hbq. by apply andb_prop in Hbq as [? _].
Qed.

(** ** Replacing the runs of a character class *)

Lemma replace_all_skip r rep w : forall rest pos,
  replace_all_from r rep (String.length w) pos (w +:+ rest)
  = replace_all_from r rep 0 (pos + String.length w) rest.
Proof.
  induction w as [|c w IH]; intros rest pos.
  - cbn [String.length]. by rewrite Nat.add_0_r.
  - change (String c w +:+ rest) with (String c (w +:+ rest)).
    cbn [String.length replace_all_from]. rewrite IH. f_equal. lia.
Qed.

Lemma greedy_chars_accept p w r pos :
  str_all p w = true -> stops p r ->
  greedy_chars p accept pos (w +:+ r) [] = Some (pos + String.length w, r, []).
Proof. intros Hw Hr. by apply greedy_chars_run. Qed.

Lemma squeeze_run p rep w : forall r,
  str_all p w = true -> stops p r ->
  squeeze p rep true (w +:+ r) = squeeze p rep false r.
Proof.
  induction w as [|c w IH]; intros r Hw Hr.
  - change ("" +:+ r) with r. destruct r as [|e u]; [done|]. cbn in Hr.
    cbn [squeeze]. by rewrite Hr.
  - cbn in Hw. apply andb_prop in Hw as [Hc Hw].
    change (String c w +:+ r) with (String c (w +:+ r)). cbn [squeeze]. rewrite Hc.
    by apply IH.
Qed.

(** A global replacement of [p+] replaces each run of [p] once. *)
Lemma replace_all_runs p rep n : forall s pos,
  String.length s <= n ->
  replace_all_from (plus (RChar p)) rep 0 pos s = squeeze p rep false s.
Proof.
  induction n as [|n IH]; intros s pos Hlen.
  - destruct s; [|cbn in Hlen; lia]. cbn [replace_all_from squeeze].
    unfold match_at. by rewrite rmatch_plus_chars.
  - destruct s as [|c s]; cbn [replace_all_from squeeze].
    { unfold match_at. by rewrite rmatch_plus_chars. }
    unfold match_at. rewrite rmatch_plus_chars.
    destruct (p c) eqn:Hc.
    + destruct (run_split p s) as (w & r & -> & Hw & Hr).
      rewrite greedy_chars_accept by done.
      destruct (Nat.eqb_spec (S pos + String.length w) pos) as [|_]; [lia|].
      replace (S pos + String.length w - pos - 1) with (String.length w) by lia.
      rewrite replace_all_skip, squeeze_run by done.
      rewrite IH; [done|]. cbn in Hlen. rewrite length_append in Hlen. lia.
    + rewrite IH; [done|]. cbn in Hlen. lia.
Qed.

Lemma replace_all_squeeze p rep s :
  replace_all (plus (RChar p)) rep s = squeeze p rep false s.
Proof. unfold replace_all. by apply (replace_all_runs p rep (String.length s)). Qed.

(** A global replacement changes nothing where the pattern matches
    nowhere. *)
Lemma replace_all_nowhere r rep s : forall pos,
  (forall a1 a2 pos', s = a1 +:+ a2 -> match_at r pos' a2 = None) ->
  replace_all_from r rep 0 pos s = s.
Proof.
  induction s as [|c s IH]; intros pos Hnone; cbn [replace_all_from].
  - by rewrite (Hnone "" "" pos eq_refl).
  - rewrite (Hnone "" (String c s) pos eq_refl). f_equal.
    apply IH. intros a1 a2 pos' ->. by apply (Hnone (String c a1) a2 pos').
Qed.

(** What is left after the replacement of the runs by one character of
    the class: that character and the characters outside the class, and no
    two characters of the class side by side. *)
Lemma squeeze_chars p d inside s :
  str_all (fun c => negb (p c) || Ascii.eqb c d) (squeeze p (String d "") inside s) = true.
Proof.
  revert inside. induction s as [|c s IH]; intros inside; [done|]. cbn [squeeze].
  destruct (p c) eqn:Hc.
  - destruct inside; [apply IH|].
    change (String d "" +:+ ?x) with (String d x). cbn [str_all].
    by rewrite Ascii.eqb_refl, orb_true_r, IH.
  - cbn [str_all]. by rewrite Hc, IH.
Qed.

Lemma squeeze_no_pair p d inside s :
  p d = true ->
  no_pair p (squeeze p (String d "") inside s) = true
  /\ (inside = true -> stops p (squeeze p (String d "") inside s)).
Proof.
  intros Hd. revert inside. induction s as [|c s IH]; intros inside; [done|].
  cbn [squeeze]. destruct (p c) eqn:Hc.
  - destruct (IH true) as [IH1 IH2]. destruct inside; [by split|].
    split; [|done]. change (String d "" +:+ ?x) with (String d x).
    specialize (IH2 eq_refl).
    destruct (squeeze p (String d "") true s) as [|e u]; [done|].
    cbn in IH2.
    change (no_pair p (String d (String e u)))
      with (negb (p d && p e) && no_pair p (String e u)).
    by rewrite IH2, andb_false_r, IH1.
  - destruct (IH false) as [IH1 _]. split; [|by intros _; cbn].
    destruct (squeeze p (String d "") false s) as [|e u] eqn:E; [done|].
    change (no_pair p (String c (String e u)))
      with (negb (p c && p e) && no_pair p (String e u)).
    by rewrite Hc, IH1.
Qed.

(** ** Parts of a text *)

Lemma no_pair_app_l p a b : no_pair p (a +:+ b) = true -> no_pair p a = true.
Proof.
  induction a as [|x a IH]; [done|].
  destruct a as [|y a]; [done|].
  change (String x (String y a) +:+ b) with (String x (String y (a +:+ b))).
  change (no_pair p (String x (String y (a +:+ b))))
    with (negb (p x && p y) && no_pair p (String y a +:+ b)).
  change (no_pair p (String x (String y a)))
    with (negb (p x && p y) && no_pair p (String y a)).
  intros [H1 H2]%andb_prop. rewrite H1. by apply IH.
Qed.

Lemma no_pair_app_r p a b : no_pair p (a +:+ b) = true -> no_pair p b = true.
Proof.
  induction a as [|x a IH]; [done|].
  change (String x a +:+ b) with (String x (a +:+ b)). intros H. apply IH.
  destruct (a +:+ b) as [|y t]; [done|].
  change (no_pair p (String x (String y t)))
    with (negb (p x && p y) && no_pair p (String y t)) in H.
  by apply andb_prop in H as [_ ?].
Qed.

Lemma str_all_app_l p a b : str_all p (a +:+ b) = true -> str_all p a = true.
Proof. rewrite str_all_app. by intros [? _]%andb_prop. Qed.

Lemma trimStart_suffix s :
  exists w, s = w +:+ trimStart s /\ str_all is_space w = true /\ stops is_space (trimStart s).
Proof.
  induction s as [|c s (w & Hs & Hw & Hstop)]; [by exists ""|].
  cbn [trimStart]. destruct (is_space c) eqn:Hc.
  - exists (String c w). split_and!; [|by cbn; rewrite Hc|done].
    change (String c w +:+ ?x) with (String c (w +:+ x)). by rewrite <- Hs.
  - exists "". by split_and!.
Qed.

Lemma trimEnd_prefix s : exists w, s = trimEnd s +:+ w /\ str_all is_space w = true.
Proof.
  destruct (trimStart_suffix (str_rev s)) as (w & Hs & Hw & _).
  exists (str_rev w). split; [|by rewrite str_all_rev].
  unfold trimEnd. rewrite <- str_rev_app, <- Hs. by rewrite str_rev_involutive.
Qed.

Lemma slice0_prefix n s : s = slice0 n s +:+ drop n s.
Proof.
  revert n. induction s as [|c s IH]; intros [|n]; try done.
  cbn [slice0 drop]. change (String c ?a +:+ ?b) with (String c (a +:+ b)).
  by rewrite <- IH.
Qed.

Lemma slice0_short n s : String.length s <= n -> slice0 n s = s.
Proof.
  revert n. induction s as [|c s IH]; intros [|n] H; try done; cbn in H; [lia|].
  cbn. rewrite IH; [done|lia].
Qed.

Lemma stops_app_l p a b : a <> "" -> stops p (a +:+ b) -> stops p a.
Proof. by destruct a. Qed.

(** ** The content of a page *)

Lemma blank_lines_need_newline s pos :
  match s with String c _ => Ascii.eqb newline c = false | EmptyString => True end ->
  match_at re_blank_lines pos s = None.
Proof.
  intros H. unfold match_at, re_blank_lines, chr. cbn [rmatch].
  destruct s as [|c t]; [done|]. by rewrite H.
Qed.

Lemma tidy_content_squeeze mainContent :
  tidy_content mainContent
  = slice0 (8 * 1000) (trim (squeeze is_space " " false mainContent)).
Proof.
  unfold tidy_content, re_spaces_run. rewrite replace_all_squeeze.
  unfold replace_all. rewrite replace_all_nowhere; [done|].
  intros a1 a2 pos' Hsplit. apply blank_lines_need_newline.
  destruct a2 as [|c t]; [done|].
  pose proof (squeeze_chars is_space " " false mainContent) as Hc.
  rewrite Hsplit in Hc. apply str_all_app_r in Hc. cbn [str_all] in Hc.
  apply andb_prop in Hc as [Hc _].
  destruct (Ascii.eqb_spec newline c) as [<-|]; [|done]. by vm_compute in Hc.
Qed.

(** X12: the text [getIntelligentPageContent] hands to the model is
    tidy.  It has at most 8000 characters; the only white space in it is
    the plain space, no tab, line break or no-break space; no two spaces
    stand side by side; and it does not start with a space.  It is the
    text of the page with every run of white space made one space, trimmed
    and cut; the second replacement of the chain, for blank lines, never
    changes anything, since no line break is left for it; and a text
    shorter than the bound does not end with a space either. *)
Theorem tidy_content_is_tidy mainContent :
  let content := tidy_content mainContent in
  String.length content <= 8 * 1000
  /\ str_all (fun c => negb (is_space c) || Ascii.eqb c " ") content = true
  /\ no_pair is_space content = true
  /\ stops is_space content
  /\ content = slice0 (8 * 1000) (trim (squeeze is_space " " false mainContent))
  /\ replace_all re_blank_lines (String newline "")
       (replace_all re_spaces_run " " mainContent)
     = replace_all re_spaces_run " " mainContent
  /\ (String.length content < 8 * 1000 -> stops is_space (str_rev content)).
Proof.
  intros content. subst content. rewrite tidy_content_squeeze.
  set (t1 := squeeze is_space " " false mainContent).
  pose proof (squeeze_chars is_space " " false mainContent) as Hchars. fold t1 in Hchars.
  destruct (squeeze_no_pair is_space " " false mainContent eq_refl) as [Hpair _].
  fold t1 in Hpair.
  destruct (trimStart_suffix t1) as (w1 & H1 & Hw1 & Hstop1).
  destruct (trimEnd_prefix (trimStart t1)) as (w2 & H2 & Hw2).
  fold (trim t1) in H2.
  assert (Htrim_chars : str_all (fun c => negb (is_space c) || Ascii.eqb c " ") (trim t1)
                        = true).
  { rewrite H1, H2 in Hchars. by apply str_all_app_r, str_all_app_l in Hchars. }
  assert (Htrim_pair : no_pair is_space (trim t1) = true).
  { rewrite H1, H2 in Hpair. by apply no_pair_app_r, no_pair_app_l in Hpair. }
  assert (Htrim_stop : stops is_space (trim t1)).
  { destruct (trim t1) as [|c t] eqn:E; [done|].
    rewrite H2 in Hstop1. by destruct (trim t1). }
  assert (Htrim_end : stops is_space (str_rev (trim t1))).
  { unfold trim, trimEnd. rewrite str_rev_involutive.
    by destruct (trimStart_suffix (str_rev (trimStart t1))) as (? & _ & _ & ?). }
  pose proof (slice0_prefix (8 * 1000) (trim t1)) as Hcut.
  split_and!.
  - apply (slice0_length (8 * 1000)).
  - rewrite Hcut in Htrim_chars. by apply str_all_app_l in Htrim_chars.
  - rewrite Hcut in Htrim_pair. by apply no_pair_app_l in Htrim_pair.
  - destruct (slice0 (8 * 1000) (trim t1)) as [|c t] eqn:E; [done|].
    rewrite Hcut in Htrim_stop. by destruct (slice0 (8 * 1000) (trim t1)).
  - done.
  - unfold re_spaces_run. rewrite replace_all_squeeze. fold t1.
    unfold replace_all. rewrite replace_all_nowhere; [done|].
    intros a1 a2 pos' Hsplit. apply blank_lines_need_newline.
    destruct a2 as [|c t]; [done|].
    rewrite Hsplit in Hchars. apply str_all_app_r in Hchars. cbn [str_all] in Hchars.
    apply andb_prop in Hchars as [Hc _].
    destruct (Ascii.eqb_spec newline c) as [<-|]; [|done]. by vm_compute in Hc.
  - intros Hshort.
    destruct (decide (String.length (trim t1) <= 8 * 1000)) as [Hle|Hgt].
    + by rewrite slice0_short.
    + exfalso. revert Hshort Hgt. generalize (trim t1). intros s.
      assert (forall n s, n < String.length s -> String.length (slice0 n s) = n) as Hfull.
      { clear. induction n as [|n IH]; intros [|c s] H; cbn in *; try lia.
        rewrite IH; lia. }
      intros Hshort Hgt. rewrite Hfull in Hshort by lia. lia.
Qed.

(** ** What the navigator does to the outside world *)

Section WorldRelation.

Context {W : Type}.
Variable collab : Collaborators W.
Variable screenshotDir : string.
Variable join : string -> string -> string.
Variable plannerSystemPrompt : string.
Variable plannerUserPrompt : string -> string.

(** a relation between states of the world that every call of a
    collaborator respects *)
Variable R : W -> W -> Prop.
Hypothesis R_refl : forall w, R w w.
Hypothesis R_trans : forall w1 w2 w3, R w1 w2 -> R w2 w3 -> R w1 w3.
Hypothesis R_completion : forall messages w,
  R w (chat_completions_create collab messages w).2.
Hypothesis R_stagehand : forall n q w, R w (stagehand collab n q w).2.
Hypothesis R_stagehand_value : forall n v w, R w (stagehand_value collab n v w).2.
Hypothesis R_mkdir : forall path w, R w (fs_mkdir collab path w).2.
Hypothesis R_screenshot : forall path w, R w (page_screenshot collab path w).2.

Lemma handleToolCall_world tc v st :
  R (world st) (world (handleToolCall collab tc v st).2).
Proof using R_refl R_stagehand R_stagehand_value.
  unfold handleToolCall, bind, lift, ret.
  destruct (parse_arguments tc) as [args|e]; [|apply R_refl].
  destruct (bool_decide _).
  { destruct (validatePlan args); apply R_refl. }
  destruct (command_of _) as [cmd|]; [|apply R_refl].
  destruct (args_query args) as [q|e]; [|apply R_refl].
  destruct (has_text q); [|apply R_refl].
  cbv zeta. destruct (if is_read cmd then _ else _) as [hit|]; [apply R_refl|].
  rewrite invokeStagehand_any_run. cbn [snd world]. unfold provider_answer.
  destruct q; (apply R_stagehand || apply R_stagehand_value).
Qed.

Lemma handleToolCalls_world tcs : forall v st,
  R (world st) (world (handleToolCalls collab tcs v st).2).
Proof using R_refl R_trans R_stagehand R_stagehand_value.
  induction tcs as [|tc tcs IH]; intros v st; [apply R_refl|].
  cbn [handleToolCalls]. unfold bind.
  pose proof (handleToolCall_world tc v st) as H1.
  destruct (handleToolCall collab tc v st) as [[[p v1|v1]|e] st1]; try done.
  eapply R_trans; [exact H1|apply IH].
Qed.

Lemma plan_round_world v st : R (world st) (world (plan_round collab v st).2).
Proof using R_refl R_trans R_stagehand R_stagehand_value R_completion.
  unfold plan_round, bind at 1, await.
  pose proof (R_completion (messages v) (world st)) as H1.
  destruct (chat_completions_create collab (messages v) (world st)) as [reply w'].
  cbn in H1.
  destruct reply as [err|[msg|]]; try done.
  destruct (0 <? length _)%nat.
  - eapply R_trans; [exact H1|]. apply (handleToolCalls_world _ _ (Build_State w' _)).
  - destruct (content msg) as [text|]; [|done].
    destruct (0 <? String.length (trim text))%nat; [|done].
    unfold bind, lift, ret. destruct (safeParsePlan text) as [parsed|?]; [|done].
    by destruct (validatePlan parsed).
Qed.

Lemma plan_rounds_world n : forall v st,
  R (world st) (world (plan_rounds collab n v st).2).
Proof using R_refl R_trans R_stagehand R_stagehand_value R_completion.
  induction n as [|n IH]; intros v st; cbn [plan_rounds]; [apply R_refl|].
  unfold bind. pose proof (plan_round_world v st) as H1.
  destruct (plan_round collab v st) as [[[p v1|v1]|e] st1]; try done.
  eapply R_trans; [exact H1|apply IH].
Qed.

Lemma execute_from_world steps : forall i outputs st,
  R (world st) (world (execute_from collab screenshotDir join i steps outputs st).2).
Proof using R_refl R_trans R_stagehand R_screenshot.
  induction steps as [|step steps IH]; intros i outputs st; [apply R_refl|].
  cbn [execute_from]. unfold bind at 1. rewrite invokeStagehand_run. cbn zeta.
  unfold bind at 1.
  match goal with |- context [captureStepScreenshot _ _ _ _ _ ?s] =>
    destruct (captureStepScreenshot_run collab screenshotDir join (i + 1) step s)
      as (saved & shot & ->) end.
  cbn [world].
  eapply R_trans; [apply R_stagehand|].
  eapply R_trans; [apply R_screenshot|].
  match goal with |- context [execute_from _ _ _ _ _ ?o ?s] =>
    apply (IH (S i) o s) end.
Qed.

Lemma navigate_world task st :
  R (world st)
    (world (navigate collab screenshotDir join plannerSystemPrompt plannerUserPrompt
              task st).2).
Proof using R_refl R_trans R_stagehand R_stagehand_value R_completion R_mkdir R_screenshot.
  unfold navigate, bind at 1, plan.
  pose proof (plan_rounds_world 16
                (initial_vars plannerSystemPrompt plannerUserPrompt task) st) as H1.
  destruct (plan_rounds collab 16 _ st) as [[p|e] st1]; [|done].
  eapply R_trans; [exact H1|]. unfold bind at 1, execute, bind at 1, await.
  pose proof (R_mkdir screenshotDir (world st1)) as H2.
  destruct (fs_mkdir collab screenshotDir (world st1)) as [[err|[]] w'];
    cbn in H2; [done|].
  eapply R_trans; [exact H2|].
  pose proof (execute_from_world p 0 [] (Build_State w' (trace st1 ++ [EvMkdir screenshotDir (inr ())]))) as H3.
  cbn [world] in H3.
  by destruct (execute_from collab screenshotDir join 0 p [] _) as [[outs|e] st2].
Qed.

End WorldRelation.

(** ** The calls of the capability provider *)

Section ProviderFacts.

Context {W : Type}.
Variable b : Browser W.

Lemma log_grows_refl allowed (lw : Logged W) : log_grows allowed lw lw.
Proof. exists []. by rewrite app_nil_r. Qed.

Lemma log_grows_trans allowed (lw1 lw2 lw3 : Logged W) :
  log_grows allowed lw1 lw2 -> log_grows allowed lw2 lw3 -> log_grows allowed lw1 lw3.
Proof.
  intros (n1 & H1 & F1) (n2 & H2 & F2). exists (n1 ++ n2).
  split; [by rewrite H2, H1, app_assoc|by apply Forall_app].
Qed.

Lemma log_grows_weaken (allowed allowed' : Op -> bool) (lw lw' : Logged W) :
  (forall op, allowed op = true -> allowed' op = true) ->
  log_grows allowed lw lw' -> log_grows allowed' lw lw'.
Proof.
  intros Himp (new & H & F). exists new. split; [done|].
  eapply Forall_impl; [exact F|]. intros entry. apply Himp.
Qed.

Lemma logged_run {R} op (call : W -> (JsError + R) * W) (lw : Logged W) :
  logged op call lw
  = ((call lw.1).1, ((call lw.1).2, lw.2 ++ [(op, settled (call lw.1).1)])).
Proof. unfold logged. by destruct (call lw.1). Qed.

Lemma logged_grows {R} allowed op (call : W -> (JsError + R) * W) (lw : Logged W) :
  allowed op = true -> log_grows allowed lw (logged op call lw).2.
Proof. intros H. rewrite logged_run. eexists [_]. split; [done|]. by repeat constructor. Qed.

Lemma unlogged_grows {R} allowed (call : W -> (JsError + R) * W) (lw : Logged W) :
  log_grows allowed lw (unlogged call lw).2.
Proof. unfold unlogged. destruct (call lw.1). exists []. by rewrite app_nil_r. Qed.

Lemma and_then_grows {A B} allowed (m : Promise (Logged W) A)
    (f : A -> Promise (Logged W) B) lw :
  log_grows allowed lw (m lw).2 ->
  (forall a lw1, log_grows allowed lw1 (f a lw1).2) ->
  log_grows allowed lw (and_then m f lw).2.
Proof.
  intros Hm Hf. unfold and_then. destruct (m lw) as [[err|a] lw1]; [done|].
  eapply log_grows_trans; [exact Hm|apply Hf].
Qed.

Lemma catch_grows {A} allowed (m : Promise (Logged W) A) handler lw :
  log_grows allowed lw (m lw).2 ->
  (forall err lw1, log_grows allowed lw1 (handler err lw1).2) ->
  log_grows allowed lw (catch m handler lw).2.
Proof.
  intros Hm Hh. unfold catch. destruct (m lw) as [[err|a] lw1]; [|done].
  eapply log_grows_trans; [exact Hm|apply Hh].
Qed.

Lemma recover_grows {A} allowed (a : A) (m : Promise (Logged W) A) lw :
  log_grows allowed lw (m lw).2 -> log_grows allowed lw (recover a m lw).2.
Proof. intros Hm. apply catch_grows; [done|]. intros. apply log_grows_refl. Qed.

(** [promise.catch(() => a)] never rejects. *)
Lemma recover_settles {V A} (a : A) (m : Promise V A) w :
  exists x, (recover a m w).1 = inr x.
Proof. unfold recover, catch, resolve. destruct (m w) as [[err|x] w']; by eexists. Qed.

Lemma first_long_text_grows selectors : forall lw,
  log_grows is_page_op lw (first_long_text b selectors lw).2.
Proof.
  induction selectors as [|selector rest IH]; intros lw; cbn [first_long_text].
  - apply log_grows_refl.
  - repeat first
      [ apply log_grows_refl
      | apply logged_grows; reflexivity
      | apply recover_grows
      | apply and_then_grows; [|intros ? ?]
      | apply catch_grows; [|intros ? ?]
      | match goal with
        | |- log_grows _ _ ((if ?c then _ else _) _).2 => destruct c
        | |- log_grows _ _ (match ?c with _ => _ end _).2 => destruct c
        end ]; apply IH.
Qed.

Lemma getIntelligentPageContent_grows lw :
  log_grows is_page_op lw (getIntelligentPageContent b lw).2.
Proof.
  unfold getIntelligentPageContent, rethrow.
  apply catch_grows; [|intros; apply log_grows_refl].
  apply and_then_grows; [by apply recover_grows, logged_grows|intros title lw1].
  apply and_then_grows; [apply first_long_text_grows|intros found lw2].
  apply and_then_grows; [|intros; apply log_grows_refl].
  destruct (negb _); [apply log_grows_refl|by apply recover_grows, logged_grows].
Qed.

Lemma stagehand_extract_grows query lw :
  log_grows is_provider_op lw (stagehand_extract b query lw).2.
Proof.
  unfold stagehand_extract, intelligentExtract, rethrow.
  apply catch_grows; [|intros; apply log_grows_refl].
  apply and_then_grows;
    [|intros pageContent lw1; apply catch_grows; [|intros; apply log_grows_refl];
      apply and_then_grows; [by apply logged_grows|intros; apply log_grows_refl]].
  eapply log_grows_weaken; [|apply getIntelligentPageContent_grows].
  intros op H. unfold is_provider_op. by rewrite H.
Qed.

Lemma stagehand_observe_grows query lw :
  log_grows is_page_op lw (stagehand_observe b query lw).2.
Proof.
  unfold stagehand_observe.
  repeat first
    [ apply log_grows_refl
    | apply logged_grows; reflexivity
    | apply recover_grows
    | apply and_then_grows; [|intros ? ?]
    | apply catch_grows; [|intros ? ?]
    | match goal with
      | |- log_grows _ _ ((if ?c then _ else _) _).2 => destruct c
      | |- log_grows _ _ (match ?c with _ => _ end _).2 => destruct c
      end ].
Qed.

Lemma stagehand_act_grows query lw :
  log_grows is_page_op lw (stagehand_act b query lw).2.
Proof.
  unfold stagehand_act.
  repeat first
    [ apply log_grows_refl
    | apply logged_grows; reflexivity
    | apply recover_grows
    | apply and_then_grows; [|intros ? ?]
    | apply catch_grows; [|intros ? ?]
    | match goal with
      | |- log_grows _ _ ((if ?c then _ else _) _).2 => destruct c
      | |- log_grows _ _ (match ?c with _ => _ end _).2 => destruct c
      end ].
Qed.

Lemma createStagehandImplementation_grows n query lw :
  log_grows is_provider_op lw (createStagehandImplementation b n query lw).2.
Proof.
  assert (Hw : forall lw', log_grows is_page_op lw lw' -> log_grows is_provider_op lw lw').
  { intros lw'. apply log_grows_weaken. intros op H. unfold is_provider_op. by rewrite H. }
  destruct n; cbn [createStagehandImplementation].
  - apply Hw, stagehand_observe_grows.
  - apply stagehand_extract_grows.
  - apply Hw, stagehand_act_grows.
Qed.

Lemma createStagehandImplementation_value_grows String_of n query lw :
  log_grows is_provider_op lw
    (createStagehandImplementation_value b String_of n query lw).2.
Proof.
  destruct n; cbn [createStagehandImplementation_value].
  - destruct (has_text query); [|apply log_grows_refl].
    eapply log_grows_weaken; [|apply stagehand_observe_grows].
    intros op H. unfold is_provider_op. by rewrite H.
  - destruct (has_text query); [apply stagehand_extract_grows|].
    apply catch_grows; [|intros; apply log_grows_refl].
    apply and_then_grows; [|intros; apply log_grows_refl].
    eapply log_grows_weaken; [|apply getIntelligentPageContent_grows].
    intros op H. unfold is_provider_op. by rewrite H.
  - apply log_grows_refl.
Qed.

End ProviderFacts.

(** ** [executeWebTask] *)

Section TaskFacts.

Context {W : Type}.
Variable b : Browser W.
Variable join : string -> string -> string.
Variable plannerSystemPrompt : string.
Variable plannerUserPrompt : string -> string.
Variable platform_message : Exn -> string.
Variable String_of : JsValue -> string.

Lemma awaited_logged {R} op (call : W -> (JsError + R) * W) (st : State (Logged W)) :
  awaited (logged op call) st
  = (match (call (world st).1).1 with
     | inr a => Ok a
     | inl err => Throw (Rejected err)
     end,
     {| world := ((call (world st).1).2,
                  log_of st ++ [(op, settled (call (world st).1).1)]);
        trace := trace st |}).
Proof.
  unfold awaited. rewrite logged_run. by destruct ((call (world st).1).1).
Qed.

Lemma awaited_recover_logged op (call : W -> (JsError + unit) * W)
    (st : State (Logged W)) :
  awaited (recover tt (logged op call)) st
  = (Ok tt,
     {| world := ((call (world st).1).2,
                  log_of st ++ [(op, settled (call (world st).1).1)]);
        trace := trace st |}).
Proof.
  unfold awaited, recover, catch, resolve. rewrite logged_run.
  by destruct ((call (world st).1).1) as [?|[]].
Qed.

(** The [finally] block does not throw; it closes what was opened, the
    page before the browser. *)
Lemma cleanup_run h st :
  exists st' closing,
    cleanup b h st = (Ok tt, st')
    /\ trace st' = trace st
    /\ log_of st' = log_of st ++ closing
    /\ closing.*1 = (if page h then [OpClosePage] else [])
                    ++ (if browser h then [OpCloseBrowser] else []).
Proof.
  unfold cleanup, bind, ret. destruct (page h), (browser h);
    repeat (rewrite awaited_recover_logged; cbn beta iota).
  - eexists _, [_; _]. split_and!; [done|done| |].
    + unfold log_of. cbn. by rewrite <- app_assoc.
    + done.
  - eexists _, [_]. by split_and!.
  - eexists _, [_]. by split_and!.
  - exists st, []. split_and!; try done. by rewrite app_nil_r.
Qed.

Lemma web_collaborators_grow :
  (forall messages lw,
     log_grows is_provider_op lw
       (chat_completions_create (web_collaborators b String_of) messages lw).2)
  /\ (forall n q lw,
        log_grows is_provider_op lw (stagehand (web_collaborators b String_of) n q lw).2)
  /\ (forall n v lw,
        log_grows is_provider_op lw
          (stagehand_value (web_collaborators b String_of) n v lw).2)
  /\ (forall path lw,
        log_grows is_provider_op lw (fs_mkdir (web_collaborators b String_of) path lw).2)
  /\ (forall path lw,
        log_grows is_provider_op lw (page_screenshot (web_collaborators b String_of) path lw).2).
Proof.
  split_and!; intros; cbn.
  - apply unlogged_grows.
  - apply createStagehandImplementation_grows.
  - apply createStagehandImplementation_value_grows.
  - apply unlogged_grows.
  - by apply logged_grows.
Qed.

(** The statements after [page] is assigned make calls of the provider's
    kinds and load the module, nothing else; a result they return is one of
    success. *)
Lemma run_task_run prompt st outcome st' :
  run_task b join plannerSystemPrompt plannerUserPrompt String_of prompt st = (outcome, st') ->
  exists new,
    log_of st' = log_of st ++ new
    /\ Forall (fun entry => is_provider_op entry.1 = true
                            \/ entry.1 = OpImport) new
    /\ match outcome with
       | Ok r =>
           r_success r = true /\ r_error r = None
           /\ length (r_outputs r) = length (r_plan r)
           /\ r_screenshots r = screenshot_patterns (r_plan r)
           /\ Forall (fun pf => query pf <> "") (r_plan r)
           /\ exists text, r_output r = Some text
                /\ extractFinalOutput (r_plan r) (r_outputs r) = Ok text
       | Throw _ => True
       end.
Proof.
  unfold run_task. unfold bind at 1. rewrite awaited_logged.
  destruct ((import_ctl b (world st).1).1) as [err|[]].
  { intros [= <- <-]. eexists [_]. split_and!; [done| |done].
    constructor; [by right|constructor]. }
  set (st1 := {| world := _; trace := trace st |}).
  destruct web_collaborators_grow as (Hc & Hs & Hv & Hm & Hp).
  pose proof (navigate_world (web_collaborators b String_of) "./debug_screenshots" join
                plannerSystemPrompt plannerUserPrompt (log_grows is_provider_op)
                (log_grows_refl _) (log_grows_trans _) Hc Hs Hv Hm Hp prompt st1)
    as (new & Hnew & Fnew).
  pose proof (navigate_run (web_collaborators b String_of) "./debug_screenshots" join
                plannerSystemPrompt plannerUserPrompt prompt st1) as [_ Hnav].
  cbv zeta in Hnav. unfold bind at 1.
  destruct (navigate (web_collaborators b String_of) "./debug_screenshots" join
              plannerSystemPrompt plannerUserPrompt prompt st1)
    as [[[p outs]|e] st2] eqn:Enav.
  - assert (Hlog : log_of st2 = log_of st ++ (OpImport, true) :: new).
    { unfold log_of. cbn in Hnew. rewrite Hnew. subst st1. cbn. by rewrite <- app_assoc. }
    assert (Hall : Forall (fun entry : Op * bool =>
                             is_provider_op entry.1 = true \/ entry.1 = OpImport)
                     ((OpImport, true) :: new)).
    { constructor; [by right|]. eapply Forall_impl; [exact Fnew|]. intros ? ?. by left. }
    destruct (plan (web_collaborators b String_of) plannerSystemPrompt plannerUserPrompt
                prompt st1) as [[steps|e] stp] eqn:Eplan; cbn [fst snd] in Hnav.
    + destruct Hnav as (Hq & executing & _ & _ & Hres). cbn in Hres.
      destruct Hres as [<- Hlen].
      cbn [fst snd]. unfold bind, lift, ret.
      destruct (extractFinalOutput p outs) as [text|e] eqn:Efinal; intros [= <- <-].
      * exists ((OpImport, true) :: new). split_and!; try done. cbn.
        by exists text.
      * by exists ((OpImport, true) :: new).
    + by injection Hnav.
  - intros [= <- <-]. exists ((OpImport, true) :: new). split_and!; [|  |done].
    + unfold log_of. cbn in Hnew. rewrite Hnew. subst st1. cbn. by rewrite <- app_assoc.
    + constructor; [by right|]. eapply Forall_impl; [exact Fnew|]. intros ? ?. by left.
Qed.

Lemma launched_app l1 l2 : launched (l1 ++ l2) = launched l1 || launched l2.
Proof. apply existsb_app. Qed.

Lemma page_opened_app l1 l2 : page_opened (l1 ++ l2) = page_opened l1 || page_opened l2.
Proof. apply existsb_app. Qed.

Lemma provider_ops_open_nothing work :
  Forall (fun entry : Op * bool =>
            is_provider_op entry.1 = true \/ entry.1 = OpImport) work ->
  launched work = false /\ page_opened work = false
  /\ Forall (fun entry : Op * bool => is_closing entry.1 = false) work.
Proof.
  induction 1 as [|[op ok] work Hop _ (IH1 & IH2 & IH3)]; [done|].
  cbn [launched page_opened existsb]. fold (launched work) (page_opened work).
  rewrite IH1, IH2. cbn in Hop.
  split_and!; [| |constructor; [|done]];
    destruct Hop as [Hop| ->]; try done; by destruct op.
Qed.

(** The [try] block: what it logs, and what it leaves in [browser] and
    [page]. *)
Lemma task_try_run prompt st outcome h st1 :
  task_try b join plannerSystemPrompt plannerUserPrompt String_of prompt st = (outcome, h, st1) ->
  exists work,
    log_of st1 = log_of st ++ work
    /\ Forall (fun entry : Op * bool => is_closing entry.1 = false) work
    /\ browser h = launched work
    /\ page h = page_opened work
    /\ (page h = true -> browser h = true)
    /\ match outcome with
       | Ok r =>
           r_success r = true /\ r_error r = None
           /\ length (r_outputs r) = length (r_plan r)
           /\ r_screenshots r = screenshot_patterns (r_plan r)
           /\ Forall (fun pf => query pf <> "") (r_plan r)
           /\ exists text, r_output r = Some text
                /\ extractFinalOutput (r_plan r) (r_outputs r) = Ok text
       | Throw _ => True
       end.
Proof.
  unfold task_try. cbv zeta. rewrite awaited_logged.
  set (key := process_env_OPENAI_API_KEY b (world st).1).
  destruct ((new_OpenAI b key (world st).1).1) as [err|[]].
  { intros [= <- <- <-]. exists [(OpNewClient key, false)].
    split_and!; try done. by repeat constructor. }
  cbn [world fst].
  destruct (negb _ || _).
  { intros [= <- <- <-]. exists [(OpNewClient key, true)].
    split_and!; try done. by repeat constructor. }
  rewrite awaited_logged. cbn [world fst].
  destruct ((chromium_launch b _).1) as [err|[]].
  { intros [= <- <- <-]. exists [(OpNewClient key, true); (OpLaunch, false)].
    split_and!; try done; try (by repeat constructor).
    unfold log_of. cbn. by rewrite <- app_assoc. }
  rewrite awaited_logged. cbn [world fst].
  destruct ((browser_newPage b _).1) as [err|[]].
  { intros [= <- <- <-].
    exists [(OpNewClient key, true); (OpLaunch, true); (OpNewPage, false)].
    split_and!; try done; try (by repeat constructor).
    unfold log_of. cbn. by rewrite <- !app_assoc. }
  match goal with |- context [run_task _ _ _ _ _ _ ?s] =>
    destruct (run_task b join plannerSystemPrompt plannerUserPrompt String_of prompt s)
      as [o st4] eqn:Erun end.
  intros [= <- <- <-].
  destruct (run_task_run _ _ _ _ Erun) as (new & Hlog & Hall & Hres).
  destruct (provider_ops_open_nothing _ Hall) as (Hl & Hp & Hc).
  exists ([(OpNewClient key, true); (OpLaunch, true); (OpNewPage, true)] ++ new).
  split_and!; try done.
  - rewrite Hlog. unfold log_of. cbn. by rewrite <- !app_assoc.
  - apply Forall_app. split; [by repeat constructor|done].
Qed.

Lemma executeWebTask_run prompt st :
  exists outcome h st1 st2 closing,
    task_try b join plannerSystemPrompt plannerUserPrompt String_of prompt st = (outcome, h, st1)
    /\ executeWebTask b join plannerSystemPrompt plannerUserPrompt platform_message
         String_of prompt st
       = (Ok match outcome with
             | Ok r => r
             | Throw error => failed_result (message platform_message String_of error)
             end, st2)
    /\ trace st2 = trace st1
    /\ log_of st2 = log_of st1 ++ closing
    /\ closing.*1 = (if page h then [OpClosePage] else [])
                    ++ (if browser h then [OpCloseBrowser] else []).
Proof.
  unfold executeWebTask.
  destruct (task_try b join plannerSystemPrompt plannerUserPrompt String_of prompt st)
    as [[outcome h] st1].
  destruct (cleanup_run h st1) as (st2 & closing & -> & Htr & Hlog & Hcl).
  by exists outcome, h, st1, st2, closing.
Qed.

(** X13: [executeWebTask] never rejects: whatever happens to the
    browser, the model or the page, it returns a result.  A result of
    success carries the validated plan, one output for each step, one
    screenshot pattern for each step, made from the ordinal alone and so
    whether or not any screenshot was written, and as its output the text
    of [extractFinalOutput]; a result of failure carries no plan, no
    outputs, no screenshots and the message of the error. *)
Theorem executeWebTask_always_answers prompt st :
  exists result st',
    executeWebTask b join plannerSystemPrompt plannerUserPrompt platform_message
      String_of prompt st = (Ok result, st')
    /\ if r_success result
       then r_error result = None
            /\ Forall (fun pf => query pf <> "") (r_plan result)
            /\ length (r_outputs result) = length (r_plan result)
            /\ r_screenshots result = screenshot_patterns (r_plan result)
            /\ length (r_screenshots result) = length (r_plan result)
            /\ exists text,
                 r_output result = Some text
                 /\ extractFinalOutput (r_plan result) (r_outputs result) = Ok text
       else exists error,
              result = failed_result (message platform_message String_of error).
Proof.
  destruct (executeWebTask_run prompt st)
    as (outcome & h & st1 & st2 & closing & Htry & Hrun & _).
  destruct (task_try_run _ _ _ _ _ Htry) as (work & _ & _ & _ & _ & _ & Hres).
  eexists _, st2. split; [exact Hrun|].
  destruct outcome as [r|error].
  - destruct Hres as (-> & He & Hlen & Hshots & Hq & Htext).
    split_and!; try done. rewrite Hshots. unfold screenshot_patterns.
    by rewrite length_imap.
  - cbn. by exists error.
Qed.

(** X14: [executeWebTask] closes what it has opened.  Its calls are
    those of the work, none of which closes anything, followed by the
    closing calls: the page is closed, once, exactly when a page was
    opened, and then the browser is closed, once, exactly when the browser
    was launched; nothing is called after that, and a rejection of either
    closing call is ignored.  This holds on success and on failure
    alike. *)
Theorem executeWebTask_closes_what_it_opened prompt st :
  exists work closing,
    log_of (executeWebTask b join plannerSystemPrompt plannerUserPrompt
              platform_message String_of prompt st).2
      = log_of st ++ work ++ closing
    /\ Forall (fun entry : Op * bool => is_closing entry.1 = false) work
    /\ closing.*1 = (if page_opened work then [OpClosePage] else [])
                    ++ (if launched work then [OpCloseBrowser] else [])
    /\ (page_opened work = true -> launched work = true).
Proof.
  destruct (executeWebTask_run prompt st)
    as (outcome & h & st1 & st2 & closing & Htry & Hrun & _ & Hlog & Hcl).
  destruct (task_try_run _ _ _ _ _ Htry) as (work & Hwork & Hnc & Hb & Hp & Himp & _).
  exists work, closing. rewrite Hrun. cbn [snd]. split_and!.
  - by rewrite Hlog, Hwork, app_assoc.
  - done.
  - by rewrite <- Hb, <- Hp.
  - by rewrite <- Hb, <- Hp.
Qed.

(** X15: without an API key nothing is started.  When the variable
    [OPENAI_API_KEY] is unset or empty once the client has been
    constructed, [executeWebTask] returns a result of failure; no browser
    is launched, no completion is requested, and the only call made is the
    construction of the client.  When that construction did not itself
    throw, the error is the fixed sentence about the variable. *)
Theorem executeWebTask_without_api_key prompt st :
  let key := process_env_OPENAI_API_KEY b (world st).1 in
  let constructed := new_OpenAI b key (world st).1 in
  process_env_OPENAI_API_KEY b constructed.2 = None
    \/ process_env_OPENAI_API_KEY b constructed.2 = Some "" ->
  exists text st',
    executeWebTask b join plannerSystemPrompt plannerUserPrompt platform_message
      String_of prompt st = (Ok (failed_result text), st')
    /\ trace st' = trace st
    /\ log_of st' = log_of st ++ [(OpNewClient key, settled constructed.1)]
    /\ (settled constructed.1 = true ->
        text = "OPENAI_API_KEY environment variable is required").
Proof.
  intros key constructed Hkey. unfold executeWebTask, task_try. cbv zeta.
  rewrite awaited_logged. subst key constructed.
  unfold Logged in *.
  match goal with |- context [new_OpenAI b ?k ?w] =>
    destruct (new_OpenAI b k w) as [[err|[]] w1] end; cbn [fst snd world] in *.
  - unfold cleanup, bind, ret. cbn [page browser]. eexists _, _. by split_and!.
  - assert ((negb (bool_decide (is_Some (process_env_OPENAI_API_KEY b w1)))
             || String.eqb (default "" (process_env_OPENAI_API_KEY b w1)) "")
            = true) as ->.
    { by destruct Hkey as [-> | ->]. }
    unfold cleanup, bind, ret. cbn [page browser]. eexists _, _. by split_and!.
Qed.

(** ** The handler of [POST /api/execute] *)

(** X16: what the handler of [POST /api/execute] does with [res].  When
    the body has no [prompt] that is a non-empty string, it sets the status
    400 and sends the error body, and nothing is run.  When it has one, the
    handler runs the task and sends [success: true] around the result of
    [executeWebTask], whatever that result is, also one of failure, without
    setting a status, so with 200.  The [catch] block is reached only when
    the body is [null] or [undefined]: it then sets the status 500 and
    throws itself, by reading [req.body.prompt], so that the handler is
    rejected after [res.status(500)] and has sent nothing.  The body of the
    [catch] block, [success: false], is never sent. *)
Theorem post_api_execute_answers req_body st :
  match post_api_execute b join plannerSystemPrompt plannerUserPrompt
          platform_message String_of req_body st with
  | (calls, Ok _, st') =>
      (st' = st
       /\ calls = [ResStatus 400;
                   ResJson (BadRequest
                     "Missing or invalid prompt. Please provide a string prompt in the request body.")]
       /\ status_of calls = 400
       /\ ~ (exists p, prop req_body "prompt" = JStr p /\ p <> ""))
      \/ (exists p result,
            prop req_body "prompt" = JStr p /\ p <> ""
            /\ executeWebTask b join plannerSystemPrompt plannerUserPrompt
                 platform_message String_of p st = (Ok result, st')
            /\ calls = [ResJson (Executed p result)]
            /\ status_of calls = 200)
  | (calls, Throw e, st') =>
      e = TypeError /\ st' = st /\ (req_body = JNull \/ req_body = JUndefined)
      /\ calls = [ResStatus 500] /\ status_of calls = 500 /\ sent calls = []
  end.
Proof.
  unfold post_api_execute, prop. cbv zeta.
  destruct (get_prop req_body "prompt") as [prompt|] eqn:Eprop; cbn [default].
  - destruct (negb (truthy prompt) || negb (bool_decide (typeof prompt = TString)))
      eqn:Echeck.
    + cbn. left. split_and!; try done.
      intros (p & -> & Hp). cbn in Echeck.
      by destruct (String.eqb_spec p "").
    + unfold bind, ret.
      destruct (executeWebTask_run (str_of prompt) st)
        as (outcome & h & st1 & st' & closing & _ & Hrun & _).
      rewrite Hrun. right.
      destruct prompt as [| |?|? ?|p|?|?]; cbn in Echeck;
        rewrite ?orb_true_r in Echeck; try done.
      eexists p, _. split_and!; try done.
      intros ->. done.
  - unfold throw. split_and!; try done.
    destruct req_body; try done; [by right|by left].
Qed.

End TaskFacts.

(** ** The patterns of the provider *)

Lemma includes_all p w s :
  includes w s = true -> str_all p s = true -> str_all p w = true.
Proof.
  intros (a & t & ->)%includes_spec H.
  by apply str_all_app_r, str_all_app_l in H.
Qed.

Lemma str_all_lower (p q : ascii -> bool) s :
  (forall c, p c = true -> q (lower_char c) = true) ->
  str_all p s = true -> str_all q (toLowerCase s) = true.
Proof.
  intros Hpq. induction s as [|c s IH]; [done|]. cbn.
  intros [Hc Hs]%andb_prop. by rewrite (Hpq _ Hc), IH.
Qed.

Lemma startsWith_includes w s : startsWith w s = true -> includes w s = true.
Proof.
  intros [t ->]%startsWith_spec. apply includes_spec. by exists "", t.
Qed.

Lemma includes_prefix w x s : includes (w +:+ x) s = true -> includes w s = true.
Proof.
  intros (a & t & ->)%includes_spec. apply includes_spec.
  exists a, (x +:+ t). by rewrite !append_assoc.
Qed.

Lemma greedy_chars_none p k s : forall pos cs,
  (forall a1 a2, s = a1 +:+ a2 -> k (pos + String.length a1) a2 cs = None) ->
  greedy_chars p k pos s cs = None.
Proof.
  induction s as [|x s IH]; intros pos cs Hk.
  - cbn. specialize (Hk "" "" eq_refl). cbn in Hk. by rewrite Nat.add_0_r in Hk.
  - pose proof (Hk "" (String x s) eq_refl) as H0. cbn in H0. rewrite Nat.add_0_r in H0.
    cbn [greedy_chars]. rewrite H0. rewrite IH; [by destruct (p x)|].
    intros a1 a2 ->. specialize (Hk (String x a1) a2 eq_refl).
    by replace (S pos + String.length a1) with (pos + String.length (String x a1))
      by (cbn; lia).
Qed.

(** A greedy run that has to give back the end of what it took. *)
Lemma greedy_chars_back p k a : forall pos b cs m,
  str_all p a = true ->
  (forall b1 b2, b = b1 +:+ b2 -> b1 <> "" ->
     k (pos + String.length a + String.length b1) b2 cs = None) ->
  k (pos + String.length a) b cs = Some m ->
  greedy_chars p k pos (a +:+ b) cs = Some m.
Proof.
  induction a as [|x a IH]; intros pos b cs m Ha Hnone Hk.
  - cbn in Hk, Hnone. rewrite Nat.add_0_r in Hk. change ("" +:+ b) with b.
    destruct b as [|y b]; [done|]. cbn [greedy_chars].
    rewrite greedy_chars_none; [by rewrite Hk; destruct (p y)|].
    intros a1 a2 ->. specialize (Hnone (String y a1) a2 eq_refl).
    rewrite Nat.add_0_r in Hnone. cbn in Hnone.
    replace (S pos + String.length a1) with (pos + S (String.length a1)) by lia.
    by apply Hnone.
  - cbn in Ha. apply andb_prop in Ha as [Hx Ha].
    change (String x a +:+ b) with (String x (a +:+ b)). cbn [greedy_chars]. rewrite Hx.
    rewrite (IH (S pos) b cs m); try done.
    + intros b1 b2 Hb Hne. specialize (Hnone b1 b2 Hb Hne). cbn in Hnone.
      by replace (S pos + String.length a) with (pos + S (String.length a)) by lia.
    + cbn in Hk.
      by replace (S pos + String.length a) with (pos + S (String.length a)) by lia.
Qed.

Lemma domain_no_space c : domain_char c = true -> Ascii.eqb " " (lower_char c) = false.
Proof. destruct c as [[] [] [] [] [] [] [] []]; by vm_compute. Qed.

Lemma domain_no_colon c : domain_char c = true -> Ascii.eqb ":" c = false.
Proof. destruct c as [[] [] [] [] [] [] [] []]; by vm_compute. Qed.

Lemma alpha_domain c : is_alpha c = true -> domain_char c = true.
Proof. unfold domain_char. by intros ->. Qed.

Lemma alpha_no_dot c : is_alpha c = true -> Ascii.eqb "." c = false.
Proof. destruct c as [[] [] [] [] [] [] [] []]; by vm_compute. Qed.

(** A text of domain characters holds no phrase with a space in it, in
    any case of its letters. *)
Lemma domain_no_phrase w q :
  str_all (fun c => negb (Ascii.eqb " " c)) w = false ->
  str_all domain_char q = true ->
  includes w (toLowerCase q) = false.
Proof.
  intros Hw Hq. destruct (includes w (toLowerCase q)) eqn:E; [|done].
  apply (includes_all (fun c => negb (Ascii.eqb " " c))) in E; [congruence|].
  apply (str_all_lower domain_char); [|done].
  intros c Hc. by rewrite domain_no_space.
Qed.

Lemma rmatch_seq a b pos s cs k :
  rmatch (RSeq a b) pos s cs k
  = rmatch a pos s cs (fun pos' s' cs' => rmatch b pos' s' cs' k).
Proof. done. Qed.

Lemma rmatch_group i a pos s cs k :
  rmatch (RGroup i a) pos s cs k
  = rmatch a pos s cs (fun pos' s' cs' => k pos' s' ((i, slice0 (pos' - pos) s) :: cs')).
Proof. done. Qed.

Lemma rmatch_char p pos s cs k :
  rmatch (RChar p) pos s cs k
  = match s with
    | String c s' => if p c then k (S pos) s' cs else None
    | EmptyString => None
    end.
Proof. done. Qed.

Lemma rmatch_alt a b pos s cs k :
  rmatch (RAlt a b) pos s cs k
  = match rmatch a pos s cs k with
    | Some m => Some m
    | None => rmatch b pos s cs k
    end.
Proof. done. Qed.

(** The pattern of a bare domain takes the whole of a text that is one. *)
Lemma match_domain c host t1 t2 tld :
  domain_char c = true -> str_all domain_char host = true ->
  is_alpha t1 = true -> is_alpha t2 = true -> str_all is_alpha tld = true ->
  let q := String c (host +:+ String "." (String t1 (String t2 tld))) in
  match_at re_domain 0 q = Some (String.length q, "", [(1, q)]).
Proof.
  intros Hc Hhost Ht1 Ht2 Htld q.
  unfold match_at, re_domain.
  rewrite rmatch_seq. change (rmatch RBol 0 q [] ?k) with (k 0 q []). cbn beta.
  rewrite rmatch_seq, rmatch_group, rmatch_seq, rmatch_plus_chars.
  unfold q at 1. rewrite Hc.
  apply greedy_chars_back; [done| |].
  - intros b1 b2 Hb Hb1. destruct b1 as [|x b1]; [done|].
    injection Hb as <- Hb. rewrite rmatch_seq. unfold chr. rewrite rmatch_char.
    destruct b2 as [|y b2]; [done|].
    assert (Hy : is_alpha y = true).
    { assert (H : str_all is_alpha (String t1 (String t2 tld)) = true)
        by (cbn; by rewrite Ht1, Ht2, Htld).
      rewrite Hb in H. apply str_all_app_r in H. cbn in H.
      by apply andb_prop in H as [? _]. }
    by rewrite (alpha_no_dot _ Hy).
  - rewrite rmatch_seq. unfold chr. rewrite rmatch_char, Ascii.eqb_refl.
    rewrite rmatch_seq, rmatch_char, Ht1, rmatch_seq, rmatch_char, Ht2.
    rewrite rmatch_star_greedy.
    rewrite <- (append_nil_r tld) at 1.
    apply greedy_chars_run; [done|done|].
    change (rmatch REol ?p "" ?cs accept) with (accept p "" cs). unfold accept.
    assert (Hlen : S (S (S (1 + String.length host))) + String.length tld
                   = String.length q).
    { unfold q. cbn [String.length]. rewrite length_append. cbn [String.length]. lia. }
    rewrite Hlen, Nat.sub_0_r, slice0_short by lia. done.
Qed.

(** ** [act]: navigation *)

Lemma match_group_none r i s : search_from r 0 s = None -> match_group r i s = None.
Proof. unfold match_group. by intros ->. Qed.

Lemma search_lit_i_only_none w s pos :
  includes w (toLowerCase s) = false -> search_from (lit_i w) pos s = None.
Proof.
  intros Hinc. apply search_from_none. intros a1 a2 pos' ->.
  unfold match_at. rewrite rmatch_lit_i.
  destruct (startsWith w (toLowerCase a2)) eqn:E; [|done].
  rewrite toLowerCase_app in Hinc.
  apply startsWith_spec in E as [t E].
  assert (includes w (toLowerCase a1 +:+ toLowerCase a2) = true); [|congruence].
  apply includes_spec. exists (toLowerCase a1), t. by rewrite E.
Qed.

Lemma match_go_to_none q :
  startsWith "go to" (toLowerCase q) = false -> match_group re_go_to 1 q = None.
Proof.
  intros H. apply match_group_none, search_bol_none.
  unfold match_at. rewrite rmatch_seq.
  change (rmatch RBol 0 q [] ?k) with (k 0 q []). cbn beta.
  by rewrite rmatch_seq, rmatch_lit_i, H.
Qed.

Lemma match_url_none q :
  startsWith "http" (toLowerCase q) = false -> match_group re_url 1 q = None.
Proof.
  intros H. apply match_group_none, search_bol_none.
  unfold match_at. rewrite rmatch_seq.
  change (rmatch RBol 0 q [] ?k) with (k 0 q []). cbn beta.
  by rewrite rmatch_group, rmatch_seq, rmatch_lit_i, H.
Qed.

Lemma match_domain_none q :
  includes "." q = false -> match_group re_domain 1 q = None.
Proof.
  intros H. apply match_group_none, search_bol_none.
  unfold match_at, re_domain. rewrite rmatch_seq.
  change (rmatch RBol 0 q [] ?k) with (k 0 q []). cbn beta.
  rewrite rmatch_seq, rmatch_group, rmatch_seq, rmatch_plus_chars.
  destruct q as [|c q]; [done|]. destruct (domain_char c); [|done].
  apply greedy_chars_none. intros a1 a2 ->.
  rewrite rmatch_seq. unfold chr. rewrite rmatch_char.
  destruct a2 as [|y a2]; [done|].
  destruct (Ascii.eqb_spec "." y) as [<-|]; [|done].
  assert (includes "." (String c (a1 +:+ String "." a2)) = true); [|congruence].
  apply includes_spec. by exists (String c a1), a2.
Qed.

Section ActFacts.

Context {W : Type}.
Variable b : Browser W.

Lemma bare_domain_parts q :
  is_bare_domain q ->
  exists c host t1 t2 tld,
    q = String c (host +:+ String "." (String t1 (String t2 tld)))
    /\ domain_char c = true /\ str_all domain_char host = true
    /\ is_alpha t1 = true /\ is_alpha t2 = true /\ str_all is_alpha tld = true.
Proof.
  intros (host & tld & -> & Hne & Hhost & Htld & Hlen).
  destruct host as [|c host]; [done|].
  destruct tld as [|t1 [|t2 tld]]; [cbn in Hlen; lia..|].
  cbn in Hhost, Htld. apply andb_prop in Hhost as [Hc Hhost].
  apply andb_prop in Htld as [Ht1 Htld]. apply andb_prop in Htld as [Ht2 Htld].
  by exists c, host, t1, t2, tld.
Qed.

Lemma bare_domain_chars q : is_bare_domain q -> str_all domain_char q = true.
Proof.
  intros (host & tld & -> & Hne & Hhost & Htld & Hlen).
  rewrite !str_all_app, Hhost. cbn.
  apply (str_all_impl is_alpha); [apply alpha_domain|done].
Qed.

Lemma navMatch_bare_domain q : is_bare_domain q -> navMatch q = Some q.
Proof.
  intros Hq. pose proof (bare_domain_chars q Hq) as Hchars.
  unfold navMatch.
  rewrite (match_group_none re_navigate_quoted)
    by (apply search_lit_i_none; by apply domain_no_phrase).
  rewrite (match_group_none re_navigate_to)
    by (apply search_lit_i_none; by apply domain_no_phrase).
  rewrite match_go_to_none.
  2:{ destruct (startsWith "go to" (toLowerCase q)) eqn:E; [|done].
      apply startsWith_includes in E.
      by rewrite domain_no_phrase in E. }
  destruct (bare_domain_parts q Hq) as (c & host & t1 & t2 & tld & -> & Hc & Hh & H1 & H2 & Ht).
  unfold match_group.
  rewrite (search_from_here _ _ _ _ (match_domain c host t1 t2 tld Hc Hh H1 H2 Ht)).
  cbn [capture Nat.eqb]. done.
Qed.

Lemma bare_domain_no_protocol q : is_bare_domain q -> has_protocol q = false.
Proof.
  intros Hq. pose proof (bare_domain_chars q Hq) as Hchars. unfold has_protocol.
  assert (H : forall w, str_all domain_char w = false -> startsWith w q = false).
  { intros w Hw. destruct (startsWith w q) eqn:E; [|done].
    apply startsWith_includes in E.
    apply (includes_all domain_char) in E; [congruence|done]. }
  by rewrite !H.
Qed.

(** What [act] does with a query in which [navMatch] finds an address. *)
Lemma stagehand_act_goto query found lw :
  navMatch query = Some found ->
  let url := if has_protocol found then found else "https://" +:+ found in
  stagehand_act b query lw
  = (match (page_goto b url lw.1).1 with
     | inr _ => inr ("NAVIGATED(" +:+ url +:+ ")")
     | inl err => inl err
     end,
     ((page_goto b url lw.1).2, lw.2 ++ [(OpGoto url, settled (page_goto b url lw.1).1)])).
Proof.
  intros Hnav url. unfold stagehand_act. rewrite Hnav. cbv zeta.
  assert ((if negb (startsWith "http://" found) && negb (startsWith "https://" found)
           then "https://" +:+ found else found) = url) as ->.
  { subst url. unfold has_protocol.
    by destruct (startsWith "http://" found), (startsWith "https://" found). }
  unfold and_then. rewrite logged_run.
  by destruct ((page_goto b url lw.1).1).
Qed.

Lemma has_protocol_https found : has_protocol ("https://" +:+ found) = true.
Proof. unfold has_protocol. by rewrite (startsWith_app "https://"), orb_true_r. Qed.

(** The calls of [act] where [navMatch] finds nothing: none is a
    navigation. *)
Lemma stagehand_act_stays query lw :
  navMatch query = None ->
  log_grows (fun op => is_page_op op && match op with OpGoto _ => false | _ => true end)
    lw (stagehand_act b query lw).2.
Proof.
  intros Hnav. unfold stagehand_act. rewrite Hnav.
  repeat first
    [ apply log_grows_refl
    | apply logged_grows; reflexivity
    | apply recover_grows
    | apply and_then_grows; [|intros ? ?]
    | match goal with
      | |- log_grows _ _ ((if ?c then _ else _) _).2 => destruct c
      | |- log_grows _ _ (match ?c with _ => _ end _).2 => destruct c
      end ].
Qed.

(** X17: [act] never sends the page to an address without a protocol.
    For every query, the addresses it navigates to, at most one, start
    with [http://] or [https://]; it navigates exactly when one of the five
    navigation patterns matches, and answers with [NAVIGATED] and the
    address when the page got there.  A query that is a bare domain, such
    as [google.com], is taken whole as the address and opened over
    [https]. *)
Theorem act_navigates_with_a_protocol query lw :
  let done := stagehand_act b query lw in
  (exists new,
     done.2.2 = lw.2 ++ new
     /\ Forall (fun url => has_protocol url = true) (visited new)
     /\ length (visited new) = match navMatch query with Some _ => 1 | None => 0 end
     /\ forall url, visited new = [url] ->
          done.1 = inr ("NAVIGATED(" +:+ url +:+ ")")
          \/ exists err, done.1 = inl err /\ (page_goto b url lw.1).1 = inl err)
  /\ (is_bare_domain query ->
      navMatch query = Some query
      /\ done.2.2 = lw.2 ++ [(OpGoto ("https://" +:+ query),
                              settled (page_goto b ("https://" +:+ query) lw.1).1)]).
Proof.
  intros done. split.
  - destruct (navMatch query) as [found|] eqn:Hnav.
    + subst done. rewrite (stagehand_act_goto _ _ _ Hnav). cbv zeta. cbn [fst snd].
      eexists [_]. split; [done|]. cbn. split_and!; [|done|].
      * repeat constructor. destruct (has_protocol found) eqn:E; [done|].
        apply has_protocol_https.
      * intros url [= <-].
        destruct (page_goto b _ lw.1) as [[err|[]] w']; cbn; [right; by exists err|by left].
    + destruct (stagehand_act_stays query lw Hnav) as (new & Hnew & Hall).
      exists new. split; [done|].
      assert (visited new = []) as ->; [|by split_and!].
      clear Hnew. unfold visited. induction Hall as [|[op ok] new Hop _ IH]; [done|].
      cbn. rewrite IH. cbn in Hop. by destruct op.
  - intros Hq. pose proof (navMatch_bare_domain _ Hq) as Hnav. split; [done|].
    subst done. rewrite (stagehand_act_goto _ _ _ Hnav). cbv zeta.
    by rewrite (bare_domain_no_protocol _ Hq).
Qed.

End ActFacts.

(** ** [observe] and [act]: the queries without a special case *)

Lemma startsWith_lower_drop w s :
  startsWith w (toLowerCase s) = true ->
  toLowerCase s = w +:+ toLowerCase (drop (String.length w) s).
Proof.
  revert s. induction w as [|c w IH]; intros s H; [by destruct s|].
  destruct s as [|d s]; [done|]. cbn [toLowerCase startsWith] in H.
  destruct (Ascii.eqb_spec c (lower_char d)) as [->|]; [|done].
  cbn [toLowerCase String.length drop]. change (String ?x ?a +:+ ?b) with (String x (a +:+ b)).
  by rewrite <- IH.
Qed.

(** A literal followed by a character of a class finds nothing in a text
    where the literal is never followed by such a character. *)
Lemma search_lit_i_char_none w p r s pos :
  (forall c, p c = true ->
     includes (w +:+ String (lower_char c) "") (toLowerCase s) = false) ->
  search_from (RSeq (lit_i w) (RSeq (RChar p) r)) pos s = None.
Proof.
  intros Hinc. apply search_from_none. intros a1 a2 pos' ->.
  unfold match_at. rewrite rmatch_seq, rmatch_lit_i.
  destruct (startsWith w (toLowerCase a2)) eqn:E; [|done].
  rewrite rmatch_seq, rmatch_char.
  destruct (drop (String.length w) a2) as [|c rest] eqn:D; [done|].
  destruct (p c) eqn:Pc; [|done].
  specialize (Hinc c Pc). rewrite toLowerCase_app in Hinc.
  apply startsWith_lower_drop in E. rewrite D in E. cbn [toLowerCase] in E.
  assert (includes (w +:+ String (lower_char c) "")
            (toLowerCase a1 +:+ toLowerCase a2) = true); [|congruence].
  apply includes_spec. exists (toLowerCase a1), (toLowerCase rest).
  by rewrite E, append_assoc.
Qed.

Lemma quote_mark_cases c :
  quote_mark c = true -> c = "'"%char \/ c = Json.dquote.
Proof.
  unfold quote_mark. intros [H|H]%orb_prop; apply Ascii.eqb_eq in H; auto.
Qed.

Lemma search_quoted_none w r s pos :
  includes (w +:+ "'") (toLowerCase s) = false ->
  includes (w +:+ String Json.dquote "") (toLowerCase s) = false ->
  search_from (RSeq (lit_i w) (RSeq (RChar quote_mark) r)) pos s = None.
Proof.
  intros H1 H2. apply search_lit_i_char_none.
  by intros c [->| ->]%quote_mark_cases.
Qed.

Lemma startsWith_app_other w e rest : forall q,
  str_all (fun c => negb (Ascii.eqb c e)) w = true ->
  startsWith w (q +:+ String e rest) = startsWith w q.
Proof.
  induction w as [|c w IH]; intros q Hw; [by destruct q|].
  cbn in Hw. apply andb_prop in Hw as [Hc Hw].
  destruct q as [|d q].
  - change ("" +:+ String e rest) with (String e rest). cbn [startsWith].
    by destruct (Ascii.eqb c e).
  - change (String d q +:+ String e rest) with (String d (q +:+ String e rest)).
    cbn [startsWith]. by rewrite IH.
Qed.

(** A marker is not completed by what follows a text, when what follows
    starts with a character the marker does not have. *)
Lemma includes_app_other w e rest q :
  w <> "" ->
  str_all (fun c => negb (Ascii.eqb c e)) w = true ->
  includes w (String e rest) = false ->
  includes w (q +:+ String e rest) = includes w q.
Proof.
  intros Hne Hw Hrest. induction q as [|d q IH].
  - change ("" +:+ String e rest) with (String e rest). rewrite Hrest.
    by destruct w.
  - change (String d q +:+ String e rest) with (String d (q +:+ String e rest)).
    rewrite !includes_cons, IH.
    change (String d (q +:+ String e rest)) with (String d q +:+ String e rest).
    by rewrite startsWith_app_other.
Qed.

Lemma includes_longer_none w x s :
  includes w s = false -> includes (w +:+ x) s = false.
Proof.
  intros H. destruct (includes (w +:+ x) s) eqn:E; [|done].
  apply includes_prefix in E. congruence.
Qed.

(** [/wait until.*visible/i] needs both of its words. *)
Lemma search_wait_visible_none s pos :
  includes "wait until" (toLowerCase s) && includes "visible" (toLowerCase s) = false ->
  search_from re_wait_visible pos s = None.
Proof.
  intros [H|H]%andb_false_iff; [by apply search_lit_i_none|].
  apply search_from_none. intros a1 a2 pos' ->.
  unfold match_at, re_wait_visible. rewrite rmatch_seq, rmatch_lit_i.
  destruct (startsWith "wait until" (toLowerCase a2)); [|done].
  rewrite rmatch_seq, rmatch_star_greedy. apply greedy_chars_none.
  intros b1 b2 Hsplit. rewrite rmatch_lit_i.
  destruct (startsWith "visible" (toLowerCase b2)) eqn:E; [|done].
  apply startsWith_spec in E as [t E].
  assert (includes "visible" (toLowerCase (a1 +:+ a2)) = true); [|congruence].
  rewrite (slice0_prefix (String.length "wait until") a2), Hsplit.
  rewrite !toLowerCase_app, E. apply includes_spec.
  exists (toLowerCase a1 +:+ toLowerCase (slice0 (String.length "wait until") a2)
          +:+ toLowerCase b1), t.
  by rewrite !append_assoc.
Qed.

Section EchoFacts.

Context {W : Type}.
Variable b : Browser W.

Lemma test_none r s : search_from r 0 s = None -> test r s = false.
Proof. unfold test. by intros ->. Qed.

(** X18: [observe] and [act] do nothing for a query they have no special
    case for.  A query of [observe] that does not hold both [wait until]
    and [visible], and not [first search result], such as
    [wait until the search results page loads], and a query of [act] that
    holds none of the navigation, typing and clicking phrases, such as
    [click the search box], is answered with an echo,
    [Observed: query] or [ACTION_OK("query")], without any call on the
    page; the result synthesizer passes over such an answer unless the
    query itself holds [NAVIGATED(]. *)
Theorem plain_queries_are_echoed query (lw : Logged W) :
  (plain_observation query = true ->
   stagehand_observe b query lw = (inr ("Observed: " +:+ query), lw)
   /\ is_meaningful ("Observed: " +:+ query) = includes "NAVIGATED(" query)
  /\ (plain_action query = true ->
      let echo := "ACTION_OK(" +:+ String Json.dquote query +:+ String Json.dquote ")" in
      stagehand_act b query lw = (inr echo, lw)
      /\ is_meaningful echo = includes "NAVIGATED(" query).
Proof.
  split.
  - unfold plain_observation. cbv zeta. intros [H1 H2]%andb_prop.
    apply negb_true_iff in H1, H2. split.
    + unfold stagehand_observe.
      rewrite (test_none re_wait_visible) by by apply search_wait_visible_none.
      by rewrite (test_none re_first_result) by by apply search_lit_i_only_none.
    + unfold is_meaningful.
      assert (includes "Observed:" ("Observed: " +:+ query) = true) as ->.
      { apply includes_spec. by exists "", (" " +:+ query). }
      rewrite andb_false_r, orb_false_r. done.
  - unfold plain_action. cbv zeta. intros H.
    repeat match type of H with _ && _ = true => apply andb_prop in H as [H ?] end.
    repeat match goal with H : negb _ = true |- _ => apply negb_true_iff in H end.
    split.
    + assert (Hnav : navMatch query = None).
      { unfold navMatch.
        rewrite (match_group_none re_navigate_quoted)
          by (apply search_lit_i_none; by apply (includes_longer_none "navigate to" " ")).
        rewrite (match_group_none re_navigate_to)
          by (by apply search_lit_i_none).
        rewrite match_go_to_none, match_domain_none by done.
        by apply match_url_none. }
      unfold stagehand_act. rewrite Hnav.
      rewrite (match_group_none re_type) by by apply search_quoted_none.
      rewrite (test_none re_click_search) by by apply search_lit_i_only_none.
      by rewrite (match_group_none re_click_link) by by apply search_quoted_none.
    + unfold is_meaningful.
      assert (includes "ACTION_OK"
                ("ACTION_OK(" +:+ String Json.dquote query +:+ String Json.dquote ")") = true)
        as ->.
      { apply includes_spec.
        by exists "", ("(" +:+ String Json.dquote query +:+ String Json.dquote ")"). }
      rewrite andb_false_r, orb_false_r.
      change ("ACTION_OK(" +:+ String Json.dquote query +:+ String Json.dquote ")")
        with ("ACTION_OK(" +:+ String Json.dquote (query +:+ String Json.dquote ")")).
      rewrite <- (includes_app_other "NAVIGATED(" Json.dquote ")" query) by done.
      done.
Qed.

End EchoFacts.

(** ** [extract]: failures become answers *)

Lemma strip_extracted inner c rest :
  inner <> "" -> str_all (fun x => negb (Ascii.eqb x ")")) inner = true ->
  is_space c = false ->
  replace re_strip_extracted "" ("EXTRACTED(" +:+ inner +:+ ") => " +:+ String c rest)
  = String c rest.
Proof.
  intros Hne Hinner Hc. unfold replace.
  assert (Hm : match_at re_strip_extracted 0
                 ("EXTRACTED(" +:+ inner +:+ ") => " +:+ String c rest)
               = Some (10 + String.length inner + 1 + 1 + 2 + 1, String c rest, [])).
  { unfold match_at, re_strip_extracted. rewrite rmatch_seq.
    change (rmatch RBol 0 ?s [] ?k) with (k 0 s []). cbn beta.
    rewrite rmatch_seq, rmatch_lit, startsWith_app, drop_app.
    rewrite rmatch_seq, rmatch_plus_chars.
    destruct inner as [|x inner]; [done|].
    cbn [str_all] in Hinner. apply andb_prop in Hinner as [Hx Hinner].
    change (String x inner +:+ ?t) with (String x (inner +:+ t)). cbn beta iota. rewrite Hx.
    apply greedy_chars_run; [done|done|].
    rewrite rmatch_seq. unfold chr at 1. rewrite rmatch_char.
    change (") => " +:+ String c rest) with (String ")" (" " +:+ "=> " +:+ String c rest)).
    cbn beta iota. rewrite Ascii.eqb_refl. unfold spaces at 1.
    rewrite rmatch_seq, rmatch_star_greedy.
    apply greedy_chars_run; [done|done|].
    rewrite rmatch_seq, rmatch_lit.
    change (startsWith "=>" ("=> " +:+ String c rest)) with true. cbn match.
    change (drop (String.length "=>") ("=> " +:+ String c rest)) with (" " +:+ String c rest).
    unfold spaces. rewrite rmatch_star_greedy.
    apply greedy_chars_run; [done|done|].
    unfold accept. do 2 f_equal. cbn [String.length]. f_equal. lia. }
  destruct ("EXTRACTED(" +:+ inner +:+ ") => " +:+ String c rest) eqn:E;
    cbn [replace_from]; by rewrite Hm.
Qed.

Lemma append_cons x a b : String x a +:+ b = String x (a +:+ b).
Proof. done. Qed.

Lemma append_nil_l b : "" +:+ b = b.
Proof. done. Qed.

Lemma strip_label_other label s :
  startsWith label s = false -> replace (re_strip_label label) "" s = s.
Proof. intros H. by apply replace_bol_none, match_bol_lit_none. Qed.

Lemma length_quoted prefix msg :
  String.length (String Json.dquote (prefix +:+ msg +:+ ")" +:+ String Json.dquote ""))
  = String.length prefix + String.length msg + 3.
Proof. cbn [String.length]. rewrite !length_append. cbn [String.length]. lia. Qed.

(** The answer for an extraction that failed, as the result synthesizer
    reads it. *)
Lemma clean_extraction_failed query msg :
  includes ")" query = false ->
  clean (extraction_failed query msg)
  = String Json.dquote ("(extraction failed: " +:+ msg +:+ ")" +:+ String Json.dquote "").
Proof.
  intros Hq.
  assert (Hin : str_all (fun x => negb (Ascii.eqb x ")")) query = true).
  { clear -Hq. induction query as [|x q IH]; [done|].
    rewrite includes_cons in Hq. apply orb_false_elim in Hq as [Hx Hq].
    cbn [str_all]. rewrite IH by done. cbn [startsWith] in Hx.
    rewrite Ascii.eqb_sym. by destruct (Ascii.eqb ")" x). }
  unfold clean, extraction_failed.
  set (body := "(extraction failed: " +:+ msg +:+ ")").
  assert (Hshape :
    "EXTRACTED(" +:+ String Json.dquote query +:+ String Json.dquote ") => "
      +:+ String Json.dquote "(extraction failed: " +:+ msg +:+ ")" +:+ String Json.dquote ""
    = "EXTRACTED(" +:+ (String Json.dquote query +:+ String Json.dquote "")
      +:+ ") => " +:+ String Json.dquote (body +:+ String Json.dquote "")).
  { subst body. by rewrite !append_assoc. }
  rewrite Hshape, strip_extracted; [|done| |done].
  2:{ change (String Json.dquote query +:+ String Json.dquote "")
        with (String Json.dquote (query +:+ String Json.dquote "")).
      cbn [str_all]. rewrite str_all_app, Hin. done. }
  rewrite !strip_label_other by reflexivity.
  rewrite trim_tight by done. subst body. by rewrite !append_assoc.
Qed.

Section ExtractFacts.

Context {W : Type}.
Variable b : Browser W.

Lemma rethrow_rejects {A} prefix (m : Promise (Logged W) A) lw err :
  (rethrow prefix m lw).1 = inl err -> exists cause, err = Error (prefix +:+ cause).
Proof.
  unfold rethrow, catch. destruct (m lw) as [[e|a] lw']; [|done].
  cbn. intros [= <-]. by eexists.
Qed.

(** X19: [extract] never rejects, and tells a failure in its answer.
    Whatever the page and the model do, [extract] resolves.  When the page
    content cannot be read, or the model call is rejected with message
    [m], the answer is the text
    [EXTRACTED("query") => "(extraction failed: ...)"] with the cause,
    [Failed to get page content: ...] or [GPT extraction failed: m]; the
    model is asked at most once, with the system text and the prompt built
    from the page content; when it answers, the answer is its content
    trimmed, or [No content extracted] when there is none. *)
Theorem stagehand_extract_always_answers query (lw : Logged W) :
  exists text,
    (stagehand_extract b query lw).1 = inr text
    /\ match getIntelligentPageContent b lw with
       | (inl err, lw1) =>
           (stagehand_extract b query lw).2 = lw1
           /\ text = extraction_failed query (err_message err)
           /\ exists cause, err_message err = "Failed to get page content: " +:+ cause
       | (inr pageContent, lw1) =>
           let messages :=
             [SystemMsg extractionSystem; UserMsg (extractionPrompt query pageContent)] in
           let reply := extraction_completion b messages lw1.1 in
           (stagehand_extract b query lw).2
           = (reply.2, lw1.2 ++ [(OpExtraction messages, settled reply.1)])
           /\ text
              = match reply.1 with
                | inl err =>
                    extraction_failed query ("GPT extraction failed: " +:+ err_message err)
                | inr completion =>
                    let content :=
                      match completion with
                      | Some msg => default "" (content msg)
                      | None => ""
                      end in
                    trim (if negb (String.eqb content "") then content
                          else "No content extracted")
                end
       end.
Proof.
  unfold stagehand_extract, catch, and_then.
  destruct (getIntelligentPageContent b lw) as [[err|pageContent] lw1] eqn:Econtent.
  - eexists. split; [done|]. split_and!; [done..|].
    unfold getIntelligentPageContent in Econtent.
    apply (f_equal fst), rethrow_rejects in Econtent as [cause ->]. by eexists.
  - unfold intelligentExtract, rethrow, catch, and_then. cbv zeta. rewrite logged_run.
    destruct (extraction_completion b _ lw1.1) as [[err|completion] w2]; cbn [fst snd];
      eexists; split; done.
Qed.

End ExtractFacts.

(** X20: a failed extraction is reported as the result of the task.  When
    the most recent Extract step of the plan was answered with the text
    for a failed extraction, and the query holds no closing bracket, the
    result synthesizer strips the prefix [EXTRACTED("query") =>] and
    returns the rest, ["(extraction failed: m)"] in its quote marks, as
    the final output, unless the message happens to hold the not-found
    marker. *)
Theorem failed_extraction_is_the_final_output before step after outputs query msg :
  name step = extract ->
  Forall (fun step' => name step' <> extract) after ->
  outputs !! length before = Some (extraction_failed query msg) ->
  includes ")" query = false ->
  includes "(not found" msg = false ->
  extractFinalOutput (before ++ step :: after) outputs
  = Ok (String Json.dquote ("(extraction failed: " +:+ msg +:+ ")" +:+ String Json.dquote "")).
Proof.
  intros Hstep Hafter Hout Hq Hmsg.
  rewrite (extractFinalOutput_last _ _ _ _ Hstep Hafter), Hout.
  rewrite clean_extraction_failed by done.
  unfold qualifies. rewrite length_quoted.
  assert (includes "(not found"
            (String Json.dquote ("(extraction failed: " +:+ msg +:+ ")" +:+ String Json.dquote ""))
          = false) as ->.
  { change (String Json.dquote ("(extraction failed: " +:+ msg +:+ ")" +:+ String Json.dquote ""))
      with (String Json.dquote "(extraction failed: " +:+ (msg +:+ String ")" (String Json.dquote ""))).
    rewrite !append_cons, append_nil_l.
    repeat (rewrite includes_cons; cbn [startsWith Ascii.eqb Bool.eqb orb]).
    by rewrite includes_app_other. }
  cbn [String.length negb andb]. 
  by destruct (Nat.ltb_spec 10 (20 + String.length msg + 3)); [|lia].
Qed.

(** ** Hyphens in a slug *)

Lemma no_pair_tail p c s : no_pair p (String c s) = true -> no_pair p s = true.
Proof.
  destruct s as [|d s]; [done|].
  change (no_pair p (String c (String d s)))
    with (negb (p c && p d) && no_pair p (String d s)).
  by intros [_ ?]%andb_prop.
Qed.

Lemma no_pair_head p c d s :
  no_pair p (String c (String d s)) = true -> p c = true -> p d = false.
Proof.
  change (no_pair p (String c (String d s)))
    with (negb (p c && p d) && no_pair p (String d s)).
  intros [H _]%andb_prop Hc. rewrite Hc in H. by destruct (p d).
Qed.

Lemma no_pair_impl (p q : ascii -> bool) s :
  (forall c, q c = true -> p c = true) -> no_pair p s = true -> no_pair q s = true.
Proof.
  intros Hqp. induction s as [|c s IH]; [done|]. intros H.
  pose proof (no_pair_tail _ _ _ H) as Ht. specialize (IH Ht).
  destruct s as [|d s]; [done|].
  change (no_pair q (String c (String d s)))
    with (negb (q c && q d) && no_pair q (String d s)).
  rewrite IH, andb_true_r.
  destruct (q c) eqn:Hc; [|done]. destruct (q d) eqn:Hd; [|done].
  pose proof (Hqp _ Hd) as Hpd.
  by rewrite (no_pair_head p c d s H (Hqp _ Hc)) in Hpd.
Qed.

Lemma no_pair_includes p x y s :
  no_pair p s = true -> p x = true -> p y = true ->
  includes (String x (String y "")) s = false.
Proof.
  intros Hs Hx Hy. induction s as [|c s IH]; [done|].
  rewrite includes_cons, (IH (no_pair_tail _ _ _ Hs)), orb_false_r.
  cbn [startsWith]. destruct (Ascii.eqb_spec x c) as [<-|]; [|done].
  destruct s as [|d s]; [done|].
  destruct (Ascii.eqb_spec y d) as [<-|]; [|done].
  by rewrite (no_pair_head p x y s Hs Hx) in Hy.
Qed.

(** One attempt of [/^-+|-+$/] on a text in which no two hyphens stand
    side by side. *)
Lemma match_edge_dashes pos s :
  no_pair (Ascii.eqb "-") s = true ->
  match_at re_edge_dashes pos s
  = match s with
    | String c s' =>
        if Ascii.eqb "-" c then
          if Nat.eqb pos 0 then Some (S pos, s', [])
          else match s' with
               | EmptyString => Some (S pos, s', [])
               | String _ _ => None
               end
        else None
    | EmptyString => None
    end.
Proof.
  intros Hs. unfold match_at, re_edge_dashes.
  rewrite rmatch_alt, rmatch_seq.
  change (rmatch RBol pos s [] ?k) with (if Nat.eqb pos 0 then k pos s [] else None).
  rewrite rmatch_seq. unfold chr. rewrite !rmatch_plus_chars.
  destruct s as [|c s]; [by destruct (Nat.eqb pos 0)|].
  destruct (Ascii.eqb "-" c) eqn:Hc; [|by destruct (Nat.eqb pos 0)].
  destruct s as [|d s]; [by destruct (Nat.eqb pos 0)|].
  cbn [greedy_chars]. rewrite (no_pair_head _ _ _ _ Hs Hc). cbn [rmatch].
  by destruct (Nat.eqb pos 0).
Qed.

(** [/^-+|-+$/g] past the start of such a text: the hyphen at the end
    goes. *)
Lemma edge_dashes_later s : forall pos,
  0 < pos -> no_pair (Ascii.eqb "-") s = true ->
  replace_all_from re_edge_dashes "" 0 pos s = strip_last_dash s.
Proof.
  induction s as [|c s IH]; intros pos Hpos Hs.
  - cbn [replace_all_from strip_last_dash]. by rewrite match_edge_dashes.
  - cbn [replace_all_from]. rewrite match_edge_dashes by done.
    destruct (Nat.eqb_spec pos 0) as [|_]; [lia|].
    pose proof (IH (S pos) ltac:(lia) (no_pair_tail _ _ _ Hs)) as IH'.
    cbn [strip_last_dash].
    destruct (Ascii.eqb "-" c) eqn:Hc.
    + destruct s as [|d s].
      * destruct (Nat.eqb_spec (S pos) pos) as [|_]; [lia|].
        replace (S pos - pos - 1) with 0 by lia.
        cbn [replace_all_from]. by rewrite match_edge_dashes.
      * by rewrite IH'.
    + rewrite IH'. by destruct s.
Qed.

(** The same from the start of the text: the hyphen at the start goes as
    well. *)
Lemma edge_dashes s :
  no_pair (Ascii.eqb "-") s = true ->
  replace_all re_edge_dashes "" s = strip_last_dash (strip_first_dash s).
Proof.
  intros Hs. unfold replace_all. destruct s as [|c s].
  - cbn [replace_all_from]. by rewrite match_edge_dashes.
  - cbn [replace_all_from strip_first_dash]. rewrite match_edge_dashes by done.
    pose proof (edge_dashes_later s 1 ltac:(lia) (no_pair_tail _ _ _ Hs)) as Hlater.
    destruct (Ascii.eqb "-" c) eqn:Hc.
    + cbn [Nat.eqb Nat.sub]. by rewrite Hlater.
    + rewrite Hlater. cbn [strip_last_dash]. rewrite Hc. by destruct s.
Qed.

Lemma strip_last_dash_prefix s : exists t, s = strip_last_dash s +:+ t.
Proof.
  induction s as [|c s [t IH]]; [by exists ""|].
  cbn [strip_last_dash]. destruct s as [|d s].
  - destruct (Ascii.eqb "-" c); [by exists (String c "")|by exists ""].
  - exists t. change (String c ?a +:+ t) with (String c (a +:+ t)). by rewrite <- IH.
Qed.

Lemma strip_last_dash_empty s :
  strip_last_dash s = "" -> s = "" \/ s = "-".
Proof.
  destruct s as [|c [|d s]]; cbn [strip_last_dash]; [by left| |done].
  destruct (Ascii.eqb_spec "-" c) as [<-|]; [by right|done].
Qed.

Lemma append_dash_inv a c t :
  String c t = a +:+ "-" ->
  (a = "" /\ c = "-"%char /\ t = "") \/ exists a', a = String c a' /\ t = a' +:+ "-".
Proof.
  destruct a as [|x a]; [intros [= -> ->]; by left|].
  intros [= -> ->]. right. by eexists.
Qed.

Lemma strip_last_dash_end s : forall a,
  no_pair (Ascii.eqb "-") s = true -> strip_last_dash s <> a +:+ "-".
Proof.
  induction s as [|c s IH]; intros a Hs; [by destruct a|].
  cbn [strip_last_dash]. destruct s as [|d s].
  - destruct (Ascii.eqb_spec "-" c) as [<-|Hc]; [by destruct a|].
    intros [(_ & Hc' & _)|(a' & _ & H)]%append_dash_inv; [by subst|by destruct a'].
  - intros [(_ & Hc' & H)|(a' & _ & H)]%append_dash_inv.
    + subst c. apply strip_last_dash_empty in H as [H|H]; [done|].
      injection H as -> ->.
      by pose proof (no_pair_head _ _ _ _ Hs eq_refl).
    + by apply (IH a' (no_pair_tail _ _ _ Hs)).
Qed.

Lemma strip_last_dash_fixed s :
  (forall a, s <> a +:+ "-") -> strip_last_dash s = s.
Proof.
  induction s as [|c s IH]; intros Hs; [done|].
  cbn [strip_last_dash]. destruct s as [|d s].
  - destruct (Ascii.eqb_spec "-" c) as [<-|]; [|done]. by destruct (Hs "").
  - f_equal. apply IH. intros a Ha. apply (Hs (String c a)).
    change (String c a +:+ "-") with (String c (a +:+ "-")). by rewrite <- Ha.
Qed.

Lemma strip_last_dash_head s :
  startsWith "-" s = false -> startsWith "-" (strip_last_dash s) = false.
Proof.
  destruct s as [|c [|d s]]; cbn [strip_last_dash]; [done| |done].
  destruct (Ascii.eqb "-" c) eqn:Hc; [done|]. cbn [startsWith]. by rewrite Hc.
Qed.

Lemma slug_or_dash_non_slug c :
  slug_or_dash c = true -> negb (slug_char c) = Ascii.eqb "-" c.
Proof.
  unfold slug_or_dash. rewrite (Ascii.eqb_sym c).
  destruct (Ascii.eqb_spec "-" c) as [<-|]; [done|].
  rewrite orb_false_r. by intros ->.
Qed.

Lemma slice0_length_short n s :
  String.length (slice0 n s) < n -> slice0 n s = s.
Proof.
  revert s. induction n as [|n IH]; intros s H; [cbn in H; lia|].
  destruct s as [|c s]; [done|]. cbn [slice0 String.length] in *.
  f_equal. apply IH. lia.
Qed.

(** The text between the replacement of the other characters and the
    cut. *)
Lemma slugify_len_squeeze input maxLen :
  let hyphened :=
    squeeze (fun c => negb (slug_char c)) "-" false
      (replace_all re_protocol "" (toLowerCase input)) in
  str_all slug_or_dash hyphened = true
  /\ no_pair (Ascii.eqb "-") hyphened = true
  /\ slugify_len input maxLen
     = slice0 maxLen (strip_last_dash (strip_first_dash hyphened)).
Proof.
  intros hyphened.
  assert (Hno : no_pair (Ascii.eqb "-") hyphened = true).
  { apply (no_pair_impl (fun c => negb (slug_char c))).
    - intros c <-%Ascii.eqb_eq. done.
    - by apply squeeze_no_pair. }
  assert (Hsq : replace_all re_non_slug "-" (replace_all re_protocol "" (toLowerCase input))
                = hyphened) by apply replace_all_squeeze.
  split_and!; [|done|].
  - rewrite <- Hsq. apply replace_non_slug_all.
  - unfold slugify_len. by rewrite Hsq, edge_dashes.
Qed.

Lemma slug_lower s : str_all slug_or_dash s = true -> toLowerCase s = s.
Proof.
  induction s as [|c s IH]; [done|]. cbn [str_all toLowerCase].
  intros [Hc Hs]%andb_prop. rewrite IH by done. f_equal.
  apply slug_or_dash_spec in Hc. unfold lower_char.
  assert (between 65 90 c = false) as ->.
  { unfold between. apply andb_false_iff.
    destruct Hc as [Hc|[Hc| ->]]; [right|left|by left]; apply N.leb_gt; lia. }
  assert (between 192 222 c = false) as ->; [|done].
  unfold between. apply andb_false_iff. left.
  destruct Hc as [Hc|[Hc| ->]]; [| |done]; apply N.leb_gt; lia.
Qed.

Lemma slug_no_colon s : str_all slug_or_dash s = true -> startsWith "://" s = false.
Proof.
  destruct s as [|c s]; [done|]. cbn [str_all startsWith].
  destruct (Ascii.eqb_spec ":" c) as [<-|]; [|done]. done.
Qed.

Lemma str_all_drop p n s : str_all p s = true -> str_all p (drop n s) = true.
Proof.
  revert s. induction n as [|n IH]; intros s Hs; [by destruct s|].
  destruct s as [|c s]; [done|]. cbn [drop]. apply IH.
  cbn in Hs. by apply andb_prop in Hs as [_ ?].
Qed.

Lemma protocol_needs_colon s pos :
  str_all slug_or_dash s = true -> match_at re_protocol pos s = None.
Proof.
  intros Hs. unfold match_at, re_protocol. rewrite rmatch_seq, rmatch_lit.
  destruct (startsWith "http" s); [|done].
  pose proof (str_all_drop _ (String.length "http") _ Hs) as Hrest.
  destruct (drop (String.length "http") s) as [|c rest].
  - by cbn.
  - rewrite rmatch_seq. unfold opt. rewrite rmatch_alt. unfold chr.
    rewrite rmatch_char. cbn [rmatch].
    rewrite !rmatch_lit, (slug_no_colon _ Hrest).
    cbn in Hrest. apply andb_prop in Hrest as [_ Hrest].
    rewrite (slug_no_colon _ Hrest). by destruct (Ascii.eqb "s" c).
Qed.

Lemma squeeze_fixed s : forall inside,
  str_all slug_or_dash s = true ->
  no_pair (Ascii.eqb "-") s = true ->
  (inside = true -> startsWith "-" s = false) ->
  squeeze (fun c => negb (slug_char c)) "-" inside s = s.
Proof.
  induction s as [|c s IH]; intros inside Hs Hno Hin; [done|].
  cbn [str_all] in Hs. apply andb_prop in Hs as [Hc Hs].
  cbn [squeeze]. rewrite (slug_or_dash_non_slug c Hc).
  destruct (Ascii.eqb_spec "-" c) as [<-|Hne].
  - destruct inside; [by specialize (Hin eq_refl)|].
    change ("-" +:+ ?x) with (String "-" x). f_equal.
    apply IH; [done|by apply (no_pair_tail _ "-")|]. intros _.
    destruct s as [|d s]; [done|]. cbn [startsWith].
    by rewrite (no_pair_head _ _ _ _ Hno eq_refl).
  - f_equal. apply IH; [done|by apply (no_pair_tail _ c)|done].
Qed.

(** X21: in a slug, hyphens only separate.  For every input, the slug
    holds no two hyphens side by side and does not start with a hyphen;
    and a slug of fewer than 60 characters, one that was not cut, does not
    end with a hyphen either, and [slugify] leaves it as it is.  A slug
    that was cut at 60 characters may end with a hyphen. *)
Theorem slugify_hyphens_separate input :
  let slug := slugify input in
  includes "--" slug = false
  /\ startsWith "-" slug = false
  /\ (String.length slug < 60 ->
      (forall a, slug <> a +:+ "-") /\ slugify slug = slug).
Proof.
  intros slug.
  destruct (slugify_len_squeeze input 60) as (Hchars & Hno & Hslug).
  set (hyphened := squeeze _ _ _ _) in *.
  fold (slugify input) in Hslug. fold slug in Hslug.
  set (inner := strip_first_dash hyphened) in *.
  assert (Hinner : no_pair (Ascii.eqb "-") inner = true).
  { subst inner. destruct hyphened as [|c h]; [done|]. cbn [strip_first_dash].
    destruct (Ascii.eqb "-" c); [by apply (no_pair_tail _ c)|done]. }
  assert (Hhead : startsWith "-" inner = false).
  { subst inner. destruct hyphened as [|c h]; [done|]. cbn [strip_first_dash].
    destruct (Ascii.eqb "-" c) eqn:Hc; [|by cbn [startsWith]; rewrite Hc].
    destruct h as [|d h]; [done|]. cbn [startsWith].
    by rewrite (no_pair_head _ _ _ _ Hno Hc). }
  destruct (strip_last_dash_prefix inner) as [t Ht].
  assert (Hstrip : no_pair (Ascii.eqb "-") (strip_last_dash inner) = true).
  { apply (no_pair_app_l _ _ t). by rewrite <- Ht. }
  assert (Hpair : no_pair (Ascii.eqb "-") slug = true).
  { apply (no_pair_app_l _ _ (drop 60 (strip_last_dash inner))).
    by rewrite Hslug, <- slice0_prefix. }
  assert (Hstart : startsWith "-" slug = false).
  { rewrite Hslug. pose proof (strip_last_dash_head _ Hhead) as H.
    by destruct (strip_last_dash inner). }
  split_and!; [by apply (no_pair_includes (Ascii.eqb "-"))|done|].
  intros Hlen.
  assert (Hwhole : slug = strip_last_dash inner).
  { rewrite Hslug. apply slice0_length_short. by rewrite <- Hslug. }
  assert (Hend : forall a, slug <> a +:+ "-").
  { intros a. rewrite Hwhole. by apply strip_last_dash_end. }
  split; [done|].
  assert (Hall : str_all slug_or_dash slug = true) by apply slugify_len_chars.
  change (slugify slug) with (slugify_len slug 60).
  destruct (slugify_len_squeeze slug 60) as (_ & _ & ->).
  rewrite (slug_lower _ Hall).
  assert (replace_all re_protocol "" slug = slug) as ->.
  { apply replace_all_nowhere. intros a1 a2 pos' Hsplit.
    apply protocol_needs_colon, (str_all_app_r _ a1). by rewrite <- Hsplit. }
  rewrite squeeze_fixed by done.
  assert (strip_first_dash slug = slug) as ->.
  { destruct slug as [|c s]; [done|]. cbn [strip_first_dash].
    cbn [startsWith] in Hstart. by destruct (Ascii.eqb "-" c). }
  rewrite strip_last_dash_fixed by done.
  apply slice0_short. lia.
Qed.

(** ** [observe] and [act]: which failures are told *)

Section SwallowFacts.

Context {W : Type}.
Variable b : Browser W.

Lemma resolve_last_call {A} (a : A) :
  rejects_with_its_last_call (resolve (W := Logged W) a).
Proof. intros lw. exists []. unfold resolve. cbn [fst snd]. by rewrite app_nil_r. Qed.

Lemma logged_last_call {R} op (call : W -> (JsError + R) * W) :
  propagates op = true -> rejects_with_its_last_call (logged op call).
Proof.
  intros Hop lw. rewrite logged_run. cbn [fst snd]. eexists. split; [done|].
  destruct (call lw.1).1 as [err|r]; cbn [settled].
  - by exists [], op.
  - constructor; [|constructor]. unfold went_well. cbn [fst snd]. by rewrite Hop.
Qed.

Lemma recover_last_call {R} (a : R) op (call : W -> (JsError + R) * W) :
  propagates op = false -> rejects_with_its_last_call (recover a (logged op call)).
Proof.
  intros Hop lw. unfold recover, catch. rewrite logged_run.
  exists [(op, settled (call lw.1).1)].
  destruct (call lw.1).1 as [err|r]; cbn [fst snd resolve settled];
    (split; [done|]); (constructor; [|constructor]); unfold went_well; cbn [fst snd];
    by rewrite Hop.
Qed.

Lemma and_then_last_call {A B} (m : Promise (Logged W) A) (f : A -> Promise (Logged W) B) :
  rejects_with_its_last_call m ->
  (forall a, rejects_with_its_last_call (f a)) ->
  rejects_with_its_last_call (and_then m f).
Proof.
  intros Hm Hf lw. unfold and_then.
  destruct (Hm lw) as (new1 & Hlog1 & H1).
  destruct (m lw) as [[err|a] lw1]; cbn [fst snd] in *.
  - by exists new1.
  - destruct (Hf a lw1) as (new2 & Hlog2 & H2).
    exists (new1 ++ new2). split; [by rewrite Hlog2, Hlog1, app_assoc|].
    destruct (f a lw1).1 as [err|r].
    + destruct H2 as (earlier & op & -> & Hop & Hearlier).
      exists (new1 ++ earlier), op. split_and!; [by rewrite app_assoc|done|].
      by apply Forall_app.
    + by apply Forall_app.
Qed.

Lemma stagehand_observe_last_call query :
  rejects_with_its_last_call (stagehand_observe b query).
Proof.
  unfold stagehand_observe.
  repeat first
    [ apply resolve_last_call
    | apply logged_last_call; reflexivity
    | apply recover_last_call; reflexivity
    | apply and_then_last_call; [|intros ?]
    | match goal with
      | |- rejects_with_its_last_call (if ?c then _ else _) => destruct c
      end ].
Qed.

Lemma stagehand_act_last_call query :
  rejects_with_its_last_call (stagehand_act b query).
Proof.
  unfold stagehand_act.
  repeat first
    [ apply resolve_last_call
    | apply logged_last_call; reflexivity
    | apply recover_last_call; reflexivity
    | apply and_then_last_call; [|intros ?]
    | match goal with
      | |- rejects_with_its_last_call (if ?c then _ else _) => destruct c
      | |- rejects_with_its_last_call (match ?c with _ => _ end) => destruct c
      end ].
Qed.

(** X22: [observe] and [act] tell a failure only of a navigation, of the
    wait for the page or of the counting of elements.  When one of these
    calls is rejected, the provider is rejected and makes no further call.
    The rejection of any other call, filling the search box, pressing
    Enter, clicking, reading a heading or asking for visibility, is
    swallowed: the provider resolves, so answers such as [TYPED(...)],
    [PRESSED_ENTER] or [CLICKED_BTNK] do not say that the action took
    place. *)
Theorem observe_and_act_swallow_failures name query (lw : Logged W) :
  name <> extract ->
  let answer := createStagehandImplementation b name query lw in
  exists new,
    answer.2.2 = lw.2 ++ new
    /\ match answer.1 with
       | inl _ =>
           exists earlier op,
             new = earlier ++ [(op, false)] /\ propagates op = true
             /\ Forall (fun entry => went_well entry = true) earlier
       | inr _ => Forall (fun entry => went_well entry = true) new
       end.
Proof.
  intros Hname. destruct name; cbn [createStagehandImplementation]; [|done|].
  - apply stagehand_observe_last_call.
  - apply stagehand_act_last_call.
Qed.

End SwallowFacts.

(** ** The further theorems at concrete inputs *)

(** X1 at a reply whose first call hands in the empty plan and whose
    second call would navigate. *)
Lemma finalize_plan_ends_the_reply_empty :
  let later := tool_call "call_10" "act" "google.com" in
  handleToolCalls quiet ([] ++ finalize_empty :: [later]) (session "t") (start [])
  = handleToolCalls quiet ([] ++ [finalize_empty]) (session "t") (start []).
Proof.
  intros later.
  apply (proj1 (finalize_plan_ends_the_reply quiet finalize_empty eq_refl)).
Defined.

(** X2 at a reply with an Observe call and an Act call. *)
Lemma every_tool_call_is_answered_pair :
  let c1 := tool_call "call_1" "observe" "results list" in
  let c2 := tool_call "call_2" "act" "click the first result" in
  let v := session "open the first result" in
  let st := start [calls [c1; c2]] in
  let r := match (plan_round quiet v st).1 with Ok r => r | Throw _ => Continue v end in
  exists replies,
    messages (vars_of r) = messages v ++ AssistantCalls [c1; c2] :: replies
    /\ match r with
       | Continue _ => Forall2 tool_reply_to [c1; c2] replies
       | Finalized _ _ =>
           exists n fin,
             [c1; c2] !! n = Some fin /\ fn_name fin = Some "finalize_plan"
             /\ Forall2 tool_reply_to (take (S n) [c1; c2]) replies
       end.
Proof.
  intros c1 c2 v st r.
  apply (every_tool_call_is_answered quiet v st (calls [c1; c2]) [c1; c2] r
           (plan_round quiet v st).2).
  - reflexivity.
  - reflexivity.
  - discriminate.
  - reflexivity.
Defined.

(** X3 at an Observe call whose query is the number 5, in a session that
    has observed the string [5]: the call is answered from the cache, with
    the payload of the call of the provider for the string. *)
Lemma tool_results_come_from_the_provider_number :
  let tc := {| tc_id := "call_2"; fn_name := Some "observe";
               fn_arguments := Some ("{" +:+ Json.quote "query" +:+ ":5}") |} in
  let earlier := EvInvoke observe "5" (inr "observe of 5") in
  let v := {| messages := messages (session "read the results");
              cache := {[ cache_key "observe" "5" := "observe of 5" ]};
              clearCacheBeforeNextRead := false |} in
  let st := {| world := []; trace := [earlier] |} in
  handleToolCall quiet tc v st
  = (Ok (Continue (push (ToolMsg "call_2" "observe" "observe of 5") v)), st)
  /\ exists asked reply,
       query_text quiet asked = "5"
       /\ (observe, asked, reply) ∈ provider_calls [earlier]
       /\ messages (push (ToolMsg "call_2" "observe" "observe of 5") v)
          = messages v ++ [ToolMsg "call_2" "observe" (payload reply)]
       /\ (observe = act ->
           asked = JNum 5 0
           /\ [earlier] = [earlier] ++ [provider_event act (JNum 5 0) reply]).
Proof.
  intros tc earlier v st. split; [reflexivity|].
  refine (proj2 (proj1 (proj2 (proj2 (tool_results_come_from_the_provider quiet)))
            tc observe (JNum 5 0) v st
            (Continue (push (ToolMsg "call_2" "observe" "observe of 5") v)) st _ _ _)).
  - intros key hit Hhit. subst v. cbn [cache] in Hhit.
    apply lookup_singleton_Some in Hhit as [<- <-].
    exists observe, (JStr "5"), (inr "observe of 5").
    split_and!; [reflexivity|reflexivity|by apply list_elem_of_singleton|reflexivity].
  - split; [reflexivity|]. eexists. split; reflexivity.
  - reflexivity.
Defined.

(** X7 at the plan of three steps. *)
Lemma validatePlan_accepts_its_results_search :
  validatePlan (plan_value search_plan) = Ok search_plan.
Proof.
  apply (proj1 validatePlan_accepts_its_results search_plan).
  repeat constructor; discriminate.
Defined.

(** X8 at the plan of three steps and its three outputs. *)
Lemma extractFinalOutput_total_search :
  exists text,
    extractFinalOutput search_plan
      ["NAVIGATED(https://google.com)"; "Observed: wait for results"; "Example Domain"]
    = Ok text.
Proof.
  apply (proj1 (extractFinalOutput_total search_plan
           ["NAVIGATED(https://google.com)"; "Observed: wait for results";
            "Example Domain"])).
  simpl. lia.
Defined.

(** X9 at the plan of three steps whose Extract step fails. *)
Lemma failed_extract_is_the_final_output_timeout :
  let err := {| err_name := "Error"; err_message := "Timeout 30000ms exceeded" |} in
  extractFinalOutput search_plan
    ["NAVIGATED(https://google.com)"; "Observed: wait for results"; payload (inl err)]
  = Ok (Json.stringify_field "error" "Timeout 30000ms exceeded").
Proof.
  intros err.
  apply (proj2 (failed_extract_is_the_final_output
           [ {| name := act; query := "google.com" |};
             {| name := observe; query := "wait for results" |} ]
           {| name := extract; query := "top heading" |} []
           ["NAVIGATED(https://google.com)"; "Observed: wait for results";
            payload (inl err)]
           err eq_refl (Forall_nil_2 _) eq_refl eq_refl)).
Defined.

(** X10 at an Extract call without arguments. *)
Lemma tool_call_query_no_arguments :
  is_call {| tc_id := "call_1"; fn_name := Some "Extract"; fn_arguments := None |}
    extract "".
Proof.
  apply (proj1 (proj2 (tool_call_query quiet
           {| tc_id := "call_1"; fn_name := Some "Extract"; fn_arguments := None |}
           extract eq_refl))).
  by left.
Defined.

(** X11 at a reply that wraps the plan in a sentence and a fence. *)
Lemma safeParsePlan_finds_the_fence_sentence :
  safeParsePlan ("Here is the plan: ```JSON {" +:+ Json.quote "plan" +:+ ":[]} ``` Done.")
  = Ok (JObj [("plan", JArr [])]).
Proof.
  apply (proj1 safeParsePlan_finds_the_fence "Here is the plan: " "JSON" " "
           ("{" +:+ Json.quote "plan" +:+ ":[]}") " " " Done."
           (JObj [("plan", JArr [])]));
    try reflexivity.
  by right.
Defined.

(** X12 at a text of two lines with indentation. *)
Lemma tidy_content_is_tidy_lines :
  let text := "  Example Domain" +:+ String newline (String newline "   More  information... ") in
  tidy_content text = "Example Domain More information..."
  /\ stops is_space (str_rev (tidy_content text)).
Proof.
  intros text. split; [reflexivity|].
  apply (proj2 (proj2 (proj2 (proj2 (proj2 (proj2 (tidy_content_is_tidy text))))))).
  vm_compute. lia.
Defined.

(** X15 at an environment without the variable. *)
Lemma executeWebTask_without_api_key_unset :
  exists text st',
    executeWebTask (blank_browser None) join_slash "system" (fun task => task)
      v8_message (fun _ => "") "open example.com" fresh
    = (Ok (failed_result text), st')
    /\ trace st' = trace fresh
    /\ log_of st' = log_of fresh ++ [(OpNewClient None, true)]
    /\ (true = true -> text = "OPENAI_API_KEY environment variable is required").
Proof.
  apply (executeWebTask_without_api_key (blank_browser None) join_slash "system"
           (fun task => task) v8_message (fun _ => "") "open example.com" fresh).
  by left.
Defined.

(** X17 at the first step of the plan of three steps. *)
Lemma act_navigates_with_a_protocol_google :
  navMatch "google.com" = Some "google.com"
  /\ (stagehand_act (blank_browser None) "google.com" ((), [])).2.2
     = [] ++ [(OpGoto "https://google.com", true)].
Proof.
  apply (proj2 (act_navigates_with_a_protocol (blank_browser None) "google.com" ((), []))).
  exists "google", "com". by split_and!; [..|cbn; lia].
Defined.

(** X18 at two steps of a search, which leave the page as it is. *)
Lemma plain_queries_are_echoed_search :
  stagehand_observe (blank_browser None) "wait until the search results page loads" ((), [])
  = (inr "Observed: wait until the search results page loads", ((), []))
  /\ stagehand_act (blank_browser None) "type OpenAI in the search box" ((), [])
     = (inr ("ACTION_OK(" +:+ String Json.dquote "type OpenAI in the search box"
             +:+ String Json.dquote ")"), ((), [])).
Proof.
  split.
  - apply (proj1 (plain_queries_are_echoed (blank_browser None)
                    "wait until the search results page loads" ((), []))).
    reflexivity.
  - apply (proj2 (plain_queries_are_echoed (blank_browser None)
                    "type OpenAI in the search box" ((), []))).
    reflexivity.
Defined.

(** X20 at the plan of three steps whose extraction the model did not
    answer. *)
Lemma failed_extraction_is_the_final_output_rate_limit :
  extractFinalOutput search_plan
    ["NAVIGATED(https://google.com)"; "Observed: wait for results";
     extraction_failed "top heading" "GPT extraction failed: 429 Too Many Requests"]
  = Ok (String Json.dquote
          ("(extraction failed: " +:+ "GPT extraction failed: 429 Too Many Requests"
           +:+ ")" +:+ String Json.dquote "")).
Proof.
  apply (failed_extraction_is_the_final_output
           [ {| name := act; query := "google.com" |};
             {| name := observe; query := "wait for results" |} ]
           {| name := extract; query := "top heading" |} []
           ["NAVIGATED(https://google.com)"; "Observed: wait for results";
            extraction_failed "top heading" "GPT extraction failed: 429 Too Many Requests"]
           "top heading" "GPT extraction failed: 429 Too Many Requests");
    (reflexivity || constructor).
Defined.

(** X21 at a query with capitals, an address and punctuation. *)
Lemma slugify_hyphens_separate_query :
  (forall a, slugify "Go to https://Example.com, then search!" <> a +:+ "-")
  /\ slugify (slugify "Go to https://Example.com, then search!")
     = slugify "Go to https://Example.com, then search!".
Proof.
  apply (proj2 (proj2 (slugify_hyphens_separate "Go to https://Example.com, then search!"))).
  vm_compute. lia.
Defined.

(** X22 at a page whose search box does not react: the key press is
    rejected and [act] resolves. *)
Lemma observe_and_act_swallow_failures_enter :
  let box := locator ("input[name=" +:+ String Json.dquote "q" +:+ String Json.dquote "]") in
  let answer :=
    createStagehandImplementation unresponsive_browser act "click search button" ((), []) in
  answer = (inr "PRESSED_ENTER", ((), [(OpCount box, true); (OpPress box "Enter", false)]))
  /\ exists new,
       answer.2.2 = [] ++ new
       /\ match answer.1 with
          | inl _ =>
              exists earlier op,
                new = earlier ++ [(op, false)] /\ propagates op = true
                /\ Forall (fun entry => went_well entry = true) earlier
          | inr _ => Forall (fun entry => went_well entry = true) new
          end.
Proof.
  split; [reflexivity|].
  apply (observe_and_act_swallow_failures unresponsive_browser act
           "click search button" ((), [])).
  discriminate.
Defined.
